(* ===== verification/_CoqProject ===== *)
-Q . S2P
Prelude.v
Bytes.v
Policy.v
Admin.v
Receipt.v
Lifecycle.v
LifecycleSafety.v
Reduction.v
Deadline.v
Serial.v
Terminal.v
SignedInput.v
Launch.v
Boot.v
Ipc.v
Wp.v
Servers.v
Authority.v
System.v
Console.v
Demonstration.v
AdminIpc.v
AdminServers.v
GuestBoot.v
AdminSystem.v
SerialServer.v
TerminalServer.v
TerminalSession.v
TerminalRun.v
TerminalSystem.v
Posix.v
Operator.v
OperatorArgs.v
OperatorFiles.v
OperatorRun.v
OperatorHost.v
OperatorChecks.v
OperatorVetting.v
OperatorMain.v
EndToEnd.v
