(* ===== verification/Prelude.v ===== *)
(** Verification of TCS, a small capability-style system for seL4/Microkit, and
    of the host tool that administers it.

    * The program and where it is modelled

    The guest is a set of protection domains that call each other over fixed
    channels ([src/system/*.system]) and share no memory. Each domain is a C file
    of [src/servers/] over state machines in [src/lib/] and [src/include/tcs/].

    The core, as pure functions on records, one definition per C function, with
    [option] for pointers the code compares with NULL and 64-bit arithmetic
    wrapped where the code can wrap:
    - Policy: lib/policy.c, the authorization policy: four subjects with a state,
      a generation, an object and rights; apply, commit, self-status.
    - Admin: lib/admin.c, signed packets: encoding, admission, completion.
    - Receipt: lib/admin_policy.c and lib/admin_receipt.c, conditional execution
      and the check of its receipt.
    - Lifecycle and LifecycleSafety: lib/lifecycle.c, the two-slot owner of
      workers, and what follows from its contract.
    - Reduction: lib/reduction.c, the sticky latch that contains a worker and the
      mailbox that requests it.
    - Deadline: lib/deadline.c, lifetimes over the latch.
    - Serial: lib/serial.c, the receive ring of the UART driver.
    - Terminal: lib/terminal.c, the line editor and the command grammar.
    - SignedInput: lib/signed_input.c, the hexadecimal packet frame.
    - Launch: lib/launch.c, identity and launch records.
    - Boot: lib/boot.c, the scan of QEMU's firmware directory and the test
      context.

    The domains, as programs over their static state, their message registers and
    the rest of the system (Ipc: include/tcs/ipc.h and the kernel's calls; Wp: a
    weakest precondition for them):
    - Servers: servers/policy.c, audit.c, storage.c and client.c. Authority is
      their abstract contract; System wires them as system/tcs.system does.
    - Console: servers/console.c, the demonstration. Demonstration: the access
      rules as a monitor of its conversation, with whoever answers.
    - AdminIpc: include/tcs/admin_ipc.h. AdminServers: include/tcs/admin_server.h,
      servers/admin.c, launch_admin.c, launch_boot.c and admin_policy.c.
      AdminSystem wires the administrator, the conditional policy and the audit
      as system/interactive.system does; GuestBoot is the boot of that image.
    - SerialServer: servers/serial.c over device registers, every effect traced.
    - TerminalServer: servers/terminal.c, both builds. TerminalSession is the
      abstract session and the contract of a peer, TerminalRun the refinement,
      TerminalSystem the terminal wired to the driver (system/terminal.system).

    The host tool, tools/operator.c:
    - Posix: the system calls, a process as a tree of calls, all its runs, what a
      trace has done to files, and a program logic for that.
    - Operator: every function of the tool. OperatorArgs: what its arguments and
      records mean. OperatorFiles, OperatorRun: contracts of its file functions
      and of its commands. OperatorChecks: a logic of refusals. OperatorMain: the
      theorems about the process. OperatorHost: a host in memory on which the
      tool is run.
    - EndToEnd: a command from [sign] on the host to the policy in the guest.

    Prelude and Bytes hold machine integers, lists, byte buffers and the shared
    tactics; a definition keeps the name of the C function it translates.

    * What is shown

    - Authority. The seed system refines one contract over a policy and a log
      ([System.seed_refines_contract]): an object is disclosed exactly to the
      subject whose session allows it, every change of the policy is in the audit
      log, and replaying the log explains the policy. A revoked session never
      returns ([Policy.session_never_returns]). The console's demonstration passes
      only if its peers kept the access rules ([Demonstration]).
    - Administration. The live policy of the interactive image is the execution
      of the signed commands 1, 2, ... and of nothing else, whatever the terminal
      submits; a submission is all or nothing and never leaves the administrator
      busy ([AdminSystem]).
    - From end to end. The administrator starts as the launch says and otherwise
      admits nothing; a command the operator signed takes effect in the guest
      launched from the same context ([GuestBoot], [EndToEnd]).
    - The operator tool. In any run on any host: it stays within its command, the
      private record is read only after the matching approval, a guest is started
      only after its session was exclusively reserved, no directory or file is
      used before it was verified, success means the whole effect with nothing
      left open and no failed check, and it ends ([OperatorMain]).
    - Workers. The lifecycle refines its contract; a contained worker is never
      allowed again, a replacement needs evidence, a published reduction is
      enforced at the next poll, an expired lifetime is never admitted.
    - Input and output. The terminal refines an abstract session, stays within
      its channels, and its console shows faithfully what it sent; activations of
      the terminal and the driver are bounded; the ring is a queue with loss; the
      editor stays in its buffer; what is typed is what is parsed or submitted.
    - Formats. Launch records and packets decode to what was encoded, and only
      from it; a failed firmware read leaves only zeros.

    * Bounds and fuel

    A call between domains is delivered with fuel 4, the longest chain of
    channels (from the console or terminal to client, storage, policy and audit); the refinement theorems
    show that no delivery runs out. The terminal serves at most 32 characters per
    activation, hence 66 calls; the driver drains at most 64 characters per
    interrupt. Output is at most 256 bytes, a number has at most 20 digits, and
    those buffers are never exceeded. The loops of the tool that wait for the
    host (short transfers, interrupted calls, directory entries) have fuel; more
    than the bytes of the file plus the replies that make no progress is enough
    ([OperatorMain.operator_ends]); an image has at most 64 MiB.

    * What is not modelled, and what stands for it

    - Monocypher (third_party/): hash, key pair, signature and check are
      parameters; hypotheses are their documented sizes. The kernel, libmicrokit
      and the devices: a call transfers the words it counts, and the registers
      beyond a message hold anything; a UART or a firmware device is a parameter
      with its documented behaviour. The host: any reply its documentation
      allows, and a run may be cut short at any call.
    - Wiping of local buffers, freeing of memory beyond the call, and debug
      output: they have no effect the model observes. The fault-injection hooks
      of the tool's test build, tests/ and the test-only domains. The
      preprocessor checks of include/tcs/build_profile.h, beyond the values they
      select.
    - Atomicity: one operation of the reduction mailbox, and one call from a
      domain to another, is a single step; the UART may interrupt between calls
      of the terminal. A [char] is a byte from 0 to 255. Timing, scheduling and
      crashes of the host's storage are outside. *)

From Stdlib Require Export ZArith Lia Bool.
From stdpp Require Export base numbers list option decidable.

#[global] Open Scope Z_scope.

(** ** C data: fixed-width integers and nullable pointers *)

(** A pointer argument the code compares with NULL. *)
Abbreviation ptr := option (only parsing).
Abbreviation NULL := None (only parsing).

Definition UINT64_MAX : Z := 18446744073709551615.
Definition UINT8_MAX : Z := 255.

(** The values a [uint64_t] (resp. [uint8_t]) object can hold. *)
Definition u64 (z : Z) : Prop := 0 <= z <= UINT64_MAX.
Definition u8 (z : Z) : Prop := 0 <= z <= UINT8_MAX.

(** Conversion to an unsigned type wraps around. *)
Definition wrap64 (z : Z) : Z := z mod 2 ^ 64.
Definition wrap32 (z : Z) : Z := z mod 2 ^ 32.
Definition wrap16 (z : Z) : Z := z mod 2 ^ 16.
Definition wrap8 (z : Z) : Z := z mod 2 ^ 8.

(** A C scalar used as a condition. *)
Definition truthy (z : Z) : bool := negb (z =? 0).

(** [UINT64_C(1) << i]. *)
Definition bit (i : Z) : Z := Z.shiftl 1 i.

(** [~z] on a [uint64_t]. *)
Definition not64 (z : Z) : Z := wrap64 (Z.lnot z).

(** ** Automation *)

Create HintDb tcs discriminated.

(** Linear arithmetic over machine integers: opens the width bounds first. *)
Ltac word_lia := unfold u64, u8, truthy, UINT64_MAX, UINT8_MAX in *; lia.

(** Case analysis on the conditions of the code, recorded as equations. *)
Ltac split_if :=
  match goal with
  | |- context [if ?b then _ else _] => destruct b eqn:?
  | H : context [if ?b then _ else _] |- _ => destruct b eqn:?
  end.

(** Opens conjunctions of conditions known to hold or to fail. *)
Ltac bools :=
  repeat match goal with
  | H : _ || _ = false |- _ => apply orb_false_iff in H as [? ?]
  | H : _ && _ = true |- _ => apply andb_true_iff in H as [? ?]
  | H : negb _ = false |- _ => apply negb_false_iff in H
  | H : negb _ = true |- _ => apply negb_true_iff in H
  | H : (_ =? _) = true |- _ => apply Z.eqb_eq in H
  end.

(** Reads the result of a function that returns its state and a value. *)
Ltac inv_pair :=
  repeat match goal with
  | H : (_, _) = (_, _) |- _ => first [injection H as ? ? | injection H as ?]; subst
  | H : Some _ = Some _ |- _ => injection H as ?; subst
  | H : Some _ = None |- _ => discriminate H
  | H : None = Some _ |- _ => discriminate H
  end.

Lemma u64_range z : u64 z -> 0 <= z < 2 ^ 64.
Proof. word_lia. Qed.

Lemma wrap64_small z : u64 z -> wrap64 z = z.
Proof. intros ?%u64_range. by apply Z.mod_small. Qed.

Lemma wrap8_range z : u8 (wrap8 z).
Proof. unfold wrap8. pose proof (Z.mod_pos_bound z (2 ^ 8)). word_lia. Qed.

Lemma wrap64_range z : u64 (wrap64 z).
Proof. unfold wrap64. pose proof (Z.mod_pos_bound z (2 ^ 64)). word_lia. Qed.

#[export] Hint Resolve wrap8_range wrap64_range : tcs.

(** ** Bit sets *)

Lemma land_bit x i : 0 <= i -> truthy (Z.land x (bit i)) = Z.testbit x i.
Proof.
  intros Hi. unfold bit. rewrite Z.shiftl_1_l. unfold truthy.
  destruct (Z.testbit x i) eqn:Hb.
  - rewrite negb_true_iff, Z.eqb_neq. intros H0.
    assert (Hf : Z.testbit (Z.land x (2 ^ i)) i = false) by by rewrite H0, Z.bits_0.
    by rewrite Z.land_spec, Hb, Z.pow2_bits_true in Hf by done.
  - rewrite negb_false_iff, Z.eqb_eq. apply Z.bits_inj'. intros n Hn.
    rewrite Z.land_spec, Z.bits_0, Z.pow2_bits_eqb by done.
    destruct (i =? n) eqn:He; [apply Z.eqb_eq in He; subst; by rewrite Hb|apply andb_false_r].
Qed.

Lemma testbit_bit i j : 0 <= i -> Z.testbit (bit i) j = (i =? j).
Proof. intros Hi. unfold bit. rewrite Z.shiftl_1_l. by apply Z.pow2_bits_eqb. Qed.

(** A set of bits outside the low [k] is empty exactly for numbers below [2 ^ k]. *)
Lemma land_not_ones x k :
  u64 x -> 0 <= k <= 63 -> truthy (Z.land x (not64 (Z.ones k))) = (Z.ones k <? x).
Proof.
  intros Hx Hk. pose proof (u64_range x Hx) as Hr.
  assert (Hl : Z.land x (not64 (Z.ones k)) = Z.ldiff x (Z.ones k)).
  { apply Z.bits_inj'. intros n Hn. unfold not64, wrap64. rewrite Z.land_spec, Z.ldiff_spec.
    destruct (Z.lt_ge_cases n 64).
    - by rewrite Z.mod_pow2_bits_low, Z.lnot_spec by lia.
    - rewrite <- (Z.mod_small x (2 ^ 64)) by lia. by rewrite Z.mod_pow2_bits_high by lia. }
  rewrite Hl, Z.ldiff_ones_r, Z.shiftl_mul_pow2, Z.shiftr_div_pow2 by lia.
  rewrite Z.ones_equiv in *. pose proof (Z.div_mod x (2 ^ k)) as Hdm.
  pose proof (Z.pow_pos_nonneg 2 k ltac:(lia) ltac:(lia)) as Hp.
  pose proof (Z.mod_pos_bound x (2 ^ k) Hp). unfold truthy.
  destruct (x / 2 ^ k =? 0) eqn:Hq.
  - apply Z.eqb_eq in Hq. rewrite Hq in *.
    symmetry. simpl. apply Z.ltb_ge. rewrite Hdm by lia. lia.
  - assert (1 <= x / 2 ^ k) by (pose proof (Z.div_pos x (2 ^ k)); lia).
    rewrite (proj2 (Z.eqb_neq _ _)) by nia. symmetry. simpl. apply Z.ltb_lt.
    specialize (Hdm ltac:(lia)). nia.
Qed.

(** ** State machines driven by a sequence of events *)

Section Machine.
Context {S E : Type} (step : S -> E -> S).

(** The state after the events [es], in order. *)
Definition exec (s : S) (es : list E) : S := foldl step s es.

Lemma exec_app s es1 es2 : exec s (es1 ++ es2) = exec (exec s es1) es2.
Proof. apply foldl_app. Qed.

Lemma exec_cons s e es : exec s (e :: es) = exec (step s e) es.
Proof. reflexivity. Qed.

(** A predicate each admissible event keeps holds after any events. *)
Lemma exec_invariant (Q : E -> Prop) (P : S -> Prop) :
  (forall s e, Q e -> P s -> P (step s e)) ->
  forall es s, Forall Q es -> P s -> P (exec s es).
Proof.
  intros Hstep es. induction es as [|e es IH]; intros s HQ Hs; [done|].
  inversion HQ as [|? ? He HQ']; subst.
  rewrite exec_cons. eauto.
Qed.

(** A preorder each step respects (under an invariant) relates the two ends
    of any execution. *)
Lemma exec_preorder (Q : E -> Prop) (P : S -> Prop) (R : S -> S -> Prop) `{!PreOrder R} :
  (forall s e, Q e -> P s -> P (step s e)) ->
  (forall s e, Q e -> P s -> R s (step s e)) ->
  forall es s, Forall Q es -> P s -> R s (exec s es).
Proof.
  intros HP HR es. induction es as [|e es IH]; intros s HQ Hs; [done|].
  inversion HQ as [|? ? He HQ']; subst.
  rewrite exec_cons. transitivity (step s e); [by apply HR|]. eauto.
Qed.
End Machine.
