(* ===== verification/Bytes.v ===== *)
(** Byte buffers: the loops the sources repeat over [uint8_t] arrays.

    A buffer is the list of its bytes, [drop off p] is the pointer [p + off],
    and [blit] is a store of consecutive bytes. [load_le64] and [le_bytes] are
    the little-endian word loops of [lib/admin.c], [lib/signed_input.c] and
    [include/tcs/admin_ipc.h]. *)

From S2P Require Import Prelude.

(** ** Definitions *)

Definition byte_list (l : list Z) : Prop := Forall u8 l.

(** The comparison loop: stops at the first difference. *)
Definition equal (a b : list Z) (length : nat) : bool :=
  forallb (fun i => a !!! i =? b !!! i) (seq 0 length).

(** The accumulation loop [any |= bytes[i]] over a [uint8_t]. *)
Definition any_bits (bytes : list Z) (n : nat) : Z :=
  foldl (fun any i => wrap8 (Z.lor any (bytes !!! i))) 0 (seq 0 n).

(** Stores [bytes] at [buf + off], inside the buffer. *)
Definition blit (buf : list Z) (off : nat) (bytes : list Z) : list Z :=
  take off buf ++ bytes ++ drop (off + length bytes) buf.

(** [n] bytes from [buf + off]. *)
Definition slice (buf : list Z) (off n : nat) : list Z := take n (drop off buf).

Definition load_le64 (p : list Z) : Z :=
  foldl (fun value i => Z.lor value (wrap64 (Z.shiftl (p !!! i) (8 * Z.of_nat i)))) 0 (seq 0 8).

Definition le_bytes (value : Z) : list Z :=
  map (fun i => wrap8 (Z.shiftr value (8 * Z.of_nat i))) (seq 0 8).

(** ** Comparison *)

Lemma equal_spec a b n :
  (n <= length a)%nat -> (n <= length b)%nat ->
  equal a b n = true <-> take n a = take n b.
Proof.
  unfold equal. intros Ha Hb. rewrite forallb_forall. split.
  - intros H. apply list_eq_same_length with n; rewrite ?length_take; try lia.
    intros i x y Hi Hx Hy.
    rewrite lookup_take_lt in Hx, Hy by done.
    specialize (H i (proj2 (in_seq n 0 i) ltac:(lia))).
    apply list_lookup_total_correct in Hx, Hy. lia.
  - intros Heq i Hi%in_seq.
    rewrite !list_lookup_total_alt.
    rewrite <- (lookup_take_lt a n i), <- (lookup_take_lt b n i), Heq by lia.
    apply Z.eqb_refl.
Qed.

Lemma equal_refl a n : equal a a n = true.
Proof. unfold equal. apply forallb_forall. intros; apply Z.eqb_refl. Qed.

(** ** Stores and reads *)

Section Blit.
Context (buf bytes : list Z) (off : nat).
Context (Hfit : (off + length bytes <= length buf)%nat).

Lemma blit_length : length (blit buf off bytes) = length buf.
Proof using Hfit. unfold blit. rewrite !length_app, length_take, length_drop. lia. Qed.

Lemma slice_blit_eq : slice (blit buf off bytes) off (length bytes) = bytes.
Proof using Hfit.
  unfold slice, blit. rewrite drop_app_length' by (rewrite length_take; lia).
  by rewrite take_app_length.
Qed.

Lemma slice_blit_before o n : (o + n <= off)%nat -> slice (blit buf off bytes) o n = slice buf o n.
Proof using Hfit.
  intros Hle. unfold slice, blit.
  rewrite !take_drop_commute, take_app_le by (rewrite length_take; lia).
  by rewrite take_take, Nat.min_l by lia.
Qed.

Lemma slice_blit_after o n :
  (off + length bytes <= o)%nat -> slice (blit buf off bytes) o n = slice buf o n.
Proof using Hfit.
  intros Hle. unfold slice, blit. f_equal.
  rewrite !drop_app_ge by (rewrite ?length_take; lia).
  rewrite drop_drop, length_take. f_equal. lia.
Qed.
End Blit.

Lemma slice_app_left l1 l2 o n :
  (o + n <= length l1)%nat -> slice (l1 ++ l2) o n = slice l1 o n.
Proof.
  intros H. unfold slice. rewrite !take_drop_commute. by rewrite take_app_le.
Qed.

Lemma length_slice l o n : (o + n <= length l)%nat -> length (slice l o n) = n.
Proof. intros H. unfold slice. rewrite length_take, length_drop. lia. Qed.

Lemma slice_bytes l o n : byte_list l -> byte_list (slice l o n).
Proof. intros H. by apply Forall_take, Forall_drop. Qed.

(** ** Little-endian words *)

(** The value of a byte string, least significant byte first. *)
Fixpoint le_value (bytes : list Z) : Z :=
  match bytes with
  | [] => 0
  | b :: rest => b + 256 * le_value rest
  end.

(** The [n] low bytes of a word. *)
Fixpoint le_split (n : nat) (v : Z) : list Z :=
  match n with
  | O => []
  | S n => v mod 256 :: le_split n (v / 256)
  end.

Lemma length_le_split n v : length (le_split n v) = n.
Proof. revert v. induction n as [|n IH]; intros v; simpl; [done|]. by rewrite IH. Qed.

Lemma le_split_bytes n v : byte_list (le_split n v).
Proof.
  revert v. induction n as [|n IH]; intros v; constructor; [|apply IH].
  pose proof (Z.mod_pos_bound v 256). word_lia.
Qed.

Lemma le_value_split n v : 0 <= v < 256 ^ Z.of_nat n -> le_value (le_split n v) = v.
Proof.
  revert v. induction n as [|n IH]; intros v Hv; simpl; [simpl in Hv; lia|].
  rewrite IH; [pose proof (Z.div_mod v 256); lia|].
  rewrite Nat2Z.inj_succ, Z.pow_succ_r in Hv by lia.
  split; [apply Z.div_pos; lia | apply Z.div_lt_upper_bound; lia].
Qed.

Lemma le_split_value bytes : byte_list bytes -> le_split (length bytes) (le_value bytes) = bytes.
Proof.
  induction 1 as [|b bytes Hb _ IH]; [done|]. cbn [length le_split le_value].
  f_equal.
  - rewrite Z.mul_comm, Z.mod_add, Z.mod_small by word_lia. done.
  - rewrite Z.mul_comm, Z.div_add, Z.div_small by word_lia. done.
Qed.

Lemma le_value_range bytes : byte_list bytes -> 0 <= le_value bytes < 256 ^ Z.of_nat (length bytes).
Proof.
  induction 1 as [|b bytes Hb _ IH]; cbn [length le_value]; [simpl; lia|].
  rewrite Nat2Z.inj_succ, Z.pow_succ_r by lia. word_lia.
Qed.

Lemma le_bytes_split v : le_bytes v = le_split 8 v.
Proof.
  unfold le_bytes, wrap8. cbn [map seq le_split].
  rewrite !Z.shiftr_div_pow2 by lia. rewrite !Z.div_div by lia.
  change (2 ^ 8) with 256. by rewrite Z.div_1_r.
Qed.

(** One round of the load loop: the new byte lands above the bits read so far. *)
Lemma lor_byte_above acc b k :
  0 <= k -> 0 <= acc < 2 ^ k -> u8 b -> k <= 56 ->
  Z.lor acc (wrap64 (Z.shiftl b k)) = acc + b * 2 ^ k.
Proof.
  intros Hk Hacc Hb Hk'. rewrite Z.shiftl_mul_pow2 by done.
  assert (Hp : 0 < 2 ^ k <= 2 ^ 56).
  { split; [apply Z.pow_pos_nonneg; lia|]. apply Z.pow_le_mono_r; lia. }
  assert (0 <= b * 2 ^ k < 2 ^ 64) by (unfold u8, UINT8_MAX in Hb; nia).
  unfold wrap64. rewrite Z.mod_small, <- Z.shiftl_mul_pow2 by done.
  assert (Hdisj : Z.land acc (Z.shiftl b k) = 0).
  { apply Z.bits_inj'. intros n Hn. rewrite Z.land_spec, Z.bits_0.
    destruct (Z.lt_ge_cases n k).
    - by rewrite Z.shiftl_spec_low, andb_false_r by lia.
    - rewrite <- (Z.mod_small acc (2 ^ k)) by lia.
      by rewrite Z.mod_pow2_bits_high by lia. }
  by rewrite Z.add_nocarry_lxor, <- Z.lxor_lor.
Qed.

Lemma load_le64_value p :
  (8 <= length p)%nat -> byte_list p -> load_le64 p = le_value (take 8 p).
Proof.
  intros Hlen Hp.
  do 8 (destruct p as [|? p]; [simpl in Hlen; lia|]; apply Forall_cons_1 in Hp as [? Hp]).
  clear Hp Hlen. unfold load_le64. cbn [seq foldl lookup_total list_lookup_total take le_value].
  repeat match goal with
  | |- context [Z.lor ?a (wrap64 (Z.shiftl ?b ?k))] =>
      lazymatch a with context [Z.lor _ _] => fail | _ => idtac end;
      rewrite (lor_byte_above a b k) by (simpl; word_lia)
  end.
  simpl. lia.
Qed.

Lemma load_le_bytes v rest : u64 v -> load_le64 (le_bytes v ++ rest) = v.
Proof.
  intros Hv. rewrite le_bytes_split.
  assert (H : load_le64 (le_split 8 v ++ rest) = load_le64 (le_split 8 v)) by reflexivity.
  rewrite H, load_le64_value by (rewrite ?length_le_split; auto using le_split_bytes).
  rewrite take_ge by (by rewrite length_le_split). apply le_value_split. word_lia.
Qed.

Lemma load_le64_range p : (8 <= length p)%nat -> byte_list p -> u64 (load_le64 p).
Proof.
  intros Hlen Hp. rewrite load_le64_value by done.
  pose proof (le_value_range (take 8 p) (Forall_take _ _ _ Hp)) as H.
  rewrite length_take, Nat.min_l in H by lia. word_lia.
Qed.

Lemma le_bytes_load p : (8 <= length p)%nat -> byte_list p -> le_bytes (load_le64 p) = take 8 p.
Proof.
  intros Hlen Hp. rewrite load_le64_value, le_bytes_split by done.
  rewrite <- (le_split_value (take 8 p)) at 2 by by apply Forall_take.
  by rewrite length_take, Nat.min_l by lia.
Qed.

(** Only the eight bytes at the pointer matter. *)
Lemma load_le64_slice p o : (o + 8 <= length p)%nat -> load_le64 (drop o p) = load_le64 (slice p o 8).
Proof.
  intros H. unfold slice. set (q := drop o p).
  assert (Hq : (8 <= length q)%nat) by (subst q; rewrite length_drop; lia).
  clearbody q. clear H p o. do 8 (destruct q as [|? q]; [simpl in Hq; lia|]). reflexivity.
Qed.

Lemma le_bytes_length v : length (le_bytes v) = 8%nat.
Proof. reflexivity. Qed.

Lemma le_bytes_are_bytes v : byte_list (le_bytes v).
Proof. rewrite le_bytes_split. apply le_split_bytes. Qed.

#[export] Hint Resolve slice_bytes le_bytes_are_bytes load_le64_range : tcs.

(** ** Layouts: buffers written or read field by field *)

Lemma blit_skip n x y off new :
  length x = n -> (n <= off)%nat -> blit (x ++ y) off new = x ++ blit y (off - n) new.
Proof.
  intros <- Hle. unfold blit. rewrite take_app_ge by done.
  rewrite drop_app_ge by lia.
  replace (off + length new - length x)%nat with (off - length x + length new)%nat by lia.
  by rewrite <- app_assoc.
Qed.

Lemma blit_here old y new : length old = length new -> blit (old ++ y) 0 new = new ++ y.
Proof. intros Hlen. unfold blit. simpl. by rewrite drop_app_length' by done. Qed.

Lemma slice_skip n x y off m :
  length x = n -> (n <= off)%nat -> slice (x ++ y) off m = slice y (off - n) m.
Proof. intros <- Hle. unfold slice. by rewrite drop_app_ge. Qed.

Lemma slice_here x y n : length x = n -> slice (x ++ y) 0 n = x.
Proof. intros <-. unfold slice. by rewrite drop_0, take_app_length. Qed.

Lemma slice_all x n : length x = n -> slice x 0 n = x.
Proof. intros <-. unfold slice. by rewrite drop_0, firstn_all. Qed.

(** Splits a buffer after its first [n] bytes. *)
Lemma slice_split l o n m :
  slice l o (n + m) = slice l o n ++ slice l (o + n) m.
Proof. unfold slice. by rewrite <- drop_drop, take_take_drop. Qed.

(** The lengths of the fields of a layout. *)
Ltac field_length :=
  rewrite ?length_app, ?length_take, ?length_replicate, ?le_bytes_length;
  first [reflexivity | assumption | lia].

(** Moves every store or read of a layout into the field it addresses. *)
Ltac layout :=
  repeat match goal with
  | |- context [blit (?x ++ ?y) ?off ?new] =>
      first
        [ rewrite (blit_here x y new) by field_length
        | rewrite (blit_skip 8 x y off new) by field_length; cbn [Nat.sub]
        | rewrite (blit_skip 16 x y off new) by field_length; cbn [Nat.sub]
        | rewrite (blit_skip 32 x y off new) by field_length; cbn [Nat.sub] ]
  | |- context [slice (?x ++ ?y) ?off ?m] =>
      first
        [ rewrite (slice_here x y m) by field_length
        | rewrite (slice_skip 8 x y off m) by field_length; cbn [Nat.sub]
        | rewrite (slice_skip 16 x y off m) by field_length; cbn [Nat.sub]
        | rewrite (slice_skip 32 x y off m) by field_length; cbn [Nat.sub] ]
  | |- context [slice ?x 0 ?m] => rewrite (slice_all x m) by field_length
  end.

(** Conversion should not run the loops on symbolic buffers. *)
#[global] Opaque load_le64 le_bytes any_bits equal.
