(* ===== verification/Policy.v ===== *)
(** The authorization policy: [lib/policy.c] and [include/tcs/policy.h].

    One [tcs_subject] per subject, an operation per request ([tcs_policy_apply]
    works on a candidate copy), a commit step that takes the candidate only
    after an audit acknowledgement or for a reduction of authority, and a
    read-only self-status snapshot. *)

From S2P Require Import Prelude.

(** ** Data *)

Definition TCS_SUBJECTS : Z := 4.
Definition TCS_CLIENT_SUBJECT : Z := 1.
Definition TCS_OBJECT : Z := 42.
Definition TCS_READ : Z := 1.
Definition TCS_WRITE : Z := 2.
Definition TCS_SAMPLE : Z := 0x43494e4958.

Inductive tcs_actor := TCS_UNKNOWN | TCS_ADMIN | TCS_STORAGE.
Inductive tcs_state := TCS_RESTRICTED | TCS_ACTIVE | TCS_QUARANTINED.

#[export] Instance tcs_actor_eq_dec : EqDecision tcs_actor.
Proof. solve_decision. Defined.
#[export] Instance tcs_state_eq_dec : EqDecision tcs_state.
Proof. solve_decision. Defined.

(** The values of the C enumerators, for the places that store or send them
    as [uint64_t]. *)
Definition tcs_actor_val (a : tcs_actor) : Z :=
  match a with TCS_UNKNOWN => 0 | TCS_ADMIN => 1 | TCS_STORAGE => 2 end.
Definition tcs_state_val (s : tcs_state) : Z :=
  match s with TCS_RESTRICTED => 0 | TCS_ACTIVE => 1 | TCS_QUARANTINED => 2 end.

(** [enum tcs_op]; requests carry the operation as a [uint64_t]. *)
Definition TCS_GRANT : Z := 1.
Definition TCS_CHECK : Z := 2.
Definition TCS_REVOKE : Z := 3.
Definition TCS_QUARANTINE : Z := 4.
Definition TCS_RESTORE : Z := 5.

(** [enum tcs_status]; results carry the status as a [uint64_t]. *)
Definition TCS_OK : Z := 0.
Definition TCS_DENIED : Z := 1.
Definition TCS_BAD_MESSAGE : Z := 2.
Definition TCS_STALE : Z := 3.
Definition TCS_ISOLATED : Z := 4.
Definition TCS_AUDIT_FULL : Z := 5.
Definition TCS_EXHAUSTED : Z := 6.

Record tcs_subject := {
  s_generation : Z;
  s_object : Z;
  s_rights : Z;
  s_state : tcs_state
}.

Record tcs_policy := { subjects : list tcs_subject }.

Record tcs_request := {
  r_op : Z;
  r_subject : Z;
  r_object : Z;
  r_rights : Z;
  r_generation : Z
}.

Record tcs_result := { status : Z; value : Z }.

Record tcs_snapshot := {
  n_status : Z;
  n_state : Z;
  n_generation : Z;
  n_object : Z;
  n_rights : Z
}.

#[export] Instance tcs_subject_eq_dec : EqDecision tcs_subject.
Proof. solve_decision. Defined.
#[export] Instance tcs_result_eq_dec : EqDecision tcs_result.
Proof. solve_decision. Defined.
#[export] Instance tcs_request_eq_dec : EqDecision tcs_request.
Proof. solve_decision. Defined.
#[export] Instance tcs_snapshot_eq_dec : EqDecision tcs_snapshot.
Proof. solve_decision. Defined.

(** Zero-initialized static storage. *)
Definition subject_zero : tcs_subject :=
  {| s_generation := 0; s_object := 0; s_rights := 0; s_state := TCS_RESTRICTED |}.
Definition policy_zero : tcs_policy :=
  {| subjects := replicate (Z.to_nat TCS_SUBJECTS) subject_zero |}.

#[export] Instance tcs_subject_inhabited : Inhabited tcs_subject := populate subject_zero.

(** [policy->subjects[i]], read and written through a pointer. Every use is
    behind a guard [i < TCS_SUBJECTS]. *)
Definition subject_at (policy : tcs_policy) (i : Z) : tcs_subject :=
  subjects policy !!! Z.to_nat i.
Definition set_subject (policy : tcs_policy) (i : Z) (s : tcs_subject) : tcs_policy :=
  {| subjects := <[Z.to_nat i := s]> (subjects policy) |}.

(** ** Operations *)

Definition result (st v : Z) : tcs_result := {| status := st; value := v |}.

Definition snapshot_error (st : Z) : tcs_snapshot :=
  {| n_status := st; n_state := 0; n_generation := 0; n_object := 0; n_rights := 0 |}.

Definition subject_snapshot (s : tcs_subject) : tcs_snapshot :=
  {| n_status := TCS_OK; n_state := tcs_state_val (s_state s);
     n_generation := s_generation s; n_object := s_object s; n_rights := s_rights s |}.

Definition tcs_snapshot_valid (s : tcs_snapshot) : bool :=
  if negb (n_status s =? TCS_OK) || (tcs_state_val TCS_QUARANTINED <? n_state s) then false
  else if n_state s =? tcs_state_val TCS_ACTIVE then
    negb (n_generation s =? 0) && (n_object s =? TCS_OBJECT) && (n_rights s =? TCS_READ)
  else (n_object s =? 0) && (n_rights s =? 0).

Definition tcs_policy_self_status (policy : tcs_policy) (actor : tcs_actor) : tcs_snapshot :=
  if negb (bool_decide (actor = TCS_STORAGE)) then snapshot_error TCS_DENIED
  else
    let snapshot := subject_snapshot (subject_at policy TCS_CLIENT_SUBJECT) in
    if negb (tcs_snapshot_valid snapshot) then snapshot_error TCS_BAD_MESSAGE
    else snapshot.

(** The body of [tcs_policy_apply] after the range and actor checks: [s] is
    the subject the pointer selects, and the result is its new value. *)
Definition apply_to_subject (s : tcs_subject) (r : tcs_request) : tcs_subject * tcs_result :=
  if (r_op r =? TCS_REVOKE) || (r_op r =? TCS_QUARANTINE) || (r_op r =? TCS_RESTORE) then
    if negb (r_object r =? 0) || negb (r_rights r =? 0) || negb (r_generation r =? 0) then
      (s, result TCS_BAD_MESSAGE 0)
    else if (r_op r =? TCS_RESTORE) && negb (bool_decide (s_state s = TCS_QUARANTINED)) then
      (s, result TCS_DENIED 0)
    else
      let generation :=
        if negb (s_generation s =? UINT64_MAX) then wrap64 (s_generation s + 1)
        else s_generation s in
      let state :=
        if r_op r =? TCS_QUARANTINE then TCS_QUARANTINED
        else if (r_op r =? TCS_RESTORE) || negb (bool_decide (s_state s = TCS_QUARANTINED))
        then TCS_RESTRICTED
        else s_state s in
      ({| s_generation := generation; s_object := 0; s_rights := 0; s_state := state |},
       result TCS_OK generation)
  else if bool_decide (s_state s = TCS_QUARANTINED) then (s, result TCS_ISOLATED 0)
  else if negb (r_object r =? TCS_OBJECT) || negb (r_rights r =? TCS_READ) then
    (s, result TCS_DENIED 0)
  else if r_op r =? TCS_GRANT then
    if negb (r_generation r =? 0) then (s, result TCS_BAD_MESSAGE 0)
    else if s_generation s =? UINT64_MAX then (s, result TCS_EXHAUSTED 0)
    else
      let generation := wrap64 (s_generation s + 1) in
      ({| s_generation := generation; s_object := r_object r; s_rights := r_rights r;
          s_state := TCS_ACTIVE |},
       result TCS_OK generation)
  else if negb (bool_decide (s_state s = TCS_ACTIVE)) || negb (s_rights s =? TCS_READ) then
    (s, result TCS_DENIED 0)
  else if (r_generation r =? 0) || negb (r_generation r =? s_generation s) then
    (s, result TCS_STALE 0)
  else if negb (s_object s =? r_object r) then (s, result TCS_DENIED 0)
  else (s, result TCS_OK (s_generation s)).

Definition tcs_policy_apply (policy : tcs_policy) (actor : tcs_actor) (r : tcs_request)
    : tcs_policy * tcs_result :=
  if (TCS_SUBJECTS <=? r_subject r) || (r_op r <? TCS_GRANT) || (TCS_RESTORE <? r_op r) then
    (policy, result TCS_BAD_MESSAGE 0)
  else if ((r_op r =? TCS_CHECK) && negb (bool_decide (actor = TCS_STORAGE))) ||
          (negb (r_op r =? TCS_CHECK) && negb (bool_decide (actor = TCS_ADMIN))) then
    (policy, result TCS_DENIED 0)
  else
    let '(s, res) := apply_to_subject (subject_at policy (r_subject r)) r in
    (set_subject policy (r_subject r) s, res).

(** Commit only after an audit acknowledgement, except authority reductions. *)
Definition is_reduction (r : tcs_request) : bool :=
  (r_op r =? TCS_REVOKE) || (r_op r =? TCS_QUARANTINE).

Definition tcs_policy_commit (live candidate : tcs_policy) (r : tcs_request)
    (decision : tcs_result) (audit_ok : bool) : tcs_policy * tcs_result :=
  let reduction := is_reduction r in
  let live' :=
    if (status decision =? TCS_OK) && (audit_ok || reduction) then candidate else live in
  if negb audit_ok then (live', result TCS_AUDIT_FULL 0) else (live', decision).

(** ** Requests, transitions and executions *)

(** The fields of a request are machine words. *)
Definition request_u64 (r : tcs_request) : Prop :=
  u64 (r_op r) /\ u64 (r_subject r) /\ u64 (r_object r) /\
  u64 (r_rights r) /\ u64 (r_generation r).

(** One decision of the policy owner: the candidate is computed, the audit
    acknowledges it or not, and the live policy commits it or not. *)
Record policy_event := {
  ev_actor : tcs_actor;
  ev_request : tcs_request;
  ev_audit_ok : bool
}.

Definition policy_transition (p : tcs_policy) (e : policy_event) : tcs_policy * tcs_result :=
  let '(candidate, decision) := tcs_policy_apply p (ev_actor e) (ev_request e) in
  tcs_policy_commit p candidate (ev_request e) decision (ev_audit_ok e).

Definition policy_step (p : tcs_policy) (e : policy_event) : tcs_policy :=
  fst (policy_transition p e).

Definition event_u64 (e : policy_event) : Prop := request_u64 (ev_request e).

(** ** Invariant *)

Definition subject_ok (s : tcs_subject) : Prop :=
  u64 (s_generation s) /\
  match s_state s with
  | TCS_ACTIVE => s_generation s <> 0 /\ s_object s = TCS_OBJECT /\ s_rights s = TCS_READ
  | _ => s_object s = 0 /\ s_rights s = 0
  end.

Definition policy_ok (p : tcs_policy) : Prop :=
  length (subjects p) = Z.to_nat TCS_SUBJECTS /\ Forall subject_ok (subjects p).

(** What a read check observes: an open session of subject [i]. *)
Definition admits (p : tcs_policy) (i g : Z) : Prop :=
  s_state (subject_at p i) = TCS_ACTIVE /\ s_generation (subject_at p i) = g.

(** ** Abstract specification: sessions without objects or rights *)

Inductive phase := Restricted | Active | Quarantined.

Record session := { ph : phase; gen : Z }.

(** A saturating generation counter: reductions never run out of it. *)
Definition next_generation (g : Z) : Z := Z.min (g + 1) UINT64_MAX.

Definition reduced (p : phase) : phase :=
  match p with Quarantined => Quarantined | _ => Restricted end.

(** The contract of a successful operation on a session. *)
Inductive session_step : session -> Z -> session -> Prop :=
| step_check g :
    session_step {| ph := Active; gen := g |} TCS_CHECK {| ph := Active; gen := g |}
| step_grant p g :
    p <> Quarantined -> g < UINT64_MAX ->
    session_step {| ph := p; gen := g |} TCS_GRANT {| ph := Active; gen := g + 1 |}
| step_revoke p g :
    session_step {| ph := p; gen := g |} TCS_REVOKE
                 {| ph := reduced p; gen := next_generation g |}
| step_quarantine p g :
    session_step {| ph := p; gen := g |} TCS_QUARANTINE
                 {| ph := Quarantined; gen := next_generation g |}
| step_restore g :
    session_step {| ph := Quarantined; gen := g |} TCS_RESTORE
                 {| ph := Restricted; gen := next_generation g |}.

(** The parameters each operation must carry. *)
Definition well_formed (r : tcs_request) (current : Z) : Prop :=
  (r_op r = TCS_CHECK /\ r_object r = TCS_OBJECT /\ r_rights r = TCS_READ /\
     r_generation r = current) \/
  (r_op r = TCS_GRANT /\ r_object r = TCS_OBJECT /\ r_rights r = TCS_READ /\
     r_generation r = 0) \/
  ((r_op r = TCS_REVOKE \/ r_op r = TCS_QUARANTINE \/ r_op r = TCS_RESTORE) /\
     r_object r = 0 /\ r_rights r = 0 /\ r_generation r = 0).

Definition authorized (actor : tcs_actor) (op : Z) : Prop :=
  actor = if op =? TCS_CHECK then TCS_STORAGE else TCS_ADMIN.

Definition abs_phase (st : tcs_state) : phase :=
  match st with
  | TCS_RESTRICTED => Restricted
  | TCS_ACTIVE => Active
  | TCS_QUARANTINED => Quarantined
  end.

Definition abs_session (s : tcs_subject) : session :=
  {| ph := abs_phase (s_state s); gen := s_generation s |}.

(** ** Lemmas *)

Ltac policy_unfold :=
  unfold TCS_GRANT, TCS_CHECK, TCS_REVOKE, TCS_QUARANTINE, TCS_RESTORE,
    TCS_OK, TCS_DENIED, TCS_BAD_MESSAGE, TCS_STALE, TCS_ISOLATED, TCS_AUDIT_FULL,
    TCS_EXHAUSTED, TCS_OBJECT, TCS_READ, TCS_SUBJECTS, TCS_CLIENT_SUBJECT in *.

(** Closes goals on operations, statuses and counters by arithmetic. *)
Ltac policy_lia := policy_unfold; word_lia.

(** Refutes an equation between results with different statuses. *)
Ltac status_clash := unfold result in *; policy_unfold; congruence.

Lemma policy_zero_ok : policy_ok policy_zero.
Proof. split; [done|]. repeat constructor; simpl; word_lia. Qed.

Section Subjects.
Context (p : tcs_policy) (i : Z) (Hp : policy_ok p) (Hi : 0 <= i < TCS_SUBJECTS).

Lemma subject_at_ok : subject_ok (subject_at p i).
Proof using Hp Hi.
  destruct Hp as [Hlen Hall]. unfold subject_at.
  apply Forall_lookup_total_1; [done|]. policy_lia.
Qed.

Lemma subject_at_set_eq s : subject_at (set_subject p i s) i = s.
Proof using Hp Hi.
  destruct Hp as [Hlen _]. unfold subject_at. apply list_lookup_total_insert_eq.
  policy_lia.
Qed.

Lemma subject_at_set_ne j s :
  0 <= j -> i <> j -> subject_at (set_subject p i s) j = subject_at p j.
Proof using Hi.
  intros Hj Hne. unfold subject_at. apply list_lookup_total_insert_ne.
  policy_lia.
Qed.

Lemma set_subject_ok s : subject_ok s -> policy_ok (set_subject p i s).
Proof using Hp.
  destruct Hp as [Hlen Hall]. intros Hs. split; simpl.
  - by rewrite length_insert.
  - by apply Forall_insert.
Qed.

Lemma set_subject_id : set_subject p i (subject_at p i) = p.
Proof using Hp Hi.
  destruct p as [l], Hp as [Hlen _]. unfold set_subject, subject_at; f_equal.
  apply list_insert_id, list_lookup_lookup_total_lt. simpl in *. policy_lia.
Qed.
End Subjects.

(** Splits the conditions of [apply_to_subject] into arithmetic facts. *)
Ltac policy_cases :=
  repeat (first [split_if | case_bool_decide]; try discriminate); simpl in *;
  inv_pair; simpl in *.

Lemma apply_to_subject_error s r :
  status (snd (apply_to_subject s r)) <> TCS_OK ->
  apply_to_subject s r = (s, result (status (snd (apply_to_subject s r))) 0).
Proof. unfold apply_to_subject, result. repeat split_if; simpl; try done. Qed.

Lemma wrap64_succ g : u64 g -> g <> UINT64_MAX -> wrap64 (g + 1) = g + 1.
Proof. intros ??. apply wrap64_small. word_lia. Qed.

(** The update of a reduction or restoration on well-formed parameters. *)
Definition lowered (s : tcs_subject) (st : tcs_state) : tcs_subject :=
  {| s_generation := next_generation (s_generation s); s_object := 0; s_rights := 0;
     s_state := st |}.

Lemma saturating_increment g :
  u64 g -> (if negb (g =? UINT64_MAX) then wrap64 (g + 1) else g) = next_generation g.
Proof.
  intros Hg. unfold next_generation. split_if; [rewrite wrap64_succ by word_lia|];
  word_lia.
Qed.

Lemma next_generation_u64 g : u64 g -> u64 (next_generation g).
Proof. unfold next_generation. word_lia. Qed.

Lemma next_generation_ge g : u64 g -> g <= next_generation g.
Proof. unfold next_generation. word_lia. Qed.

#[export] Hint Resolve next_generation_u64 next_generation_ge : tcs.
Lemma op_range op :
  TCS_GRANT <= op <= TCS_RESTORE ->
  op = TCS_GRANT \/ op = TCS_CHECK \/ op = TCS_REVOKE \/ op = TCS_QUARANTINE \/
  op = TCS_RESTORE.
Proof. policy_lia. Qed.

Ltac step_done :=
  solve [constructor; (done || policy_lia)
        | unfold well_formed; simpl; policy_lia
        | done | policy_lia].
Lemma apply_to_subject_sound s r s' v :
  subject_ok s -> TCS_GRANT <= r_op r <= TCS_RESTORE ->
  apply_to_subject s r = (s', result TCS_OK v) ->
  subject_ok s' /\ session_step (abs_session s) (r_op r) (abs_session s') /\
  well_formed r (s_generation s) /\ v = s_generation s'.
Proof.
  intros Hs Hop. pose proof (next_generation_u64 (s_generation s) (proj1 Hs)) as Hnext.
  unfold apply_to_subject. rewrite saturating_increment by apply Hs.
  destruct s as [g o rt st], r as [op su ob ri ge], Hs as [Hg Hst]; simpl in *.
  apply op_range in Hop as [-> | [-> | [-> | [-> | ->]]]]; simpl; 
    destruct st; simpl; intros H; repeat split_if; try discriminate;
    try rewrite wrap64_succ in H by policy_lia;
    injection H as <- <-;
    (split; [split; simpl; policy_lia|unfold abs_session; simpl; repeat split; step_done]).
Qed.
Lemma apply_to_subject_complete s r st' :
  subject_ok s -> 
  session_step (abs_session s) (r_op r) st' -> well_formed r (s_generation s) ->
  exists s', abs_session s' = st' /\
    apply_to_subject s r = (s', result TCS_OK (gen st')).
Proof.
  intros [Hg Hst] Hstep Hwf. unfold apply_to_subject.
  rewrite saturating_increment by done.
  destruct s as [g o rt st], r as [op su ob ri ge]; unfold well_formed in Hwf; simpl in *.
  inversion Hstep; subst; simpl in *; try (destruct st; try discriminate; try done);
  simpl; repeat (split_if; try policy_lia).
  all: rewrite ?wrap64_succ by policy_lia; eexists; (split; [|reflexivity]); done.
Qed.

Lemma abs_session_inj s s' :
  subject_ok s -> subject_ok s' -> abs_session s = abs_session s' -> s = s'.
Proof.
  intros [_ Hs] [_ Hs'] [= Hph Hg]. destruct s as [g o rt []], s' as [g' o' rt' []];
  simpl in *; try discriminate; destruct_and!; by subst.
Qed.

Lemma step_op st op st' : session_step st op st' -> TCS_GRANT <= op <= TCS_RESTORE.
Proof. destruct 1; policy_lia. Qed.

(** [tcs_policy_apply] once its range and actor checks pass. *)
Lemma apply_admitted p actor r :
  authorized actor (r_op r) -> TCS_GRANT <= r_op r <= TCS_RESTORE ->
  r_subject r < TCS_SUBJECTS ->
  tcs_policy_apply p actor r =
    let '(s, res) := apply_to_subject (subject_at p (r_subject r)) r in
    (set_subject p (r_subject r) s, res).
Proof.
  intros -> Hop Hsub. unfold tcs_policy_apply.
  split_if; [exfalso; policy_lia|].
  by destruct (r_op r =? TCS_CHECK).
Qed.

Lemma apply_admitted_inv p actor r p' v :
  tcs_policy_apply p actor r = (p', result TCS_OK v) ->
  authorized actor (r_op r) /\ TCS_GRANT <= r_op r <= TCS_RESTORE /\
  r_subject r < TCS_SUBJECTS /\
  exists s, apply_to_subject (subject_at p (r_subject r)) r = (s, result TCS_OK v) /\
    p' = set_subject p (r_subject r) s.
Proof.
  unfold tcs_policy_apply. intros H.
  split_if; [status_clash|]. split_if; [status_clash|].
  destruct (apply_to_subject _ _) as [s res] eqn:Hs. inv_pair.
  repeat split; try policy_lia; [|eauto].
  unfold authorized. destruct (r_op r =? TCS_CHECK), actor; simpl in *; done.
Qed.

(** A decision other than OK changes nothing and reports no value. *)
Lemma apply_error p actor r :
  policy_ok p -> request_u64 r ->
  status (snd (tcs_policy_apply p actor r)) <> TCS_OK ->
  tcs_policy_apply p actor r = (p, result (status (snd (tcs_policy_apply p actor r))) 0).
Proof.
  intros Hp Hr. unfold tcs_policy_apply.
  split_if; [done|]. split_if; [done|].
  pose proof (apply_to_subject_error (subject_at p (r_subject r)) r) as Herr.
  destruct (apply_to_subject _ _) as [s res]; simpl in *. intros Hne.
  specialize (Herr Hne). injection Herr as -> ->.
  rewrite set_subject_id; [done..|]. destruct Hr as (_ & ? & _). policy_lia.
Qed.

Lemma apply_ok_sound p actor r p' v :
  policy_ok p -> request_u64 r ->
  tcs_policy_apply p actor r = (p', result TCS_OK v) ->
  policy_ok p' /\ authorized actor (r_op r) /\ r_subject r < TCS_SUBJECTS /\
  well_formed r (s_generation (subject_at p (r_subject r))) /\
  session_step (abs_session (subject_at p (r_subject r))) (r_op r)
    (abs_session (subject_at p' (r_subject r))) /\
  v = s_generation (subject_at p' (r_subject r)) /\
  p' = set_subject p (r_subject r) (subject_at p' (r_subject r)).
Proof.
  intros Hp (_ & Hsub & _) H.
  destruct (apply_admitted_inv _ _ _ _ _ H) as (Hauth & Hop & Hlt & s & Hs & ->).
  assert (Hi : 0 <= r_subject r < TCS_SUBJECTS) by policy_lia.
  apply apply_to_subject_sound in Hs as (Hok & Hstep & Hwf & ->);
    [|by apply subject_at_ok|done].
  rewrite subject_at_set_eq by done. repeat split; auto using set_subject_ok.
  all: by apply set_subject_ok.
Qed.

(** What one decision may do: nothing, or commit a candidate that differs from
    the live policy in the requested subject, by a step of its session. *)
Lemma policy_step_cases p e :
  policy_ok p -> event_u64 e ->
  policy_step p e = p \/
  exists s', subject_ok s' /\ 0 <= r_subject (ev_request e) < TCS_SUBJECTS /\
    session_step (abs_session (subject_at p (r_subject (ev_request e))))
      (r_op (ev_request e)) (abs_session s') /\
    (ev_audit_ok e = true \/ is_reduction (ev_request e) = true) /\
    policy_step p e = set_subject p (r_subject (ev_request e)) s'.
Proof.
  destruct e as [actor r audit]. intros Hp Hr. unfold policy_step, policy_transition; simpl.
  pose proof (apply_ok_sound p actor r) as Hsound.
  destruct (tcs_policy_apply p actor r) as [p' [st v]] eqn:Happly.
  unfold tcs_policy_commit; simpl.
  destruct (st =? TCS_OK) eqn:Hst; simpl; [|by destruct audit; left].
  apply Z.eqb_eq in Hst as ->.
  destruct (audit || is_reduction r) eqn:Hcommit; [|by destruct audit; left].
  right. destruct (Hsound p' v Hp Hr eq_refl) as (Hp' & _ & Hlt & _ & Hstep & _ & Heq).
  assert (Hi : 0 <= r_subject r < TCS_SUBJECTS).
  { destruct Hr as (_ & Hsub & _). simpl in *. policy_lia. }
  exists (subject_at p' (r_subject r)). split; [by apply subject_at_ok|].
  split; [done|]. split; [done|]. split; [by apply orb_true_iff|].
  by destruct audit.
Qed.

Lemma policy_step_ok p e : event_u64 e -> policy_ok p -> policy_ok (policy_step p e).
Proof.
  intros He Hp. destruct (policy_step_cases p e Hp He) as [->|(s' & Hs & _ & _ & _ & ->)];
  auto using set_subject_ok.
Qed.

Lemma policy_exec_ok es p :
  Forall event_u64 es -> policy_ok p -> policy_ok (exec policy_step p es).
Proof. apply exec_invariant. intros; by apply policy_step_ok. Qed.

#[export] Hint Resolve policy_zero_ok policy_step_ok policy_exec_ok : tcs.

(** A step of a session, or of nothing, keeps or raises the generation, and
    only a grant opens a session, under a new generation. *)
Definition session_le (s s' : session) : Prop :=
  gen s <= gen s' /\ (ph s' = Active -> gen s' = gen s -> ph s = Active).

#[export] Instance session_le_preorder : PreOrder session_le.
Proof.
  split; unfold session_le; [intros x; split; [lia|done]|].
  intros [p1 g1] [p2 g2] [p3 g3]; simpl. intros [Hle1 H1] [Hle2 H2].
  split; [lia|]. intros -> Heq. apply H1; [apply H2|]; auto; lia.
Qed.

Lemma session_step_le st op st' : u64 (gen st) -> session_step st op st' -> session_le st st'.
Proof.
  intros Hg. destruct 1; unfold session_le, next_generation; simpl in *;
  repeat split; try done; try word_lia. destruct p; done.
Qed.

Definition policy_le (p p' : tcs_policy) : Prop :=
  forall i, 0 <= i < TCS_SUBJECTS ->
    session_le (abs_session (subject_at p i)) (abs_session (subject_at p' i)).

#[export] Instance policy_le_preorder : PreOrder policy_le.
Proof.
  split; [done|]. intros p1 p2 p3 H1 H2 i Hi. etrans; [by apply H1|by apply H2].
Qed.

Lemma policy_step_le p e : event_u64 e -> policy_ok p -> policy_le p (policy_step p e).
Proof.
  intros He Hp i Hi.
  destruct (policy_step_cases p e Hp He) as [->|(s' & Hs & Hr & Hstep & _ & ->)]; [done|].
  destruct (decide (r_subject (ev_request e) = i)) as [<-|Hne].
  - rewrite subject_at_set_eq by done. eapply session_step_le; [|done].
    by apply subject_at_ok.
  - by rewrite subject_at_set_ne by (done || lia).
Qed.

Lemma policy_exec_le es p :
  Forall event_u64 es -> policy_ok p -> policy_le p (exec policy_step p es).
Proof.
  apply (exec_preorder policy_step event_u64 policy_ok policy_le).
  - intros; by apply policy_step_ok.
  - intros; by apply policy_step_le.
Qed.

Lemma is_reduction_iff r :
  is_reduction r = true <-> r_op r = TCS_REVOKE \/ r_op r = TCS_QUARANTINE.
Proof. unfold is_reduction. lia. Qed.

Lemma reduction_closes st op st' :
  op = TCS_REVOKE \/ op = TCS_QUARANTINE -> session_step st op st' -> ph st' <> Active.
Proof. intros Hop. destruct 1; simpl; try policy_lia; try done. by destruct p. Qed.

Lemma reduction_step st r :
  is_reduction r = true -> exists st', session_step st (r_op r) st' /\ ph st' <> Active.
Proof.
  intros Hred%is_reduction_iff. destruct st as [p g].
  destruct Hred as [-> | ->]; eexists; (split; [constructor|]); [by destruct p|done].
Qed.

Lemma admits_session p i g :
  admits p i g <-> abs_session (subject_at p i) = {| ph := Active; gen := g |}.
Proof.
  unfold admits, abs_session. destruct (subject_at p i) as [g' o rt []]; simpl;
  intuition congruence.
Qed.

(** A decision without audit acknowledgement opens no session. *)
Lemma unrecorded_only_reduces p e i g :
  policy_ok p -> event_u64 e -> ev_audit_ok e = false -> 0 <= i < TCS_SUBJECTS ->
  admits (policy_step p e) i g -> admits p i g.
Proof.
  intros Hp He Hau Hi Had.
  destruct (policy_step_cases p e Hp He) as [Heq|(s' & Hs & Hr & Hstep & Hc & Heq)];
    rewrite Heq in Had; [done|].
  destruct Hc as [|Hred%is_reduction_iff]; [congruence|].
  destruct (decide (r_subject (ev_request e) = i)) as [<-|Hne].
  + rewrite admits_session, subject_at_set_eq in Had by done.
    destruct (reduction_closes _ _ _ Hred Hstep). by rewrite Had.
  + unfold admits in *. rewrite subject_at_set_ne in Had; auto; lia.
Qed.

(** ** Properties *)

(** C7. Refinement of the session contract: on a well-formed policy, an
    operation answers OK exactly when its caller is the actor allowed to ask
    for it, the subject exists, its parameters are the required ones and the
    session contract has a step for it; the answer is the new generation, the
    new policy is well formed and no other subject changes. *)
Theorem policy_apply_refines_sessions p actor r p' v :
  policy_ok p -> request_u64 r ->
  tcs_policy_apply p actor r = (p', result TCS_OK v) <->
  authorized actor (r_op r) /\ r_subject r < TCS_SUBJECTS /\
  well_formed r (s_generation (subject_at p (r_subject r))) /\
  session_step (abs_session (subject_at p (r_subject r))) (r_op r)
    (abs_session (subject_at p' (r_subject r))) /\
  v = s_generation (subject_at p' (r_subject r)) /\
  p' = set_subject p (r_subject r) (subject_at p' (r_subject r)) /\ policy_ok p'.
Proof.
  intros Hp Hr. split.
  - intros H. destruct (apply_ok_sound _ _ _ _ _ Hp Hr H). tauto.
  - intros (Hauth & Hlt & Hwf & Hstep & -> & Heq & Hp').
    assert (Hi : 0 <= r_subject r < TCS_SUBJECTS) by (destruct Hr as (_ & ? & _); policy_lia).
    pose proof (step_op _ _ _ Hstep) as Hop.
    rewrite apply_admitted by done.
    destruct (apply_to_subject_complete _ r _ (subject_at_ok p _ Hp Hi) Hstep Hwf)
      as (s' & Habs & Hs).
    rewrite Hs. rewrite Heq at 2. f_equal. f_equal. apply abs_session_inj; [|by apply subject_at_ok|done].
    by destruct (apply_to_subject_sound _ _ _ _ (subject_at_ok p _ Hp Hi) Hop Hs).
Qed.

(** An operation that does not answer OK reports value 0 and leaves the
    policy unchanged. *)
Theorem policy_apply_error_unchanged p actor r p' res :
  policy_ok p -> request_u64 r -> tcs_policy_apply p actor r = (p', res) ->
  status res <> TCS_OK -> p' = p /\ value res = 0.
Proof.
  intros Hp Hr H Hne. pose proof (apply_error p actor r Hp Hr) as Herr.
  rewrite H in Herr; simpl in Herr. injection (Herr Hne) as -> Hres. by rewrite Hres.
Qed.

(** C37. The policy invariant (an active subject has a nonzero generation and
    exactly the read right on the one object; any other subject has neither)
    holds after any sequence of decisions from zero-initialized memory, and the
    client's self-status is then always a valid snapshot of its subject. *)
Theorem policy_run_ok es :
  Forall event_u64 es ->
  let p := exec policy_step policy_zero es in
  policy_ok p /\
  tcs_policy_self_status p TCS_STORAGE = subject_snapshot (subject_at p TCS_CLIENT_SUBJECT) /\
  tcs_snapshot_valid (subject_snapshot (subject_at p TCS_CLIENT_SUBJECT)) = true.
Proof.
  intros Hes p. assert (Hp : policy_ok p) by (apply policy_exec_ok; auto with tcs).
  assert (Hv : tcs_snapshot_valid (subject_snapshot (subject_at p TCS_CLIENT_SUBJECT)) = true).
  { destruct (subject_at_ok p TCS_CLIENT_SUBJECT Hp ltac:(policy_lia)) as [_ Hs].
    destruct (subject_at p TCS_CLIENT_SUBJECT) as [g o rt []];
    unfold tcs_snapshot_valid; simpl in *; policy_lia. }
  split; [done|]. split; [|done]. unfold tcs_policy_self_status; simpl. by rewrite Hv.
Qed.

(** A read check answers OK exactly when storage asks about the read right
    on the object, for an existing subject whose session is open under the
    generation it presents; it never changes the policy. *)
Lemma policy_check_iff p actor r :
  policy_ok p -> request_u64 r -> r_op r = TCS_CHECK ->
  fst (tcs_policy_apply p actor r) = p /\
  (status (snd (tcs_policy_apply p actor r)) = TCS_OK <->
   actor = TCS_STORAGE /\ r_subject r < TCS_SUBJECTS /\ r_object r = TCS_OBJECT /\
   r_rights r = TCS_READ /\ admits p (r_subject r) (r_generation r)).
Proof.
  intros Hp Hr Hop. unfold tcs_policy_apply. rewrite Hop. simpl.
  destruct (TCS_SUBJECTS <=? r_subject r) eqn:Hsub; simpl; [split; [done|]; policy_lia|].
  assert (Hi : 0 <= r_subject r < TCS_SUBJECTS) by (destruct Hr as (_ & ? & _); policy_lia).
  destruct (bool_decide (actor = TCS_STORAGE)) eqn:Ha; simpl;
    [apply bool_decide_eq_true in Ha | apply bool_decide_eq_false in Ha];
    [|split; [done|]; unfold result; simpl; policy_unfold; intuition congruence].
  pose proof (set_subject_id p _ Hp Hi) as Hid.
  destruct (subject_at_ok p _ Hp Hi) as [Hg Hst]. unfold apply_to_subject, admits.
  rewrite Hop; simpl. destruct (subject_at p (r_subject r)) as [g o rt st]; simpl in *.
  destruct st; simpl; repeat split_if; simpl; (split; [done|]); policy_lia || idtac.
  all: intuition (try congruence); policy_lia.
Qed.

(** C18. A session that stops admitting reads never admits them again: whatever
    decisions follow, a generation that was open once and is no longer open
    stays rejected, also when the generation counter is exhausted. *)
Theorem session_never_returns p es1 es2 i g :
  policy_ok p -> Forall event_u64 es1 -> Forall event_u64 es2 -> 0 <= i < TCS_SUBJECTS ->
  admits p i g -> ~ admits (exec policy_step p es1) i g ->
  ~ admits (exec policy_step p (es1 ++ es2)) i g.
Proof.
  intros Hp H1 H2 Hi Hopen Hclosed Hagain. rewrite exec_app in Hagain.
  pose proof (policy_exec_ok es1 p H1 Hp) as Hp1.
  pose proof (policy_exec_le es1 p H1 Hp i Hi) as [Hle1 _].
  pose proof (policy_exec_le es2 _ H2 Hp1 i Hi) as [Hle2 Hno].
  apply Hclosed, admits_session. rewrite admits_session in Hopen, Hagain.
  rewrite Hopen in Hle1. rewrite Hagain in Hle2, Hno. simpl in *.
  assert (Hg : s_generation (subject_at (exec policy_step p es1) i) = g) by lia.
  unfold abs_session. by rewrite Hno, Hg.
Qed.

(** Audit failure neither enables access nor prevents isolation: a decision
    without audit acknowledgement reports AUDIT_FULL and opens no session, and
    a well-formed revocation or quarantine by the administrator closes the
    subject's session whether or not the audit acknowledged it. *)
Theorem audit_failure_only_reduces p e :
  policy_ok p -> event_u64 e ->
  (ev_audit_ok e = false ->
     snd (policy_transition p e) = result TCS_AUDIT_FULL 0 /\
     forall i g, 0 <= i < TCS_SUBJECTS -> admits (policy_step p e) i g -> admits p i g) /\
  (is_reduction (ev_request e) = true -> ev_actor e = TCS_ADMIN ->
   r_subject (ev_request e) < TCS_SUBJECTS ->
   well_formed (ev_request e) (s_generation (subject_at p (r_subject (ev_request e)))) ->
   forall g, ~ admits (policy_step p e) (r_subject (ev_request e)) g).
Proof.
  intros Hp He. split.
  - intros Hau. split.
    { unfold policy_transition, tcs_policy_commit. destruct (tcs_policy_apply _ _ _).
      by rewrite Hau. }
    intros i g Hi. by apply unrecorded_only_reduces.
  - intros Hred Hact Hlt Hwf g Had. destruct e as [actor r audit]; simpl in *; subst actor.
    assert (Hi : 0 <= r_subject r < TCS_SUBJECTS) by (destruct He as (_ & ? & _); simpl in *; policy_lia).
    destruct (reduction_step (abs_session (subject_at p (r_subject r))) r Hred)
      as (st' & Hstep & Hclosed).
    destruct (apply_to_subject_complete _ r _ (subject_at_ok p _ Hp Hi) Hstep Hwf)
      as (s' & <- & Happ).
    apply is_reduction_iff in Hred as Hop.
    unfold policy_step, policy_transition in Had; simpl in Had.
    rewrite apply_admitted, Happ in Had; [| |policy_lia|done]; cycle 1.
    { unfold authorized. destruct (r_op r =? TCS_CHECK) eqn:?; [policy_lia|done]. }
    unfold tcs_policy_commit in Had. rewrite Hred, orb_true_r in Had. apply Hclosed.
    rewrite admits_session in Had.
    destruct audit; simpl in Had; rewrite subject_at_set_eq in Had by done; by rewrite Had.
Qed.

(** Non-interference between subjects: a decision about one subject never
    changes another, and generations never decrease. *)
Theorem policy_step_frame p e i :
  policy_ok p -> event_u64 e -> 0 <= i < TCS_SUBJECTS ->
  (i <> r_subject (ev_request e) -> subject_at (policy_step p e) i = subject_at p i) /\
  s_generation (subject_at p i) <= s_generation (subject_at (policy_step p e) i).
Proof.
  intros Hp He Hi. split.
  - intros Hne.
    destruct (policy_step_cases p e Hp He) as [->|(s' & _ & Hr & _ & _ & ->)]; [done|].
    apply subject_at_set_ne; auto; lia.
  - apply (policy_step_le p e He Hp i Hi).
Qed.

(** ** Witnesses *)

Definition request_of (op subject object rights generation : Z) : tcs_request :=
  {| r_op := op; r_subject := subject; r_object := object; r_rights := rights;
     r_generation := generation |}.

Definition admin_event (op subject object rights : Z) (audit : bool) : policy_event :=
  {| ev_actor := TCS_ADMIN; ev_request := request_of op subject object rights 0;
     ev_audit_ok := audit |}.

(** A policy with an open session of the client, under generation 1. *)
Definition policy_granted : tcs_policy :=
  exec policy_step policy_zero [admin_event TCS_GRANT 1 TCS_OBJECT TCS_READ true].

Ltac u64_concrete := repeat (apply List.Forall_cons || apply List.Forall_nil);
  unfold event_u64, request_u64; simpl; policy_lia.

Lemma policy_granted_ok : policy_ok policy_granted.
Proof. apply policy_exec_ok; [u64_concrete|apply policy_zero_ok]. Qed.

Lemma policy_apply_refines_sessions_witness :
  session_step {| ph := Restricted; gen := 0 |} TCS_GRANT {| ph := Active; gen := 1 |}.
Proof.
  destruct (policy_apply_refines_sessions policy_zero TCS_ADMIN
    (request_of TCS_GRANT 1 TCS_OBJECT TCS_READ 0) policy_granted 1) as [H _].
  - apply policy_zero_ok.
  - u64_concrete.
  - destruct (H eq_refl) as (_ & _ & _ & Hstep & _). exact Hstep.
Defined.

Lemma policy_apply_error_unchanged_witness :
  policy_granted = policy_granted /\ 0 = 0.
Proof.
  apply (policy_apply_error_unchanged policy_granted TCS_STORAGE
    (request_of TCS_CHECK 1 TCS_OBJECT TCS_READ 7) policy_granted (result TCS_STALE 0)).
  - apply policy_granted_ok.
  - u64_concrete.
  - reflexivity.
  - discriminate.
Defined.

Lemma policy_run_ok_witness :
  policy_ok (exec policy_step policy_zero [admin_event TCS_GRANT 1 TCS_OBJECT TCS_READ true]).
Proof.
  apply (policy_run_ok [admin_event TCS_GRANT 1 TCS_OBJECT TCS_READ true]). u64_concrete.
Defined.

Lemma session_never_returns_witness :
  ~ admits (exec policy_step policy_granted
     ([admin_event TCS_REVOKE 1 0 0 false] ++ [admin_event TCS_GRANT 1 TCS_OBJECT TCS_READ true]))
     1 1.
Proof.
  apply session_never_returns.
  - apply policy_granted_ok.
  - u64_concrete.
  - u64_concrete.
  - policy_lia.
  - split; reflexivity.
  - intros [H _]. discriminate H.
Defined.

Lemma audit_failure_only_reduces_witness :
  ~ admits (policy_step policy_granted (admin_event TCS_REVOKE 1 0 0 false)) 1 1.
Proof.
  apply (audit_failure_only_reduces policy_granted (admin_event TCS_REVOKE 1 0 0 false)).
  - apply policy_granted_ok.
  - u64_concrete.
  - reflexivity.
  - reflexivity.
  - reflexivity.
  - unfold well_formed; simpl; policy_lia.
Defined.

Lemma policy_step_frame_witness :
  subject_at (policy_step policy_granted (admin_event TCS_REVOKE 2 0 0 true)) 1 =
  subject_at policy_granted 1.
Proof.
  apply (policy_step_frame policy_granted (admin_event TCS_REVOKE 2 0 0 true) 1).
  - apply policy_granted_ok.
  - u64_concrete.
  - policy_lia.
  - discriminate.
Defined.
