(* ===== verification/Admin.v ===== *)
(** Signed administration requests: [lib/admin.c] and [include/tcs/admin.h].

    A packet is a 128-byte message (a domain tag, the realm, the boot identity
    and six little-endian words) followed by a 64-byte signature. Admission
    checks it against one administrator instance and consumes its sequence
    number; completion releases the pending command. The Ed25519 check is the
    vendored Monocypher library and is a parameter. *)

From S2P Require Import Prelude Bytes Policy.

Definition TCS_ADMIN_MESSAGE_BYTES : nat := 128.
Definition TCS_ADMIN_PACKET_BYTES : Z := 192.

Inductive tcs_admin_status :=
| TCS_ADMIN_ACCEPTED
| TCS_ADMIN_NOT_READY
| TCS_ADMIN_BAD_PACKET
| TCS_ADMIN_BAD_CONTEXT
| TCS_ADMIN_BAD_SIGNATURE
| TCS_ADMIN_REPLAY
| TCS_ADMIN_BUSY
| TCS_ADMIN_EXHAUSTED
| TCS_ADMIN_BAD_COMPLETION.

#[export] Instance tcs_admin_status_eq_dec : EqDecision tcs_admin_status.
Proof. solve_decision. Defined.

Definition tcs_admin_status_val (s : tcs_admin_status) : Z :=
  match s with
  | TCS_ADMIN_ACCEPTED => 0
  | TCS_ADMIN_NOT_READY => 1
  | TCS_ADMIN_BAD_PACKET => 2
  | TCS_ADMIN_BAD_CONTEXT => 3
  | TCS_ADMIN_BAD_SIGNATURE => 4
  | TCS_ADMIN_REPLAY => 5
  | TCS_ADMIN_BUSY => 6
  | TCS_ADMIN_EXHAUSTED => 7
  | TCS_ADMIN_BAD_COMPLETION => 8
  end.

Record tcs_admin_command := {
  c_sequence : Z;
  c_expected_generation : Z;
  c_request : tcs_request
}.

#[export] Instance tcs_admin_command_eq_dec : EqDecision tcs_admin_command.
Proof. solve_decision. Defined.

Record tcs_admin := {
  a_public_key : list Z;
  a_realm : list Z;
  a_boot : list Z;
  a_next_sequence : Z;
  a_pending_sequence : Z;
  a_initialized : bool;
  a_exhausted : bool
}.

(** [(struct tcs_admin_command){0}] and a zero-initialized instance. *)
Definition command_zero : tcs_admin_command :=
  {| c_sequence := 0; c_expected_generation := 0;
     c_request := {| r_op := 0; r_subject := 0; r_object := 0; r_rights := 0;
                     r_generation := 0 |} |}.

Definition admin_zero : tcs_admin :=
  {| a_public_key := replicate 32 0; a_realm := replicate 32 0; a_boot := replicate 32 0;
     a_next_sequence := 0; a_pending_sequence := 0; a_initialized := false;
     a_exhausted := false |}.

(** The bytes 'T','C','S','-','A','D','M','I','N','-',1,0,0,0,0,0. *)
Definition domain : list Z := [84; 67; 83; 45; 65; 68; 77; 73; 78; 45; 1; 0; 0; 0; 0; 0].

Definition nonzero (bytes : ptr (list Z)) : bool :=
  match bytes with
  | NULL => false
  | Some b => negb (any_bits b 32 =? 0)
  end.

Definition load64 (p : list Z) : Z := load_le64 p.

(** [store64(buf + off, value)]. *)
Definition store64 (buf : list Z) (off : nat) (value : Z) : list Z := blit buf off (le_bytes value).

(** [copy(to + off, from, length)]. *)
Definition copy (to : list Z) (off : nat) (from : list Z) (length : nat) : list Z :=
  blit to off (take length from).

Definition valid (c : tcs_admin_command) : bool :=
  let r := c_request c in
  if (c_sequence c =? 0) || (TCS_SUBJECTS <=? r_subject r) || negb (r_generation r =? 0)
  then false
  else if r_op r =? TCS_GRANT then (r_object r =? TCS_OBJECT) && (r_rights r =? TCS_READ)
  else ((r_op r =? TCS_REVOKE) || (r_op r =? TCS_QUARANTINE) || (r_op r =? TCS_RESTORE)) &&
       (r_object r =? 0) && (r_rights r =? 0).

Definition tcs_admin_init (a : ptr tcs_admin) (key realm boot : ptr (list Z))
    : bool * ptr tcs_admin :=
  match a, key, realm, boot with
  | Some adm, Some k, Some r, Some b =>
      if a_initialized adm || negb (nonzero key) || negb (nonzero realm) || negb (nonzero boot)
      then (false, a)
      else
        let zero := admin_zero in
        (true,
         Some {| a_public_key := copy (a_public_key zero) 0 k 32;
                 a_realm := copy (a_realm zero) 0 r 32;
                 a_boot := copy (a_boot zero) 0 b 32;
                 a_next_sequence := 1; a_pending_sequence := a_pending_sequence zero;
                 a_initialized := true; a_exhausted := a_exhausted zero |})
  | _, _, _, _ => (false, a)
  end.

Definition tcs_admin_encode (message : ptr (list Z)) (realm boot : ptr (list Z))
    (c : tcs_admin_command) : bool * ptr (list Z) :=
  match message with
  | NULL => (false, NULL)
  | Some m =>
      let m := blit m 0 (replicate TCS_ADMIN_MESSAGE_BYTES 0) in
      match realm, boot with
      | Some rl, Some bt =>
          if negb (nonzero realm) || negb (nonzero boot) || negb (valid c) then (false, Some m)
          else
            let m := copy m 0 domain 16 in
            let m := copy m 16 rl 32 in
            let m := copy m 48 bt 32 in
            let m := store64 m 80 (c_sequence c) in
            let m := store64 m 88 (r_op (c_request c)) in
            let m := store64 m 96 (r_subject (c_request c)) in
            let m := store64 m 104 (r_object (c_request c)) in
            let m := store64 m 112 (r_rights (c_request c)) in
            let m := store64 m 120 (c_expected_generation c) in
            (true, Some m)
      | _, _ => (false, Some m)
      end
  end.

(** The command the fields of a packet spell. *)
Definition packet_command (packet : list Z) : tcs_admin_command :=
  {| c_sequence := load64 (drop 80 packet);
     c_expected_generation := load64 (drop 120 packet);
     c_request := {| r_op := load64 (drop 88 packet); r_subject := load64 (drop 96 packet);
                     r_object := load64 (drop 104 packet); r_rights := load64 (drop 112 packet);
                     r_generation := 0 |} |}.

Arguments packet_command : simpl never.

(** Admission consumes the sequence number before anything is forwarded. *)
Definition consume (a : tcs_admin) (sequence : Z) : tcs_admin :=
  {| a_public_key := a_public_key a; a_realm := a_realm a; a_boot := a_boot a;
     a_next_sequence :=
       if sequence =? UINT64_MAX then a_next_sequence a else wrap64 (a_next_sequence a + 1);
     a_pending_sequence := sequence; a_initialized := a_initialized a;
     a_exhausted := if sequence =? UINT64_MAX then true else a_exhausted a |}.

Section Admission.
(** [crypto_ed25519_check(signature, public_key, message, message_size)]:
    0 when the signature is valid. *)
Context (crypto_ed25519_check : list Z -> list Z -> list Z -> Z).

(** Returns the status, the instance and the caller's command object. *)
Definition tcs_admin_admit (a : ptr tcs_admin) (packet : ptr (list Z)) (length : Z)
    (command : ptr tcs_admin_command)
    : tcs_admin_status * ptr tcs_admin * ptr tcs_admin_command :=
  match command with
  | NULL => (TCS_ADMIN_BAD_PACKET, a, NULL)
  | Some _ =>
  let command := Some command_zero in
  match a with
  | NULL => (TCS_ADMIN_NOT_READY, a, command)
  | Some adm =>
  if negb (a_initialized adm) then (TCS_ADMIN_NOT_READY, a, command)
  else if truthy (a_pending_sequence adm) then (TCS_ADMIN_BUSY, a, command)
  else if a_exhausted adm then (TCS_ADMIN_EXHAUSTED, a, command)
  else match packet with
  | NULL => (TCS_ADMIN_BAD_PACKET, a, command)
  | Some p =>
  if negb (length =? TCS_ADMIN_PACKET_BYTES) || negb (equal p domain 16)
  then (TCS_ADMIN_BAD_PACKET, a, command)
  else
  let c := packet_command p in
  if negb (valid c) then (TCS_ADMIN_BAD_PACKET, a, command)
  else if negb (equal (drop 16 p) (a_realm adm) 32) || negb (equal (drop 48 p) (a_boot adm) 32)
  then (TCS_ADMIN_BAD_CONTEXT, a, command)
  else if negb (c_sequence c =? a_next_sequence adm) then (TCS_ADMIN_REPLAY, a, command)
  else if negb (crypto_ed25519_check (slice p 128 64) (a_public_key adm) (take 128 p) =? 0)
  then (TCS_ADMIN_BAD_SIGNATURE, a, command)
  else (TCS_ADMIN_ACCEPTED, Some (consume adm (c_sequence c)), Some c)
  end end end.
End Admission.

Definition tcs_admin_complete (a : ptr tcs_admin) (sequence : Z)
    : tcs_admin_status * ptr tcs_admin :=
  match a with
  | NULL => (TCS_ADMIN_NOT_READY, a)
  | Some adm =>
      if negb (a_initialized adm) then (TCS_ADMIN_NOT_READY, a)
      else if (sequence =? 0) || negb (a_pending_sequence adm =? sequence)
      then (TCS_ADMIN_BAD_COMPLETION, a)
      else
        (TCS_ADMIN_ACCEPTED,
         Some {| a_public_key := a_public_key adm; a_realm := a_realm adm; a_boot := a_boot adm;
                 a_next_sequence := a_next_sequence adm; a_pending_sequence := 0;
                 a_initialized := a_initialized adm; a_exhausted := a_exhausted adm |})
  end.

(** ** Instances, histories and their invariant *)

Definition command_u64 (c : tcs_admin_command) : Prop :=
  u64 (c_sequence c) /\ u64 (c_expected_generation c) /\ u64 (r_op (c_request c)) /\
  u64 (r_subject (c_request c)) /\ u64 (r_object (c_request c)) /\ u64 (r_rights (c_request c)).

(** The identity of an instance set up by [tcs_admin_init]. *)
Definition admin_identity_ok (a : tcs_admin) : Prop :=
  length (a_realm a) = 32%nat /\ length (a_boot a) = 32%nat /\
  nonzero (Some (a_realm a)) = true /\ nonzero (Some (a_boot a)) = true.

(** The public signed message of a command. *)
Definition message_of (realm boot : list Z) (c : tcs_admin_command) : list Z :=
  domain ++ realm ++ boot ++ le_bytes (c_sequence c) ++ le_bytes (r_op (c_request c)) ++
  le_bytes (r_subject (c_request c)) ++ le_bytes (r_object (c_request c)) ++
  le_bytes (r_rights (c_request c)) ++ le_bytes (c_expected_generation c).

(** What the owner of an instance may do with it, and what it observes. *)
Inductive admin_event := Admit (packet : list Z) (length : Z) | Complete (sequence : Z).
Inductive admin_log := Accepted (sequence : Z) | Completed (sequence : Z).

Section History.
Context (crypto_ed25519_check : list Z -> list Z -> list Z -> Z).

Definition admin_step (s : ptr tcs_admin * list admin_log) (e : admin_event)
    : ptr tcs_admin * list admin_log :=
  let '(a, log) := s in
  match e with
  | Admit p len =>
      match tcs_admin_admit crypto_ed25519_check a (Some p) len (Some command_zero) with
      | (TCS_ADMIN_ACCEPTED, a', Some c) => (a', log ++ [Accepted (c_sequence c)])
      | (_, a', _) => (a', log)
      end
  | Complete sequence =>
      match tcs_admin_complete a sequence with
      | (TCS_ADMIN_ACCEPTED, a') => (a', log ++ [Completed sequence])
      | (_, a') => (a', log)
      end
  end.
End History.

(** The first [k] commands, each admitted and then completed. *)
Definition history (k : nat) : list admin_log :=
  flat_map (fun i => [Accepted (Z.of_nat i); Completed (Z.of_nat i)]) (seq 1 k).

(** ** Encoding *)

Lemma encode_layout m realm boot c :
  (TCS_ADMIN_MESSAGE_BYTES <= length m)%nat -> length realm = 32%nat -> length boot = 32%nat ->
  nonzero (Some realm) = true -> nonzero (Some boot) = true -> valid c = true ->
  tcs_admin_encode (Some m) (Some realm) (Some boot) c =
    (true, Some (message_of realm boot c ++ drop TCS_ADMIN_MESSAGE_BYTES m)).
Proof.
  intros Hm Hr Hb Hnr Hnb Hv. unfold tcs_admin_encode. rewrite Hnr, Hnb, Hv.
  cbn [negb orb]. do 2 f_equal.
  rewrite <- (take_drop TCS_ADMIN_MESSAGE_BYTES m) at 1.
  unfold TCS_ADMIN_MESSAGE_BYTES in *.
  rewrite blit_here by (rewrite length_take, length_replicate; lia).
  change (replicate 128 0) with
    (replicate 16 0 ++ replicate 32 0 ++ replicate 32 0 ++ replicate 8 0 ++ replicate 8 0 ++
     replicate 8 0 ++ replicate 8 0 ++ replicate 8 0 ++ replicate 8 0).
  unfold copy, store64, message_of.
  rewrite (take_ge realm), (take_ge boot) by lia.
  change (take 16 domain) with domain. rewrite <- !app_assoc. layout. done.
Qed.

Lemma message_of_length realm boot c :
  length realm = 32%nat -> length boot = 32%nat -> length (message_of realm boot c) = 128%nat.
Proof. intros Hr Hb. unfold message_of. rewrite !length_app, Hr, Hb. reflexivity. Qed.

Lemma packet_command_message realm boot c rest :
  length realm = 32%nat -> length boot = 32%nat -> command_u64 c ->
  r_generation (c_request c) = 0 ->
  packet_command (message_of realm boot c ++ rest) = c.
Proof.
  intros Hr Hb (? & ? & ? & ? & ? & ?) Hg.
  pose proof (message_of_length realm boot c Hr Hb) as Hlen.
  unfold packet_command, load64.
  rewrite !load_le64_slice by (rewrite length_app; lia).
  unfold message_of. rewrite <- !app_assoc. layout.
  rewrite <- (app_nil_r (le_bytes (c_sequence c))),
    <- (app_nil_r (le_bytes (c_expected_generation c))),
    <- (app_nil_r (le_bytes (r_op _))), <- (app_nil_r (le_bytes (r_subject _))),
    <- (app_nil_r (le_bytes (r_object _))), <- (app_nil_r (le_bytes (r_rights _))).
  rewrite !load_le_bytes by done.
  destruct c as [s g [op su ob ri ge]]; simpl in *. by subst.
Qed.

Lemma le_bytes_slice p o :
  (o + 8 <= length p)%nat -> byte_list p -> le_bytes (load64 (drop o p)) = slice p o 8.
Proof.
  intros Hlen Hp. unfold load64, slice. rewrite le_bytes_load; [done| |by apply Forall_drop].
  rewrite length_drop. lia.
Qed.

Lemma message_of_packet p :
  (TCS_ADMIN_MESSAGE_BYTES <= length p)%nat -> byte_list p -> take 16 p = domain ->
  take TCS_ADMIN_MESSAGE_BYTES p =
    message_of (slice p 16 32) (slice p 48 32) (packet_command p).
Proof.
  unfold TCS_ADMIN_MESSAGE_BYTES. intros Hlen Hp Hd.
  unfold message_of. rewrite <- Hd.
  unfold packet_command. cbn [r_op r_subject r_object r_rights c_request c_sequence c_expected_generation].
  rewrite !le_bytes_slice by (done || lia).
  change (take 128 p) with (slice p 0 (16 + (32 + (32 + (8 + (8 + (8 + (8 + (8 + 8))))))))).
  by rewrite !slice_split.
Qed.

Lemma packet_command_u64 p :
  (TCS_ADMIN_MESSAGE_BYTES <= length p)%nat -> byte_list p -> command_u64 (packet_command p).
Proof.
  unfold TCS_ADMIN_MESSAGE_BYTES. intros Hlen Hp.
  unfold packet_command, load64. repeat split; simpl;
  (apply load_le64_range; [rewrite length_drop; lia | by apply Forall_drop]).
Qed.

Lemma valid_generation c : valid c = true -> r_generation (c_request c) = 0.
Proof. unfold valid. split_if; [done|]. lia. Qed.

(** ** Admission *)

Section AdmitLemmas.
Context (check : list Z -> list Z -> list Z -> Z).
#[local] Abbreviation admission := (tcs_admin_admit check).

(** Every rejection leaves the instance alone and clears the command. *)
Lemma admit_rejected a p len command :
  fst (fst (admission a p len command)) <> TCS_ADMIN_ACCEPTED ->
  admission a p len command =
    (fst (fst (admission a p len command)), a, command ≫= fun _ => Some command_zero).
Proof.
  unfold tcs_admin_admit. intros H.
  destruct command, a, p; repeat split_if; simpl in *; done.
Qed.

(** Admission of a packet, as the conjunction of its checks. *)
Lemma admit_accepted_iff a p len c0 a' c :
  admission (Some a) (Some p) len (Some c0) = (TCS_ADMIN_ACCEPTED, a', c) <->
  a_initialized a = true /\ a_pending_sequence a = 0 /\ a_exhausted a = false /\
  len = TCS_ADMIN_PACKET_BYTES /\ equal p domain 16 = true /\
  valid (packet_command p) = true /\ equal (drop 16 p) (a_realm a) 32 = true /\
  equal (drop 48 p) (a_boot a) 32 = true /\
  c_sequence (packet_command p) = a_next_sequence a /\
  check (slice p 128 64) (a_public_key a) (take 128 p) = 0 /\
  a' = Some (consume a (c_sequence (packet_command p))) /\ c = Some (packet_command p).
Proof.
  unfold tcs_admin_admit. cbv zeta. split.
  - intros H. repeat split_if; try discriminate. inv_pair.
    unfold truthy in *. repeat split; try lia;
    bools; auto; by destruct (a_exhausted a).
  - intros (-> & -> & -> & -> & -> & -> & -> & -> & Hs & -> & -> & ->). simpl.
    simpl in Hs. by rewrite Hs, Z.eqb_refl.
Qed.
End AdmitLemmas.

Lemma equal_slice p off field n :
  (off + n <= length p)%nat -> length field = n ->
  equal (drop off p) field n = true <-> slice p off n = field.
Proof.
  intros Hp Hf. rewrite equal_spec by (rewrite ?length_drop; lia).
  unfold slice. by rewrite (take_ge field) by lia.
Qed.

(** Encoding into a fresh 128-byte buffer. *)
Lemma encode_message a c :
  admin_identity_ok a -> valid c = true ->
  tcs_admin_encode (Some (replicate TCS_ADMIN_MESSAGE_BYTES 0)) (Some (a_realm a))
    (Some (a_boot a)) c = (true, Some (message_of (a_realm a) (a_boot a) c)).
Proof.
  intros (Hr & Hb & Hnr & Hnb) Hv.
  rewrite encode_layout; auto.
  by rewrite drop_ge, app_nil_r by (by rewrite length_replicate).
Qed.

Lemma encode_valid m realm boot c m' :
  tcs_admin_encode m realm boot c = (true, m') -> valid c = true.
Proof.
  unfold tcs_admin_encode. destruct m, realm, boot; try discriminate.
  intros H. split_if; [discriminate|]. by destruct (valid c); rewrite ?orb_true_r in *.
Qed.

(** The checks on the contents of a packet say that it starts with the
    encoding of the command its fields spell. *)
Lemma packet_checks_iff a p c :
  admin_identity_ok a -> byte_list p -> length p = 192%nat ->
  (take 16 p = take 16 domain /\ valid (packet_command p) = true /\
   slice p 16 32 = a_realm a /\ slice p 48 32 = a_boot a /\ c = packet_command p) <->
  (command_u64 c /\
   tcs_admin_encode (Some (replicate TCS_ADMIN_MESSAGE_BYTES 0)) (Some (a_realm a))
     (Some (a_boot a)) c = (true, Some (take TCS_ADMIN_MESSAGE_BYTES p))).
Proof.
  intros Ha Hp Hlen.
  assert (Hm : (TCS_ADMIN_MESSAGE_BYTES <= length p)%nat)
    by (rewrite Hlen; unfold TCS_ADMIN_MESSAGE_BYTES; lia).
  split.
  - intros (Hd & Hv & Hr & Hb & ->). split; [by apply packet_command_u64|].
    rewrite encode_message by done. by rewrite message_of_packet, Hr, Hb.
  - intros (Hc & Henc). pose proof (encode_valid _ _ _ _ _ Henc) as Hv.
    rewrite encode_message in Henc by done. injection Henc as Hmsg.
    destruct Ha as (Hr & Hb & _).
    pose proof (take_drop TCS_ADMIN_MESSAGE_BYTES p) as Hpc. rewrite <- Hmsg in Hpc.
    set (rest := drop TCS_ADMIN_MESSAGE_BYTES p) in Hpc. clearbody rest.
    rewrite <- Hpc, packet_command_message by auto using valid_generation.
    unfold message_of. rewrite <- !app_assoc. split_and!; auto; by layout.
Qed.

(** ** Properties *)

(** C23. Admission is exact: an initialized, idle instance accepts a 192-byte
    packet as command [c] precisely when [c] carries the next sequence number,
    the packet's first 128 bytes are the encoding of [c] for the instance's
    realm and boot identity, and the last 64 bytes are a valid signature of
    them. Whatever is accepted is therefore exactly what was signed, byte for
    byte, and everything that encodes and is signed in turn is accepted. *)
Theorem admit_accepts_iff check a p len c0 c a' :
  admin_identity_ok a -> byte_list p -> length p = Z.to_nat TCS_ADMIN_PACKET_BYTES ->
  tcs_admin_admit check (Some a) (Some p) len (Some c0) =
    (TCS_ADMIN_ACCEPTED, Some a', Some c) <->
  len = TCS_ADMIN_PACKET_BYTES /\ a_initialized a = true /\ a_pending_sequence a = 0 /\
  a_exhausted a = false /\ command_u64 c /\ c_sequence c = a_next_sequence a /\
  tcs_admin_encode (Some (replicate TCS_ADMIN_MESSAGE_BYTES 0)) (Some (a_realm a))
    (Some (a_boot a)) c = (true, Some (take TCS_ADMIN_MESSAGE_BYTES p)) /\
  check (slice p 128 64) (a_public_key a) (take TCS_ADMIN_MESSAGE_BYTES p) = 0 /\
  a' = consume a (c_sequence c).
Proof.
  intros Ha Hp Hlen. change (length p = 192%nat) in Hlen.
  rewrite admit_accepted_iff, !equal_slice by (try apply Ha; lia).
  rewrite (equal_spec p domain 16) by (try (simpl; lia); lia).
  pose proof (packet_checks_iff a p c Ha Hp Hlen) as Hiff. split.
  - intros (Hi & Hpe & He & -> & Hd & Hv & Hre & Hbo & Hs & Hc & [= ->] & [= ->]).
    destruct Hiff as [[Hcu Henc] _]; [done|]. by split_and!.
  - intros (-> & Hi & Hpe & He & Hc & Hs & Henc & Hck & ->).
    destruct Hiff as [_ (Hd & Hv & Hre & Hbo & ->)]; [done|]. by split_and!.
Qed.

(** ** Histories *)

Lemma history_succ k :
  history (S k) = history k ++ [Accepted (Z.of_nat (S k)); Completed (Z.of_nat (S k))].
Proof. unfold history. by rewrite seq_S, flat_map_app. Qed.

(** [k] commands are done, and [pending] tells whether the next one is admitted
    and not completed. *)
Inductive admin_progress : nat -> ptr tcs_admin * list admin_log -> Prop :=
| progress_idle k a :
    a_initialized a = true -> a_pending_sequence a = 0 ->
    (if a_exhausted a then Z.of_nat k = UINT64_MAX
     else a_next_sequence a = Z.of_nat k + 1 /\ Z.of_nat k < UINT64_MAX) ->
    admin_progress k (Some a, history k)
| progress_pending k a :
    a_initialized a = true -> a_pending_sequence a = Z.of_nat k + 1 ->
    (if a_exhausted a then Z.of_nat k + 1 = UINT64_MAX
     else a_next_sequence a = Z.of_nat k + 2 /\ Z.of_nat k + 1 < UINT64_MAX) ->
    admin_progress k (Some a, history k ++ [Accepted (Z.of_nat k + 1)]).

Lemma progress_admit check k a log p len :
  admin_progress k (Some a, log) ->
  admin_progress k (admin_step check (Some a, log) (Admit p len)).
Proof.
  intros Hprog. unfold admin_step.
  destruct (tcs_admin_admit check (Some a) (Some p) len (Some command_zero)) as [[st a'] c] eqn:H.
  destruct (decide (st = TCS_ADMIN_ACCEPTED)) as [->|Hne].
  - apply admit_accepted_iff in H as (Hi & Hpe & He & _ & _ & _ & _ & _ & Hs & _ & -> & ->).
    inversion Hprog as [k' a' Hi' Hp' Hx|k' a' Hi' Hp' Hx]; subst; [|lia].
    rewrite He in Hx. destruct Hx as [Hn Hlt]. rewrite Hs, Hn.
    constructor; simpl; [done..|]. rewrite Hn, He.
    destruct (Z.of_nat k + 1 =? UINT64_MAX) eqn:Hmax; [lia|].
    rewrite wrap64_small by word_lia. lia.
  - pose proof (admit_rejected check (Some a) (Some p) len (Some command_zero)) as Hrej.
    rewrite H in Hrej. simpl in Hrej. specialize (Hrej Hne). injection Hrej as -> ->.
    by destruct st.
Qed.

Lemma progress_complete check k a log sequence :
  admin_progress k (Some a, log) ->
  exists k', admin_progress k' (admin_step check (Some a, log) (Complete sequence)).
Proof.
  intros Hprog. unfold admin_step, tcs_admin_complete.
  destruct (negb (a_initialized a)) eqn:Hi; [by exists k|].
  destruct ((sequence =? 0) || negb (a_pending_sequence a =? sequence)) eqn:Hseq; [by exists k|].
  inversion Hprog as [k' a' Hi' Hp' Hx|k' a' Hi' Hp' Hx]; subst; [lia|].
  exists (S k). assert (sequence = Z.of_nat (S k)) as -> by lia.
  replace (Z.of_nat k + 1) with (Z.of_nat (S k)) by lia.
  rewrite <- app_assoc. change ([?x] ++ [?y]) with [x; y]. rewrite <- history_succ.
  constructor; simpl; [done..|]. destruct (a_exhausted a); lia.
Qed.

(** Exactly once, in order, one at a time: after any sequence of packets
    (replayed, forged, truncated, reordered) and completions (late, repeated,
    for the wrong command), what a freshly initialized instance has accepted
    and completed is the history 1, 2, ..., k of consecutive sequence numbers,
    each completed before the next is accepted, possibly followed by one
    accepted command that is still pending. *)
Theorem admin_accepts_in_order check a key realm boot es s :
  tcs_admin_init (Some admin_zero) key realm boot = (true, a) ->
  s = exec (admin_step check) (a, []) es ->
  exists k, snd s = history k \/ snd s = history k ++ [Accepted (Z.of_nat k + 1)].
Proof.
  intros Hinit ->.
  assert (Hstep : forall s e, True -> (exists k, admin_progress k s) ->
    exists k, admin_progress k (admin_step check s e)).
  { intros s e _ [k Hk]. inversion Hk; subst; destruct e;
    eauto using progress_admit, progress_complete. }
  assert (H0 : exists k, admin_progress k (a, [])).
  { exists 0%nat. unfold tcs_admin_init in Hinit. destruct key, realm, boot; try discriminate.
    split_if; [discriminate|]. inv_pair. apply (progress_idle 0); simpl; done || word_lia. }
  destruct (exec_invariant (admin_step check) (fun _ => True) _ Hstep es (a, [])
    (Forall_true _ es (fun _ => I)) H0) as [k Hk].
  exists k. inversion Hk; subst; simpl; auto.
Qed.

(** A packet that is not accepted leaves the instance unchanged, sequence
    number included, and hands out the zero command; so does a completion that
    does not name the one pending command. *)
Theorem admin_errors_unchanged check a p len c0 sequence :
  (fst (fst (tcs_admin_admit check a p len (Some c0))) <> TCS_ADMIN_ACCEPTED ->
   snd (fst (tcs_admin_admit check a p len (Some c0))) = a /\
   snd (tcs_admin_admit check a p len (Some c0)) = Some command_zero) /\
  (fst (tcs_admin_complete a sequence) = TCS_ADMIN_ACCEPTED <->
   sequence <> 0 /\ exists adm, a = Some adm /\ a_initialized adm = true /\
     a_pending_sequence adm = sequence) /\
  (fst (tcs_admin_complete a sequence) <> TCS_ADMIN_ACCEPTED ->
   snd (tcs_admin_complete a sequence) = a).
Proof.
  split; [|split].
  - intros Hne. by rewrite admit_rejected.
  - unfold tcs_admin_complete. destruct a as [adm|];
      [|split; [done|]; intros (_ & ? & ? & _); done].
    destruct (a_initialized adm) eqn:Hi; simpl;
      [|split; [done|]; intros (_ & ? & [= <-] & ? & _); congruence].
    split_if; simpl; [|split; [intros _; split; [lia|]; exists adm; split_and!; auto; lia|done]].
    split; [done|]. intros (Hs & ? & [= <-] & _ & Hp). lia.
  - unfold tcs_admin_complete. destruct a as [adm|]; [|done].
    by repeat split_if.
Qed.

(** ** Witnesses *)

(** An instance over non-zero identities, a command and its signed packet; the
    signature check is instantiated with a function that accepts one constant
    signature. *)
Definition example_key : list Z := replicate 32 7.
Definition example_realm : list Z := replicate 32 8.
Definition example_boot : list Z := replicate 32 9.
Definition example_signature : list Z := replicate 64 3.
Definition example_check (signature key message : list Z) : Z :=
  if bool_decide (signature = example_signature) then 0 else -1.

Definition example_admin : tcs_admin :=
  {| a_public_key := example_key; a_realm := example_realm; a_boot := example_boot;
     a_next_sequence := 1; a_pending_sequence := 0; a_initialized := true;
     a_exhausted := false |}.

Definition example_command : tcs_admin_command :=
  {| c_sequence := 1; c_expected_generation := 0;
     c_request := {| r_op := TCS_GRANT; r_subject := 1; r_object := TCS_OBJECT;
                     r_rights := TCS_READ; r_generation := 0 |} |}.

Definition example_packet : list Z :=
  message_of example_realm example_boot example_command ++ example_signature.

Lemma admit_accepts_iff_witness :
  tcs_admin_admit example_check (Some example_admin) (Some example_packet) 192
    (Some command_zero) =
    (TCS_ADMIN_ACCEPTED, Some (consume example_admin 1), Some example_command).
Proof.
  apply (admit_accepts_iff example_check example_admin example_packet 192 command_zero
    example_command (consume example_admin 1)).
  - vm_compute. auto.
  - vm_compute. repeat constructor; discriminate.
  - reflexivity.
  - split_and!; try reflexivity. vm_compute. repeat split; discriminate.
Defined.

Lemma admin_accepts_in_order_witness :
  exists k, [Accepted 1] = history k \/ [Accepted 1] = history k ++ [Accepted (Z.of_nat k + 1)].
Proof.
  refine (admin_accepts_in_order example_check (Some example_admin) (Some example_key)
    (Some example_realm) (Some example_boot)
    [Admit example_packet 192; Admit example_packet 192; Complete 2]
    (Some (consume example_admin 1), [Accepted 1]) _ _); vm_compute; reflexivity.
Defined.
