(* ===== verification/Receipt.v ===== *)
(** Conditional execution of a signed command and its receipt:
    [lib/admin_policy.c], [lib/admin_receipt.c] and the execution step of
    [servers/admin_policy.c].

    The policy owner compares the subject's generation with the one the command
    expects, applies the request to a candidate, commits it through the audit
    rule and reports the outcome; the administrator accepts a receipt only if
    it is one of the outcomes the command can have. *)

From S2P Require Import Prelude Policy Admin.

(** ** Definitions *)

Definition tcs_policy_admin_compare_apply (candidate : ptr tcs_policy) (actor : tcs_actor)
    (c : tcs_admin_command) : ptr tcs_policy * tcs_result :=
  if negb (bool_decide (actor = TCS_ADMIN)) then (candidate, result TCS_DENIED 0)
  else
    match candidate with
    | NULL => (candidate, result TCS_BAD_MESSAGE 0)
    | Some p =>
        if (c_sequence c =? 0) || (TCS_SUBJECTS <=? r_subject (c_request c)) ||
           (r_op (c_request c) <? TCS_GRANT) || (TCS_RESTORE <? r_op (c_request c)) ||
           (r_op (c_request c) =? TCS_CHECK)
        then (candidate, result TCS_BAD_MESSAGE 0)
        else if negb (s_generation (subject_at p (r_subject (c_request c))) =?
                      c_expected_generation c)
        then (candidate, result TCS_STALE 0)
        else
          let '(p', res) := tcs_policy_apply p actor (c_request c) in
          (Some p', res)
    end.

Record tcs_admin_receipt := {
  rc_command : tcs_admin_command;
  rc_decision : Z;
  rc_audit_ok : Z;
  rc_applied : Z;
  rc_post : tcs_snapshot
}.

#[export] Instance tcs_admin_receipt_eq_dec : EqDecision tcs_admin_receipt.
Proof. solve_decision. Defined.

Definition tcs_admin_execution_valid (c : tcs_admin_command) : bool :=
  let r := c_request c in
  if (c_sequence c =? 0) || (TCS_SUBJECTS <=? r_subject r) || truthy (r_generation r)
  then false
  else if r_op r =? TCS_GRANT then (r_object r =? TCS_OBJECT) && (r_rights r =? TCS_READ)
  else ((r_op r =? TCS_REVOKE) || (r_op r =? TCS_QUARANTINE) || (r_op r =? TCS_RESTORE)) &&
       (r_object r =? 0) && (r_rights r =? 0).

(** A C [bool] stored as a [uint64_t]. *)
Definition bool_word (b : bool) : Z := if b then 1 else 0.

Definition tcs_admin_receipt_valid (c : tcs_admin_command) (r : tcs_admin_receipt) : bool :=
  let e := rc_command r in
  let op := r_op (c_request c) in
  let post := rc_post r in
  if negb (tcs_admin_execution_valid c) || negb (tcs_admin_execution_valid e) ||
     negb (c_sequence c =? c_sequence e) ||
     negb (c_expected_generation c =? c_expected_generation e) ||
     negb (op =? r_op (c_request e)) ||
     negb (r_subject (c_request c) =? r_subject (c_request e)) ||
     negb (r_object (c_request c) =? r_object (c_request e)) ||
     negb (r_rights (c_request c) =? r_rights (c_request e)) ||
     (1 <? rc_audit_ok r) || (1 <? rc_applied r) || negb (tcs_snapshot_valid post)
  then false
  else
    let reduction := (op =? TCS_REVOKE) || (op =? TCS_QUARANTINE) in
    let applied := (rc_decision r =? TCS_OK) && (truthy (rc_audit_ok r) || reduction) in
    if negb (rc_applied r =? bool_word applied) then false
    else if rc_decision r =? TCS_STALE then
      negb (n_generation post =? c_expected_generation c)
    else if negb (rc_decision r =? TCS_OK) then
      if negb (n_generation post =? c_expected_generation c) then false
      else
        ((rc_decision r =? TCS_ISOLATED) && (op =? TCS_GRANT) &&
           (n_state post =? tcs_state_val TCS_QUARANTINED)) ||
        ((rc_decision r =? TCS_DENIED) && (op =? TCS_RESTORE) &&
           negb (n_state post =? tcs_state_val TCS_QUARANTINED)) ||
        ((rc_decision r =? TCS_EXHAUSTED) && (op =? TCS_GRANT) &&
           (n_generation post =? UINT64_MAX) &&
           negb (n_state post =? tcs_state_val TCS_QUARANTINED))
    else if (op =? TCS_GRANT) && (c_expected_generation c =? UINT64_MAX) then false
    else
      let generation :=
        if applied && negb (c_expected_generation c =? UINT64_MAX)
        then wrap64 (c_expected_generation c + 1) else c_expected_generation c in
      if negb (n_generation post =? generation) then false
      else if negb applied then
        if op =? TCS_RESTORE then n_state post =? tcs_state_val TCS_QUARANTINED
        else (op =? TCS_GRANT) && negb (n_state post =? tcs_state_val TCS_QUARANTINED)
      else if op =? TCS_GRANT then n_state post =? tcs_state_val TCS_ACTIVE
      else if op =? TCS_QUARANTINE then n_state post =? tcs_state_val TCS_QUARANTINED
      else if op =? TCS_RESTORE then n_state post =? tcs_state_val TCS_RESTRICTED
      else negb (n_state post =? tcs_state_val TCS_ACTIVE).

(** The execution of an in-sequence command by the policy owner: the candidate
    is a copy of the live policy, [audit_ok] the answer of the audit server. *)
Definition admin_decision (live : tcs_policy) (c : tcs_admin_command)
    : tcs_policy * tcs_result :=
  match tcs_policy_admin_compare_apply (Some live) TCS_ADMIN c with
  | (Some candidate, decision) => (candidate, decision)
  | (NULL, decision) => (live, decision)
  end.

Definition admin_receipt (live : tcs_policy) (c : tcs_admin_command) (decision : tcs_result)
    (audit_ok : bool) : tcs_admin_receipt :=
  {| rc_command := c; rc_decision := status decision; rc_audit_ok := bool_word audit_ok;
     rc_applied := bool_word ((status decision =? TCS_OK) &&
                              (audit_ok || is_reduction (c_request c)));
     rc_post := subject_snapshot (subject_at live (r_subject (c_request c))) |}.

Definition admin_execute (live : tcs_policy) (c : tcs_admin_command) (audit_ok : bool)
    : tcs_policy * tcs_admin_receipt :=
  let '(candidate, decision) := admin_decision live c in
  let '(live', _) := tcs_policy_commit live candidate (c_request c) decision audit_ok in
  (live', admin_receipt live' c decision audit_ok).

(** ** Execution, seen from the one subject it concerns *)

Definition execute_subject (s : tcs_subject) (c : tcs_admin_command) (audit_ok : bool)
    : tcs_subject * tcs_result :=
  let '(s', d) :=
    if s_generation s =? c_expected_generation c then apply_to_subject s (c_request c)
    else (s, result TCS_STALE 0) in
  (if (status d =? TCS_OK) && (audit_ok || is_reduction (c_request c)) then s' else s, d).

Definition subject_receipt (c : tcs_admin_command) (audit_ok : bool)
    (post : tcs_subject * tcs_result) : tcs_admin_receipt :=
  {| rc_command := c; rc_decision := status (snd post); rc_audit_ok := bool_word audit_ok;
     rc_applied := bool_word ((status (snd post) =? TCS_OK) &&
                              (audit_ok || is_reduction (c_request c)));
     rc_post := subject_snapshot (fst post) |}.

(** The four shapes of a valid command. *)
Lemma execution_valid_cases c :
  tcs_admin_execution_valid c = true <->
  c_sequence c <> 0 /\ r_subject (c_request c) < TCS_SUBJECTS /\
  exists op object rights,
    c_request c = request_of op (r_subject (c_request c)) object rights 0 /\
    (op = TCS_GRANT /\ object = TCS_OBJECT /\ rights = TCS_READ \/
     (op = TCS_REVOKE \/ op = TCS_QUARANTINE \/ op = TCS_RESTORE) /\ object = 0 /\ rights = 0).
Proof.
  unfold tcs_admin_execution_valid, request_of.
  destruct c as [sq eg [op su ob ri ge]]; cbn -[TCS_SUBJECTS TCS_GRANT]. split.
  - intros H. split_if; [done|]. unfold truthy in *.
    split; [lia|]. split; [lia|]. exists op, ob, ri.
    assert (ge = 0) as -> by lia. split; [done|].
    destruct (op =? TCS_GRANT) eqn:Hop; [left | right]; lia.
  - intros (Hs & Hsu & op' & ob' & ri' & [= -> -> -> ->] & Hcase). unfold truthy.
    destruct Hcase as [(-> & -> & ->)|([-> | [-> | ->]] & -> & ->)]; simpl;
    (destruct (_ || _) eqn:?; [policy_lia|done]).
Qed.

Lemma set_subject_self_commit p i s' (b : bool) :
  policy_ok p -> 0 <= i < TCS_SUBJECTS ->
  (if b then set_subject p i s' else p) = set_subject p i (if b then s' else subject_at p i).
Proof. intros Hp Hi. destruct b; [done|]. by rewrite set_subject_id. Qed.

Lemma admin_execute_subject p c audit_ok :
  policy_ok p -> command_u64 c -> tcs_admin_execution_valid c = true ->
  let post := execute_subject (subject_at p (r_subject (c_request c))) c audit_ok in
  admin_execute p c audit_ok =
    (set_subject p (r_subject (c_request c)) (fst post), subject_receipt c audit_ok post).
Proof.
  intros Hp (_ & _ & Hop & Hsub & _) Hv. cbv zeta.
  apply execution_valid_cases in Hv as (Hseq & Hlt & op & ob & ri & Hr & Hcase).
  assert (Hi : 0 <= r_subject (c_request c) < TCS_SUBJECTS) by word_lia.
  set (i := r_subject (c_request c)) in *.
  assert (Hops : r_op (c_request c) = op) by by rewrite Hr.
  unfold admin_execute, admin_decision, tcs_policy_admin_compare_apply. fold i.
  rewrite Hops. rewrite bool_decide_eq_true_2 by done. simpl negb. cbv iota.
  destruct (_ || _ || _ || _ || _) eqn:Hguard; [policy_lia|]. clear Hguard.
  unfold execute_subject.
  destruct (s_generation (subject_at p i) =? c_expected_generation c) eqn:Hgen; simpl negb; cbv iota.
  - rewrite apply_admitted; fold i; [|unfold authorized; rewrite Hops|rewrite Hops; policy_lia|lia].
    2: { destruct (op =? TCS_CHECK) eqn:?; [policy_lia|done]. }
    destruct (apply_to_subject (subject_at p i) (c_request c)) as [s' d].
    unfold tcs_policy_commit. rewrite set_subject_self_commit by done.
    destruct audit_ok; cbn [negb]; unfold admin_receipt, subject_receipt; fold i;
    by rewrite subject_at_set_eq.
  - unfold tcs_policy_commit. simpl status. rewrite set_subject_id by done.
    by destruct audit_ok.
Qed.

(** ** Snapshots determine well-formed subjects *)

Definition snapshot_u64 (n : tcs_snapshot) : Prop :=
  u64 (n_status n) /\ u64 (n_state n) /\ u64 (n_generation n) /\ u64 (n_object n) /\
  u64 (n_rights n).

Lemma snapshot_valid_subject n :
  snapshot_u64 n -> tcs_snapshot_valid n = true ->
  exists s, subject_ok s /\ subject_snapshot s = n.
Proof.
  destruct n as [st state g o rt]. unfold snapshot_u64, tcs_snapshot_valid; simpl.
  intros (Hst & Hs & Hg & Ho & Hr) Hv. split_if; [done|].
  assert (Hcase : state = 0 \/ state = 1 \/ state = 2) by policy_lia.
  exists {| s_generation := g; s_object := o; s_rights := rt;
            s_state := if state =? 1 then TCS_ACTIVE
                       else if state =? 2 then TCS_QUARANTINED else TCS_RESTRICTED |}.
  unfold subject_ok, subject_snapshot. assert (st = TCS_OK) as -> by policy_lia.
  destruct Hcase as [-> | [-> | ->]]; simpl in *; split_and!; auto; lia.
Qed.

Lemma subject_snapshot_valid s : subject_ok s -> tcs_snapshot_valid (subject_snapshot s) = true.
Proof.
  intros [_ Hs]. destruct s as [g o rt []]; unfold tcs_snapshot_valid; simpl in *; policy_lia.
Qed.

(** ** Receipts *)

(** Everything but the outcome: the receipt is about the pending command. *)
Lemma receipt_command c r :
  tcs_admin_receipt_valid c r = true -> tcs_admin_execution_valid c = true ->
  rc_command r = c.
Proof.
  unfold tcs_admin_receipt_valid. intros H Hc.
  match type of H with (if ?b then _ else _) = _ => destruct b eqn:Hb; [done|] end.
  clear H. bools. apply execution_valid_cases in Hc as (_ & _ & op & ob & ri & Hc & _).
  match goal with He : tcs_admin_execution_valid (rc_command r) = true |- _ =>
    apply execution_valid_cases in He as (_ & _ & op' & ob' & ri' & He & _) end.
  destruct c as [sq eg [o s b i g]], (rc_command r) as [sq' eg' [o' s' b' i' g']].
  unfold request_of in *. simpl in *. by simplify_eq.
Qed.

Lemma bool_word_truthy b : truthy (bool_word b) = b.
Proof. by destruct b. Qed.

Lemma execute_subject_ok s c audit_ok :
  subject_ok s -> tcs_admin_execution_valid c = true ->
  subject_ok (fst (execute_subject s c audit_ok)).
Proof.
  intros Hs Hv. unfold execute_subject.
  destruct (s_generation s =? c_expected_generation c); [|by split_if].
  destruct (apply_to_subject s (c_request c)) as [s' [st v]] eqn:Happ.
  split_if; [|done]. bools. simpl in *. subst st.
  apply apply_to_subject_sound in Happ as [? _]; try done.
  apply execution_valid_cases in Hv as (_ & _ & op & ob & ri & -> & Hcase).
  simpl. policy_lia.
Qed.

(** The part of the receipt check that is about the outcome. *)
Definition outcome_valid (op expected : Z) (audit_ok : bool) (decision generation state : Z) : bool :=
  let applied := (decision =? TCS_OK) && (audit_ok || ((op =? TCS_REVOKE) || (op =? TCS_QUARANTINE))) in
  if decision =? TCS_STALE then negb (generation =? expected)
  else if negb (decision =? TCS_OK) then
    if negb (generation =? expected) then false
    else
      ((decision =? TCS_ISOLATED) && (op =? TCS_GRANT) && (state =? 2)) ||
      ((decision =? TCS_DENIED) && (op =? TCS_RESTORE) && negb (state =? 2)) ||
      ((decision =? TCS_EXHAUSTED) && (op =? TCS_GRANT) && (generation =? UINT64_MAX) &&
       negb (state =? 2))
  else if (op =? TCS_GRANT) && (expected =? UINT64_MAX) then false
  else if negb (generation =?
      if applied && negb (expected =? UINT64_MAX) then wrap64 (expected + 1) else expected)
  then false
  else if negb applied then
    if op =? TCS_RESTORE then state =? 2 else (op =? TCS_GRANT) && negb (state =? 2)
  else if op =? TCS_GRANT then state =? 1
  else if op =? TCS_QUARANTINE then state =? 2
  else if op =? TCS_RESTORE then state =? 0
  else negb (state =? 1).

Lemma receipt_valid_outcome c r :
  tcs_admin_execution_valid c = true -> rc_command r = c ->
  tcs_admin_receipt_valid c r = true <->
  rc_audit_ok r <= 1 /\ rc_applied r <= 1 /\ tcs_snapshot_valid (rc_post r) = true /\
  rc_applied r = bool_word ((rc_decision r =? TCS_OK) &&
    (truthy (rc_audit_ok r) || is_reduction (c_request c))) /\
  outcome_valid (r_op (c_request c)) (c_expected_generation c) (truthy (rc_audit_ok r))
    (rc_decision r) (n_generation (rc_post r)) (n_state (rc_post r)) = true.
Proof.
  intros Hv Hrc. unfold tcs_admin_receipt_valid. rewrite Hrc, Hv, !Z.eqb_refl.
  cbn [negb orb]. cbv zeta.
  destruct (1 <? rc_audit_ok r) eqn:H1; [split; [done|lia]|].
  destruct (1 <? rc_applied r) eqn:H2; [split; [done|lia]|].
  destruct (tcs_snapshot_valid (rc_post r)) eqn:H3; cbn [negb orb]; [|split; [done|intuition done]].
  fold (is_reduction (c_request c)).
  destruct (rc_applied r =? _) eqn:H4; cbn [negb]; [|split; [done|lia]].
  split; [intros H; split_and!; try done; lia|intuition].
Qed.
Lemma outcome_complete s c audit_ok :
  subject_ok s -> command_u64 c -> tcs_admin_execution_valid c = true ->
  outcome_valid (r_op (c_request c)) (c_expected_generation c) audit_ok
    (status (snd (execute_subject s c audit_ok)))
    (s_generation (fst (execute_subject s c audit_ok)))
    (tcs_state_val (s_state (fst (execute_subject s c audit_ok)))) = true.
Proof.
  intros [Hg Hs] (_ & He & _) Hv.
  apply execution_valid_cases in Hv as (_ & _ & op & ob & ri & Hr & Hcase).
  unfold execute_subject, is_reduction. rewrite Hr. clear Hr. simpl r_op.
  destruct (s_generation s =? c_expected_generation c) eqn:Hgen.
  2: { unfold outcome_valid. simpl. by rewrite Hgen. }
  apply Z.eqb_eq in Hgen. rewrite <- Hgen in *. clear Hgen He. unfold apply_to_subject.
  destruct s as [g o rt st]; simpl in Hg.
  destruct Hcase as [(-> & -> & ->)|([-> | [-> | ->]] & -> & ->)]; destruct st, audit_ok; simpl;
  destruct (g =? UINT64_MAX) eqn:Hmax; simpl; unfold outcome_valid; simpl; rewrite ?Hmax, ?Z.eqb_refl; simpl; rewrite ?Z.eqb_refl;
  try done; rewrite ?Hmax; try done.
Qed.

(** The subject an outcome came from. *)
Definition outcome_pre (op expected decision : Z) (applied : bool) (post : tcs_subject)
    : tcs_subject :=
  if (decision =? TCS_OK) && applied then
    {| s_generation := expected; s_object := 0; s_rights := 0;
       s_state :=
         if (op =? TCS_RESTORE) ||
            ((op =? TCS_REVOKE) && bool_decide (s_state post = TCS_QUARANTINED))
         then TCS_QUARANTINED else TCS_RESTRICTED |}
  else post.

Lemma outcome_sound c audit_ok decision post :
  subject_ok post -> u64 (c_expected_generation c) -> tcs_admin_execution_valid c = true ->
  outcome_valid (r_op (c_request c)) (c_expected_generation c) audit_ok decision
    (s_generation post) (tcs_state_val (s_state post)) = true ->
  let pre := outcome_pre (r_op (c_request c)) (c_expected_generation c) decision
               (audit_ok || is_reduction (c_request c)) post in
  subject_ok pre /\ fst (execute_subject pre c audit_ok) = post /\
  status (snd (execute_subject pre c audit_ok)) = decision.
Proof.
  intros [Hg Hs] He Hv.
  apply execution_valid_cases in Hv as (_ & _ & op & ob & ri & Hr & Hcase).
  unfold execute_subject, is_reduction. rewrite Hr. clear Hr. simpl r_op.
  set (e := c_expected_generation c) in *. clearbody e.
  unfold outcome_valid, outcome_pre, apply_to_subject. cbv zeta.
  destruct post as [g o rt st]; simpl in Hg, Hs. intros Hout.
  destruct Hcase as [(-> & -> & ->)|([-> | [-> | ->]] & -> & ->)]; destruct st, audit_ok.
  all: simpl in *; destruct_and?; subst.
  all: repeat (split_if; simpl in *; try discriminate; try policy_lia).
  all: unfold subject_ok; simpl; split_and!; try done; try policy_lia.
  all: f_equal; rewrite ?wrap64_succ in * by policy_lia; policy_lia.
Qed.

Lemma tcs_state_val_inj s1 s2 : tcs_state_val s1 = tcs_state_val s2 -> s1 = s2.
Proof. by destruct s1, s2. Qed.

(** A policy whose subject [i] is [s]. *)
Lemma policy_with_subject i s :
  0 <= i < TCS_SUBJECTS -> subject_ok s ->
  policy_ok (set_subject policy_zero i s) /\ subject_at (set_subject policy_zero i s) i = s.
Proof.
  intros Hi Hs. split; [apply set_subject_ok|apply subject_at_set_eq];
  auto using policy_zero_ok.
Qed.

Definition receipt_u64 (r : tcs_admin_receipt) : Prop :=
  u64 (rc_decision r) /\ u64 (rc_audit_ok r) /\ u64 (rc_applied r) /\ snapshot_u64 (rc_post r).

(** The execution of a valid command always produces a receipt its check accepts. *)
Lemma admin_execute_receipt_valid p c audit_ok :
  policy_ok p -> command_u64 c -> tcs_admin_execution_valid c = true ->
  tcs_admin_receipt_valid c (snd (admin_execute p c audit_ok)) = true.
Proof.
  intros Hp Hc Hv. rewrite admin_execute_subject by done. simpl.
  assert (Hi : 0 <= r_subject (c_request c) < TCS_SUBJECTS).
  { apply execution_valid_cases in Hv as (_ & Hlt & _). destruct Hc as (_ & _ & _ & ? & _).
    word_lia. }
  pose proof (subject_at_ok p _ Hp Hi) as Hs.
  apply receipt_valid_outcome; [done..|]. unfold subject_receipt; simpl.
  rewrite bool_word_truthy. split_and!.
  - by destruct audit_ok.
  - by destruct (_ && _).
  - by apply subject_snapshot_valid, execute_subject_ok.
  - done.
  - by apply outcome_complete.
Qed.

Lemma admin_execute_ok p c audit_ok :
  policy_ok p -> command_u64 c -> tcs_admin_execution_valid c = true ->
  policy_ok (fst (admin_execute p c audit_ok)).
Proof.
  intros Hp Hc Hv. rewrite admin_execute_subject by done.
  apply set_subject_ok; [done|]. apply execute_subject_ok; [|done].
  apply subject_at_ok; [done|]. apply execution_valid_cases in Hv as (_ & Hlt & _).
  destruct Hc as (_ & _ & _ & ? & _). word_lia.
Qed.

(** ** Properties *)

(** The receipt check is exact: for a valid pending command, it accepts a
    receipt if and only if some well-formed policy and some audit answer make
    the policy owner's execution of that command produce precisely that
    receipt. It rejects every impossible outcome and no possible one. *)
Theorem receipt_valid_iff c r :
  command_u64 c -> receipt_u64 r -> tcs_admin_execution_valid c = true ->
  tcs_admin_receipt_valid c r = true <->
  exists p audit_ok, policy_ok p /\ snd (admin_execute p c audit_ok) = r.
Proof.
  intros Hc (Hd & Ha & Hap & Hn) Hv. split.
  - intros Hr. pose proof (receipt_command c r Hr Hv) as Hrc.
    apply receipt_valid_outcome in Hr as (Ha1 & Hap1 & Hsnap & Happ & Hout); [|done..].
    destruct (snapshot_valid_subject _ Hn Hsnap) as (post & Hpost & Hsn).
    rewrite <- Hsn in Hout. simpl in Hout.
    destruct (outcome_sound c (truthy (rc_audit_ok r)) _ post Hpost (proj1 (proj2 Hc)) Hv Hout)
      as (Hpre & Hex & Hst).
    assert (Hi : 0 <= r_subject (c_request c) < TCS_SUBJECTS).
    { apply execution_valid_cases in Hv as (_ & Hlt & _). destruct Hc as (_ & _ & _ & ? & _).
      word_lia. }
    destruct (policy_with_subject _ _ Hi Hpre) as [Hp Hat].
    eexists _, (truthy (rc_audit_ok r)). split; [exact Hp|].
    rewrite admin_execute_subject by done. rewrite Hat. simpl.
    unfold subject_receipt. rewrite Hex, Hst, Hsn, <- Happ.
    assert (Haw : bool_word (truthy (rc_audit_ok r)) = rc_audit_ok r).
    { unfold truthy. destruct (rc_audit_ok r =? 0) eqn:?; simpl; word_lia. }
    rewrite Haw, <- Hrc. by destruct r.
  - intros (p & audit_ok & Hp & <-). by apply admin_execute_receipt_valid.
Qed.

(** Compare-and-apply: an administrator's command reaches the policy only
    if the subject's generation is the one the command expects. If it is not,
    the answer is STALE and nothing changes; if it is, the outcome is that of
    the plain policy operation, so a command prepared against an outdated
    snapshot never takes effect. *)
Theorem compare_apply_checks_generation p c p' res :
  policy_ok p -> command_u64 c -> c_sequence c <> 0 -> r_subject (c_request c) < TCS_SUBJECTS ->
  TCS_GRANT <= r_op (c_request c) <= TCS_RESTORE -> r_op (c_request c) <> TCS_CHECK ->
  tcs_policy_admin_compare_apply (Some p) TCS_ADMIN c = (Some p', res) <->
  (s_generation (subject_at p (r_subject (c_request c))) = c_expected_generation c /\
     tcs_policy_apply p TCS_ADMIN (c_request c) = (p', res)) \/
  (s_generation (subject_at p (r_subject (c_request c))) <> c_expected_generation c /\
     p' = p /\ res = result TCS_STALE 0).
Proof.
  intros Hp Hc Hseq Hsub Hop Hck. unfold tcs_policy_admin_compare_apply.
  rewrite bool_decide_eq_true_2 by done. simpl negb. cbv iota.
  match goal with |- context [if ?b then _ else _] => destruct b eqn:Hg; [lia|] end.
  destruct (Z.eqb_spec (s_generation (subject_at p (r_subject (c_request c))))
    (c_expected_generation c)) as [Heq|Hne]; simpl.
  - destruct (tcs_policy_apply _ _ _) as [p1 res1]. split.
    + intros [= -> ->]. by left.
    + intros [[_ [= -> ->]]|[? _]]; done.
  - split.
    + intros [= <- <-]. by right.
    + intros [[? _]|(_ & -> & ->)]; done.
Qed.

(** ** Witnesses *)

(** The receipt of revoking the client's session of [policy_granted] while the
    audit is full: applied all the same. *)
Definition example_revoke : tcs_admin_command :=
  {| c_sequence := 2; c_expected_generation := 1;
     c_request := request_of TCS_REVOKE 1 0 0 0 |}.

Definition example_receipt : tcs_admin_receipt :=
  {| rc_command := example_revoke; rc_decision := TCS_OK; rc_audit_ok := 0; rc_applied := 1;
     rc_post := {| n_status := TCS_OK; n_state := 0; n_generation := 2; n_object := 0;
                   n_rights := 0 |} |}.

Lemma receipt_valid_iff_witness : tcs_admin_receipt_valid example_revoke example_receipt = true.
Proof.
  apply (receipt_valid_iff example_revoke example_receipt).
  - unfold command_u64; simpl. policy_lia.
  - unfold receipt_u64, snapshot_u64; simpl. policy_lia.
  - reflexivity.
  - exists policy_granted, false. split; [apply policy_granted_ok|reflexivity].
Defined.

Lemma compare_apply_checks_generation_witness :
  tcs_policy_admin_compare_apply (Some policy_zero) TCS_ADMIN example_revoke =
    (Some policy_zero, result TCS_STALE 0).
Proof.
  apply (compare_apply_checks_generation policy_zero example_revoke policy_zero
    (result TCS_STALE 0)).
  - apply policy_zero_ok.
  - unfold command_u64; simpl. policy_lia.
  - discriminate.
  - reflexivity.
  - simpl. policy_lia.
  - discriminate.
  - right. split; [discriminate|split; reflexivity].
Defined.
