(* ===== verification/Lifecycle.v ===== *)
(** The worker-lifecycle model: [lib/lifecycle.c] and
    [include/tcs/lifecycle.h].

    Two one-use slots hold successive incarnations of a worker. An event names
    its operation, slot, incarnation and sequence; it is checked against the
    structural validity of the state, the rights of its actor and the phase of
    the slot, and either commits one transition or leaves the state alone. *)

From S2P Require Import Prelude.

(** ** Data *)

Definition TCS_LC_SLOTS : Z := 2.

(** [enum tcs_lc_state], stored as a [uint64_t]. *)
Definition TCS_LC_UNUSED : Z := 0.
Definition TCS_LC_STARTING : Z := 1.
Definition TCS_LC_READY : Z := 2.
Definition TCS_LC_ACTIVE : Z := 3.
Definition TCS_LC_CLOSING : Z := 4.
Definition TCS_LC_RETIRED : Z := 5.

Inductive tcs_lc_actor :=
| TCS_LC_UNKNOWN
| TCS_LC_ADMIN
| TCS_LC_SUPERVISOR
| TCS_LC_BROKER
| TCS_LC_DETECTOR
| TCS_LC_WORKER.

#[export] Instance tcs_lc_actor_eq_dec : EqDecision tcs_lc_actor.
Proof. solve_decision. Defined.

(** [enum tcs_lc_op]; events carry the operation as a [uint64_t]. *)
Definition TCS_LC_RESERVE : Z := 1.
Definition TCS_LC_STARTED : Z := 2.
Definition TCS_LC_ACTIVATE : Z := 3.
Definition TCS_LC_BEGIN : Z := 4.
Definition TCS_LC_COMPLETE : Z := 5.
Definition TCS_LC_CONTAIN : Z := 6.
Definition TCS_LC_STOPPED : Z := 7.
Definition TCS_LC_DRAINED : Z := 8.

(** [enum tcs_lc_status]. *)
Definition TCS_LC_OK : Z := 0.
Definition TCS_LC_INVALID : Z := 1.
Definition TCS_LC_DENIED : Z := 2.
Definition TCS_LC_STALE : Z := 3.
Definition TCS_LC_BAD_STATE : Z := 4.
Definition TCS_LC_AUDIT_REQUIRED : Z := 5.
Definition TCS_LC_EXHAUSTED : Z := 6.

Record tcs_lc_slot := {
  l_state : Z;
  l_incarnation : Z;
  l_issued : Z;
  l_pending : Z;
  l_stopped : Z;
  l_drained : Z
}.

(** [slots[TCS_LC_SLOTS]] with its two elements. *)
Record tcs_lifecycle := {
  last_incarnation : Z;
  slot0 : tcs_lc_slot;
  slot1 : tcs_lc_slot
}.

Record tcs_lc_event := { e_op : Z; e_slot : Z; e_incarnation : Z; e_sequence : Z }.
Record tcs_lc_result := { l_status : Z; l_value : Z }.

#[export] Instance tcs_lc_slot_eq_dec : EqDecision tcs_lc_slot.
Proof. solve_decision. Defined.
#[export] Instance tcs_lifecycle_eq_dec : EqDecision tcs_lifecycle.
Proof. solve_decision. Defined.
#[export] Instance tcs_lc_result_eq_dec : EqDecision tcs_lc_result.
Proof. solve_decision. Defined.

Definition slot_zero : tcs_lc_slot :=
  {| l_state := TCS_LC_UNUSED; l_incarnation := 0; l_issued := 0; l_pending := 0;
     l_stopped := 0; l_drained := 0 |}.
Definition lifecycle_zero : tcs_lifecycle :=
  {| last_incarnation := 0; slot0 := slot_zero; slot1 := slot_zero |}.

(** [life->slots[i]]; every use is behind a guard or a loop bound
    [i < TCS_LC_SLOTS]. *)
Definition slot_at (life : tcs_lifecycle) (i : Z) : tcs_lc_slot :=
  if i =? 0 then slot0 life else slot1 life.

Definition set_slot (life : tcs_lifecycle) (i : Z) (s : tcs_lc_slot) : tcs_lifecycle :=
  if i =? 0
  then {| last_incarnation := last_incarnation life; slot0 := s; slot1 := slot1 life |}
  else {| last_incarnation := last_incarnation life; slot0 := slot0 life; slot1 := s |}.

(** The iterations of [for (i = 0; i < TCS_LC_SLOTS; ++i)]. *)
Definition lc_indices : list Z := [0; 1].

(** ** Structural validity *)

(** One iteration of the loop of [tcs_lc_valid] that does not return false;
    [earlier] lists the slots [j < i]. *)
Definition slot_valid (last : Z) (earlier : list tcs_lc_slot) (s : tcs_lc_slot) : bool :=
  if (TCS_LC_RETIRED <? l_state s) || (1 <? l_stopped s) || (1 <? l_drained s) then false
  else if l_state s =? TCS_LC_UNUSED then
    negb (truthy (l_incarnation s) || truthy (l_issued s) || truthy (l_pending s) ||
          truthy (l_stopped s) || truthy (l_drained s))
  else if negb (truthy (l_incarnation s)) || (last <? l_incarnation s) ||
          (truthy (l_pending s) && negb (l_pending s =? l_issued s))
  then false
  else if existsb (fun t => l_incarnation s =? l_incarnation t) earlier then false
  else if ((l_state s =? TCS_LC_STARTING) || (l_state s =? TCS_LC_READY)) &&
          (truthy (l_issued s) || truthy (l_pending s))
  then false
  else if (l_state s <? TCS_LC_CLOSING) && (truthy (l_stopped s) || truthy (l_drained s))
  then false
  else if truthy (l_drained s) && truthy (l_pending s) then false
  else if (l_state s =? TCS_LC_CLOSING) && truthy (l_stopped s) && truthy (l_drained s)
  then false
  else if (l_state s =? TCS_LC_RETIRED) &&
          (negb (truthy (l_stopped s)) || negb (truthy (l_drained s)) || truthy (l_pending s))
  then false
  else true.

(** The contribution of a slot to the [occupied] count. *)
Definition slot_occupied (s : tcs_lc_slot) : Z :=
  if (l_state s =? TCS_LC_UNUSED) || (l_state s =? TCS_LC_RETIRED) then 0 else 1.

Definition tcs_lc_valid (life : ptr tcs_lifecycle) : bool :=
  match life with
  | NULL => false
  | Some l =>
      slot_valid (last_incarnation l) [] (slot0 l) &&
      slot_valid (last_incarnation l) [slot0 l] (slot1 l) &&
      (slot_occupied (slot0 l) + slot_occupied (slot1 l) <=? 1)
  end.

Definition tcs_lc_allows (life : ptr tcs_lifecycle) (slot incarnation : Z) : bool :=
  match life with
  | NULL => false
  | Some l =>
      tcs_lc_valid life && (slot <? TCS_LC_SLOTS) && truthy incarnation &&
      (l_state (slot_at l slot) =? TCS_LC_ACTIVE) &&
      (l_incarnation (slot_at l slot) =? incarnation)
  end.

(** ** Transitions *)

Definition permitted (actor : tcs_lc_actor) (op : Z) : bool :=
  if (op =? TCS_LC_RESERVE) || (op =? TCS_LC_ACTIVATE) then
    bool_decide (actor = TCS_LC_ADMIN)
  else if (op =? TCS_LC_STARTED) || (op =? TCS_LC_STOPPED) then
    bool_decide (actor = TCS_LC_SUPERVISOR)
  else if (op =? TCS_LC_BEGIN) || (op =? TCS_LC_COMPLETE) || (op =? TCS_LC_DRAINED) then
    bool_decide (actor = TCS_LC_BROKER)
  else if op =? TCS_LC_CONTAIN then
    bool_decide (actor = TCS_LC_ADMIN) || bool_decide (actor = TCS_LC_SUPERVISOR) ||
    bool_decide (actor = TCS_LC_DETECTOR)
  else false.

Definition result (st v : Z) : tcs_lc_result := {| l_status := st; l_value := v |}.

Definition with_state (s : tcs_lc_slot) (v : Z) : tcs_lc_slot :=
  {| l_state := v; l_incarnation := l_incarnation s; l_issued := l_issued s;
     l_pending := l_pending s; l_stopped := l_stopped s; l_drained := l_drained s |}.
Definition with_work (s : tcs_lc_slot) (issued pending : Z) : tcs_lc_slot :=
  {| l_state := l_state s; l_incarnation := l_incarnation s; l_issued := issued;
     l_pending := pending; l_stopped := l_stopped s; l_drained := l_drained s |}.

(** The last lines of the STOPPED and DRAINED cases. *)
Definition confirm (s : tcs_lc_slot) (pending stopped drained : Z) : tcs_lc_slot :=
  {| l_state :=
       if truthy stopped && truthy drained then TCS_LC_RETIRED else l_state s;
     l_incarnation := l_incarnation s; l_issued := l_issued s; l_pending := pending;
     l_stopped := stopped; l_drained := drained |}.

(** The switch of [tcs_lc_apply] on the copy [next]: an error status, or the
    new copy and the value to report. *)
Definition lc_switch (next : tcs_lifecycle) (e : tcs_lc_event) (audit_ok : bool)
    : Z + (tcs_lifecycle * Z) :=
  let s := slot_at next (e_slot e) in
  let commit s' := set_slot next (e_slot e) s' in
  if e_op e =? TCS_LC_RESERVE then
    if negb (l_state s =? TCS_LC_UNUSED) then inl TCS_LC_BAD_STATE
    else if existsb (fun i => negb (l_state (slot_at next i) =? TCS_LC_UNUSED) &&
                              negb (l_state (slot_at next i) =? TCS_LC_RETIRED)) lc_indices
    then inl TCS_LC_BAD_STATE
    else if last_incarnation next =? UINT64_MAX then inl TCS_LC_EXHAUSTED
    else if negb audit_ok then inl TCS_LC_AUDIT_REQUIRED
    else
      let incarnation := wrap64 (last_incarnation next + 1) in
      let next' := set_slot next (e_slot e)
        {| l_state := TCS_LC_STARTING; l_incarnation := incarnation; l_issued := l_issued s;
           l_pending := l_pending s; l_stopped := l_stopped s; l_drained := l_drained s |} in
      inr ({| last_incarnation := incarnation; slot0 := slot0 next'; slot1 := slot1 next' |},
           incarnation)
  else if e_op e =? TCS_LC_STARTED then
    if negb (l_state s =? TCS_LC_STARTING) then inl TCS_LC_BAD_STATE
    else inr (commit (with_state s TCS_LC_READY), l_incarnation s)
  else if e_op e =? TCS_LC_ACTIVATE then
    if negb (l_state s =? TCS_LC_READY) then inl TCS_LC_BAD_STATE
    else if negb audit_ok then inl TCS_LC_AUDIT_REQUIRED
    else inr (commit (with_state s TCS_LC_ACTIVE), l_incarnation s)
  else if e_op e =? TCS_LC_BEGIN then
    if negb (l_state s =? TCS_LC_ACTIVE) || truthy (l_pending s) then inl TCS_LC_BAD_STATE
    else if l_issued s =? UINT64_MAX then inl TCS_LC_EXHAUSTED
    else
      let issued := wrap64 (l_issued s + 1) in
      inr (commit (with_work s issued issued), issued)
  else if e_op e =? TCS_LC_COMPLETE then
    if negb (l_state s =? TCS_LC_ACTIVE) then inl TCS_LC_BAD_STATE
    else if negb (l_pending s =? e_sequence e) then inl TCS_LC_STALE
    else inr (commit (with_work s (l_issued s) 0), e_sequence e)
  else if e_op e =? TCS_LC_CONTAIN then
    if (l_state s <? TCS_LC_STARTING) || (TCS_LC_ACTIVE <? l_state s) then inl TCS_LC_BAD_STATE
    else inr (commit (with_state s TCS_LC_CLOSING), l_incarnation s)
  else if (e_op e =? TCS_LC_STOPPED) || (e_op e =? TCS_LC_DRAINED) then
    if negb (l_state s =? TCS_LC_CLOSING) then inl TCS_LC_BAD_STATE
    else if negb (e_sequence e =? l_issued s) then inl TCS_LC_STALE
    else if e_op e =? TCS_LC_STOPPED then
      if truthy (l_stopped s) then inl TCS_LC_BAD_STATE
      else inr (commit (confirm s (l_pending s) 1 (l_drained s)), l_incarnation s)
    else
      if truthy (l_drained s) then inl TCS_LC_BAD_STATE
      else inr (commit (confirm s 0 (l_stopped s) 1), l_incarnation s)
  else inl TCS_LC_INVALID.

Definition tcs_lc_apply (life : ptr tcs_lifecycle) (actor : tcs_lc_actor) (e : tcs_lc_event)
    (audit_ok : bool) : ptr tcs_lifecycle * tcs_lc_result :=
  match life with
  | NULL => (life, result TCS_LC_INVALID 0)
  | Some l =>
  if negb (tcs_lc_valid life) || (TCS_LC_SLOTS <=? e_slot e) ||
     (e_op e <? TCS_LC_RESERVE) || (TCS_LC_DRAINED <? e_op e)
  then (life, result TCS_LC_INVALID 0)
  else if negb (permitted actor (e_op e)) then (life, result TCS_LC_DENIED 0)
  else if (negb (e_op e =? TCS_LC_COMPLETE) && negb (e_op e =? TCS_LC_STOPPED) &&
           negb (e_op e =? TCS_LC_DRAINED) && truthy (e_sequence e)) ||
          ((e_op e =? TCS_LC_COMPLETE) && negb (truthy (e_sequence e))) ||
          (if e_op e =? TCS_LC_RESERVE then negb (e_incarnation e =? 0)
           else e_incarnation e =? 0)
  then (life, result TCS_LC_INVALID 0)
  else if negb (e_op e =? TCS_LC_RESERVE) &&
          negb (e_incarnation e =? l_incarnation (slot_at l (e_slot e)))
  then (life, result TCS_LC_STALE 0)
  else match lc_switch l e audit_ok with
  | inl err => (life, result err 0)
  | inr (next, value) => (Some next, result TCS_LC_OK value)
  end end.

(** ** Well-formedness, in arithmetic *)

Ltac lc_unfold :=
  unfold TCS_LC_SLOTS, TCS_LC_UNUSED, TCS_LC_STARTING, TCS_LC_READY, TCS_LC_ACTIVE,
    TCS_LC_CLOSING, TCS_LC_RETIRED, TCS_LC_RESERVE, TCS_LC_STARTED, TCS_LC_ACTIVATE,
    TCS_LC_BEGIN, TCS_LC_COMPLETE, TCS_LC_CONTAIN, TCS_LC_STOPPED, TCS_LC_DRAINED,
    TCS_LC_OK, TCS_LC_INVALID, TCS_LC_DENIED, TCS_LC_STALE, TCS_LC_BAD_STATE,
    TCS_LC_AUDIT_REQUIRED, TCS_LC_EXHAUSTED in *.
Ltac lc_lia := lc_unfold; word_lia.

Definition slot_u64 (s : tcs_lc_slot) : Prop :=
  u64 (l_state s) /\ u64 (l_incarnation s) /\ u64 (l_issued s) /\ u64 (l_pending s) /\
  u64 (l_stopped s) /\ u64 (l_drained s).

Definition event_u64 (e : tcs_lc_event) : Prop :=
  u64 (e_op e) /\ u64 (e_slot e) /\ u64 (e_incarnation e) /\ u64 (e_sequence e).

(** What [tcs_lc_valid] demands of one slot. *)
Definition slot_shape (last : Z) (s : tcs_lc_slot) : Prop :=
  (l_state s = TCS_LC_UNUSED /\ l_incarnation s = 0 /\ l_issued s = 0 /\ l_pending s = 0 /\
   l_stopped s = 0 /\ l_drained s = 0) \/
  (TCS_LC_STARTING <= l_state s <= TCS_LC_RETIRED /\ 1 <= l_incarnation s <= last /\
   (l_pending s = 0 \/ l_pending s = l_issued s) /\
   0 <= l_stopped s <= 1 /\ 0 <= l_drained s <= 1 /\
   (l_state s <= TCS_LC_READY -> l_issued s = 0 /\ l_pending s = 0) /\
   (l_state s < TCS_LC_CLOSING -> l_stopped s = 0 /\ l_drained s = 0) /\
   (l_drained s = 1 -> l_pending s = 0) /\
   (l_state s = TCS_LC_CLOSING -> l_stopped s = 0 \/ l_drained s = 0) /\
   (l_state s = TCS_LC_RETIRED -> l_stopped s = 1 /\ l_drained s = 1)).

(** A lifecycle the code accepts, with its fields in range. *)
Definition lc_wf (l : tcs_lifecycle) : Prop :=
  u64 (last_incarnation l) /\ slot_u64 (slot0 l) /\ slot_u64 (slot1 l) /\
  tcs_lc_valid (Some l) = true.

Lemma slot_valid_shape last earlier s :
  slot_u64 s ->
  slot_valid last earlier s = true <->
  slot_shape last s /\
  (l_state s <> TCS_LC_UNUSED ->
   existsb (fun t => l_incarnation s =? l_incarnation t) earlier = false).
Proof.
  destruct s as [st inc iss pe stp dr]. unfold slot_u64, slot_valid, slot_shape; simpl.
  intros (? & ? & ? & ? & ? & ?).
  destruct (existsb _ earlier); (split; [intros Hf|intros [Hf Hex]]);
  repeat split_if; try discriminate; try done; lc_lia.
Qed.

Lemma lc_valid_iff l :
  slot_u64 (slot0 l) -> slot_u64 (slot1 l) ->
  tcs_lc_valid (Some l) = true <->
  slot_shape (last_incarnation l) (slot0 l) /\ slot_shape (last_incarnation l) (slot1 l) /\
  (l_state (slot1 l) <> TCS_LC_UNUSED -> l_incarnation (slot1 l) <> l_incarnation (slot0 l)) /\
  slot_occupied (slot0 l) + slot_occupied (slot1 l) <= 1.
Proof.
  intros H0 H1. unfold tcs_lc_valid. rewrite !andb_true_iff, Z.leb_le.
  rewrite !slot_valid_shape by done. simpl. rewrite orb_false_r, Z.eqb_neq. tauto.
Qed.

(** ** Reference transition system *)

Definition mk_slot (st inc iss pe stp dr : Z) : tcs_lc_slot :=
  {| l_state := st; l_incarnation := inc; l_issued := iss; l_pending := pe;
     l_stopped := stp; l_drained := dr |}.

Definition mk_event (op slot inc seq : Z) : tcs_lc_event :=
  {| e_op := op; e_slot := slot; e_incarnation := inc; e_sequence := seq |}.

(** [slot_step last s e audit last' s' v]: with [last] the last incarnation
    given out, event [e] turns slot [s] into [s'], reports [v] and leaves
    [last'] as the last incarnation. *)
Inductive slot_step (last : Z) : tcs_lc_slot -> tcs_lc_event -> bool -> Z -> tcs_lc_slot -> Z -> Prop :=
| do_reserve i :
    last < UINT64_MAX ->
    slot_step last slot_zero (mk_event TCS_LC_RESERVE i 0 0) true
      (last + 1) (mk_slot TCS_LC_STARTING (last + 1) 0 0 0 0) (last + 1)
| do_started i inc audit :
    slot_step last (mk_slot TCS_LC_STARTING inc 0 0 0 0) (mk_event TCS_LC_STARTED i inc 0) audit
      last (mk_slot TCS_LC_READY inc 0 0 0 0) inc
| do_activate i inc :
    slot_step last (mk_slot TCS_LC_READY inc 0 0 0 0) (mk_event TCS_LC_ACTIVATE i inc 0) true
      last (mk_slot TCS_LC_ACTIVE inc 0 0 0 0) inc
| do_begin i inc n audit :
    n < UINT64_MAX ->
    slot_step last (mk_slot TCS_LC_ACTIVE inc n 0 0 0) (mk_event TCS_LC_BEGIN i inc 0) audit
      last (mk_slot TCS_LC_ACTIVE inc (n + 1) (n + 1) 0 0) (n + 1)
| do_complete i inc n audit :
    n <> 0 ->
    slot_step last (mk_slot TCS_LC_ACTIVE inc n n 0 0) (mk_event TCS_LC_COMPLETE i inc n) audit
      last (mk_slot TCS_LC_ACTIVE inc n 0 0 0) n
| do_contain st i inc n pe audit :
    TCS_LC_STARTING <= st <= TCS_LC_ACTIVE ->
    slot_step last (mk_slot st inc n pe 0 0) (mk_event TCS_LC_CONTAIN i inc 0) audit
      last (mk_slot TCS_LC_CLOSING inc n pe 0 0) inc
| do_stopped i inc n pe dr audit :
    slot_step last (mk_slot TCS_LC_CLOSING inc n pe 0 dr) (mk_event TCS_LC_STOPPED i inc n) audit
      last (mk_slot (if dr =? 1 then TCS_LC_RETIRED else TCS_LC_CLOSING) inc n pe 1 dr) inc
| do_drained i inc n pe stp audit :
    slot_step last (mk_slot TCS_LC_CLOSING inc n pe stp 0) (mk_event TCS_LC_DRAINED i inc n) audit
      last (mk_slot (if stp =? 1 then TCS_LC_RETIRED else TCS_LC_CLOSING) inc n 0 stp 1) inc.

Definition idle (s : tcs_lc_slot) : Prop :=
  l_state s = TCS_LC_UNUSED \/ l_state s = TCS_LC_RETIRED.

Definition other (i : Z) : Z := 1 - i.

(** The lifecycle after a step of slot [i]. *)
Definition update (l : tcs_lifecycle) (i last' : Z) (s' : tcs_lc_slot) : tcs_lifecycle :=
  {| last_incarnation := last';
     slot0 := if i =? 0 then s' else slot0 l;
     slot1 := if i =? 0 then slot1 l else s' |}.

Definition lc_transition (l : tcs_lifecycle) (actor : tcs_lc_actor) (e : tcs_lc_event)
    (audit : bool) (l' : tcs_lifecycle) (v : Z) : Prop :=
  permitted actor (e_op e) = true /\ e_slot e < TCS_LC_SLOTS /\
  (e_op e = TCS_LC_RESERVE -> idle (slot_at l (other (e_slot e)))) /\
  exists last' s',
    slot_step (last_incarnation l) (slot_at l (e_slot e)) e audit last' s' v /\
    l' = update l (e_slot e) last' s'.

Section Slots.
Context (l : tcs_lifecycle) (Hl : lc_wf l).

Lemma slot_at_u64 i : slot_u64 (slot_at l i).
Proof using Hl. destruct Hl as (_ & H0 & H1 & _). unfold slot_at. by destruct (i =? 0). Qed.

Lemma slot_at_shape i : slot_shape (last_incarnation l) (slot_at l i).
Proof using Hl.
  destruct Hl as (_ & H0 & H1 & Hv). apply lc_valid_iff in Hv as (S0 & S1 & _); [|done..].
  unfold slot_at. by destruct (i =? 0).
Qed.
End Slots.

Lemma slot_eta s :
  s = mk_slot (l_state s) (l_incarnation s) (l_issued s) (l_pending s) (l_stopped s) (l_drained s).
Proof. by destruct s. Qed.

Lemma event_eta e : e = mk_event (e_op e) (e_slot e) (e_incarnation e) (e_sequence e).
Proof. by destruct e. Qed.

(** Rewrites the arguments of [slot_step] into the form of the rule [R]. *)
Ltac by_rule :=
  match goal with
  | |- slot_step ?last ?s ?e ?a ?last' ?s' ?v =>
      rewrite (slot_eta s), (event_eta e); cbn [l_state l_incarnation l_issued l_pending
        l_stopped l_drained e_op e_slot e_incarnation e_sequence with_state with_work confirm]
  end.

Lemma lc_ops op :
  TCS_LC_RESERVE <= op <= TCS_LC_DRAINED ->
  op = TCS_LC_RESERVE \/ op = TCS_LC_STARTED \/ op = TCS_LC_ACTIVATE \/ op = TCS_LC_BEGIN \/
  op = TCS_LC_COMPLETE \/ op = TCS_LC_CONTAIN \/ op = TCS_LC_STOPPED \/ op = TCS_LC_DRAINED.
Proof. lc_lia. Qed.

(** Refutes an equation between results with different statuses. *)
Ltac lc_clash := unfold result in *; lc_unfold; congruence.

(** The guards before the switch. *)
Definition lc_admits (l : tcs_lifecycle) (actor : tcs_lc_actor) (e : tcs_lc_event) : Prop :=
  permitted actor (e_op e) = true /\ e_slot e < TCS_LC_SLOTS /\
  TCS_LC_RESERVE <= e_op e <= TCS_LC_DRAINED /\
  (e_op e = TCS_LC_COMPLETE -> e_sequence e <> 0) /\
  (e_op e <> TCS_LC_COMPLETE -> e_op e <> TCS_LC_STOPPED -> e_op e <> TCS_LC_DRAINED ->
   e_sequence e = 0) /\
  (e_op e = TCS_LC_RESERVE -> e_incarnation e = 0) /\
  (e_op e <> TCS_LC_RESERVE ->
   e_incarnation e <> 0 /\ e_incarnation e = l_incarnation (slot_at l (e_slot e))).

Lemma lc_switch_err l e audit err : lc_switch l e audit = inl err -> err <> TCS_LC_OK.
Proof. unfold lc_switch. intros H ->. repeat split_if; discriminate. Qed.

Lemma lc_apply_ok_iff l actor e audit l' v :
  lc_wf l ->
  tcs_lc_apply (Some l) actor e audit = (Some l', result TCS_LC_OK v) <->
  lc_admits l actor e /\ lc_switch l e audit = inr (l', v).
Proof.
  intros (_ & _ & _ & Hv). unfold tcs_lc_apply, lc_admits. rewrite Hv. cbn [negb orb].
  destruct (permitted actor (e_op e)) eqn:Hperm; cbn [negb].
  2: { split; [|intuition discriminate]. split_if; intros H; lc_clash. }
  split.
  - intros H.
    destruct (lc_switch l e audit) as [err|[next value]] eqn:Hsw; [apply lc_switch_err in Hsw|];
      repeat split_if; try lc_clash.
    all: inv_pair;  split; [|done]; bools; split_and!; try done; intros; lc_lia.
  - intros [(_ & Hslot & Hop & Hc1 & Hc2 & Hr1 & Hr2) ->].
    repeat (match goal with |- context [if ?b then _ else _] =>
      lazymatch b with context [if _ then _ else _] => fail | _ => destruct b eqn:? end end;
      try (exfalso; lc_lia)); try done.
Qed.

Lemma update_set_slot l i s : set_slot l i s = update l i (last_incarnation l) s.
Proof. unfold set_slot, update. by destruct (i =? 0). Qed.

Lemma update_set_slot_last l i last s :
  {| last_incarnation := last; slot0 := slot0 (set_slot l i s);
     slot1 := slot1 (set_slot l i s) |} = update l i last s.
Proof. unfold set_slot, update. by destruct (i =? 0). Qed.

(** The reserve loop over the slots, knowing the selected slot is unused. *)
Lemma reserve_scan l i :
  u64 i -> i < TCS_LC_SLOTS -> l_state (slot_at l i) = TCS_LC_UNUSED ->
  existsb (fun j => negb (l_state (slot_at l j) =? TCS_LC_UNUSED) &&
                    negb (l_state (slot_at l j) =? TCS_LC_RETIRED)) lc_indices = false <->
  idle (slot_at l (other i)).
Proof.
  intros Hu Hi. assert (i = 0 \/ i = 1) as [-> | ->] by lc_lia;
  unfold idle, lc_indices, slot_at; simpl; lia.
Qed.

(** Replaces the variable [x] by [v] where the arithmetic says they are equal. *)
Ltac known x v := try (assert (x = v) as -> by lc_lia).

Lemma lc_switch_sound l actor e audit l' v :
  lc_wf l -> event_u64 e -> lc_admits l actor e -> lc_switch l e audit = inr (l', v) ->
  (e_op e = TCS_LC_RESERVE -> idle (slot_at l (other (e_slot e)))) /\
  exists last' s',
    slot_step (last_incarnation l) (slot_at l (e_slot e)) e audit last' s' v /\
    l' = update l (e_slot e) last' s'.
Proof.
  intros Hl (_ & Hi & _) (_ & Hlt & Hop & Hc1 & Hc2 & Hr1 & Hr2).
  pose proof (slot_at_shape l Hl (e_slot e)) as Hsh.
  pose proof (slot_at_u64 l Hl (e_slot e)) as (Hu1 & Hu2 & Hu3 & Hu4 & Hu5 & Hu6).
  pose proof (reserve_scan l (e_slot e) Hi Hlt) as Hscan.
  pose proof (proj1 Hl) as Hlast.
  unfold lc_switch. cbv zeta. rewrite update_set_slot_last, !update_set_slot.
  set (s := slot_at l (e_slot e)) in *. clearbody s.
  destruct s as [st inc iss pe stp dr], e as [op i ein seq]; unfold slot_shape in Hsh; simpl in *.
  apply lc_ops in Hop as [Ho|[Ho|[Ho|[Ho|[Ho|[Ho|[Ho|Ho]]]]]]]; subst op; simpl;
  intros H; repeat split_if; try discriminate; injection H as <- <-.
  all: split; [intros; try (exfalso; lc_lia)|eexists _, _; split; [|reflexivity]].
  1: by apply Hscan; [lc_lia|simpl; lc_lia].
  all: known ein inc; known ein 0; known seq 0; known stp 0; known dr 0.
  all: rewrite ?wrap64_small by word_lia.
  - known st 0; known inc 0; known iss 0; known pe 0. destruct audit; [|done]. apply do_reserve. lc_lia.
  - known st 1; known iss 0; known pe 0. apply do_started.
  - known st 2; known iss 0; known pe 0. destruct audit; [|done]. apply do_activate.
  - known st 3; known pe 0. apply do_begin. lc_lia.
  - known st 3; known pe iss; known seq iss. apply do_complete. lc_lia.
  - apply do_contain. lc_lia.
  - known st 4; known seq iss. assert (dr = 0 \/ dr = 1) as [-> | ->] by lc_lia; apply do_stopped.
  - known st 4; known seq iss. assert (stp = 0 \/ stp = 1) as [-> | ->] by lc_lia; apply do_drained.
Qed.

Lemma lc_switch_complete l e audit last' s' v :
  lc_wf l -> u64 (e_slot e) -> e_slot e < TCS_LC_SLOTS ->
  (e_op e = TCS_LC_RESERVE -> idle (slot_at l (other (e_slot e)))) ->
  slot_step (last_incarnation l) (slot_at l (e_slot e)) e audit last' s' v ->
  lc_switch l e audit = inr (update l (e_slot e) last' s', v).
Proof.
  intros Hl Hi Hlt Hidle Hstep.
  pose proof (reserve_scan l (e_slot e) Hi Hlt) as Hscan.
  pose proof (slot_at_u64 l Hl (e_slot e)) as (Hu1 & Hu2 & Hu3 & Hu4 & Hu5 & Hu6).
  pose proof (proj1 Hl) as Hlast. pose proof (slot_at_shape l Hl (e_slot e)) as Hsh.
  unfold lc_switch. cbv zeta. rewrite update_set_slot_last, !update_set_slot.
  set (s := slot_at l (e_slot e)) in *. clearbody s.
  set (busy := existsb _ lc_indices) in *. clearbody busy.
  destruct Hstep; simpl in *; rewrite ?Z.eqb_refl; simpl.
  - destruct (Hscan eq_refl) as [_ ->]; [|by apply Hidle].
    rewrite wrap64_small by word_lia. destruct (last_incarnation l =? UINT64_MAX) eqn:?; [lc_lia|done].
  - done.
  - done.
  - rewrite wrap64_small by word_lia. destruct (n =? UINT64_MAX) eqn:?; [lc_lia|done].
  - done.
  - destruct (_ || _) eqn:?; [lc_lia|done].
  - unfold slot_shape in Hsh; simpl in Hsh.
    by assert (dr = 0 \/ dr = 1) as [-> | ->] by lc_lia.
  - unfold slot_shape in Hsh; simpl in Hsh.
    by assert (stp = 0 \/ stp = 1) as [-> | ->] by lc_lia.
Qed.

(** A step is only taken by an event its guards admit. *)
Lemma slot_step_admits l actor e audit last' s' v :
  lc_wf l -> permitted actor (e_op e) = true -> e_slot e < TCS_LC_SLOTS ->
  slot_step (last_incarnation l) (slot_at l (e_slot e)) e audit last' s' v ->
  lc_admits l actor e.
Proof.
  intros Hl Hperm Hlt Hstep. pose proof (slot_at_shape l Hl (e_slot e)) as Hsh.
  unfold lc_admits. set (s := slot_at l (e_slot e)) in *. clearbody s.
  unfold slot_shape in Hsh. split; [done|]. split; [done|].
  destruct Hstep; simpl in *; split_and!; intros; lc_lia.
Qed.

Lemma slot_at_update l i last' s' : slot_at (update l i last' s') i = s'.
Proof. unfold slot_at, update. by destruct (i =? 0). Qed.

Lemma slot_at_update_other l i last' s' :
  0 <= i < TCS_LC_SLOTS -> slot_at (update l i last' s') (other i) = slot_at l (other i).
Proof. intros Hi. assert (i = 0 \/ i = 1) as [-> | ->] by lc_lia; reflexivity. Qed.

Lemma slots_cases i j :
  0 <= i < TCS_LC_SLOTS -> 0 <= j < TCS_LC_SLOTS -> j = i \/ j = other i.
Proof. unfold other. lc_lia. Qed.

(** Well-formedness in terms of a slot and the other one. *)
Lemma lc_wf_iff l i :
  0 <= i < TCS_LC_SLOTS ->
  lc_wf l <->
  u64 (last_incarnation l) /\ slot_u64 (slot_at l i) /\ slot_u64 (slot_at l (other i)) /\
  slot_shape (last_incarnation l) (slot_at l i) /\
  slot_shape (last_incarnation l) (slot_at l (other i)) /\
  (~ (l_incarnation (slot_at l i) = l_incarnation (slot_at l (other i)) /\
      l_state (slot_at l i) <> TCS_LC_UNUSED)) /\
  (idle (slot_at l i) \/ idle (slot_at l (other i))).
Proof.
  intros Hi. unfold lc_wf.
  assert (Hocc : forall a b, slot_shape (last_incarnation l) a -> slot_shape (last_incarnation l) b ->
    slot_occupied a + slot_occupied b <= 1 <-> idle a \/ idle b).
  { intros a b Ha Hb. unfold slot_occupied, idle. repeat split_if; lc_lia. }
  assert (i = 0 \/ i = 1) as [-> | ->] by lc_lia;
  change (slot_at l (other 0)) with (slot1 l); change (slot_at l (other 1)) with (slot0 l);
  change (slot_at l 0) with (slot0 l); change (slot_at l 1) with (slot1 l).
  all: split; [intros (Hlast & H0 & H1 & Hv)|intros (Hlast & H0 & H1 & S0 & S1 & Hinc & Hidle)].
  1, 3: apply lc_valid_iff in Hv as (S0 & S1 & Hinc & Ho); [|done..];
    apply Hocc in Ho; [|done..]; split_and!; try tauto;
    unfold slot_shape in S0, S1; intros [? ?]; lc_lia.
  all: split_and!; [done..|]; apply lc_valid_iff; [done..|]; rewrite Hocc by done; split_and!;
    try tauto; unfold slot_shape in S0, S1; intros ? ?; lc_lia.
Qed.


Lemma slot_step_shape last s e audit last' s' v :
  u64 last -> slot_u64 s -> slot_shape last s -> slot_step last s e audit last' s' v ->
  slot_u64 s' /\ slot_shape last' s'.
Proof.
  intros Hlast Hu Hs Hstep. destruct Hstep; unfold slot_u64, slot_shape in *; simpl in *.
  all: repeat match goal with |- context [if ?b then _ else _] => destruct b eqn:? end.
  all: split; [split_and!; lc_lia|right; split_and!; intros; lc_lia].
Qed.

Lemma slot_shape_mono last last' s : last <= last' -> slot_shape last s -> slot_shape last' s.
Proof. unfold slot_shape. lc_lia. Qed.

(** How a step moves the counter and the identity of its slot. *)
Lemma slot_step_identity last s e audit last' s' v :
  slot_step last s e audit last' s' v ->
  (e_op e = TCS_LC_RESERVE /\ l_state s = TCS_LC_UNUSED /\ l_incarnation s' = last + 1 /\
   last' = last + 1 /\ last < UINT64_MAX) \/
  (e_op e <> TCS_LC_RESERVE /\ ~ idle s /\ l_incarnation s' = l_incarnation s /\ last' = last).
Proof. unfold idle. destruct 1; simpl; [left|right..]; split_and!; lc_lia || done. Qed.

Lemma update_wf l e audit last' s' v :
  lc_wf l -> 0 <= e_slot e < TCS_LC_SLOTS ->
  (e_op e = TCS_LC_RESERVE -> idle (slot_at l (other (e_slot e)))) ->
  slot_step (last_incarnation l) (slot_at l (e_slot e)) e audit last' s' v ->
  lc_wf (update l (e_slot e) last' s').
Proof.
  intros Hl Hi Hidle Hstep. set (i := e_slot e) in *.
  destruct (proj1 (lc_wf_iff l i Hi) Hl) as (Hlast & Hu & Huo & Hs & Hso & Hinc & Hone).
  destruct (slot_step_shape _ _ _ _ _ _ _ Hlast Hu Hs Hstep) as [Hu' Hs'].
  apply slot_step_identity in Hstep.
  apply (lc_wf_iff _ i Hi). rewrite slot_at_update, slot_at_update_other by done.
  simpl last_incarnation.
  assert (Hlast' : u64 last' /\ last_incarnation l <= last') by word_lia.
  split_and!; try tauto.
  - eapply slot_shape_mono; [|done]. lia.
  - intros [Heq Hne]. destruct Hstep as [(_ & _ & Hi' & _)|(_ & Hni & Hi' & _)].
    + unfold slot_shape in Hso. lc_lia.
    + apply Hinc. rewrite <- Hi'. split; [done|]. unfold idle in Hni. tauto.
Qed.

(** ** Runs *)

Record lc_input := { in_actor : tcs_lc_actor; in_event : tcs_lc_event; in_audit : bool }.

Definition input_u64 (x : lc_input) : Prop := event_u64 (in_event x).

(** One call of the single owner. *)
Definition lc_step (l : tcs_lifecycle) (x : lc_input) : tcs_lifecycle :=
  match tcs_lc_apply (Some l) (in_actor x) (in_event x) (in_audit x) with
  | (Some l', _) => l'
  | (NULL, _) => l
  end.

Lemma lc_apply_refines_iff l actor e audit l' v :
  lc_wf l -> event_u64 e ->
  tcs_lc_apply (Some l) actor e audit = (Some l', result TCS_LC_OK v) <->
  lc_transition l actor e audit l' v.
Proof.
  intros Hl He. rewrite lc_apply_ok_iff by done. unfold lc_transition. split.
  - intros [Hadm Hsw].
    destruct (lc_switch_sound l actor e audit l' v Hl He Hadm Hsw) as [Hidle Hstep].
    destruct Hadm as (Hperm & Hlt & _). done.
  - intros (Hperm & Hlt & Hidle & last' & s' & Hstep & ->).
    split; [by eapply slot_step_admits|].
    apply lc_switch_complete; auto. apply He.
Qed.

Lemma lc_apply_error l actor e audit :
  l_status (snd (tcs_lc_apply (Some l) actor e audit)) <> TCS_LC_OK ->
  tcs_lc_apply (Some l) actor e audit =
    (Some l, result (l_status (snd (tcs_lc_apply (Some l) actor e audit))) 0).
Proof.
  unfold tcs_lc_apply. destruct (lc_switch l e audit) as [err|[next value]];
  repeat split_if; done.
Qed.

(** A call either leaves the state alone or takes one transition. *)
Lemma lc_apply_cases l actor e audit :
  lc_wf l -> event_u64 e ->
  (l_status (snd (tcs_lc_apply (Some l) actor e audit)) <> TCS_LC_OK /\
   tcs_lc_apply (Some l) actor e audit =
     (Some l, result (l_status (snd (tcs_lc_apply (Some l) actor e audit))) 0)) \/
  exists l' v, tcs_lc_apply (Some l) actor e audit = (Some l', result TCS_LC_OK v) /\
    lc_transition l actor e audit l' v.
Proof.
  intros Hl He.
  destruct (decide (l_status (snd (tcs_lc_apply (Some l) actor e audit)) = TCS_LC_OK))
    as [Hok|Hne]; [right|left; split; [done|]; by apply lc_apply_error].
  destruct (tcs_lc_apply (Some l) actor e audit) as [[l'|] [st v]] eqn:Happ; simpl in Hok; subst st.
  - exists l', v. split; [done|]. by apply lc_apply_refines_iff.
  - unfold tcs_lc_apply in Happ.
    destruct (lc_switch l e audit) as [|[]]; repeat split_if; discriminate.
Qed.

Lemma lc_transition_wf l actor e audit l' v :
  lc_wf l -> event_u64 e -> lc_transition l actor e audit l' v -> lc_wf l'.
Proof.
  intros Hl He (_ & Hlt & Hidle & last' & s' & Hstep & ->).
  eapply update_wf; eauto. destruct He as (_ & ? & _). word_lia.
Qed.

Lemma lc_step_cases l x :
  lc_wf l -> input_u64 x ->
  lc_step l x = l \/
  exists v, lc_transition l (in_actor x) (in_event x) (in_audit x) (lc_step l x) v.
Proof.
  intros Hl Hx. unfold lc_step.
  destruct (lc_apply_cases l (in_actor x) (in_event x) (in_audit x) Hl Hx)
    as [[_ ->]|(l' & v & -> & Ht)]; [by left|right; eauto].
Qed.

Lemma lc_step_wf l x : input_u64 x -> lc_wf l -> lc_wf (lc_step l x).
Proof.
  intros Hx Hl. destruct (lc_step_cases l x Hl Hx) as [->|[v Ht]]; [done|].
  eapply lc_transition_wf; eauto.
Qed.

Lemma lc_exec_wf xs l : Forall input_u64 xs -> lc_wf l -> lc_wf (exec lc_step l xs).
Proof. apply exec_invariant. intros; by apply lc_step_wf. Qed.

Lemma lifecycle_zero_wf : lc_wf lifecycle_zero.
Proof. unfold lc_wf, slot_u64; simpl. split_and!; try done; word_lia. Qed.

#[export] Hint Resolve lifecycle_zero_wf lc_step_wf lc_exec_wf : tcs.

(** The order in which a slot evolves: phases only advance, and an identity,
    once given, stays. *)
Definition slot_le (s s' : tcs_lc_slot) : Prop :=
  l_state s <= l_state s' /\
  (TCS_LC_UNUSED < l_state s -> l_incarnation s' = l_incarnation s) /\
  (TCS_LC_CLOSING <= l_state s -> l_issued s' = l_issued s).

Definition lc_le (l l' : tcs_lifecycle) : Prop :=
  last_incarnation l <= last_incarnation l' /\
  forall i, 0 <= i < TCS_LC_SLOTS -> slot_le (slot_at l i) (slot_at l' i).

#[export] Instance slot_le_preorder : PreOrder slot_le.
Proof.
  split; unfold slot_le; [intros s; split_and!; auto; lia|].
  intros s1 s2 s3 (H1 & H2 & H3) (H4 & H5 & H6). split_and!; intros; lia.
Qed.

#[export] Instance lc_le_preorder : PreOrder lc_le.
Proof.
  split; [by split|]. intros l1 l2 l3 [H1 H2] [H3 H4].
  split; [lia|]. intros i Hi. transitivity (slot_at l2 i); auto.
Qed.

Lemma slot_step_le last s e audit last' s' v :
  slot_step last s e audit last' s' v -> last <= last' /\ slot_le s s'.
Proof.
  unfold slot_le. destruct 1; simpl;
  repeat match goal with |- context [if ?b then _ else _] => destruct b eqn:? end;
  split_and!; intros; lc_lia.
Qed.

Lemma lc_transition_le l actor e audit l' v :
  event_u64 e -> lc_transition l actor e audit l' v -> lc_le l l'.
Proof.
  intros (_ & He & _) (_ & Hlt & _ & last' & s' & Hstep & ->).
  apply slot_step_le in Hstep as [Hlast Hle]. split; [done|]. intros j Hj.
  assert (Hi : 0 <= e_slot e < TCS_LC_SLOTS) by word_lia.
  destruct (slots_cases _ _ Hi Hj) as [-> | ->].
  - by rewrite slot_at_update.
  - by rewrite slot_at_update_other.
Qed.

Lemma lc_exec_le xs l : Forall input_u64 xs -> lc_wf l -> lc_le l (exec lc_step l xs).
Proof.
  apply (exec_preorder lc_step input_u64 lc_wf lc_le).
  - intros; by apply lc_step_wf.
  - intros s x Hx Hs. destruct (lc_step_cases s x Hs Hx) as [->|[v Ht]]; [done|].
    by eapply lc_transition_le.
Qed.
