(* ===== verification/LifecycleSafety.v ===== *)
(** What the lifecycle model guarantees: the properties of [lib/lifecycle.c]
    over single calls and over arbitrary runs of its single owner. *)

From S2P Require Import Prelude Lifecycle.

(** ** Accepted events *)

(** The events a run accepted with the values they reported, oldest first. *)
Definition lc_log_step (s : tcs_lifecycle * list (lc_input * Z)) (x : lc_input)
    : tcs_lifecycle * list (lc_input * Z) :=
  let '(l, log) := s in
  let res := snd (tcs_lc_apply (Some l) (in_actor x) (in_event x) (in_audit x)) in
  (lc_step l x, if l_status res =? TCS_LC_OK then log ++ [(x, l_value res)] else log).

Definition lc_run (xs : list lc_input) : tcs_lifecycle * list (lc_input * Z) :=
  exec lc_log_step (lifecycle_zero, []) xs.

(** An accepted event of actor [a]: operation [op] on slot [i] for the
    incarnation [inc]. *)
Definition is_event (op i inc : Z) (y : lc_input * Z) : Prop :=
  e_op (in_event (fst y)) = op /\ e_slot (in_event (fst y)) = i /\
  e_incarnation (in_event (fst y)) = inc.

(** [y] confirms the stop (by the supervisor) or the drain (by the broker) of
    the work issued to an incarnation. *)
Definition confirms (op i inc issued : Z) (y : lc_input * Z) : Prop :=
  is_event op i inc y /\ e_sequence (in_event (fst y)) = issued /\
  in_actor (fst y) = if op =? TCS_LC_STOPPED then TCS_LC_SUPERVISOR else TCS_LC_BROKER.

(** The log shows that slot [i] was contained, and then holds the
    confirmations its flags claim. *)
Definition evidence (log : list (lc_input * Z)) (i : Z) (s : tcs_lc_slot) : Prop :=
  exists before contain after, log = before ++ contain :: after /\
    is_event TCS_LC_CONTAIN i (l_incarnation s) contain /\
    (l_stopped s = 1 ->
     Exists (confirms TCS_LC_STOPPED i (l_incarnation s) (l_issued s)) after) /\
    (l_drained s = 1 ->
     Exists (confirms TCS_LC_DRAINED i (l_incarnation s) (l_issued s)) after).

Lemma lc_log_transition l log x :
  lc_wf l -> input_u64 x ->
  lc_log_step (l, log) x = (l, log) \/
  exists l' v, lc_transition l (in_actor x) (in_event x) (in_audit x) l' v /\
    lc_log_step (l, log) x = (l', log ++ [(x, v)]).
Proof.
  intros Hl Hx. unfold lc_log_step, lc_step.
  destruct (lc_apply_cases l (in_actor x) (in_event x) (in_audit x) Hl Hx)
    as [[Hne Heq]|(l' & v & Happ & Ht)].
  - left. rewrite (proj2 (Z.eqb_neq _ _) Hne). by rewrite Heq.
  - right. exists l', v. by rewrite Happ.
Qed.

(** Invariants of the state and its log together. *)
Lemma lc_run_invariant (P : tcs_lifecycle -> list (lc_input * Z) -> Prop) xs :
  (forall l log x l' v, lc_wf l -> input_u64 x -> P l log ->
     lc_transition l (in_actor x) (in_event x) (in_audit x) l' v -> P l' (log ++ [(x, v)])) ->
  P lifecycle_zero [] -> Forall input_u64 xs ->
  lc_wf (fst (lc_run xs)) /\ P (fst (lc_run xs)) (snd (lc_run xs)).
Proof.
  intros Hstep H0 Hxs. unfold lc_run.
  apply (exec_invariant lc_log_step input_u64 (fun s => lc_wf (fst s) /\ P (fst s) (snd s)));
    [|done|split; [apply lifecycle_zero_wf|done]].
  intros [l log] x Hx [Hl HP]; simpl in Hl, HP.
  destruct (lc_log_transition l log x Hl Hx) as [->|(l' & v & Ht & ->)]; [done|].
  split; [by eapply lc_transition_wf|]. simpl. eauto.
Qed.

Lemma evidence_app log y i s : evidence log i s -> evidence (log ++ [y]) i s.
Proof.
  intros (before & contain & after & -> & Hc & Hst & Hdr).
  exists before, contain, (after ++ [y]). rewrite <- app_assoc. split; [done|].
  split; [done|]. split; intros; rewrite Exists_app; auto.
Qed.

Lemma permitted_confirm actor op :
  permitted actor op = true -> op = TCS_LC_STOPPED \/ op = TCS_LC_DRAINED ->
  actor = if op =? TCS_LC_STOPPED then TCS_LC_SUPERVISOR else TCS_LC_BROKER.
Proof. unfold permitted. intros H [-> | ->]; simpl in *; by apply bool_decide_eq_true in H. Qed.

(** The evidence grows with the step that raises a flag. *)
Lemma evidence_step last s x last' s' v log :
  permitted (in_actor x) (e_op (in_event x)) = true ->
  slot_step last s (in_event x) (in_audit x) last' s' v ->
  (TCS_LC_CLOSING <= l_state s -> evidence log (e_slot (in_event x)) s) ->
  TCS_LC_CLOSING <= l_state s' -> evidence (log ++ [(x, v)]) (e_slot (in_event x)) s'.
Proof.
  intros Hperm Hstep Hev Hst'. pose proof (permitted_confirm _ _ Hperm) as Hact.
  remember (in_event x) as e eqn:He. destruct Hstep; simpl in *; try lc_lia.
  - exists log, (x, inc), []. split; [done|]. split; [unfold is_event; simpl; by rewrite <- He|]. by split.
  - destruct Hev as (before & contain & after & -> & Hc & Hs & Hd); [lc_lia|].
    exists before, contain, (after ++ [(x, inc)]). rewrite <- app_assoc. split; [done|].
    split; [done|]. simpl in *. split; intros; rewrite Exists_app; [right|auto].
    apply Exists_cons_hd. unfold confirms, is_event. simpl. rewrite <- He. simpl. auto.
  - destruct Hev as (before & contain & after & -> & Hc & Hs & Hd); [lc_lia|].
    exists before, contain, (after ++ [(x, inc)]). rewrite <- app_assoc. split; [done|].
    split; [done|]. simpl in *. split; intros; rewrite Exists_app; [auto|right].
    apply Exists_cons_hd. unfold confirms, is_event. simpl. rewrite <- He. simpl. auto.
Qed.

Lemma lc_run_evidence xs i :
  Forall input_u64 xs -> 0 <= i < TCS_LC_SLOTS ->
  TCS_LC_CLOSING <= l_state (slot_at (fst (lc_run xs)) i) ->
  evidence (snd (lc_run xs)) i (slot_at (fst (lc_run xs)) i).
Proof.
  intros Hxs Hi.
  apply (lc_run_invariant (fun l log => TCS_LC_CLOSING <= l_state (slot_at l i) ->
    evidence log i (slot_at l i))); [|unfold slot_at; destruct (i =? 0); simpl; lc_lia|done].
  intros l log x l' v Hl (_ & Hx & _) HP (Hperm & Hlt & _ & last' & s' & Hstep & ->).
  assert (Hj : 0 <= e_slot (in_event x) < TCS_LC_SLOTS) by word_lia.
  destruct (slots_cases _ _ Hj Hi) as [-> | ->].
  - rewrite slot_at_update. by eapply evidence_step.
  - rewrite slot_at_update_other by done. intros; by apply evidence_app, HP.
Qed.

(** ** Work *)

Inductive lc_work := Begun (n : Z) | Done (n : Z).

(** What an accepted event does to the work of slot [i]. *)
Definition work_of (i : Z) (y : lc_input * Z) : list lc_work :=
  if e_slot (in_event (fst y)) =? i then
    if e_op (in_event (fst y)) =? TCS_LC_BEGIN then [Begun (snd y)]
    else if e_op (in_event (fst y)) =? TCS_LC_COMPLETE then [Done (snd y)]
    else []
  else [].

(** The first [k] items of work, each begun and then completed. *)
Definition work_history (k : nat) : list lc_work :=
  flat_map (fun n => [Begun (Z.of_nat n); Done (Z.of_nat n)]) (seq 1 k).

Lemma work_history_succ k :
  work_history (S k) = work_history k ++ [Begun (Z.of_nat (S k)); Done (Z.of_nat (S k))].
Proof. unfold work_history. by rewrite seq_S, flat_map_app. Qed.

(** The work done by slot [s] so far. *)
Definition work_ok (s : tcs_lc_slot) (w : list lc_work) : Prop :=
  exists k,
    (w = work_history k /\ (l_state s <= TCS_LC_ACTIVE -> l_issued s = Z.of_nat k /\ l_pending s = 0)) \/
    (w = work_history k ++ [Begun (Z.of_nat k + 1)] /\
     (l_state s <= TCS_LC_ACTIVE -> l_issued s = Z.of_nat k + 1 /\ l_pending s = Z.of_nat k + 1)).

Lemma work_step last s x last' s' v w :
  slot_step last s (in_event x) (in_audit x) last' s' v -> work_ok s w ->
  work_ok s' (w ++ work_of (e_slot (in_event x)) (x, v)).
Proof.
  intros Hstep [k Hk]. unfold work_of. simpl fst. rewrite Z.eqb_refl.
  remember (in_event x) as e eqn:He. clear He. unfold work_ok.
  destruct Hstep; simpl in *; rewrite ?app_nil_r.
  4: { destruct Hk as [[-> Hk]|[-> Hk]]; [|lc_lia]. exists k. right.
    destruct Hk as [-> _]; [lc_lia|]. split; [done|]. lc_lia. }
  4: { destruct Hk as [[-> Hk]|[-> Hk]]; [lc_lia|]. exists (S k). left.
    destruct Hk as [-> _]; [lc_lia|]. rewrite work_history_succ, <- app_assoc. simpl.
    replace (Z.of_nat k + 1) with (Z.of_nat (S k)) by lia. split; [done|]. lc_lia. }
  all: exists k; destruct Hk as [[-> Hk]|[-> Hk]]; [left|right]; (split; [done|]);
    repeat match goal with |- context [if ?b then _ else _] => destruct b eqn:? end; lc_lia.
Qed.

Lemma allows_active l i inc :
  tcs_lc_allows (Some l) i inc = true ->
  i < TCS_LC_SLOTS /\ l_state (slot_at l i) = TCS_LC_ACTIVE /\ l_incarnation (slot_at l i) = inc.
Proof. unfold tcs_lc_allows. intros H. bools. split_and!; lia. Qed.

(** ** Properties *)

(** C10. Refinement: on a valid state, a call answers OK exactly when its actor
    may perform the operation, the slot exists, no other worker is live (for a
    reservation) and the reference transition system has a step of the slot
    for this event and audit answer; the new state and reported value are
    those of the step, and the other slot is untouched. *)
Theorem lc_apply_refines l actor e audit l' v :
  lc_wf l -> event_u64 e ->
  tcs_lc_apply (Some l) actor e audit = (Some l', result TCS_LC_OK v) <->
  permitted actor (e_op e) = true /\ e_slot e < TCS_LC_SLOTS /\
  (e_op e = TCS_LC_RESERVE -> idle (slot_at l (other (e_slot e)))) /\
  exists last' s',
    slot_step (last_incarnation l) (slot_at l (e_slot e)) e audit last' s' v /\
    l' = update l (e_slot e) last' s'.
Proof. apply lc_apply_refines_iff. Qed.

(** From zero-initialized memory, whatever the events, their actors and the
    audit answers, the state stays structurally valid (so [tcs_lc_valid] never
    rejects it later), and every answer other than OK reports value 0 and
    leaves it exactly as it was. *)
Theorem lc_run_valid xs actor e audit :
  Forall input_u64 xs ->
  let l := exec lc_step lifecycle_zero xs in
  tcs_lc_valid (Some l) = true /\
  (l_status (snd (tcs_lc_apply (Some l) actor e audit)) <> TCS_LC_OK ->
   fst (tcs_lc_apply (Some l) actor e audit) = Some l /\
   l_value (snd (tcs_lc_apply (Some l) actor e audit)) = 0).
Proof.
  intros Hxs l. split.
  - assert (Hl : lc_wf l) by (apply lc_exec_wf; auto with tcs). apply Hl.
  - intros Hne. by rewrite (lc_apply_error l actor e audit Hne).
Qed.

(** C20. Containment is permanent: once a containment of a slot is accepted, no
    later event re-opens the work gate of that slot, for the contained worker
    or for any other incarnation. *)
Theorem contained_forever l actor i inc audit l' v xs inc' :
  lc_wf l -> event_u64 (mk_event TCS_LC_CONTAIN i inc 0) -> Forall input_u64 xs ->
  tcs_lc_apply (Some l) actor (mk_event TCS_LC_CONTAIN i inc 0) audit =
    (Some l', result TCS_LC_OK v) ->
  tcs_lc_allows (Some (exec lc_step l' xs)) i inc' = false.
Proof.
  intros Hl He Hxs Happ. apply lc_apply_refines_iff in Happ; [|done..].
  pose proof (lc_transition_wf _ _ _ _ _ _ Hl He Happ) as Hl'.
  destruct Happ as (_ & Hlt & _ & last' & s' & Hstep & Heq). simpl in Hlt, Hstep, Heq.
  assert (Hi : 0 <= i < TCS_LC_SLOTS) by (destruct He as (_ & ? & _); simpl in *; word_lia).
  assert (Hclosed : TCS_LC_CLOSING <= l_state (slot_at l' i)).
  { rewrite Heq, slot_at_update. by inversion Hstep; subst; simpl. }
  destruct (lc_exec_le xs l' Hxs Hl') as [_ Hle]. destruct (Hle i Hi) as [Hst _].
  destruct (tcs_lc_allows _ _ _) eqn:Hal; [|done].
  apply allows_active in Hal as (_ & Hact & _). lc_lia.
Qed.

(** At most one worker: in a valid state the work gate is open for at most
    one slot and one incarnation, and while it is open for one slot the other
    slot is unused or retired. *)
Theorem one_worker_allowed l i inc j inc' :
  lc_wf l -> 0 <= i -> 0 <= j ->
  tcs_lc_allows (Some l) i inc = true ->
  idle (slot_at l (other i)) /\
  (tcs_lc_allows (Some l) j inc' = true -> j = i /\ inc' = inc).
Proof.
  intros Hl Hi0 Hj0 Hal. apply allows_active in Hal as (Hi & Hact & Hinc).
  assert (Hi' : 0 <= i < TCS_LC_SLOTS) by done.
  destruct (proj1 (lc_wf_iff l i Hi') Hl) as (_ & _ & _ & _ & _ & _ & Hone).
  assert (Hidle : idle (slot_at l (other i))).
  { destruct Hone as [Hone|]; [|done]. unfold idle in Hone. lc_lia. }
  split; [done|]. intros Hal'. apply allows_active in Hal' as (Hj & Hact' & Hinc').
  destruct (slots_cases i j Hi' (conj Hj0 Hj)) as [-> | ->].
  - split; [done|]. by rewrite <- Hinc, <- Hinc'.
  - unfold idle in Hidle. lc_lia.
Qed.

(** C27. No replacement without evidence: if, after any run from zeroed memory,
    a reservation is accepted for one slot although the other slot has already
    held a worker, then the accepted events contain a containment of that
    worker followed by the supervisor's stop confirmation and the broker's
    drain confirmation, both naming its incarnation and the last work number
    issued to it. *)
Theorem replacement_needs_evidence xs actor i audit l' v :
  Forall input_u64 xs -> 0 <= i < TCS_LC_SLOTS ->
  tcs_lc_apply (Some (fst (lc_run xs))) actor (mk_event TCS_LC_RESERVE i 0 0) audit =
    (Some l', result TCS_LC_OK v) ->
  let old := slot_at (fst (lc_run xs)) (other i) in
  l_state old <> TCS_LC_UNUSED ->
  exists before contain after,
    snd (lc_run xs) = before ++ contain :: after /\
    is_event TCS_LC_CONTAIN (other i) (l_incarnation old) contain /\
    Exists (confirms TCS_LC_STOPPED (other i) (l_incarnation old) (l_issued old)) after /\
    Exists (confirms TCS_LC_DRAINED (other i) (l_incarnation old) (l_issued old)) after.
Proof.
  intros Hxs Hi Happ old Hused.
  destruct (lc_run_invariant (fun _ _ => True) xs) as [Hwf _]; auto.
  assert (Ho : 0 <= other i < TCS_LC_SLOTS) by (unfold other; lc_lia).
  apply lc_apply_refines_iff in Happ as (_ & _ & Hidle & _);
    [|done|unfold event_u64; simpl; lc_lia].
  destruct (Hidle eq_refl) as [|Hret]; [done|]. simpl in Hret. fold old in Hret.
  destruct (lc_run_evidence xs (other i) Hxs Ho) as (b & c & a & Heq & Hc & Hs & Hd);
    [fold old; lc_lia|]. fold old in Hc, Hs, Hd.
  pose proof (slot_at_shape _ Hwf (other i)) as Hsh. fold old in Hsh.
  exists b, c, a. unfold slot_shape in Hsh. split_and!; auto; [apply Hs|apply Hd]; lc_lia.
Qed.

(** Work is numbered consecutively and never overlaps: over any run, what
    the accepted events did to a slot's work is begin 1, complete 1, begin 2,
    complete 2, ..., the last item possibly not completed. *)
Theorem work_in_sequence xs i :
  Forall input_u64 xs -> 0 <= i < TCS_LC_SLOTS ->
  exists k, flat_map (work_of i) (snd (lc_run xs)) = work_history k \/
    flat_map (work_of i) (snd (lc_run xs)) = work_history k ++ [Begun (Z.of_nat k + 1)].
Proof.
  intros Hxs Hi.
  destruct (lc_run_invariant
    (fun l log => work_ok (slot_at l i) (flat_map (work_of i) log)) xs) as [_ [k Hk]];
    [| |done|exists k; tauto].
  - intros l log x l' v Hl (_ & Hx & _) HP (_ & Hlt & _ & last' & s' & Hstep & ->).
    assert (Hj : 0 <= e_slot (in_event x) < TCS_LC_SLOTS) by word_lia.
    rewrite flat_map_app. simpl flat_map. rewrite app_nil_r.
    destruct (slots_cases _ _ Hj Hi) as [-> | ->].
    + rewrite slot_at_update. by eapply work_step.
    + rewrite slot_at_update_other by done. unfold work_of at 2. simpl fst.
      replace (e_slot (in_event x) =? other (e_slot (in_event x))) with false
        by (unfold other; lia).
      by rewrite app_nil_r.
  - exists 0%nat. left. split; [done|]. unfold slot_at. by destruct (i =? 0).
Qed.

(** ** Witnesses *)

Definition input (actor : tcs_lc_actor) (op i inc seq : Z) (audit : bool) : lc_input :=
  {| in_actor := actor; in_event := mk_event op i inc seq; in_audit := audit |}.

(** A first worker in slot 0: reserved, started, activated, given one piece of
    work, contained, confirmed stopped and drained. *)
Definition first_worker : list lc_input :=
  [input TCS_LC_ADMIN TCS_LC_RESERVE 0 0 0 true;
   input TCS_LC_SUPERVISOR TCS_LC_STARTED 0 1 0 false;
   input TCS_LC_ADMIN TCS_LC_ACTIVATE 0 1 0 true;
   input TCS_LC_BROKER TCS_LC_BEGIN 0 1 0 false;
   input TCS_LC_DETECTOR TCS_LC_CONTAIN 0 1 0 false;
   input TCS_LC_SUPERVISOR TCS_LC_STOPPED 0 1 1 false;
   input TCS_LC_BROKER TCS_LC_DRAINED 0 1 1 false].

Ltac inputs_concrete :=
  repeat (apply List.Forall_cons || apply List.Forall_nil);
  unfold input_u64, event_u64; simpl; lc_lia.

Lemma first_worker_u64 n : Forall input_u64 (take n first_worker).
Proof. apply Forall_take. unfold first_worker, input. inputs_concrete. Qed.

Definition active_lifecycle : tcs_lifecycle := exec lc_step lifecycle_zero (take 4 first_worker).

Lemma active_lifecycle_wf : lc_wf active_lifecycle.
Proof. apply lc_exec_wf; [apply first_worker_u64|apply lifecycle_zero_wf]. Qed.

Lemma lc_apply_refines_witness :
  exists l', tcs_lc_apply (Some active_lifecycle) TCS_LC_DETECTOR (mk_event TCS_LC_CONTAIN 0 1 0)
    false = (Some l', result TCS_LC_OK 1).
Proof.
  eexists. apply lc_apply_refines.
  - apply active_lifecycle_wf.
  - unfold event_u64; simpl; lc_lia.
  - split; [reflexivity|]. split; [reflexivity|]. split; [discriminate|].
    eexists _, _. split; [|reflexivity].
    apply (do_contain 1 TCS_LC_ACTIVE 0 1 1 1 false). lc_lia.
Defined.

Lemma lc_run_valid_witness :
  tcs_lc_valid (Some (exec lc_step lifecycle_zero first_worker)) = true.
Proof.
  apply (lc_run_valid first_worker TCS_LC_WORKER (mk_event 0 0 0 0) true).
  apply (first_worker_u64 7).
Defined.

Lemma contained_forever_witness :
  tcs_lc_allows (Some (exec lc_step (exec lc_step active_lifecycle
    [input TCS_LC_DETECTOR TCS_LC_CONTAIN 0 1 0 false])
    [input TCS_LC_ADMIN TCS_LC_ACTIVATE 0 1 0 true])) 0 1 = false.
Proof.
  apply (contained_forever active_lifecycle TCS_LC_DETECTOR 0 1 false _ 1).
  - apply active_lifecycle_wf.
  - unfold event_u64; simpl; lc_lia.
  - unfold input. inputs_concrete.
  - reflexivity.
Defined.

Lemma one_worker_allowed_witness : idle (slot_at active_lifecycle (other 0)).
Proof.
  apply (one_worker_allowed active_lifecycle 0 1 1 1); [apply active_lifecycle_wf|lia|lia|].
  reflexivity.
Defined.

Lemma replacement_needs_evidence_witness :
  exists before contain after,
    snd (lc_run first_worker) = before ++ contain :: after /\
    is_event TCS_LC_CONTAIN 0 1 contain /\
    Exists (confirms TCS_LC_STOPPED 0 1 1) after /\ Exists (confirms TCS_LC_DRAINED 0 1 1) after.
Proof.
  refine (replacement_needs_evidence first_worker TCS_LC_ADMIN 1 true _ 2 _ _ _ _).
  - apply (first_worker_u64 7).
  - lc_lia.
  - lazy. reflexivity.
  - vm_compute. discriminate.
Defined.

Lemma work_in_sequence_witness :
  exists k, flat_map (work_of 0) (snd (lc_run first_worker)) = work_history k \/
    flat_map (work_of 0) (snd (lc_run first_worker)) = work_history k ++ [Begun (Z.of_nat k + 1)].
Proof. apply work_in_sequence; [apply (first_worker_u64 7)|lc_lia]. Defined.
