(* ===== verification/Reduction.v ===== *)
(** The reduction latch: [lib/reduction.c] and [include/tcs/reduction.h].

    A lifecycle, the set of inhibited slots and a fault flag, driven by samples
    of a shared mailbox word. A sample only ever inhibits: an inhibited worker
    is contained at the next poll, and its slot never opens again. *)

From S2P Require Import Prelude Lifecycle.

(** ** Data *)

Definition TCS_RD_ALL : Z := 3.

Record tcs_reduction := { life : tcs_lifecycle; inhibited : Z; input_fault : Z }.

Definition reduction_zero : tcs_reduction :=
  {| life := lifecycle_zero; inhibited := 0; input_fault := 0 |}.

(** [enum tcs_rd_poll_status]. *)
Inductive tcs_rd_poll_status := TCS_RD_OK | TCS_RD_MALFORMED | TCS_RD_INVALID_STATE.

#[export] Instance tcs_rd_poll_status_eq_dec : EqDecision tcs_rd_poll_status.
Proof. solve_decision. Defined.
#[export] Instance tcs_reduction_eq_dec : EqDecision tcs_reduction.
Proof. solve_decision. Defined.

(** [phase >= TCS_LC_STARTING && phase <= TCS_LC_ACTIVE]. *)
Definition live (s : tcs_lc_slot) : bool :=
  (TCS_LC_STARTING <=? l_state s) && (l_state s <=? TCS_LC_ACTIVE).

Definition tcs_rd_valid (control : ptr tcs_reduction) : bool :=
  match control with
  | NULL => false
  | Some c =>
      if negb (tcs_lc_valid (Some (life c))) ||
         truthy (Z.land (inhibited c) (not64 TCS_RD_ALL)) || (1 <? input_fault c) ||
         (truthy (input_fault c) && negb (inhibited c =? TCS_RD_ALL))
      then false
      else forallb (fun i =>
             negb (truthy (Z.land (inhibited c) (bit i)) && live (slot_at (life c) i))) lc_indices
  end.

(** One iteration of the loop of [tcs_rd_poll] on the copy [next]; [None] is
    the early return. *)
Definition rd_contain (next : tcs_reduction) (i : Z) : option tcs_reduction :=
  let slot := slot_at (life next) i in
  if truthy (Z.land (inhibited next) (bit i)) && live slot then
    match tcs_lc_apply (Some (life next)) TCS_LC_DETECTOR
      {| e_op := TCS_LC_CONTAIN; e_slot := i; e_incarnation := l_incarnation slot;
         e_sequence := 0 |} false with
    | (Some l, r) =>
        if negb (l_status r =? TCS_LC_OK) then None
        else Some {| life := l; inhibited := inhibited next; input_fault := input_fault next |}
    | (NULL, _) => None
    end
  else Some next.

Definition tcs_rd_poll (control : ptr tcs_reduction) (sample : Z)
    : ptr tcs_reduction * tcs_rd_poll_status :=
  match control with
  | NULL => (control, TCS_RD_INVALID_STATE)
  | Some c =>
      if negb (tcs_rd_valid control) then (control, TCS_RD_INVALID_STATE)
      else
        let malformed := truthy (Z.land sample (not64 TCS_RD_ALL)) in
        let next :=
          {| life := life c;
             inhibited := Z.lor (inhibited c) (if malformed then TCS_RD_ALL else sample);
             input_fault := if malformed then 1 else input_fault c |} in
        match foldl (fun acc i => acc ≫= fun n => rd_contain n i) (Some next) lc_indices with
        | None => (control, TCS_RD_INVALID_STATE)
        | Some next => (Some next, if malformed then TCS_RD_MALFORMED else TCS_RD_OK)
        end
  end.

Definition tcs_rd_apply (control : ptr tcs_reduction) (sample : Z) (actor : tcs_lc_actor)
    (event : tcs_lc_event) (audit_ok : bool) : ptr tcs_reduction * tcs_lc_result :=
  match tcs_rd_poll control sample with
  | (control, TCS_RD_INVALID_STATE) => (control, result TCS_LC_INVALID 0)
  | (NULL, _) => (NULL, result TCS_LC_INVALID 0)
  | (Some c, _) =>
      if (e_slot event <? TCS_LC_SLOTS) &&
         truthy (Z.land (inhibited c) (bit (e_slot event))) &&
         ((e_op event =? TCS_LC_RESERVE) || (e_op event =? TCS_LC_ACTIVATE))
      then (Some c, result TCS_LC_DENIED 0)
      else
        match tcs_lc_apply (Some (life c)) actor event audit_ok with
        | (Some l, r) =>
            (Some {| life := l; inhibited := inhibited c; input_fault := input_fault c |}, r)
        | (NULL, r) => (Some c, r)
        end
  end.

Definition tcs_rd_stop_mask (control : ptr tcs_reduction) : Z :=
  match control with
  | NULL => TCS_RD_ALL
  | Some c =>
      if negb (tcs_rd_valid control) then TCS_RD_ALL
      else foldl (fun mask i =>
             let s := slot_at (life c) i in
             if (l_state s =? TCS_LC_CLOSING) && negb (truthy (l_stopped s))
             then Z.lor mask (bit i) else mask) 0 lc_indices
  end.

Definition tcs_rd_allows (control : ptr tcs_reduction) (slot incarnation : Z) : bool :=
  match control with
  | NULL => false
  | Some c =>
      tcs_rd_valid control && (slot <? TCS_LC_SLOTS) &&
      negb (truthy (Z.land (inhibited c) (bit slot))) &&
      tcs_lc_allows (Some (life c)) slot incarnation
  end.

(** The mailbox: one atomic word. The release/acquire pair orders the single
    word with itself, so its history is a sequence of atomic accesses. *)
Record tcs_reduction_mailbox := { requests : Z }.

Definition tcs_rd_publish (mailbox : ptr tcs_reduction_mailbox) (reqs : Z)
    : ptr tcs_reduction_mailbox * bool :=
  match mailbox with
  | NULL => (mailbox, false)
  | Some m =>
      if truthy (Z.land reqs (not64 TCS_RD_ALL)) then (mailbox, false)
      else (Some {| requests := Z.lor (requests m) reqs |}, true)
  end.

Definition tcs_rd_sample (mailbox : ptr tcs_reduction_mailbox) : Z :=
  match mailbox with Some m => requests m | NULL => UINT64_MAX end.

(** ** Well-formedness and the reference latch *)

(** Slot [i] is in the set of inhibited slots. *)
Abbreviation inhibits inh i := (Z.testbit inh i).

(** A latch the code accepts, with its fields in range. *)
Definition rd_wf (c : tcs_reduction) : Prop :=
  lc_wf (life c) /\ 0 <= inhibited c <= TCS_RD_ALL /\ 0 <= input_fault c <= 1 /\
  (input_fault c = 1 -> inhibited c = TCS_RD_ALL) /\
  forall i, 0 <= i < TCS_LC_SLOTS -> inhibits (inhibited c) i = true ->
    live (slot_at (life c) i) = false.

(** Slot [i] once its inhibition is enforced. *)
Definition closed_slot (inh i : Z) (s : tcs_lc_slot) : tcs_lc_slot :=
  if inhibits inh i && live s then with_state s TCS_LC_CLOSING else s.

Definition close_life (inh : Z) (l : tcs_lifecycle) : tcs_lifecycle :=
  {| last_incarnation := last_incarnation l;
     slot0 := closed_slot inh 0 (slot0 l); slot1 := closed_slot inh 1 (slot1 l) |}.

(** What a sample does: it adds its slots (all of them when it names unknown
    ones) to the inhibited set and closes the live ones. *)
Definition rd_latch (c : tcs_reduction) (sample : Z) : tcs_reduction :=
  let bad := TCS_RD_ALL <? sample in
  let inh := Z.lor (inhibited c) (if bad then TCS_RD_ALL else sample) in
  {| life := close_life inh (life c); inhibited := inh;
     input_fault := if bad then 1 else input_fault c |}.

Definition rd_status (sample : Z) : tcs_rd_poll_status :=
  if TCS_RD_ALL <? sample then TCS_RD_MALFORMED else TCS_RD_OK.

Lemma land_not_all x : u64 x -> truthy (Z.land x (not64 TCS_RD_ALL)) = (TCS_RD_ALL <? x).
Proof. intros Hx. change TCS_RD_ALL with (Z.ones 2). apply land_not_ones; [done|lia]. Qed.

Lemma slot_index i : 0 <= i < TCS_LC_SLOTS -> i = 0 \/ i = 1.
Proof. lc_lia. Qed.

(** The sets of slots, and their union. *)
Lemma mask_cases m : 0 <= m <= TCS_RD_ALL -> m = 0 \/ m = 1 \/ m = 2 \/ m = 3.
Proof. unfold TCS_RD_ALL. lia. Qed.

Lemma mask_lor a b :
  0 <= a <= TCS_RD_ALL -> 0 <= b <= TCS_RD_ALL ->
  0 <= Z.lor a b <= TCS_RD_ALL /\ (a = TCS_RD_ALL -> Z.lor a b = TCS_RD_ALL).
Proof.
  intros [->|[->|[->| ->]]]%mask_cases [->|[->|[->| ->]]]%mask_cases;
  cbv -[Z.le]; intuition lia.
Qed.

Lemma inhibits_all i : 0 <= i < TCS_LC_SLOTS -> inhibits TCS_RD_ALL i = true.
Proof. by intros [->| ->]%slot_index. Qed.

Lemma rd_valid_iff c :
  lc_wf (life c) -> u64 (inhibited c) -> u64 (input_fault c) ->
  tcs_rd_valid (Some c) = true <-> rd_wf c.
Proof.
  intros Hl Hi Hf. pose proof Hl as (_ & _ & _ & Hv). unfold tcs_rd_valid, rd_wf.
  rewrite Hv, land_not_all by done. cbn [lc_indices forallb negb]. rewrite !land_bit by lia.
  split.
  - intros H. split_if; [done|]. bools.
    split_and!; [done|word_lia|word_lia|word_lia|word_lia|word_lia|].
    intros i [->| ->]%slot_index Hb; rewrite Hb in *; by bools.
  - intros (_ & Hr & Hr' & Hall & Hlive).
    destruct (_ || _) eqn:Hc; [exfalso; unfold TCS_RD_ALL in *; word_lia|].
    pose proof (Hlive 0 ltac:(lc_lia)) as H0. pose proof (Hlive 1 ltac:(lc_lia)) as H1.
    destruct (Z.testbit _ 0), (Z.testbit _ 1); try rewrite H0 by done; try rewrite H1 by done; done.
Qed.

Lemma rd_wf_valid c : rd_wf c -> tcs_rd_valid (Some c) = true.
Proof.
  intros Hc. pose proof Hc as (Hl & Hi & Hf & _).
  apply rd_valid_iff; unfold TCS_RD_ALL in *; auto; word_lia.
Qed.

(** ** Containment of a live worker *)

Definition contain_input (l : tcs_lifecycle) (i : Z) : lc_input :=
  {| in_actor := TCS_LC_DETECTOR;
     in_event := mk_event TCS_LC_CONTAIN i (l_incarnation (slot_at l i)) 0;
     in_audit := false |}.

Lemma contain_input_u64 l i : lc_wf l -> 0 <= i < TCS_LC_SLOTS -> input_u64 (contain_input l i).
Proof.
  intros Hl Hi. destruct (slot_at_u64 l Hl i) as (_ & Hinc & _).
  unfold input_u64, event_u64. simpl. split_and!; [lc_lia..|done|lc_lia].
Qed.

Lemma contain_live l i :
  lc_wf l -> 0 <= i < TCS_LC_SLOTS -> live (slot_at l i) = true ->
  tcs_lc_apply (Some l) TCS_LC_DETECTOR (in_event (contain_input l i)) false =
    (Some (update l i (last_incarnation l) (with_state (slot_at l i) TCS_LC_CLOSING)),
     result TCS_LC_OK (l_incarnation (slot_at l i))).
Proof.
  intros Hl Hi Hlive. apply lc_apply_refines_iff; [done|by apply contain_input_u64|].
  split; [done|]. simpl. split; [lc_lia|]. split; [discriminate|].
  eexists _, _. split; [|reflexivity].
  pose proof (slot_at_shape l Hl i) as Hsh. unfold live in Hlive. bools.
  destruct (slot_at l i) as [st inc iss pe stp dr]. unfold slot_shape in Hsh. simpl in *.
  assert (stp = 0) as -> by lc_lia. assert (dr = 0) as -> by lc_lia.
  apply do_contain. lc_lia.
Qed.

Lemma update_same l i : 0 <= i < TCS_LC_SLOTS -> update l i (last_incarnation l) (slot_at l i) = l.
Proof. intros [->| ->]%slot_index; by destruct l. Qed.

(** The reductions of one loop iteration are calls of the lifecycle owner. *)
Lemma rd_contain_spec n i :
  lc_wf (life n) -> 0 <= i < TCS_LC_SLOTS ->
  let l' := update (life n) i (last_incarnation (life n))
              (closed_slot (inhibited n) i (slot_at (life n) i)) in
  rd_contain n i =
    Some {| life := l'; inhibited := inhibited n; input_fault := input_fault n |} /\
  lc_wf l' /\
  l' = exec lc_step (life n)
         (if inhibits (inhibited n) i && live (slot_at (life n) i)
          then [contain_input (life n) i] else []).
Proof.
  intros Hl Hi. unfold rd_contain, closed_slot. rewrite land_bit by lia.
  destruct (_ && _) eqn:Hc.
  - apply andb_true_iff in Hc as [_ Hlive]. pose proof (contain_live _ _ Hl Hi Hlive) as Ha.
    assert (Hst : lc_step (life n) (contain_input (life n) i) =
      update (life n) i (last_incarnation (life n)) (with_state (slot_at (life n) i) TCS_LC_CLOSING)).
    { unfold lc_step. change (in_actor _) with TCS_LC_DETECTOR. change (in_audit _) with false.
      by rewrite Ha. }
    unfold contain_input in Ha. cbn [in_event] in Ha. unfold mk_event in Ha. rewrite Ha.
    split; [done|]. rewrite <- Hst. split; [|done].
    apply lc_step_wf; [by apply contain_input_u64|done].
  - rewrite update_same by done. by destruct n.
Qed.

Lemma closed_slot_live inh i s : inhibits inh i = true -> live (closed_slot inh i s) = false.
Proof. unfold closed_slot. intros ->. simpl. destruct (live s) eqn:?; [done|done]. Qed.

Lemma slot_at_close inh l i :
  0 <= i < TCS_LC_SLOTS -> slot_at (close_life inh l) i = closed_slot inh i (slot_at l i).
Proof. by intros [->| ->]%slot_index. Qed.

(** ** Polling *)

(** A call with the reduction authority of the mailbox's writer only. *)
Definition reduces (x : lc_input) : Prop :=
  in_actor x = TCS_LC_DETECTOR /\ e_op (in_event x) = TCS_LC_CONTAIN.

(** The lifecycle calls a poll makes for the inhibited set [inh]. *)
Definition poll_inputs (inh : Z) (l : tcs_lifecycle) : list lc_input :=
  (if inhibits inh 0 && live (slot_at l 0) then [contain_input l 0] else []) ++
  (if inhibits inh 1 && live (slot_at l 1) then [contain_input l 1] else []).

Lemma poll_inputs_ok inh l :
  lc_wf l -> Forall input_u64 (poll_inputs inh l) /\ Forall reduces (poll_inputs inh l).
Proof.
  intros Hl. unfold poll_inputs.
  split; (apply Forall_app; split; split_if; constructor; try constructor; try done);
  apply contain_input_u64; done || lc_lia.
Qed.

Lemma close_life_update inh l :
  update (update l 0 (last_incarnation l) (closed_slot inh 0 (slot_at l 0))) 1
    (last_incarnation l) (closed_slot inh 1 (slot_at l 1)) = close_life inh l.
Proof. reflexivity. Qed.

Lemma rd_contain_loop n :
  lc_wf (life n) ->
  foldl (fun acc i => acc ≫= fun n => rd_contain n i) (Some n) lc_indices =
    Some {| life := close_life (inhibited n) (life n); inhibited := inhibited n;
            input_fault := input_fault n |} /\
  lc_wf (close_life (inhibited n) (life n)) /\
  close_life (inhibited n) (life n) = exec lc_step (life n) (poll_inputs (inhibited n) (life n)).
Proof.
  intros Hl. unfold lc_indices. cbn [foldl]. cbn [mbind option_bind].
  destruct (rd_contain_spec n 0 Hl ltac:(lc_lia)) as (-> & Hl0 & E0). cbn [option_bind].
  set (l0 := update (life n) 0 _ _) in *.
  set (n0 := {| life := l0; inhibited := _; input_fault := _ |}).
  change (Some n0 ≫= _) with (rd_contain n0 1).
  destruct (rd_contain_spec n0 1 Hl0 ltac:(lc_lia)) as (-> & Hl1 & E1).
  split; [done|]. split; [done|].
  unfold poll_inputs. rewrite exec_app, <- E0. exact E1.
Qed.

Lemma rd_poll_full c sample :
  rd_wf c -> u64 sample ->
  tcs_rd_poll (Some c) sample = (Some (rd_latch c sample), rd_status sample) /\
  rd_wf (rd_latch c sample) /\
  life (rd_latch c sample) =
    exec lc_step (life c) (poll_inputs (inhibited (rd_latch c sample)) (life c)).
Proof.
  intros Hc Hs. pose proof Hc as (Hl & Hi & Hf & Hall & _).
  unfold tcs_rd_poll. rewrite (rd_wf_valid c Hc), land_not_all by done. cbn [negb].
  unfold rd_latch, rd_status. cbv zeta.
  set (bad := TCS_RD_ALL <? sample) in *.
  set (next := {| life := life c; inhibited := _; input_fault := _ |}).
  destruct (rd_contain_loop next Hl) as (-> & Hl' & Hx).
  split; [by destruct bad|]. split; [|exact Hx].
  assert (Hm : 0 <= (if bad then TCS_RD_ALL else sample) <= TCS_RD_ALL).
  { subst bad. destruct (_ <? _) eqn:?; unfold TCS_RD_ALL in *; word_lia. }
  split; [exact Hl'|]. cbn [inhibited input_fault life].
  destruct (mask_lor _ _ Hi Hm) as [Hr Ha]. split; [done|].
  split; [destruct bad; lia|]. split.
  - intros H1. destruct bad; [|by apply Ha, Hall].
    rewrite Z.lor_comm. by apply (proj2 (mask_lor TCS_RD_ALL (inhibited c) ltac:(done) Hi)).
  - intros i Hlt Hb. rewrite slot_at_close by done. by apply closed_slot_live.
Qed.

Lemma rd_zero_wf : rd_wf reduction_zero.
Proof.
  split; [apply lifecycle_zero_wf|]. simpl. split; [done|]. split; [done|].
  split; [done|]. intros i _ Hb. by rewrite Z.testbit_0_l in Hb.
Qed.

(** ** Events *)

(** The events the latch refuses on an inhibited slot. *)
Definition opening (e : tcs_lc_event) : bool :=
  (e_op e =? TCS_LC_RESERVE) || (e_op e =? TCS_LC_ACTIVATE).

Definition with_life (c : tcs_reduction) (l : tcs_lifecycle) : tcs_reduction :=
  {| life := l; inhibited := inhibited c; input_fault := input_fault c |}.

(** After the poll, the event is refused or is one more lifecycle call. *)
Lemma rd_apply_full c sample actor e audit :
  rd_wf c -> u64 sample -> event_u64 e ->
  let c1 := rd_latch c sample in
  tcs_rd_apply (Some c) sample actor e audit =
    if (e_slot e <? TCS_LC_SLOTS) && inhibits (inhibited c1) (e_slot e) && opening e
    then (Some c1, result TCS_LC_DENIED 0)
    else (Some (with_life c1 (lc_step (life c1)
                 {| in_actor := actor; in_event := e; in_audit := audit |})),
          snd (tcs_lc_apply (Some (life c1)) actor e audit)).
Proof.
  intros Hc Hs He c1. unfold tcs_rd_apply.
  destruct (rd_poll_full c sample Hc Hs) as (-> & _ & _).
  rewrite land_bit by (destruct He as (_ & ? & _); word_lia).
  fold (opening e) c1.
  assert (Hst : rd_status sample = TCS_RD_OK \/ rd_status sample = TCS_RD_MALFORMED)
    by (unfold rd_status; destruct (_ <? _); auto).
  destruct Hst as [-> | ->]; (destruct (_ && opening e) eqn:?; [done|]);
  unfold lc_step; cbn [in_actor in_event in_audit];
  destruct (tcs_lc_apply (Some (life c1)) actor e audit) as [[|] ?]; by destruct c1.
Qed.

(** A step never moves a slot into a live phase, unless it is a reservation or
    starts from one. *)
Lemma slot_step_phase last s e audit last' s' v :
  slot_step last s e audit last' s' v ->
  e_op e = TCS_LC_RESERVE \/ l_state s' = l_state s \/
  TCS_LC_STARTING <= l_state s <= TCS_LC_ACTIVE \/ TCS_LC_CLOSING <= l_state s'.
Proof.
  destruct 1; simpl;
  repeat match goal with |- context [if ?b then _ else _] => destruct b eqn:? end; lc_lia.
Qed.

(** A lifecycle call that is not refused keeps every inhibited slot closed. *)
Lemma rd_step_live c x :
  rd_wf c -> input_u64 x ->
  (e_slot (in_event x) <? TCS_LC_SLOTS) && inhibits (inhibited c) (e_slot (in_event x)) &&
    opening (in_event x) = false ->
  rd_wf (with_life c (lc_step (life c) x)).
Proof.
  intros (Hl & Hi & Hf & Hall & Hlive) Hx Hno.
  split; [by apply lc_step_wf|]. split; [done|]. split; [done|]. split; [done|].
  simpl. intros i Hlt Hb.
  destruct (lc_step_cases (life c) x Hl Hx) as [->|[v (_ & He & _ & last' & s' & Hstep & Heq)]];
    [auto|]. rewrite Heq.
  assert (Hj : 0 <= e_slot (in_event x) < TCS_LC_SLOTS)
    by (destruct Hx as (_ & ? & _); word_lia).
  destruct (slots_cases _ _ Hj Hlt) as [-> | ->].
  - rewrite slot_at_update. specialize (Hlive _ Hlt Hb). rewrite Hb in Hno.
    apply slot_step_phase in Hstep. unfold opening, live in *. lc_lia.
  - rewrite slot_at_update_other by done. auto.
Qed.

Lemma rd_apply_wf c sample actor e audit :
  rd_wf c -> u64 sample -> event_u64 e ->
  exists c' r, tcs_rd_apply (Some c) sample actor e audit = (Some c', r) /\ rd_wf c' /\
    inhibited c' = inhibited (rd_latch c sample) /\
    input_fault c' = input_fault (rd_latch c sample) /\
    exists xs, Forall input_u64 xs /\ life c' = exec lc_step (life c) xs /\
      exists n, Forall reduces (take n xs) /\
        (drop n xs = [] \/
         drop n xs = [{| in_actor := actor; in_event := e; in_audit := audit |}]).
Proof.
  intros Hc Hs He. rewrite rd_apply_full by done. cbv zeta.
  destruct (rd_poll_full c sample Hc Hs) as (_ & Hw & Hlife).
  set (c1 := rd_latch c sample) in *.
  destruct (poll_inputs_ok (inhibited c1) (life c) (proj1 Hc)) as [Hu Hred].
  set (ps := poll_inputs (inhibited c1) (life c)) in *.
  set (x := {| in_actor := actor; in_event := e; in_audit := audit |}).
  destruct (_ && opening e) eqn:Hden; eexists _, _; (split; [reflexivity|]).
  - split_and!; try done. exists ps. split_and!; try done.
    exists (length ps). rewrite firstn_all, drop_all. auto.
  - split; [by apply (rd_step_live c1 x)|]. split_and!; try done.
    exists (ps ++ [x]). split; [apply Forall_app; by rewrite Forall_singleton|].
    split; [by rewrite exec_app, <- Hlife|].
    exists (length ps). rewrite take_app_length, drop_app_length. auto.
Qed.

(** ** The mailbox and its owner, interleaved *)

(** What happens to the shared word and to the latch, one atomic access at a
    time: a publication through the helper, a raw store by a hostile writer, an
    independent poll of the owner, or an event of the owner (which polls
    first). *)
Inductive rd_event :=
| Publish (r : Z)
| Overwrite (w : Z)
| Poll
| Event (x : lc_input).

Record rd_system := { mailbox : tcs_reduction_mailbox; owner : tcs_reduction }.

Definition rd_system_zero : rd_system :=
  {| mailbox := {| requests := 0 |}; owner := reduction_zero |}.

(** A copy of the state in which a nullable result replaces a component. *)
Definition set_owner (s : rd_system) (o : ptr tcs_reduction) : rd_system :=
  match o with Some c => {| mailbox := mailbox s; owner := c |} | NULL => s end.
Definition set_mailbox (s : rd_system) (m : ptr tcs_reduction_mailbox) : rd_system :=
  match m with Some m => {| mailbox := m; owner := owner s |} | NULL => s end.

Definition rd_sys_step (s : rd_system) (e : rd_event) : rd_system :=
  match e with
  | Publish r => set_mailbox s (fst (tcs_rd_publish (Some (mailbox s)) r))
  | Overwrite w => set_mailbox s (Some {| requests := w |})
  | Poll => set_owner s (fst (tcs_rd_poll (Some (owner s)) (tcs_rd_sample (Some (mailbox s)))))
  | Event x =>
      set_owner s (fst (tcs_rd_apply (Some (owner s)) (tcs_rd_sample (Some (mailbox s)))
        (in_actor x) (in_event x) (in_audit x)))
  end.

Definition rd_event_u64 (e : rd_event) : Prop :=
  match e with
  | Publish r => u64 r
  | Overwrite w => u64 w
  | Poll => True
  | Event x => input_u64 x
  end.

Definition observes (e : rd_event) : Prop :=
  match e with Poll | Event _ => True | _ => False end.
Definition honest (e : rd_event) : Prop :=
  match e with Overwrite _ => False | _ => True end.

Definition rd_sys_wf (s : rd_system) : Prop := u64 (requests (mailbox s)) /\ rd_wf (owner s).

(** [m] is a subset of [m'], as sets of slots. *)
Definition submask (m m' : Z) : Prop :=
  forall i, 0 <= i < TCS_LC_SLOTS -> inhibits m i = true -> inhibits m' i = true.

#[export] Instance submask_preorder : PreOrder submask.
Proof. split; unfold submask; auto. Qed.

Lemma submask_lor_l a b : submask a (Z.lor a b).
Proof. intros i _ H. by rewrite Z.lor_spec, H. Qed.
Lemma submask_lor_r a b : submask b (Z.lor a b).
Proof. intros i _ H. by rewrite Z.lor_spec, H, orb_true_r. Qed.

Lemma submask_latch c sample :
  submask (inhibited c) (inhibited (rd_latch c sample)) /\
  submask sample (inhibited (rd_latch c sample)).
Proof.
  unfold rd_latch; simpl. split; [apply submask_lor_l|].
  intros i Hi H. rewrite Z.lor_spec. apply orb_true_iff. right.
  destruct (_ <? _); [by apply inhibits_all|done].
Qed.

Lemma lor_u64 a b : u64 a -> u64 b -> u64 (Z.lor a b).
Proof.
  intros Ha Hb. apply u64_range in Ha, Hb.
  assert (Hl : 0 <= Z.lor a b) by (apply Z.lor_nonneg; lia).
  split; [done|]. enough (Z.lor a b < 2 ^ 64) by word_lia.
  destruct (Z.eq_dec (Z.lor a b) 0) as [->|]; [done|]. apply Z.log2_lt_pow2; [lia|].
  rewrite Z.log2_lor by lia. apply Z.max_lub_lt.
  - destruct (Z.eq_dec a 0) as [->|]; [done|]. apply Z.log2_lt_pow2; lia.
  - destruct (Z.eq_dec b 0) as [->|]; [done|]. apply Z.log2_lt_pow2; lia.
Qed.

(** The owner after an observing step has latched the word it sampled. *)
Lemma rd_sys_observe s e :
  rd_sys_wf s -> rd_event_u64 e -> observes e ->
  mailbox (rd_sys_step s e) = mailbox s /\ rd_wf (owner (rd_sys_step s e)) /\
  inhibited (owner (rd_sys_step s e)) =
    inhibited (rd_latch (owner s) (requests (mailbox s))).
Proof.
  intros [Hm Ho] He Hobs. destruct e as [| | |x]; try done; cbn [rd_sys_step].
  - destruct (rd_poll_full _ _ Ho Hm) as (Hp & Hw & _). simpl tcs_rd_sample. by rewrite Hp.
  - destruct (rd_apply_wf _ _ (in_actor x) (in_event x) (in_audit x) Ho Hm He)
      as (c' & r & Ha & Hw & Hi & _). simpl tcs_rd_sample. by rewrite Ha.
Qed.

Lemma rd_sys_step_wf s e :
  rd_event_u64 e -> rd_sys_wf s ->
  rd_sys_wf (rd_sys_step s e) /\
  submask (inhibited (owner s)) (inhibited (owner (rd_sys_step s e))) /\
  (honest e -> submask (requests (mailbox s)) (requests (mailbox (rd_sys_step s e)))).
Proof.
  intros He [Hm Ho]. destruct e as [r|w| |x].
  3, 4: destruct (rd_sys_observe s _ (conj Hm Ho) He I) as (Heq & Hw & Hi);
    unfold rd_sys_wf; rewrite Heq, Hi; split; [done|]; split; [apply submask_latch|done].
  - cbn [rd_sys_step]. unfold tcs_rd_publish. split_if; [done|]. simpl.
    split; [split; [by apply lor_u64|done]|]. split; [done|]. intros _. apply submask_lor_l.
  - done.
Qed.

(** The inhibited set only grows. *)
Definition latched_le (s s' : rd_system) : Prop :=
  submask (inhibited (owner s)) (inhibited (owner s')).

#[export] Instance latched_le_preorder : PreOrder latched_le.
Proof. split; unfold latched_le; [intros s; reflexivity|]. intros s1 s2 s3 H1 H2. by etransitivity. Qed.

Lemma rd_sys_run es s :
  Forall rd_event_u64 es -> rd_sys_wf s ->
  rd_sys_wf (exec rd_sys_step s es) /\ latched_le s (exec rd_sys_step s es).
Proof.
  intros Hes Hs. split.
  - apply (exec_invariant rd_sys_step rd_event_u64); [|done..].
    intros s' e He Hs'. by apply rd_sys_step_wf.
  - apply (exec_preorder rd_sys_step rd_event_u64 rd_sys_wf latched_le); [| |done|done];
    intros s' e He Hs'; by apply rd_sys_step_wf.
Qed.

Lemma rd_sys_run_honest es s :
  Forall rd_event_u64 es -> Forall honest es -> rd_sys_wf s ->
  submask (requests (mailbox s)) (requests (mailbox (exec rd_sys_step s es))).
Proof.
  revert s. induction es as [|e es IH]; intros s Hes Hh Hs; [done|].
  apply Forall_cons_1 in Hes as [He Hes], Hh as [Hhe Hh].
  destruct (rd_sys_step_wf s e He Hs) as (Hw & _ & Hm).
  rewrite exec_cons. etransitivity; [by apply Hm|]. by apply IH.
Qed.

Lemma rd_zero_sys_wf : rd_sys_wf rd_system_zero.
Proof. split; [simpl; word_lia|apply rd_zero_wf]. Qed.

(** A publication the helper accepts puts its slots in the word. *)
Lemma publish_mailbox s r :
  rd_sys_wf s -> u64 r -> r <= TCS_RD_ALL ->
  submask r (requests (mailbox (rd_sys_step s (Publish r)))).
Proof.
  intros [Hm _] Hr Hle. cbn [rd_sys_step]. unfold tcs_rd_publish.
  rewrite land_not_all, (proj2 (Z.ltb_ge _ _)) by done. apply submask_lor_r.
Qed.

(** A closed slot admits nothing. *)
Lemma allows_inhibited c i inc :
  0 <= i -> inhibits (inhibited c) i = true -> tcs_rd_allows (Some c) i inc = false.
Proof.
  intros Hi Hb. unfold tcs_rd_allows. rewrite land_bit, Hb by done.
  by rewrite andb_false_r.
Qed.

(** ** Properties *)

(** Polling is the reference latch: from a well-formed latch, a poll
    inhibits the slots of the sample (both, with the fault flag set, when the
    sample names an unknown slot), moves every inhibited live worker to CLOSING
    and changes nothing else; it answers MALFORMED or OK accordingly, never
    INVALID_STATE, and the result is again a latch the code accepts. A missing
    or corrupt latch is refused and left as it was. *)
Theorem rd_poll_latches c sample :
  u64 sample ->
  (rd_wf c ->
   tcs_rd_poll (Some c) sample = (Some (rd_latch c sample), rd_status sample) /\
   tcs_rd_valid (Some (rd_latch c sample)) = true) /\
  (tcs_rd_valid (Some c) = false ->
   tcs_rd_poll (Some c) sample = (Some c, TCS_RD_INVALID_STATE)) /\
  tcs_rd_poll NULL sample = (NULL, TCS_RD_INVALID_STATE).
Proof.
  intros Hs. split; [|split; [|done]].
  - intros Hc. destruct (rd_poll_full c sample Hc Hs) as (Hp & Hw & _).
    split; [done|]. by apply rd_wf_valid.
  - intros Hv. unfold tcs_rd_poll. by rewrite Hv.
Qed.

(** C28. Refinement to the lifecycle owner: an event, with the poll before it,
    acts on the embedded lifecycle as a sequence of lifecycle calls, first
    containments made with detector authority and then at most the event
    itself, so every guarantee of the lifecycle carries over; and the latch
    stays one the code accepts. *)
Theorem rd_apply_refines_lifecycle c sample actor e audit :
  rd_wf c -> u64 sample -> event_u64 e ->
  exists c' r, tcs_rd_apply (Some c) sample actor e audit = (Some c', r) /\
    tcs_rd_valid (Some c') = true /\
    exists contains event, life c' = exec lc_step (life c) (contains ++ event) /\
      Forall reduces contains /\
      (event = [] \/
       event = [{| in_actor := actor; in_event := e; in_audit := audit |}]).
Proof.
  intros Hc Hs He.
  destruct (rd_apply_wf c sample actor e audit Hc Hs He)
    as (c' & r & Ha & Hw & _ & _ & xs & _ & Hx & n & Hr & Hd).
  exists c', r. split; [done|]. split; [by apply rd_wf_valid|].
  exists (take n xs), (drop n xs). by rewrite take_drop.
Qed.

(** C24. A published reduction is enforced at the next observation and for
    ever: whatever the initial history, if a request [r] is published, only
    publications, polls and events follow until the owner samples, and then
    anything happens (hostile stores into the mailbox included), no slot named
    by [r] is ever admitted again, for any incarnation, and no worker in it is
    live. *)
Theorem published_reduction_enforced before r between e after i inc :
  let es := before ++ Publish r :: between ++ e :: after in
  Forall rd_event_u64 es -> Forall honest between -> observes e ->
  r <= TCS_RD_ALL -> 0 <= i < TCS_LC_SLOTS -> Z.testbit r i = true ->
  let s := exec rd_sys_step rd_system_zero es in
  tcs_rd_allows (Some (owner s)) i inc = false /\
  live (slot_at (life (owner s)) i) = false.
Proof.
  intros es Hes Hh Hobs Hr Hi Hb s.
  apply Forall_app in Hes as [Hbe Hes]. apply Forall_cons_1 in Hes as [Hp Hes].
  apply Forall_app in Hes as [Hbt Hes]. apply Forall_cons_1 in Hes as [He Haf].
  unfold s, es. rewrite exec_app, exec_cons, exec_app, exec_cons.
  set (s0 := exec rd_sys_step rd_system_zero before).
  assert (H0 : rd_sys_wf s0) by (apply rd_sys_run; [done|apply rd_zero_sys_wf]).
  pose proof (publish_mailbox s0 r H0 Hp Hr) as Hm1.
  set (s1 := rd_sys_step s0 (Publish r)) in *.
  assert (H1 : rd_sys_wf s1) by (by apply rd_sys_step_wf).
  pose proof (rd_sys_run_honest between s1 Hbt Hh H1) as Hm2.
  destruct (rd_sys_run between s1 Hbt H1) as [H2 _].
  set (s2 := exec rd_sys_step s1 between) in *.
  destruct (rd_sys_observe s2 e H2 He Hobs) as (_ & _ & Hi3).
  destruct (rd_sys_step_wf s2 e He H2) as [H3 _].
  destruct (rd_sys_run after _ Haf H3) as [H4 Hm4].
  assert (Hin : inhibits (inhibited (owner (exec rd_sys_step (rd_sys_step s2 e) after))) i = true).
  { apply Hm4; [done|]. rewrite Hi3. apply submask_latch; [done|]. by apply Hm2, Hm1. }
  split; [apply allows_inhibited; [lia|done]|].
  destruct H4 as (_ & _ & _ & _ & _ & Hlive). by apply Hlive.
Qed.

(** The stop mask asks for exactly the stops still owed: from a well-formed
    latch, slot [i] is in the mask if and only if its worker is being closed
    and its stop is not yet confirmed; an invalid latch asks for every slot. *)
Theorem rd_stop_mask_iff c i :
  0 <= i < TCS_LC_SLOTS ->
  (rd_wf c ->
   Z.testbit (tcs_rd_stop_mask (Some c)) i = true <->
   l_state (slot_at (life c) i) = TCS_LC_CLOSING /\ l_stopped (slot_at (life c) i) = 0) /\
  (tcs_rd_valid (Some c) = false -> Z.testbit (tcs_rd_stop_mask (Some c)) i = true).
Proof.
  intros Hi. unfold tcs_rd_stop_mask. split.
  - intros Hc. rewrite (rd_wf_valid c Hc). cbn [negb lc_indices foldl].
    set (b0 := _ && _). set (b1 := _ && _).
    assert (E : forall i, (l_state (slot_at (life c) i) =? TCS_LC_CLOSING) &&
      negb (truthy (l_stopped (slot_at (life c) i))) = true <->
      l_state (slot_at (life c) i) = TCS_LC_CLOSING /\ l_stopped (slot_at (life c) i) = 0).
    { intros j. unfold truthy. lia. }
    rewrite <- E. destruct (slot_index i Hi) as [-> | ->]; fold b0 b1;
    by destruct b0, b1.
  - intros ->. cbn [negb]. by apply inhibits_all.
Qed.

(** ** Witnesses *)

(** Slot 0 holds an active worker. *)
Definition active_latch : tcs_reduction := {|
  life := {| last_incarnation := 1; slot0 := mk_slot TCS_LC_ACTIVE 1 1 1 0 0; slot1 := slot_zero |};
  inhibited := 0; input_fault := 0 |}.

Lemma active_latch_wf : rd_wf active_latch.
Proof.
  apply rd_valid_iff; [|simpl; word_lia..|reflexivity].
  unfold lc_wf, slot_u64. simpl. split_and!; word_lia || lc_lia || done.
Qed.

Lemma rd_poll_latches_witness :
  tcs_rd_poll (Some active_latch) 1 = (Some (rd_latch active_latch 1), TCS_RD_OK) /\
  tcs_rd_valid (Some (rd_latch active_latch 1)) = true.
Proof. apply (rd_poll_latches active_latch 1); [word_lia|apply active_latch_wf]. Defined.

Lemma rd_apply_refines_lifecycle_witness :
  exists c' r, tcs_rd_apply (Some active_latch) 2 TCS_LC_BROKER (mk_event TCS_LC_COMPLETE 0 1 1)
      true = (Some c', r) /\
    tcs_rd_valid (Some c') = true /\
    exists contains event, life c' = exec lc_step (life active_latch) (contains ++ event) /\
      Forall reduces contains /\
      (event = [] \/
       event = [{| in_actor := TCS_LC_BROKER; in_event := mk_event TCS_LC_COMPLETE 0 1 1;
                   in_audit := true |}]).
Proof.
  apply rd_apply_refines_lifecycle; [apply active_latch_wf|word_lia|].
  unfold event_u64; simpl. split_and!; word_lia || lc_lia.
Defined.

Lemma published_reduction_enforced_witness :
  let s := exec rd_sys_step rd_system_zero
    ([] ++ Publish 2 :: [Publish 1] ++ Poll :: [Overwrite 0; Poll]) in
  tcs_rd_allows (Some (owner s)) 1 1 = false /\ live (slot_at (life (owner s)) 1) = false.
Proof.
  apply published_reduction_enforced.
  - repeat (apply List.Forall_cons; [simpl; done || word_lia|]). apply List.Forall_nil.
  - by repeat (apply List.Forall_cons; [done|]).
  - done.
  - done.
  - done.
  - done.
Defined.

Lemma rd_stop_mask_iff_witness :
  Z.testbit (tcs_rd_stop_mask (Some (rd_latch active_latch 1))) 0 = true.
Proof.
  apply (proj1 (rd_stop_mask_iff (rd_latch active_latch 1) 0 (conj (Z.le_refl 0) eq_refl)));
    [apply rd_poll_full; [apply active_latch_wf|word_lia]|by split].
Defined.
