(* ===== verification/Deadline.v ===== *)
(** The worker deadline: [lib/deadline.c] and [include/tcs/deadline.h].

    A reduction latch, the highest clock tick seen and the tick at which each
    slot's lifetime ends. A lifetime is fixed by the reservation, a poll closes
    the slots whose end has come, and a clock that fails or runs backwards
    closes every slot. *)

From S2P Require Import Prelude Lifecycle Reduction.

(** ** Data *)

(** [end[TCS_LC_SLOTS]] with its two elements. *)
Record tcs_deadline := {
  control : tcs_reduction;
  last_tick : Z;
  clock_fault : Z;
  end0 : Z;
  end1 : Z
}.

Record tcs_dl_reading := { tick : Z; ok : bool }.

Inductive tcs_dl_status := TCS_DL_OK | TCS_DL_FAULT | TCS_DL_INVALID_STATE.

#[export] Instance tcs_dl_status_eq_dec : EqDecision tcs_dl_status.
Proof. solve_decision. Defined.

Definition deadline_zero : tcs_deadline :=
  {| control := reduction_zero; last_tick := 0; clock_fault := 0; end0 := 0; end1 := 0 |}.

(** [owner->end[i]], behind a guard or a loop bound [i < TCS_LC_SLOTS]. *)
Definition end_at (owner : tcs_deadline) (i : Z) : Z := if i =? 0 then end0 owner else end1 owner.

Definition set_end (owner : tcs_deadline) (i v : Z) : tcs_deadline :=
  {| control := control owner; last_tick := last_tick owner; clock_fault := clock_fault owner;
     end0 := if i =? 0 then v else end0 owner; end1 := if i =? 0 then end1 owner else v |}.

Definition set_control (owner : tcs_deadline) (c : tcs_reduction) : tcs_deadline :=
  {| control := c; last_tick := last_tick owner; clock_fault := clock_fault owner;
     end0 := end0 owner; end1 := end1 owner |}.

Definition set_clock (owner : tcs_deadline) (last fault : Z) : tcs_deadline :=
  {| control := control owner; last_tick := last; clock_fault := fault;
     end0 := end0 owner; end1 := end1 owner |}.

(** ** Operations *)

Definition tcs_dl_valid (owner : ptr tcs_deadline) : bool :=
  match owner with
  | NULL => false
  | Some o =>
      if negb (tcs_rd_valid (Some (control o))) || (1 <? clock_fault o) ||
         (truthy (clock_fault o) && negb (inhibited (control o) =? TCS_RD_ALL))
      then false
      else forallb (fun i =>
             let unused := l_state (slot_at (life (control o)) i) =? TCS_LC_UNUSED in
             if negb (Bool.eqb unused (end_at o i =? 0)) then false
             else negb (truthy (end_at o i) && (end_at o i <=? last_tick o) &&
                        negb (truthy (Z.land (inhibited (control o)) (bit i))))) lc_indices
  end.

Definition tcs_dl_poll (owner : ptr tcs_deadline) (requests : Z) (reading : tcs_dl_reading)
    : ptr tcs_deadline * tcs_dl_status :=
  match owner with
  | NULL => (owner, TCS_DL_INVALID_STATE)
  | Some o =>
      if negb (tcs_dl_valid owner) then (owner, TCS_DL_INVALID_STATE)
      else
        let next := if negb (ok reading) || (tick reading <? last_tick o)
                    then set_clock o (last_tick o) 1 else o in
        let '(next, requests) :=
          if truthy (clock_fault next) then (next, Z.lor requests TCS_RD_ALL)
          else
            let next := set_clock next (tick reading) (clock_fault next) in
            (next, foldl (fun requests i =>
                     if truthy (end_at next i) && (end_at next i <=? tick reading)
                     then Z.lor requests (bit i) else requests) requests lc_indices) in
        match tcs_rd_poll (Some (control next)) requests with
        | (Some c, st) =>
            if bool_decide (st = TCS_RD_INVALID_STATE) then (owner, TCS_DL_INVALID_STATE)
            else
              let next := set_control next c in
              (Some next,
               if truthy (clock_fault next) || truthy (input_fault (control next))
               then TCS_DL_FAULT else TCS_DL_OK)
        | (NULL, _) => (owner, TCS_DL_INVALID_STATE)
        end
  end.

Definition tcs_dl_apply (owner : ptr tcs_deadline) (requests : Z) (reading : tcs_dl_reading)
    (actor : tcs_lc_actor) (event : tcs_lc_event) (audit_ok : bool) (duration : Z)
    : ptr tcs_deadline * tcs_lc_result :=
  match tcs_dl_poll owner requests reading with
  | (owner, TCS_DL_INVALID_STATE) => (owner, result TCS_LC_INVALID 0)
  | (NULL, _) => (NULL, result TCS_LC_INVALID 0)
  | (Some o, _) =>
      if (if e_op event =? TCS_LC_RESERVE
          then negb (truthy duration) || (wrap64 (UINT64_MAX - last_tick o) <? duration)
          else negb (duration =? 0))
      then (Some o, result TCS_LC_INVALID 0)
      else
        match tcs_rd_apply (Some (control o)) 0 actor event audit_ok with
        | (Some c, r) =>
            if l_status r =? TCS_LC_OK then
              let next := set_control o c in
              (Some (if e_op event =? TCS_LC_RESERVE
                     then set_end next (e_slot event) (wrap64 (last_tick next + duration))
                     else next), r)
            else (Some o, r)
        | (NULL, r) => (Some o, r)
        end
  end.

Definition tcs_dl_stop_mask (owner : ptr tcs_deadline) : Z :=
  match owner with
  | Some o => if tcs_dl_valid owner then tcs_rd_stop_mask (Some (control o)) else TCS_RD_ALL
  | NULL => TCS_RD_ALL
  end.

Definition tcs_dl_allows (owner : ptr tcs_deadline) (slot incarnation : Z) : bool :=
  match owner with
  | Some o => tcs_dl_valid owner && tcs_rd_allows (Some (control o)) slot incarnation
  | NULL => false
  end.

(** ** Well-formedness *)

Definition reading_u64 (r : tcs_dl_reading) : Prop := u64 (tick r).

(** What [tcs_dl_valid] demands of the lifetime of slot [i]. *)
Definition end_ok (o : tcs_deadline) (i : Z) : Prop :=
  u64 (end_at o i) /\
  (l_state (slot_at (life (control o)) i) = TCS_LC_UNUSED <-> end_at o i = 0) /\
  (end_at o i <> 0 -> end_at o i <= last_tick o -> inhibits (inhibited (control o)) i = true).

Definition dl_wf (o : tcs_deadline) : Prop :=
  rd_wf (control o) /\ u64 (last_tick o) /\ 0 <= clock_fault o <= 1 /\
  (clock_fault o = 1 -> inhibited (control o) = TCS_RD_ALL) /\
  forall i, 0 <= i < TCS_LC_SLOTS -> end_ok o i.

Lemma dl_wf_valid o : dl_wf o -> tcs_dl_valid (Some o) = true.
Proof.
  intros (Hc & Ht & Hf & Hall & Hend). unfold tcs_dl_valid. rewrite (rd_wf_valid _ Hc).
  destruct (_ || _) eqn:Hg; [exfalso; word_lia|].
  apply forallb_forall. intros i Hi.
  assert (Hlt : 0 <= i < TCS_LC_SLOTS) by (destruct Hi as [<-|[<-|[]]]; lc_lia).
  rewrite land_bit by lia. destruct (Hend i Hlt) as (Hu & Hun & Hex).
  destruct (inhibits _ i); destruct (Bool.eqb _ _) eqn:He; simpl; word_lia.
Qed.

(** ** Polling against the reference *)

Definition bad_reading (o : tcs_deadline) (r : tcs_dl_reading) : bool :=
  negb (ok r) || (tick r <? last_tick o).

(** The fault flag and the clock after a reading. *)
Definition fault_after (o : tcs_deadline) (r : tcs_dl_reading) : Z :=
  if bad_reading o r then 1 else clock_fault o.
Definition tick_after (o : tcs_deadline) (r : tcs_dl_reading) : Z :=
  if fault_after o r =? 0 then tick r else last_tick o.

Definition expired (o : tcs_deadline) (now i : Z) : Z :=
  if negb (end_at o i =? 0) && (end_at o i <=? now) then bit i else 0.

(** The slots a poll asks the latch to inhibit. *)
Definition dl_requests (o : tcs_deadline) (requests : Z) (r : tcs_dl_reading) : Z :=
  Z.lor requests
    (if fault_after o r =? 0 then Z.lor (expired o (tick r) 0) (expired o (tick r) 1)
     else TCS_RD_ALL).

Definition dl_latch (o : tcs_deadline) (requests : Z) (r : tcs_dl_reading) : tcs_deadline :=
  {| control := rd_latch (control o) (dl_requests o requests r);
     last_tick := tick_after o r; clock_fault := fault_after o r;
     end0 := end0 o; end1 := end1 o |}.

Definition dl_status (o : tcs_deadline) : tcs_dl_status :=
  if (clock_fault o =? 0) && (input_fault (control o) =? 0) then TCS_DL_OK else TCS_DL_FAULT.

Lemma mask_full m :
  0 <= m <= TCS_RD_ALL -> submask TCS_RD_ALL m -> m = TCS_RD_ALL.
Proof.
  intros Hm Hs. pose proof (Hs 0 ltac:(lc_lia) eq_refl) as H0.
  pose proof (Hs 1 ltac:(lc_lia) eq_refl) as H1.
  destruct (mask_cases m Hm) as [-> |[-> |[-> | ->]]]; done.
Qed.

Lemma expired_u64 o now i : 0 <= i < TCS_LC_SLOTS -> u64 (expired o now i).
Proof.
  intros [-> | ->]%slot_index; unfold expired; destruct (_ && _); vm_compute; split; discriminate.
Qed.

Lemma dl_requests_u64 o requests r : u64 requests -> u64 (dl_requests o requests r).
Proof.
  intros Hr. unfold dl_requests. apply lor_u64; [done|].
  destruct (_ =? 0); [|unfold TCS_RD_ALL; word_lia]. apply lor_u64; apply expired_u64; lc_lia.
Qed.

(** A request set contains the slots whose end has come, and every slot when
    the clock failed. *)
Lemma dl_requests_expired o requests r i :
  0 <= i < TCS_LC_SLOTS -> end_at o i <> 0 -> end_at o i <= tick_after o r \/ fault_after o r <> 0 ->
  inhibits (dl_requests o requests r) i = true.
Proof.
  intros Hi Hne Hex. unfold dl_requests, tick_after in *. rewrite Z.lor_spec. apply orb_true_iff. right.
  destruct (fault_after o r =? 0) eqn:Hf; [|by apply inhibits_all].
  assert (He : expired o (tick r) i = bit i).
  { unfold expired. rewrite (proj2 (Z.eqb_neq _ _)) by done.
    by rewrite (proj2 (Z.leb_le _ _)) by lia. }
  rewrite Z.lor_spec, orb_true_iff.
  destruct (slot_index i Hi) as [-> | ->]; rewrite He; auto.
Qed.

Lemma dl_requests_fault o requests r :
  fault_after o r <> 0 -> submask TCS_RD_ALL (dl_requests o requests r).
Proof.
  intros Hf. unfold dl_requests. rewrite (proj2 (Z.eqb_neq _ _)) by done. apply submask_lor_r.
Qed.

Lemma closed_slot_unused inh i s :
  l_state (closed_slot inh i s) = TCS_LC_UNUSED <-> l_state s = TCS_LC_UNUSED.
Proof. unfold closed_slot, live. destruct (_ && _) eqn:Hc; simpl; lc_lia. Qed.

Lemma fault_after_range o r : 0 <= clock_fault o <= 1 -> 0 <= fault_after o r <= 1.
Proof. unfold fault_after. destruct (bad_reading o r); lia. Qed.

Lemma dl_latch_wf o requests r :
  dl_wf o -> u64 requests -> reading_u64 r -> dl_wf (dl_latch o requests r).
Proof.
  intros (Hc & Ht & Hf & Hall & Hend) Hq Hr.
  pose proof (dl_requests_u64 o requests r Hq) as Hu.
  destruct (rd_poll_full _ _ Hc Hu) as (_ & Hw & _).
  destruct (submask_latch (control o) (dl_requests o requests r)) as [Hold Hnew].
  pose proof (fault_after_range o r Hf) as Hfr.
  unfold dl_wf, dl_latch; cbn [control last_tick clock_fault]. split; [done|].
  split; [unfold tick_after; by destruct (_ =? 0)|]. split; [done|]. split.
  - intros H1. apply mask_full; [apply Hw|]. etransitivity; [|exact Hnew].
    apply dl_requests_fault. lia.
  - intros i Hi. destruct (Hend i Hi) as (Hue & Hun & _).
    unfold end_ok, end_at in *; cbn [control last_tick end0 end1]. split; [done|]. split.
    + unfold rd_latch; cbn [life]. rewrite slot_at_close by done. by rewrite closed_slot_unused.
    + intros Hne Hle. apply Hnew; [done|]. apply dl_requests_expired; auto.
Qed.

Lemma truthy_either {A} a b (x y : A) :
  (if truthy a || truthy b then x else y) = if (a =? 0) && (b =? 0) then y else x.
Proof. unfold truthy. by destruct (a =? 0), (b =? 0). Qed.

Lemma dl_poll_full o requests r :
  dl_wf o -> u64 requests -> reading_u64 r ->
  tcs_dl_poll (Some o) requests r =
    (Some (dl_latch o requests r), dl_status (dl_latch o requests r)).
Proof.
  intros Ho Hq Hr. pose proof Ho as (Hc & Ht & Hf & _).
  destruct (rd_poll_full _ _ Hc (dl_requests_u64 o requests r Hq)) as (Hp & _ & _).
  unfold tcs_dl_poll. rewrite (dl_wf_valid o Ho). cbn [negb]. fold (bad_reading o r).
  assert (Hst : bool_decide (rd_status (dl_requests o requests r) = TCS_RD_INVALID_STATE) = false)
    by (unfold rd_status; by destruct (_ <? _)).
  unfold dl_latch, dl_status, dl_requests, fault_after, tick_after, fault_after in *.
  destruct (bad_reading o r); cbn [set_clock clock_fault truthy negb Z.eqb].
  - cbn [control set_clock]. cbn [Z.eqb] in Hp, Hst. rewrite Hp, Hst.
    by rewrite truthy_either.
  - unfold truthy at 1. destruct (clock_fault o =? 0) eqn:Hz; cbn [negb].
    + cbn [lc_indices foldl control set_clock end_at end0 end1 Z.eqb].
      match goal with |- context [tcs_rd_poll _ ?q] => replace q with
        (Z.lor requests (Z.lor (expired o (tick r) 0) (expired o (tick r) 1))) end.
      * rewrite Hp, Hst. rewrite truthy_either. cbn [clock_fault set_control set_clock]. by rewrite ?Hz.
      * unfold expired, end_at, truthy. simpl.
        destruct (negb (end0 o =? 0) && _), (negb (end1 o =? 0) && _);
        rewrite ?Z.lor_0_r, ?Z.lor_0_l, ?Z.lor_assoc; done.
    + rewrite Hp, Hst, truthy_either. cbn [clock_fault set_control]. by rewrite ?Hz.
Qed.

Lemma dl_zero_wf : dl_wf deadline_zero.
Proof.
  split; [apply rd_zero_wf|]. simpl. split; [word_lia|]. split; [lia|]. split; [done|].
  intros i Hi. unfold end_ok, end_at, slot_at. simpl. destruct (i =? 0); simpl; split_and!; done || word_lia.
Qed.

(** ** Events *)

Lemma rd_latch_zero c : rd_wf c -> rd_latch c 0 = c.
Proof.
  intros (_ & _ & _ & _ & Hlive). destruct c as [[last s0 s1] inh f]. simpl in Hlive. unfold rd_latch, close_life.
  cbn [inhibited life input_fault last_incarnation slot0 slot1].
  replace (TCS_RD_ALL <? 0) with false by done. rewrite Z.lor_0_r.
  assert (E : forall i, 0 <= i < TCS_LC_SLOTS ->
    closed_slot inh i (slot_at {| last_incarnation := last; slot0 := s0; slot1 := s1 |} i) =
    slot_at {| last_incarnation := last; slot0 := s0; slot1 := s1 |} i).
  { intros i Hi. unfold closed_slot. destruct (inhibits inh i) eqn:Hb; [|done].
    by rewrite (Hlive i Hi Hb). }
  pose proof (E 0 ltac:(lc_lia)) as E0. pose proof (E 1 ltac:(lc_lia)) as E1.
  unfold slot_at in E0, E1. simpl in E0, E1. by rewrite E0, E1.
Qed.

(** The durations an event may carry when the clock shows [now]. *)
Definition duration_ok (now : Z) (e : tcs_lc_event) (d : Z) : Prop :=
  if e_op e =? TCS_LC_RESERVE then 0 < d /\ now + d <= UINT64_MAX else d = 0.

(** The owner after an accepted event that turns the lifecycle into [l]. *)
Definition accept (o : tcs_deadline) (e : tcs_lc_event) (d : Z) (l : tcs_lifecycle) : tcs_deadline :=
  let next := set_control o (with_life (control o) l) in
  if e_op e =? TCS_LC_RESERVE then set_end next (e_slot e) (last_tick o + d) else next.

Definition mk_input (actor : tcs_lc_actor) (e : tcs_lc_event) (audit : bool) : lc_input :=
  {| in_actor := actor; in_event := e; in_audit := audit |}.

(** An event is refused after the poll, or commits one lifecycle transition
    that the latch lets through. *)
Lemma dl_apply_full o requests r actor e audit d :
  dl_wf o -> u64 requests -> reading_u64 r -> event_u64 e -> u64 d ->
  let o1 := dl_latch o requests r in
  (exists res, tcs_dl_apply (Some o) requests r actor e audit d = (Some o1, res) /\
     l_status res <> TCS_LC_OK) \/
  (exists l v, tcs_dl_apply (Some o) requests r actor e audit d =
       (Some (accept o1 e d l), result TCS_LC_OK v) /\
     lc_transition (life (control o1)) actor e audit l v /\
     rd_wf (with_life (control o1) l) /\ duration_ok (last_tick o1) e d).
Proof.
  intros Ho Hq Hr He Hd o1. unfold tcs_dl_apply. rewrite dl_poll_full by done. fold o1.
  pose proof (dl_latch_wf o requests r Ho Hq Hr) as Hw. fold o1 in Hw.
  pose proof Hw as (Hc & Ht & _).
  assert (Hst : forall A (x y : A),
    match dl_status o1 with TCS_DL_INVALID_STATE => x | _ => y end = y)
    by (intros; unfold dl_status; by destruct (_ && _)).
  unfold duration_ok. destruct (dl_status o1); try by specialize (Hst bool true false).
  all: clear Hst; rewrite (wrap64_small (UINT64_MAX - last_tick o1)) by word_lia.
  all: destruct (if e_op e =? TCS_LC_RESERVE then _ else _) eqn:Hdur;
    [left; eexists; by split|].
  all: assert (Hdo : if e_op e =? TCS_LC_RESERVE then 0 < d /\ last_tick o1 + d <= UINT64_MAX else d = 0)
    by (destruct (e_op e =? _); word_lia).
  all: rewrite rd_apply_full by (done || word_lia); cbv zeta; rewrite rd_latch_zero by done.
  all: destruct (_ && opening e) eqn:Hop; [left; eexists; split; [done|]; simpl; lc_lia|].
  all: destruct (lc_apply_cases (life (control o1)) actor e audit (proj1 Hc) He)
    as [[Hne Heq]|(l & v & Heq & Htr)]; [left|right].
  1, 3: rewrite (proj2 (Z.eqb_neq _ _)) by done; eexists; split; [reflexivity|done].
  all: exists l, v; rewrite Heq; unfold lc_step; cbn [in_actor in_event in_audit]; rewrite Heq.
  all: cbn [snd l_status result]; rewrite Z.eqb_refl; split;
    [unfold accept; destruct (e_op e =? TCS_LC_RESERVE); [|done];
     cbn [last_tick set_control]; rewrite wrap64_small by word_lia; done|].
  all: split; [done|]; split; [|done].
  all: pose proof (rd_step_live (control o1) (mk_input actor e audit) Hc He Hop) as Hs.
  all: unfold lc_step in Hs; cbn [mk_input in_actor in_event in_audit] in Hs; by rewrite Heq in Hs.
Qed.

Lemma slot_step_used last s e audit last' s' v :
  slot_step last s e audit last' s' v -> l_state s' <> TCS_LC_UNUSED.
Proof.
  destruct 1; simpl;
  repeat match goal with |- context [if ?b then _ else _] => destruct b eqn:? end; lc_lia.
Qed.

Lemma accept_wf o actor e audit d l v :
  dl_wf o -> event_u64 e -> rd_wf (with_life (control o) l) -> duration_ok (last_tick o) e d ->
  lc_transition (life (control o)) actor e audit l v ->
  dl_wf (accept o e d l).
Proof.
  intros (Hc & Ht & Hf & Hall & Hend) (_ & Hsl & _) Hc' Hd (_ & Hlt & _ & last' & s' & Hstep & Heq).
  assert (Hj : 0 <= e_slot e < TCS_LC_SLOTS) by word_lia.
  assert (Heta : accept o e d l =
    {| control := with_life (control o) l; last_tick := last_tick o; clock_fault := clock_fault o;
       end0 := if (e_op e =? TCS_LC_RESERVE) && (e_slot e =? 0) then last_tick o + d else end0 o;
       end1 := if (e_op e =? TCS_LC_RESERVE) && negb (e_slot e =? 0)
               then last_tick o + d else end1 o |}).
  { unfold accept, set_end, set_control. destruct (e_op e =? _), (e_slot e =? 0); done. }
  rewrite Heta. split; [done|]. split; [done|]. split; [done|]. split; [done|].
  intros i Hi. destruct (Hend i Hi) as (Hu & Hun & Hex).
  unfold end_ok. cbn [control last_tick inhibited with_life life].
  assert (Hei : end_at {| control := with_life (control o) l; last_tick := last_tick o;
      clock_fault := clock_fault o;
      end0 := if (e_op e =? TCS_LC_RESERVE) && (e_slot e =? 0) then last_tick o + d else end0 o;
      end1 := if (e_op e =? TCS_LC_RESERVE) && negb (e_slot e =? 0)
              then last_tick o + d else end1 o |} i =
    if (e_op e =? TCS_LC_RESERVE) && (e_slot e =? i) then last_tick o + d else end_at o i).
  { unfold end_at; cbn [end0 end1].
    destruct (slot_index i Hi) as [-> | ->], (slot_index _ Hj) as [-> | ->]; done. }
  rewrite Hei, Heq. unfold duration_ok in Hd.
  destruct (slots_cases _ _ Hj Hi) as [-> | ->].
  - rewrite slot_at_update, Z.eqb_refl, andb_true_r.
    apply slot_step_identity in Hstep as Hid. apply slot_step_used in Hstep.
    unfold idle in Hid. destruct (e_op e =? TCS_LC_RESERVE) eqn:Hop.
    + split_and!; [word_lia|word_lia|word_lia].
    + split; [done|]. split; [|done]. rewrite <- Hun. lc_lia.
  - rewrite slot_at_update_other by done.
    replace (e_slot e =? other (e_slot e)) with false by (unfold other; lia).
    by rewrite andb_false_r.
Qed.

(** ** Runs of the single owner *)

(** A wakeup that only polls, or an event with its duration; both carry the
    sampled requests and a clock reading. *)
Inductive dl_event :=
| DPoll (requests : Z) (r : tcs_dl_reading)
| DEvent (requests : Z) (r : tcs_dl_reading) (x : lc_input) (d : Z).

Definition reading_of (e : dl_event) : tcs_dl_reading :=
  match e with DPoll _ r | DEvent _ r _ _ => r end.
Definition requests_of (e : dl_event) : Z :=
  match e with DPoll q _ | DEvent q _ _ _ => q end.

Definition dl_event_u64 (e : dl_event) : Prop :=
  u64 (requests_of e) /\ reading_u64 (reading_of e) /\
  match e with DPoll _ _ => True | DEvent _ _ x d => input_u64 x /\ u64 d end.

Definition dl_step (o : tcs_deadline) (e : dl_event) : tcs_deadline :=
  let next := match e with
    | DPoll q r => fst (tcs_dl_poll (Some o) q r)
    | DEvent q r x d =>
        fst (tcs_dl_apply (Some o) q r (in_actor x) (in_event x) (in_audit x) d)
    end in
  match next with Some o' => o' | NULL => o end.

Lemma dl_step_cases o e :
  dl_wf o -> dl_event_u64 e ->
  let o1 := dl_latch o (requests_of e) (reading_of e) in
  dl_wf o1 /\
  (dl_step o e = o1 \/
   exists x d l v, dl_step o e = accept o1 (in_event x) d l /\
     input_u64 x /\ lc_transition (life (control o1)) (in_actor x) (in_event x) (in_audit x) l v /\
     rd_wf (with_life (control o1) l) /\ duration_ok (last_tick o1) (in_event x) d).
Proof.
  intros Ho (Hq & Hr & Hx). split; [by apply dl_latch_wf|].
  destruct e as [q r|q r x d]; simpl in Hq, Hr, Hx.
  - left. unfold dl_step. by rewrite dl_poll_full.
  - destruct Hx as [Hx Hd]. unfold dl_step.
    destruct (dl_apply_full o q r (in_actor x) (in_event x) (in_audit x) d Ho Hq Hr Hx Hd)
      as [(res & -> & _)|(l & v & -> & Ht & Hw & Hdu)]; [by left|right].
    by exists x, d, l, v.
Qed.

Lemma dl_step_wf o e : dl_event_u64 e -> dl_wf o -> dl_wf (dl_step o e).
Proof.
  intros He Ho. destruct (dl_step_cases o e Ho He) as [Hw [->|(x & d & l & v & -> & Hx & Ht & Hc & Hd)]];
    [done|]. by eapply accept_wf.
Qed.

Lemma dl_exec_wf es o : Forall dl_event_u64 es -> dl_wf o -> dl_wf (exec dl_step o es).
Proof. apply exec_invariant. intros; by apply dl_step_wf. Qed.

(** How the owner evolves: inhibitions, faults and lifetimes are kept. *)
Definition dl_le (o o' : tcs_deadline) : Prop :=
  clock_fault o <= clock_fault o' /\ submask (inhibited (control o)) (inhibited (control o')) /\
  forall i, 0 <= i < TCS_LC_SLOTS -> end_at o i <> 0 -> end_at o' i = end_at o i.

#[export] Instance dl_le_preorder : PreOrder dl_le.
Proof.
  split; [intros o; split; [lia|split; [reflexivity|done]]|].
  intros o1 o2 o3 (H1 & H2 & H3) (H4 & H5 & H6). split; [lia|]. split; [by etransitivity|].
  intros i Hi Hne. rewrite <- (H3 i Hi Hne). apply H6; [done|]. by rewrite (H3 i Hi Hne).
Qed.

Lemma accept_fields o e d l :
  inhibited (control (accept o e d l)) = inhibited (control o) /\
  clock_fault (accept o e d l) = clock_fault o /\ last_tick (accept o e d l) = last_tick o.
Proof. unfold accept. by destruct (_ =? _). Qed.

Lemma dl_latch_le o q r : dl_wf o -> dl_le o (dl_latch o q r).
Proof.
  intros (_ & _ & Hf & _). split; [simpl; unfold fault_after; destruct (bad_reading o r); lia|].
  split; [apply submask_latch|done].
Qed.

Lemma accept_le o actor e audit d l v :
  dl_wf o -> event_u64 e -> lc_transition (life (control o)) actor e audit l v ->
  dl_le o (accept o e d l).
Proof.
  intros (_ & _ & _ & _ & Hend) (_ & Hsl & _) (_ & Hlt & _ & last' & s' & Hstep & _).
  destruct (accept_fields o e d l) as (Hinh & Hcf & _).
  split; [lia|]. split; [by rewrite Hinh|]. intros i Hi Hne. unfold accept.
  destruct (e_op e =? TCS_LC_RESERVE) eqn:Hop; [|done].
  assert (Hj : 0 <= e_slot e < TCS_LC_SLOTS) by word_lia.
  destruct (slots_cases _ _ Hj Hi) as [-> | ->].
  - exfalso. apply slot_step_identity in Hstep. destruct (Hend _ Hj) as (_ & Hun & _).
    apply Hne, Hun. lc_lia.
  - unfold end_at, set_end; simpl. destruct (slot_index _ Hj) as [-> | ->]; done.
Qed.

Lemma dl_step_le o e : dl_event_u64 e -> dl_wf o ->
  dl_le (dl_latch o (requests_of e) (reading_of e)) (dl_step o e).
Proof.
  intros He Ho. destruct (dl_step_cases o e Ho He) as [Hw [->|(x & d & l & v & -> & Hx & Ht & _)]];
    [reflexivity|]. by eapply accept_le.
Qed.

Lemma dl_exec_le es o : Forall dl_event_u64 es -> dl_wf o -> dl_le o (exec dl_step o es).
Proof.
  apply (exec_preorder dl_step dl_event_u64 dl_wf dl_le); intros o' e He Ho'.
  - by apply dl_step_wf.
  - etransitivity; [by apply dl_latch_le|by apply dl_step_le].
Qed.

(** An inhibition holds in every later state. *)
Lemma dl_inhibited_forever es o i inc :
  Forall dl_event_u64 es -> dl_wf o -> 0 <= i < TCS_LC_SLOTS ->
  inhibits (inhibited (control o)) i = true ->
  tcs_dl_allows (Some (exec dl_step o es)) i inc = false /\
  live (slot_at (life (control (exec dl_step o es))) i) = false.
Proof.
  intros Hes Ho Hi Hb. destruct (dl_exec_le es o Hes Ho) as (_ & Hs & _).
  pose proof (dl_exec_wf es o Hes Ho) as ((_ & _ & _ & _ & Hlive) & _).
  split; [|by apply Hlive, Hs]. unfold tcs_dl_allows.
  rewrite allows_inhibited; [apply andb_false_r|lia|by apply Hs].
Qed.

(** An observation latches the expired slots, and all of them if the clock is
    not good. *)
Lemma dl_observe o e i :
  dl_wf o -> dl_event_u64 e -> 0 <= i < TCS_LC_SLOTS ->
  (end_at o i <> 0 /\ end_at o i <= tick (reading_of e)) \/
    bad_reading o (reading_of e) = true ->
  inhibits (inhibited (control (dl_step o e))) i = true.
Proof.
  intros Ho He Hi Hex. destruct (dl_step_le o e He Ho) as (_ & Hs & _).
  apply Hs; [done|]. unfold dl_latch; cbn [control].
  apply submask_latch; [done|].
  destruct (decide (fault_after o (reading_of e) = 0)) as [Hz|Hnz].
  - destruct Hex as [[Hne Hle]|Hbad]; [|unfold fault_after in Hz; by rewrite Hbad in Hz].
    apply dl_requests_expired; auto. left. unfold tick_after. by rewrite Hz.
  - apply dl_requests_fault; auto using inhibits_all.
Qed.

(** A reservation is only accepted on a good reading, and fixes the end. *)
Lemma reserve_sets_end o q r actor i audit d o' v :
  dl_wf o -> u64 q -> reading_u64 r -> 0 <= i < TCS_LC_SLOTS -> u64 d ->
  tcs_dl_apply (Some o) q r actor (mk_event TCS_LC_RESERVE i 0 0) audit d =
    (Some o', result TCS_LC_OK v) ->
  dl_wf o' /\ end_at o' i = tick r + d /\ 0 < end_at o' i.
Proof.
  intros Ho Hq Hr Hi Hd Happ.
  assert (He : event_u64 (mk_event TCS_LC_RESERVE i 0 0))
    by (unfold event_u64; simpl; split_and!; lc_lia).
  pose proof (dl_latch_wf o q r Ho Hq Hr) as Hw.
  destruct (dl_apply_full o q r actor _ audit d Ho Hq Hr He Hd)
    as [(res & Heq & Hne)|(l & w & Heq & Ht & Hc & Hdu)]; rewrite Heq in Happ; [by inv_pair|].
  assert (Eo : o' = accept (dl_latch o q r) (mk_event TCS_LC_RESERVE i 0 0) d l) by congruence.
  clear Happ. split; [rewrite Eo; by eapply accept_wf|].
  assert (Hlive : live (slot_at l i) = true).
  { destruct Ht as (_ & _ & _ & last' & s' & Hstep & ->). simpl in Hstep.
    rewrite slot_at_update. by inversion Hstep. }
  assert (Hnf : clock_fault (dl_latch o q r) = 0).
  { destruct Hw as (_ & _ & Hf & Hall & _).
    destruct (decide (clock_fault (dl_latch o q r) = 1)) as [H1|]; [|lia].
    destruct Hc as (_ & _ & _ & _ & Hno). cbn [with_life life inhibited] in Hno.
    rewrite (Hno i Hi) in Hlive; [done|]. rewrite (Hall H1). by apply inhibits_all. }
  assert (Hend : end_at o' i = last_tick (dl_latch o q r) + d).
  { rewrite Eo. unfold accept. simpl. by destruct (slot_index i Hi) as [-> | ->]. }
  simpl in Hnf. unfold dl_latch, tick_after in Hend; cbn [last_tick] in Hend.
  rewrite Hnf, Z.eqb_refl in Hend. split; [done|].
  unfold duration_ok in Hdu. simpl in Hdu. unfold reading_u64 in Hr. word_lia.
Qed.

(** An open gate means a running lifetime and a working clock. *)
Lemma allows_unexpired o i inc :
  dl_wf o -> 0 <= i -> tcs_dl_allows (Some o) i inc = true ->
  last_tick o < end_at o i /\ clock_fault o = 0 /\ i < TCS_LC_SLOTS.
Proof.
  intros (Hc & Ht & Hf & Hall & Hend) Hi Hal. unfold tcs_dl_allows, tcs_rd_allows in Hal.
  rewrite land_bit in Hal by done. bools.
  match goal with H : tcs_lc_allows _ _ _ = true |- _ => unfold tcs_lc_allows in H end. bools.
  assert (Hlt : 0 <= i < TCS_LC_SLOTS) by lia.
  destruct (Hend i Hlt) as (Hu & Hun & Hex).
  assert (Hne : end_at o i <> 0) by (rewrite <- Hun; lc_lia).
  split_and!; [|destruct (decide (clock_fault o = 1)) as [Hcf|]; [|lia]|lia].
  - destruct (decide (last_tick o < end_at o i)); [done|].
    match goal with H : Z.testbit _ _ = false |- _ => rewrite Hex in H by lia; done end.
  - match goal with H : Z.testbit _ _ = false |- _ =>
      rewrite (Hall Hcf), inhibits_all in H by done; done end.
Qed.

(** ** Properties *)

(** Polling is the reference: from an owner the code accepts, a poll
    records a failed or regressing clock for ever, otherwise advances the clock,
    asks the latch to close exactly the requested and the expired slots (all of
    them once the clock failed), answers FAULT if and only if a clock or input
    fault is recorded, and leaves an owner the code accepts. A missing or
    corrupt owner is refused unchanged. *)
Theorem dl_poll_latches o q r :
  u64 q -> reading_u64 r ->
  (dl_wf o ->
   tcs_dl_poll (Some o) q r = (Some (dl_latch o q r), dl_status (dl_latch o q r)) /\
   tcs_dl_valid (Some (dl_latch o q r)) = true) /\
  (tcs_dl_valid (Some o) = false -> tcs_dl_poll (Some o) q r = (Some o, TCS_DL_INVALID_STATE)) /\
  tcs_dl_poll NULL q r = (NULL, TCS_DL_INVALID_STATE).
Proof.
  intros Hq Hr. split; [|split; [|done]].
  - intros Ho. split; [by apply dl_poll_full|]. by apply dl_wf_valid, dl_latch_wf.
  - intros Hv. unfold tcs_dl_poll. by rewrite Hv.
Qed.

(** C17. Admission is always within the lifetime: over any run from zeroed
    memory, whatever the requests, readings, events and durations, the owner
    stays one the code accepts, and if its work gate is open for a slot then
    the clock has not reached the end of that slot's lifetime, no clock fault
    was seen, and the slot exists. *)
Theorem dl_run_admits_unexpired es i inc :
  Forall dl_event_u64 es -> 0 <= i ->
  let o := exec dl_step deadline_zero es in
  tcs_dl_valid (Some o) = true /\
  (tcs_dl_allows (Some o) i inc = true ->
   i < TCS_LC_SLOTS /\ last_tick o < end_at o i /\ clock_fault o = 0).
Proof.
  intros Hes Hi o. assert (Ho : dl_wf o) by (apply dl_exec_wf; [done|apply dl_zero_wf]).
  split; [by apply dl_wf_valid|]. intros Hal.
  destruct (allows_unexpired o i inc Ho Hi Hal) as (? & ? & ?). auto.
Qed.

(** A lifetime cannot be extended: if a reservation of slot [i] with
    duration [d] is accepted on a reading of tick [t], then whatever happens in
    between, from the first poll or event whose reading shows tick [t + d] or
    later (or fails) the slot is closed for every incarnation and for ever, and
    holds no live worker. *)
Theorem lifetime_is_final o q r actor i audit d o' v between e after inc :
  dl_wf o -> u64 q -> reading_u64 r -> u64 d -> 0 <= i < TCS_LC_SLOTS ->
  Forall dl_event_u64 (between ++ e :: after) ->
  tcs_dl_apply (Some o) q r actor (mk_event TCS_LC_RESERVE i 0 0) audit d =
    (Some o', result TCS_LC_OK v) ->
  tick r + d <= tick (reading_of e) \/ ok (reading_of e) = false ->
  let last := exec dl_step o' (between ++ e :: after) in
  tcs_dl_allows (Some last) i inc = false /\
  live (slot_at (life (control last)) i) = false.
Proof.
  intros Ho Hq Hr Hd Hi Hes Happ Hex last.
  destruct (reserve_sets_end o q r actor i audit d o' v Ho Hq Hr Hi Hd Happ) as (Ho' & Hend & Hpos).
  apply Forall_app in Hes as [Hb Hea]. apply Forall_cons_1 in Hea as [He Ha].
  unfold last. rewrite exec_app, exec_cons.
  pose proof (dl_exec_wf between o' Hb Ho') as Ho2.
  destruct (dl_exec_le between o' Hb Ho') as (_ & _ & Hkeep). specialize (Hkeep i Hi ltac:(lia)).
  apply dl_inhibited_forever; [done|by apply dl_step_wf|done|].
  apply dl_observe; [done|done|done|]. destruct Hex as [Hle|Hnok]; [left|right].
  - rewrite Hkeep. lia.
  - unfold bad_reading. by rewrite Hnok.
Qed.

(** A bad clock is final: after a poll or event whose reading failed or ran
    backwards, both slots are closed for ever, no worker is live, and every
    later poll answers FAULT. *)
Theorem clock_failure_is_final o e after i inc q r :
  dl_wf o -> Forall dl_event_u64 (e :: after) -> 0 <= i < TCS_LC_SLOTS ->
  u64 q -> reading_u64 r ->
  ok (reading_of e) = false \/ tick (reading_of e) < last_tick o ->
  let last := exec dl_step o (e :: after) in
  tcs_dl_allows (Some last) i inc = false /\
  live (slot_at (life (control last)) i) = false /\
  snd (tcs_dl_poll (Some last) q r) = TCS_DL_FAULT.
Proof.
  intros Ho Hes Hi Hq Hr Hbad last.
  apply Forall_cons_1 in Hes as [He Ha]. unfold last. rewrite exec_cons.
  assert (Hb : bad_reading o (reading_of e) = true)
    by (unfold bad_reading; destruct Hbad as [-> | Hlt]; [done|]; destruct (ok _); simpl; lia).
  pose proof (dl_step_wf o e He Ho) as Ho1.
  destruct (dl_inhibited_forever after (dl_step o e) i inc Ha Ho1 Hi) as [Hal Hli];
    [by apply dl_observe; auto|]. split; [done|]. split; [done|].
  destruct (dl_step_le o e He Ho) as (Hcf & _). simpl in Hcf. unfold fault_after in Hcf.
  rewrite Hb in Hcf. destruct (dl_exec_le after _ Ha Ho1) as (Hcf' & _).
  rewrite dl_poll_full; [|by apply dl_exec_wf|done|done]. simpl. unfold dl_status; simpl.
  assert (Hf : fault_after (exec dl_step (dl_step o e) after) r <> 0)
    by (unfold fault_after; destruct (bad_reading _ r); lia).
  by rewrite (proj2 (Z.eqb_neq _ _)).
Qed.

(** ** Witnesses *)

Definition at_tick (t : Z) : tcs_dl_reading := {| tick := t; ok := true |}.

Definition reserved_owner : tcs_deadline :=
  dl_step deadline_zero
    (DEvent 0 (at_tick 5) (mk_input TCS_LC_ADMIN (mk_event TCS_LC_RESERVE 0 0 0) true) 10).

Ltac dl_events :=
  repeat (apply List.Forall_cons; [split_and!; simpl; try done; vm_compute; split_and!; discriminate|]);
  apply List.Forall_nil.

Lemma dl_poll_latches_witness :
  tcs_dl_poll (Some deadline_zero) 0 (at_tick 5) =
    (Some (dl_latch deadline_zero 0 (at_tick 5)), TCS_DL_OK) /\
  tcs_dl_valid (Some (dl_latch deadline_zero 0 (at_tick 5))) = true.
Proof.
  apply (dl_poll_latches deadline_zero 0 (at_tick 5)); [word_lia|vm_compute; split; discriminate|].
  apply dl_zero_wf.
Defined.

Lemma dl_run_admits_unexpired_witness :
  tcs_dl_valid (Some (exec dl_step deadline_zero [DPoll 3 (at_tick 9)])) = true.
Proof. apply (dl_run_admits_unexpired [DPoll 3 (at_tick 9)] 0 1); [dl_events|lia]. Defined.

Lemma lifetime_is_final_witness :
  tcs_dl_allows (Some (exec dl_step reserved_owner
    ([DPoll 0 (at_tick 7)] ++ DPoll 0 (at_tick 15) :: [DPoll 0 (at_tick 16)]))) 0 1 = false.
Proof.
  refine (proj1 (lifetime_is_final deadline_zero 0 (at_tick 5) TCS_LC_ADMIN 0 true 10 reserved_owner 1
    [DPoll 0 (at_tick 7)] (DPoll 0 (at_tick 15)) [DPoll 0 (at_tick 16)] 1 _ _ _ _ _ _ _ _)).
  - apply dl_zero_wf.
  - word_lia.
  - unfold reading_u64; simpl; word_lia.
  - word_lia.
  - lc_lia.
  - dl_events.
  - vm_compute. reflexivity.
  - left. vm_compute. discriminate.
Defined.

Lemma clock_failure_is_final_witness :
  snd (tcs_dl_poll (Some (exec dl_step deadline_zero
    (DPoll 0 {| tick := 3; ok := false |} :: [DPoll 0 (at_tick 4)]))) 0 (at_tick 5)) = TCS_DL_FAULT.
Proof.
  refine (proj2 (proj2 (clock_failure_is_final deadline_zero
    (DPoll 0 {| tick := 3; ok := false |}) [DPoll 0 (at_tick 4)] 0 1 0 (at_tick 5) _ _ _ _ _ _))).
  - apply dl_zero_wf.
  - dl_events.
  - lc_lia.
  - word_lia.
  - unfold reading_u64; simpl; word_lia.
  - by left.
Defined.
