(* ===== verification/Serial.v ===== *)
(** The serial receive ring: [lib/serial.c] and [include/tcs/serial.h].

    A 256-byte ring between the UART interrupt and the terminal. A full ring is
    emptied and marked as lossy, and the mark travels with the next byte taken,
    so that a gap in the input is never silent. *)

From S2P Require Import Prelude.

(** ** Data and operations *)

Definition TCS_SERIAL_CAPACITY : nat := 256.
Definition TCS_SERIAL_BYTE : Z := 1.
Definition TCS_SERIAL_LOSS : Z := 2.

Record tcs_serial_rx := { rx_bytes : list Z; head : nat; count : nat; lost : bool }.

Definition serial_zero : tcs_serial_rx :=
  {| rx_bytes := replicate TCS_SERIAL_CAPACITY 0; head := 0; count := 0; lost := false |}.

Definition tcs_serial_loss (rx : tcs_serial_rx) : tcs_serial_rx :=
  {| rx_bytes := rx_bytes rx; head := 0; count := 0; lost := true |}.

Definition tcs_serial_receive (rx : tcs_serial_rx) (byte : Z) : tcs_serial_rx :=
  let rx := if (count rx =? TCS_SERIAL_CAPACITY)%nat then tcs_serial_loss rx else rx in
  {| rx_bytes := <[((head rx + count rx) mod TCS_SERIAL_CAPACITY)%nat := byte]> (rx_bytes rx);
     head := head rx; count := S (count rx); lost := lost rx |}.

(** Returns the flags and the byte stored through the pointer. *)
Definition tcs_serial_take (rx : tcs_serial_rx) : tcs_serial_rx * (Z * Z) :=
  let flags := if lost rx then TCS_SERIAL_LOSS else 0 in
  let rx := {| rx_bytes := rx_bytes rx; head := head rx; count := count rx; lost := false |} in
  if negb (count rx =? 0)%nat then
    ({| rx_bytes := rx_bytes rx; head := ((head rx + 1) mod TCS_SERIAL_CAPACITY)%nat;
        count := count rx - 1; lost := lost rx |},
     (Z.lor flags TCS_SERIAL_BYTE, rx_bytes rx !!! head rx))
  else (rx, (flags, 0)).

(** ** The abstract queue *)

(** What the ring stands for: the bytes waiting, oldest first, and whether a
    gap precedes them. *)
Record byte_queue := { waiting : list Z; gap : bool }.

Definition queue_receive (q : byte_queue) (byte : Z) : byte_queue :=
  if (length (waiting q) =? TCS_SERIAL_CAPACITY)%nat
  then {| waiting := [byte]; gap := true |}
  else {| waiting := waiting q ++ [byte]; gap := gap q |}.

Definition queue_take (q : byte_queue) : byte_queue * (Z * Z) :=
  let flags := if gap q then TCS_SERIAL_LOSS else 0 in
  match waiting q with
  | [] => ({| waiting := []; gap := false |}, (flags, 0))
  | byte :: rest => ({| waiting := rest; gap := false |}, (flags + TCS_SERIAL_BYTE, byte))
  end.

#[local] Arguments Nat.modulo : simpl never.

(** The position of the [k]-th waiting byte. *)
Definition ring_index (rx : tcs_serial_rx) (k : nat) : nat :=
  ((head rx + k) mod TCS_SERIAL_CAPACITY)%nat.

Definition queue_of (rx : tcs_serial_rx) : byte_queue :=
  {| waiting := map (fun k => rx_bytes rx !!! ring_index rx k) (seq 0 (count rx));
     gap := lost rx |}.

Definition rx_wf (rx : tcs_serial_rx) : Prop :=
  length (rx_bytes rx) = TCS_SERIAL_CAPACITY /\ (head rx < TCS_SERIAL_CAPACITY)%nat /\
  (count rx <= TCS_SERIAL_CAPACITY)%nat.

Lemma ring_index_lt rx k : (ring_index rx k < TCS_SERIAL_CAPACITY)%nat.
Proof. apply Nat.mod_upper_bound. done. Qed.

(** Distinct offsets below the capacity address distinct cells. *)
Lemma ring_index_inj rx j k :
  (j < TCS_SERIAL_CAPACITY)%nat -> (k < TCS_SERIAL_CAPACITY)%nat ->
  ring_index rx j = ring_index rx k -> j = k.
Proof.
  unfold ring_index, TCS_SERIAL_CAPACITY. intros Hj Hk Heq.
  pose proof (Nat.div_mod (head rx + j) 256 ltac:(lia)).
  pose proof (Nat.div_mod (head rx + k) 256 ltac:(lia)). lia.
Qed.

Lemma receive_refines rx byte :
  rx_wf rx ->
  rx_wf (tcs_serial_receive rx byte) /\
  queue_of (tcs_serial_receive rx byte) = queue_receive (queue_of rx) byte.
Proof.
  intros (Hlen & Hh & Hc). unfold tcs_serial_receive, queue_receive, rx_wf, queue_of.
  cbn [waiting]. rewrite length_map, length_seq.
  destruct (count rx =? TCS_SERIAL_CAPACITY)%nat eqn:Hfull;
    cbn [rx_bytes head count lost tcs_serial_loss gap].
  - rewrite length_insert. split; [split_and!; unfold TCS_SERIAL_CAPACITY in *; lia|].
    f_equal. cbn [seq map]. f_equal. apply list_lookup_total_insert_eq. rewrite Hlen. apply Nat.mod_upper_bound. done.
  - rewrite length_insert. apply Nat.eqb_neq in Hfull.
    split; [split_and!; lia|]. f_equal. rewrite seq_S, map_app. cbn [map]. f_equal.
    + apply map_ext_in. intros k Hk%in_seq. fold (ring_index rx k) (ring_index rx (count rx)).
      unfold ring_index at 1. cbn [head]. fold (ring_index rx k).
      apply list_lookup_total_insert_ne. intros Heq. apply ring_index_inj in Heq; lia.
    + f_equal. apply list_lookup_total_insert_eq. rewrite Hlen. apply ring_index_lt.
Qed.

Lemma take_refines rx :
  rx_wf rx ->
  let '(rx', out) := tcs_serial_take rx in
  rx_wf rx' /\ queue_take (queue_of rx) = (queue_of rx', out).
Proof.
  intros (Hlen & Hh & Hc). unfold tcs_serial_take, queue_take, queue_of. cbn [count head rx_bytes lost].
  destruct (count rx) as [|n] eqn:Hn; simpl.
  - split; [unfold rx_wf; simpl; auto with lia|]. done.
  - split; [unfold rx_wf; cbn [head count rx_bytes]; split_and!;
      [done|by apply Nat.mod_upper_bound|lia]|].
    rewrite Nat.sub_0_r. f_equal.
    + f_equal. rewrite <- seq_shift, map_map. apply map_ext. intros k.
      unfold ring_index; cbn [head]. f_equal.
      rewrite Nat.Div0.add_mod_idemp_l. f_equal. lia.
    + f_equal; [by destruct (lost rx)|]. unfold ring_index.
      by rewrite Nat.add_0_r, Nat.mod_small.
Qed.

Lemma loss_refines rx :
  rx_wf rx ->
  rx_wf (tcs_serial_loss rx) /\ queue_of (tcs_serial_loss rx) = {| waiting := []; gap := true |}.
Proof. intros (Hlen & Hh & Hc). split; [unfold rx_wf; simpl; auto with lia|done]. Qed.

(** ** Runs *)

Inductive rx_event := RxReceive (byte : Z) | RxLoss | RxTake.

(** The ring and what its reader got so far. *)
Definition rx_step (s : tcs_serial_rx * list (Z * Z)) (e : rx_event)
    : tcs_serial_rx * list (Z * Z) :=
  let '(rx, out) := s in
  match e with
  | RxReceive byte => (tcs_serial_receive rx byte, out)
  | RxLoss => (tcs_serial_loss rx, out)
  | RxTake => let '(rx', o) := tcs_serial_take rx in (rx', out ++ [o])
  end.

Definition queue_step (s : byte_queue * list (Z * Z)) (e : rx_event)
    : byte_queue * list (Z * Z) :=
  let '(q, out) := s in
  match e with
  | RxReceive byte => (queue_receive q byte, out)
  | RxLoss => ({| waiting := []; gap := true |}, out)
  | RxTake => let '(q', o) := queue_take q in (q', out ++ [o])
  end.

Lemma rx_exec es rx out :
  rx_wf rx ->
  let '(rx', out') := exec rx_step (rx, out) es in
  rx_wf rx' /\ exec queue_step (queue_of rx, out) es = (queue_of rx', out').
Proof.
  revert rx out. induction es as [|e es IH]; intros rx out Hrx; [by split|].
  rewrite !exec_cons. destruct e as [byte| |]; cbn [rx_step queue_step].
  - destruct (receive_refines rx byte Hrx) as [Hw <-]. by apply IH.
  - destruct (loss_refines rx Hrx) as [Hw <-]. by apply IH.
  - pose proof (take_refines rx Hrx) as Ht. destruct (tcs_serial_take rx) as [rx' o].
    destruct Ht as [Hw ->]. by apply IH.
Qed.

(** The bytes a run received, and the bytes its reader was given. *)
Definition received (es : list rx_event) : list Z :=
  flat_map (fun e => match e with RxReceive b => [b] | _ => [] end) es.
Definition given (out : list (Z * Z)) : list Z :=
  flat_map (fun o => if Z.testbit (fst o) 0 then [snd o] else []) out.
Definition flagged (o : Z * Z) : bool := Z.testbit (fst o) 1.

(** A gap is reported by the first byte taken after it. *)
Lemma queue_run_gap es q out :
  let '(q', out') := exec queue_step (q, out) es in
  exists new, out' = out ++ new /\
    (forallb (fun o => negb (flagged o)) new = true -> gap q = true -> gap q' = true) /\
    (forallb (fun o => negb (flagged o)) new = true -> gap q' = false ->
     waiting q ++ received es = given new ++ waiting q').
Proof.
  revert q out. induction es as [|e es IH]; intros q out.
  - exists []. simpl. by rewrite !app_nil_r.
  - rewrite exec_cons. destruct e as [byte| |]; cbn [queue_step].
    + pose proof (IH (queue_receive q byte) out) as H. destruct (exec _ _ es) as [q' out'].
      destruct H as (new & -> & Hg & Hw). exists new. split; [done|]. unfold queue_receive in *.
      destruct (length (waiting q) =? _)%nat; cbn [gap waiting] in *.
      * split; [auto|]. intros Hn Hf. specialize (Hg Hn eq_refl). congruence.
      * split; [auto|]. intros Hn Hf. rewrite <- (Hw Hn Hf). simpl. by rewrite <- app_assoc.
    + pose proof (IH {| waiting := []; gap := true |} out) as H. destruct (exec _ _ es) as [q' out'].
      destruct H as (new & -> & Hg & Hw). exists new. split; [done|]. cbn [gap] in *.
      split; [auto|]. intros Hn Hf. specialize (Hg Hn eq_refl). congruence.
    + destruct (queue_take q) as [q1 o] eqn:Ht.
      pose proof (IH q1 (out ++ [o])) as H. destruct (exec _ _ es) as [q' out'].
      destruct H as (new & -> & Hg & Hw). exists (o :: new). rewrite <- app_assoc. split; [done|].
      cbn [forallb]. unfold queue_take in Ht.
      split; intros Hn%andb_true_iff; destruct Hn as [Ho Hn].
      * intros Hgap. rewrite Hgap in Ht. by destruct (waiting q); injection Ht as <- <-.
      * intros Hf. specialize (Hw Hn Hf). change (received (RxTake :: es)) with (received es).
        change (given (o :: new)) with ((if Z.testbit (fst o) 0 then [snd o] else []) ++ given new).
        destruct (gap q) eqn:Hgap; [by destruct (waiting q); injection Ht as <- <-|].
        destruct (waiting q) as [|b rest]; injection Ht as <- <-; cbn [waiting] in Hw;
          [exact Hw|exact (f_equal (cons b) Hw)].
Qed.

(** ** Properties *)

(** C36. The ring is the abstract queue: over any sequence of received bytes,
    reported hardware losses and takes, the ring stays within its 256 cells and
    gives its reader exactly the flags and bytes of a FIFO queue that empties
    itself and remembers a gap when a byte arrives while 256 are waiting. *)
Theorem serial_refines_queue es :
  let '(rx, out) := exec rx_step (serial_zero, []) es in
  rx_wf rx /\ exec queue_step ({| waiting := []; gap := false |}, []) es = (queue_of rx, out).
Proof.
  pose proof (rx_exec es serial_zero []) as H. destruct (exec rx_step _ es) as [rx out].
  apply H. split_and!; simpl; unfold TCS_SERIAL_CAPACITY; lia || done.
Qed.

(** No silent loss: over any run, from any state of the ring, if no take
    reported LOSS and no gap is left to report, then what was waiting followed
    by what was received is exactly what the reader got followed by what still
    waits: nothing dropped, duplicated or reordered. *)
Theorem serial_no_silent_loss es rx :
  rx_wf rx ->
  let '(rx', out) := exec rx_step (rx, []) es in
  forallb (fun o => negb (flagged o)) out = true -> lost rx' = false ->
  waiting (queue_of rx) ++ received es = given out ++ waiting (queue_of rx').
Proof.
  intros Hrx. pose proof (rx_exec es rx [] Hrx) as H.
  destruct (exec rx_step _ es) as [rx' out]. destruct H as [_ Hq].
  pose proof (queue_run_gap es (queue_of rx) []) as Hg. rewrite Hq in Hg.
  destruct Hg as (new & -> & _ & Hw). exact Hw.
Qed.

(** ** Witness *)

Lemma serial_no_silent_loss_witness :
  let '(rx', out) := exec rx_step (serial_zero, []) [RxReceive 65; RxReceive 66; RxTake] in
  waiting (queue_of serial_zero) ++ [65; 66] = given out ++ waiting (queue_of rx').
Proof.
  assert (Hz : rx_wf serial_zero) by (split_and!; simpl; unfold TCS_SERIAL_CAPACITY; lia || done).
  exact (serial_no_silent_loss [RxReceive 65; RxReceive 66; RxTake] serial_zero Hz eq_refl eq_refl).
Defined.
