(* ===== verification/Terminal.v ===== *)
(** The line editor and command parser of the terminal: [lib/terminal.c] and
    [include/tcs/terminal.h]. A [char] is its unsigned byte. *)

From S2P Require Import Prelude.
From Stdlib Require Ascii String.
Import String.StringSyntax.
#[local] Open Scope string_scope.
#[local] Open Scope Z_scope.

(** The bytes of a string literal, without its terminator. *)
Definition codes (s : String.string) : list Z :=
  map (fun c => Z.of_nat (Ascii.nat_of_ascii c)) (String.list_ascii_of_string s).

(** ** The line editor *)

Definition TCS_LINE_CAPACITY : nat := 128.

Inductive tcs_line_event :=
| TCS_LINE_NONE | TCS_LINE_READY | TCS_LINE_REJECTED | TCS_LINE_CANCELLED.

#[export] Instance tcs_line_event_eq_dec : EqDecision tcs_line_event.
Proof. solve_decision. Defined.

Record tcs_line := {
  bytes : list Z;
  line_length : nat;
  rejected : bool;
  previous_cr : bool;
  completed : bool
}.

Definition line_zero : tcs_line :=
  {| bytes := replicate TCS_LINE_CAPACITY 0; line_length := 0; rejected := false;
     previous_cr := false; completed := false |}.

Definition reset_line (line : tcs_line) : tcs_line :=
  {| bytes := <[0%nat := 0]> (bytes line); line_length := 0; rejected := false;
     previous_cr := previous_cr line; completed := false |}.

Definition tcs_line_discard (line : tcs_line) : tcs_line :=
  let line := reset_line line in
  {| bytes := bytes line; line_length := line_length line; rejected := true;
     previous_cr := false; completed := completed line |}.

Definition set_cr (line : tcs_line) (cr : bool) : tcs_line :=
  {| bytes := bytes line; line_length := line_length line; rejected := rejected line;
     previous_cr := cr; completed := completed line |}.

Definition set_completed (line : tcs_line) : tcs_line :=
  {| bytes := bytes line; line_length := line_length line; rejected := rejected line;
     previous_cr := previous_cr line; completed := true |}.

Definition set_text (line : tcs_line) (b : list Z) (n : nat) : tcs_line :=
  {| bytes := b; line_length := n; rejected := rejected line;
     previous_cr := previous_cr line; completed := completed line |}.

Definition tcs_line_feed (line : tcs_line) (byte : Z) : tcs_line * tcs_line_event :=
  let line := if completed line then reset_line line else line in
  if (byte =? 10) && previous_cr line then (set_cr line false, TCS_LINE_NONE)
  else
  let line := set_cr line (byte =? 13) in
  if byte =? 3 then (reset_line line, TCS_LINE_CANCELLED)
  else if (byte =? 13) || (byte =? 10) then
    (set_completed line, if rejected line then TCS_LINE_REJECTED else TCS_LINE_READY)
  else if rejected line then (line, TCS_LINE_NONE)
  else if (byte =? 8) || (byte =? 127) then
    (if negb (line_length line =? 0)%nat
     then let n := (line_length line - 1)%nat in set_text line (<[n := 0]> (bytes line)) n
     else line, TCS_LINE_NONE)
  else if ((byte <? 32) && negb (byte =? 9)) || (126 <? byte) ||
          (line_length line =? TCS_LINE_CAPACITY - 1)%nat
  then (tcs_line_discard line, TCS_LINE_NONE)
  else
    let n := S (line_length line) in
    (set_text line (<[n := 0]> (<[line_length line := byte]> (bytes line))) n, TCS_LINE_NONE).

Record tcs_line_feedback := { event : tcs_line_event; echo : list Z }.

(** [char echo[5]], zero-initialized, with its first bytes stored. *)
Definition echo_of (stored : list Z) : list Z := stored ++ replicate (5 - length stored) 0.

Definition tcs_terminal_input (line : tcs_line) (byte : Z) : tcs_line * tcs_line_feedback :=
  let previous_length := if completed line then 0%nat else line_length line in
  let '(line, ev) := tcs_line_feed line byte in
  let feedback stored := {| event := ev; echo := echo_of stored |} in
  (line,
   if bool_decide (ev = TCS_LINE_READY) || bool_decide (ev = TCS_LINE_REJECTED) then
     feedback [13; 10]
   else if bool_decide (ev = TCS_LINE_CANCELLED) then feedback [94; 67; 13; 10]
   else if negb (rejected line) && ((byte =? 8) || (byte =? 127)) &&
           (line_length line <? previous_length)%nat
   then feedback [8; 32; 8]
   else if negb (rejected line) && (line_length line =? previous_length + 1)%nat then
     feedback [if byte =? 9 then 32 else byte]
   else feedback []).

(** ** The command parser *)

Inductive tcs_command_kind :=
| TCS_CMD_EMPTY | TCS_CMD_HELP | TCS_CMD_VERSION | TCS_CMD_STATUS | TCS_CMD_READ
| TCS_CMD_INVALID.

Record tcs_command := { c_kind : tcs_command_kind; c_generation : Z }.

#[export] Instance tcs_command_kind_eq_dec : EqDecision tcs_command_kind.
Proof. solve_decision. Defined.

Definition command (k : tcs_command_kind) (g : Z) : tcs_command :=
  {| c_kind := k; c_generation := g |}.

Definition space (byte : Z) : bool := (byte =? 32) || (byte =? 9).

(** [while (i < stop && p(bytes[i])) ++i], with [stop] rounds of fuel. *)
Fixpoint forward (fuel : nat) (p : Z -> bool) (bytes : list Z) (i stop : nat) : nat :=
  match fuel with
  | O => i
  | S fuel => if (i <? stop)%nat && p (bytes !!! i) then forward fuel p bytes (S i) stop else i
  end.

(** [while (stop > start && p(bytes[stop - 1])) --stop]. *)
Fixpoint backward (p : Z -> bool) (bytes : list Z) (start stop : nat) : nat :=
  match stop with
  | O => O
  | S n => if (start <? stop)%nat && p (bytes !!! n) then backward p bytes start n else stop
  end.

(** The loop of [word], with [length] rounds of fuel; [expected] ends with NUL. *)
Fixpoint word_scan (fuel : nat) (bytes expected : list Z) (length i : nat) : nat :=
  match fuel with
  | O => i
  | S fuel =>
      if (i <? length)%nat && negb (expected !!! i =? 0) && (bytes !!! i =? expected !!! i)
      then word_scan fuel bytes expected length (S i) else i
  end.

Definition word (bytes : list Z) (length : nat) (s : String.string) : bool :=
  let expected := codes s ++ [0] in
  let i := word_scan length bytes expected length 0 in
  (i =? length)%nat && (expected !!! i =? 0).

(** The digit loop, over the bytes [split..end). *)
Fixpoint decimal_loop (digits : list Z) (generation : Z) : option Z :=
  match digits with
  | [] => Some generation
  | byte :: rest =>
      if (byte <? 48) || (57 <? byte) then None
      else
        let digit := byte - 48 in
        if (UINT64_MAX - digit) / 10 <? generation then None
        else decimal_loop rest (wrap64 (generation * 10 + digit))
  end.

Definition tcs_command_parse (text : ptr (list Z)) (length : nat) : tcs_command :=
  let invalid := command TCS_CMD_INVALID 0 in
  if (TCS_LINE_CAPACITY <=? length)%nat ||
     match text with NULL => negb (length =? 0)%nat | Some _ => false end
  then invalid
  else
  let bytes := match text with Some b => b | NULL => [] end in
  if existsb (fun i => let byte := bytes !!! i in
       ((byte <? 32) && negb (byte =? 9)) || (126 <? byte)) (seq 0 length)
  then invalid
  else
  let start := forward length space bytes 0 length in
  let stop := backward space bytes start length in
  if (start =? stop)%nat then command TCS_CMD_EMPTY 0
  else
  let split := forward stop (fun b => negb (space b)) bytes start stop in
  let name_length := (split - start)%nat in
  if (split =? stop)%nat then
    if word (drop start bytes) name_length "help" then command TCS_CMD_HELP 0
    else if word (drop start bytes) name_length "version" then command TCS_CMD_VERSION 0
    else if word (drop start bytes) name_length "status" then command TCS_CMD_STATUS 0
    else invalid
  else if negb (word (drop start bytes) name_length "read") then invalid
  else
  let split := forward stop space bytes split stop in
  match decimal_loop (take (stop - split) (drop split bytes)) 0 with
  | None => invalid
  | Some generation =>
      if generation =? 0 then invalid else command TCS_CMD_READ generation
  end.

(** ** The editor, in terms of the text typed *)

Definition printable (k : Z) : bool := (k =? 9) || ((32 <=? k) && (k <=? 126)).

(** The line typed so far, [None] once it is rejected: printable keys append,
    backspace and delete remove, anything else or a 128th byte rejects. *)
Definition edit_key (content : option (list Z)) (k : Z) : option (list Z) :=
  match content with
  | None => None
  | Some t =>
      if (k =? 8) || (k =? 127) then Some (removelast t)
      else if printable k && (length t <? TCS_LINE_CAPACITY - 1)%nat then Some (t ++ [k])
      else None
  end.

Record editor := { content : option (list Z); after_cr : bool; submitted : bool }.

Definition editor_feed (e : editor) (k : Z) : editor * tcs_line_event :=
  let c := if submitted e then Some [] else content e in
  if (k =? 10) && after_cr e then
    ({| content := c; after_cr := false; submitted := false |}, TCS_LINE_NONE)
  else if k =? 3 then
    ({| content := Some []; after_cr := false; submitted := false |}, TCS_LINE_CANCELLED)
  else if (k =? 13) || (k =? 10) then
    ({| content := c; after_cr := k =? 13; submitted := true |},
     match c with None => TCS_LINE_REJECTED | Some _ => TCS_LINE_READY end)
  else ({| content := edit_key c k; after_cr := false; submitted := false |}, TCS_LINE_NONE).

(** The text a line holds, and the editor it stands for. *)
Definition text_of (l : tcs_line) : list Z := take (line_length l) (bytes l).

Definition editor_of (l : tcs_line) : editor :=
  {| content := if rejected l then None else Some (text_of l);
     after_cr := previous_cr l; submitted := completed l |}.

(** A line inside its buffer: printable text, then a terminator. *)
Definition line_wf (l : tcs_line) : Prop :=
  length (bytes l) = TCS_LINE_CAPACITY /\ (line_length l < TCS_LINE_CAPACITY)%nat /\
  Forall (fun k => printable k = true) (text_of l) /\ bytes l !! line_length l = Some 0.

Lemma text_length l : line_wf l -> length (text_of l) = line_length l.
Proof. intros (Hb & Hl & _). unfold text_of. rewrite length_take. lia. Qed.

Lemma reset_line_wf l :
  line_wf l -> line_wf (reset_line l) /\ text_of (reset_line l) = [] /\
  rejected (reset_line l) = false /\ completed (reset_line l) = false /\
  previous_cr (reset_line l) = previous_cr l.
Proof.
  intros (Hb & Hl & _). split; [|done]. unfold line_wf, text_of; simpl. rewrite length_insert.
  split; [done|]. split; [unfold TCS_LINE_CAPACITY; lia|]. split; [constructor|].
  apply list_lookup_insert_eq. lia.
Qed.

Lemma erase_wf l n :
  line_wf l -> line_length l = S n ->
  line_wf (set_text l (<[n := 0]> (bytes l)) n) /\
  text_of (set_text l (<[n := 0]> (bytes l)) n) = removelast (text_of l).
Proof.
  intros (Hb & Hl & Hp & _) Hn.
  assert (E : text_of (set_text l (<[n := 0]> (bytes l)) n) = take n (bytes l))
    by (unfold text_of; simpl; by rewrite take_insert_ge).
  assert (E' : removelast (text_of l) = take n (bytes l)).
  { unfold text_of. rewrite Hn, removelast_firstn; [done|lia]. }
  rewrite E, E'. split; [|done]. unfold line_wf. rewrite E. simpl. rewrite length_insert.
  split; [done|]. split; [lia|]. split; [|apply list_lookup_insert_eq; lia].
  unfold text_of in Hp. rewrite Hn in Hp.
  replace (take n (bytes l)) with (take n (take (S n) (bytes l)))
    by (rewrite take_take; f_equal; lia). by apply Forall_take.
Qed.

Lemma append_wf l k :
  line_wf l -> printable k = true -> (S (line_length l) < TCS_LINE_CAPACITY)%nat ->
  let l' := set_text l (<[S (line_length l) := 0]> (<[line_length l := k]> (bytes l)))
              (S (line_length l)) in
  line_wf l' /\ text_of l' = text_of l ++ [k].
Proof.
  intros (Hb & Hl & Hp & _) Hk Hn l'.
  assert (E : text_of l' = text_of l ++ [k]).
  { unfold text_of, l'; simpl. rewrite take_insert_ge by done.
    rewrite (take_S_r _ _ k); [by rewrite take_insert_ge|].
    apply list_lookup_insert_eq. lia. }
  split; [|done]. unfold line_wf. rewrite E. unfold l'; simpl. rewrite !length_insert.
  split; [done|]. split; [done|]. split; [by apply Forall_app_2, Forall_singleton|].
  apply list_lookup_insert_eq. rewrite length_insert. lia.
Qed.

Lemma set_cr_wf l cr : line_wf l -> line_wf (set_cr l cr) /\ text_of (set_cr l cr) = text_of l.
Proof. done. Qed.

(** The line after the reset of a completed one. *)
Definition opened (l : tcs_line) : tcs_line := if completed l then reset_line l else l.

Lemma opened_wf l :
  line_wf l -> line_wf (opened l) /\ previous_cr (opened l) = previous_cr l /\
  completed (opened l) = false /\
  (if rejected (opened l) then None else Some (text_of (opened l))) =
    (if completed l then Some [] else content (editor_of l)).
Proof.
  intros Hl. unfold opened. destruct (completed l) eqn:Hc.
  - destruct (reset_line_wf l Hl) as (Hw & Ht & Hr & Hc' & Hp). by rewrite Hr, Ht.
  - done.
Qed.

Lemma key_printable k :
  u8 k -> (k =? 8) || (k =? 127) = false -> k <> 3 ->
  ((k <? 32) && negb (k =? 9)) || (126 <? k) = negb (printable k).
Proof. unfold printable. intros. word_lia. Qed.

Lemma line_feed_refines l k :
  line_wf l -> u8 k ->
  line_wf (fst (tcs_line_feed l k)) /\
  editor_feed (editor_of l) k = (editor_of (fst (tcs_line_feed l k)), snd (tcs_line_feed l k)).
Proof.
  intros Hl Hk. destruct (opened_wf l Hl) as (Hw & Hcr & Hco & Hcon).
  unfold tcs_line_feed, editor_feed. fold (opened l). cbn [submitted after_cr editor_of].
  rewrite <- Hcon, Hcr. set (m := opened l) in *. clearbody m.
  destruct ((k =? 10) && previous_cr l) eqn:Hlf.
  { split; [done|]. unfold editor_of; simpl. rewrite Hco. by destruct (rejected m). }
  destruct (k =? 3) eqn:H3.
  { destruct (reset_line_wf (set_cr m (k =? 13)) Hw) as (Hw' & Ht & Hr & Hc' & Hp).
    split; [done|]. cbn [fst snd]. unfold editor_of. rewrite Ht, Hr, Hc', Hp. simpl.
    replace (k =? 13) with false by lia. done. }
  destruct ((k =? 13) || (k =? 10)) eqn:Hent.
  { split; [done|]. unfold editor_of; simpl. by destruct (rejected m). }
  replace (k =? 13) with false by lia.
  change (rejected (set_cr m false)) with (rejected m). destruct (rejected m) eqn:Hrej.
  { split; [done|]. unfold editor_of; simpl. by rewrite Hrej, Hco. }
  cbn [edit_key]. destruct ((k =? 8) || (k =? 127)) eqn:Hbs.
  - change (line_length (set_cr m false)) with (line_length m).
    destruct (line_length m) as [|n] eqn:Hn; cbn [Nat.eqb negb].
    + split; [done|]. cbn [fst snd]. unfold editor_of. cbn [rejected set_cr completed previous_cr].
      rewrite Hrej, Hco. unfold text_of; cbn [line_length bytes set_cr]. by rewrite Hn.
    + cbn [Nat.sub]. rewrite Nat.sub_0_r.
      destruct (erase_wf (set_cr m false) n Hw Hn) as [Hw' Ht].
      split; [done|]. cbn [fst snd]. unfold editor_of. rewrite Ht. simpl. by rewrite Hrej, Hco.
  - rewrite (key_printable k Hk Hbs) by lia.
    change (line_length (set_cr m false)) with (line_length m). rewrite text_length by done.
    destruct (printable k) eqn:Hp; cbn [negb orb andb].
    + destruct Hw as (Hb & Hlt & Hrest).
      destruct (line_length m =? TCS_LINE_CAPACITY - 1)%nat eqn:Hfull.
      * rewrite (proj2 (Nat.ltb_ge _ _)) by (apply Nat.eqb_eq in Hfull; lia). split; [|done].
        by apply (reset_line_wf m (conj Hb (conj Hlt Hrest))).
      * apply Nat.eqb_neq in Hfull. rewrite (proj2 (Nat.ltb_lt _ _)) by lia.
        destruct (append_wf (set_cr m false) k (conj Hb (conj Hlt Hrest)) Hp) as [Hw' Ht];
          [simpl; lia|].
        change (line_length (set_cr m false)) with (line_length m) in Hw', Ht.
        split; [done|]. cbn [fst snd]. unfold editor_of. rewrite Ht. simpl. by rewrite Hrej, Hco.
    + split; [|done]. by apply (reset_line_wf m).
Qed.

Lemma line_zero_wf : line_wf line_zero.
Proof. split_and!; simpl; unfold TCS_LINE_CAPACITY; try lia; constructor. Qed.

(** ** The screen *)

(** The display line: the cells left of the cursor, and those from it on. *)
Record screen := { left : list Z; right : list Z }.

(** One display byte: backspace moves the cursor left, carriage return to the
    start, line feed to a new line; anything else overwrites a cell. *)
Definition put (s : screen) (byte : Z) : screen :=
  if byte =? 8 then
    match rev (left s) with
    | [] => s
    | c :: rest => {| left := rev rest; right := c :: right s |}
    end
  else if byte =? 13 then {| left := []; right := left s ++ right s |}
  else if byte =? 10 then {| left := []; right := [] |}
  else {| left := left s ++ [byte]; right := tail (right s) |}.

(** A C string is sent up to its NUL. *)
Fixpoint c_string (chars : list Z) : list Z :=
  match chars with
  | [] => []
  | c :: rest => if c =? 0 then [] else c :: c_string rest
  end.

Definition display (s : screen) (echo : list Z) : screen := foldl put s (c_string echo).

(** The cell a key shows as. *)
Definition shown (k : Z) : Z := if k =? 9 then 32 else k.

(** [s] shows the text [t]. *)
Definition shows (s : screen) (t : list Z) : Prop :=
  left s = map shown t /\ Forall (eq 32) (right s).

(** A key that does not end the line. *)
Definition plain (k : Z) : Prop := u8 k /\ k <> 3 /\ k <> 10 /\ k <> 13.

Definition terminal_step (s : tcs_line * screen) (k : Z) : tcs_line * screen :=
  let '(l, f) := tcs_terminal_input (fst s) k in (l, display (snd s) (echo f)).

(** The content the next key acts on. *)
Definition current (l : tcs_line) : option (list Z) :=
  if completed l then Some [] else content (editor_of l).

Lemma plain_feed l k :
  line_wf l -> plain k ->
  line_wf (fst (tcs_line_feed l k)) /\ snd (tcs_line_feed l k) = TCS_LINE_NONE /\
  current (fst (tcs_line_feed l k)) = edit_key (current l) k /\
  completed (fst (tcs_line_feed l k)) = false /\ previous_cr (fst (tcs_line_feed l k)) = false.
Proof.
  intros Hl (Hk & H3 & H10 & H13). destruct (line_feed_refines l k Hl Hk) as [Hw He].
  unfold editor_feed in He. replace (k =? 10) with false in He by lia.
  replace (k =? 3) with false in He by lia. replace (k =? 13) with false in He by lia.
  cbn [andb orb submitted editor_of] in He. unfold current.
  pose proof (f_equal (fun x => content (fst x)) He) as Hc.
  pose proof (f_equal (fun x => submitted (fst x)) He) as Hs.
  pose proof (f_equal (fun x => after_cr (fst x)) He) as Hp.
  apply (f_equal snd) in He. cbn [fst snd content submitted after_cr] in Hc, Hs, Hp, He.
  change (submitted (editor_of ?x)) with (completed x) in Hs.
  change (after_cr (editor_of ?x)) with (previous_cr x) in Hp.
  by rewrite <- Hs, <- Hp, <- Hc.
Qed.

Lemma current_length l t :
  line_wf l -> current l = Some t ->
  (if completed l then 0%nat else line_length l) = length t.
Proof.
  intros Hl. unfold current. destruct (completed l); [intros; by inv_pair|].
  simpl. destruct (rejected l); [done|]. intros; inv_pair. by rewrite text_length.
Qed.

Lemma display_key s t k : printable k = true -> shows s t ->
  shows (display s (echo_of [shown k])) (t ++ [k]).
Proof.
  intros Hk [Hl Hr]. unfold display, echo_of.
  assert (E : c_string ([shown k] ++ replicate (5 - length [shown k]) 0) = [shown k]).
  { cbn [app c_string replicate length Nat.sub]. unfold shown, printable in *.
    by replace ((if k =? 9 then 32 else k) =? 0) with false by (destruct (k =? 9) eqn:?; lia). }
  rewrite E. cbn [foldl]. unfold put.
  assert (Hne : shown k <> 8 /\ shown k <> 13 /\ shown k <> 10)
    by (unfold shown, printable in *; destruct (k =? 9) eqn:?; lia).
  rewrite !(proj2 (Z.eqb_neq _ _)) by lia. split; simpl; [by rewrite map_app, Hl|].
  destruct Hr; [constructor|done].
Qed.

Lemma display_erase s t : t <> [] -> shows s t -> shows (display s (echo_of [8; 32; 8])) (removelast t).
Proof.
  intros Hne [Hl Hr]. destruct (exists_last Hne) as (t' & k & ->).
  rewrite removelast_last. destruct s as [lf rt]. simpl in Hl, Hr. subst lf.
  unfold display, put. simpl. rewrite map_app, rev_app_distr. simpl.
  rewrite rev_app_distr. simpl. rewrite !rev_involutive. split; [done|]. by constructor.
Qed.

(** The screen follows the text, as long as the line is not rejected. *)
Lemma terminal_step_shows l s k t :
  line_wf l -> plain k -> current l = Some t -> shows s t ->
  forall t', edit_key (Some t) k = Some t' -> shows (snd (terminal_step (l, s) k)) t'.
Proof.
  intros Hl Hk Hc Hs t' Ht'. destruct (plain_feed l k Hl Hk) as (Hw & Hev & Hc' & Hco & _).
  rewrite Hc, Ht' in Hc'. pose proof (current_length _ _ Hl Hc) as Hlen.
  pose proof (current_length _ _ Hw Hc') as Hlen'. rewrite Hco in Hlen'.
  assert (Hrej : rejected (fst (tcs_line_feed l k)) = false).
  { unfold current in Hc'. rewrite Hco in Hc'. simpl in Hc'. by destruct (rejected _). }
  unfold terminal_step, tcs_terminal_input. cbn [fst snd]. rewrite Hlen.
  destruct (tcs_line_feed l k) as [l' ev]; cbn [fst snd] in *. subst ev.
  cbn [snd]. rewrite Hrej, Hlen'. simpl bool_decide. cbn [orb negb andb].
  unfold edit_key in Ht'. destruct ((k =? 8) || (k =? 127)) eqn:Hbs; cbn [andb].
  - inv_pair. destruct t as [|c t]; [done|]. cbn [echo].
    assert (Hlt : (length (removelast (c :: t)) < length (c :: t))%nat).
    { rewrite (app_removelast_last c (l := c :: t)) at 2 by done. rewrite length_app. simpl. lia. }
    rewrite (proj2 (Nat.ltb_lt _ _) Hlt). cbn [echo]. by apply display_erase.
  - destruct (printable k && _) eqn:Hp; [|done]. bools. inv_pair.
    rewrite length_app. simpl. rewrite Nat.eqb_refl. by apply display_key.
Qed.

Definition line_step (l : tcs_line) (k : Z) : tcs_line := fst (tcs_line_feed l k).

Lemma terminal_step_line l s k : fst (terminal_step (l, s) k) = line_step l k.
Proof. unfold terminal_step, tcs_terminal_input, line_step. simpl. by destruct (tcs_line_feed l k). Qed.

(** A run of plain keys from an open or finished line. *)
Lemma line_run ks l :
  line_wf l -> Forall plain ks ->
  let l' := exec line_step l ks in
  line_wf l' /\ current l' = foldl edit_key (current l) ks /\
  (ks <> [] -> completed l' = false /\ previous_cr l' = false).
Proof.
  revert l. induction ks as [|k ks IH]; intros l Hl Hks; [done|].
  apply Forall_cons_1 in Hks as [Hk Hks]. destruct (plain_feed l k Hl Hk) as (Hw & _ & Hc & Hco & Hcr).
  rewrite exec_cons. destruct (IH (line_step l k) Hw Hks) as (Hw' & Hc' & Hne).
  split; [done|]. split; [rewrite Hc'; cbn [foldl]; by rewrite <- Hc|]. intros _. destruct ks; [done|by apply Hne].
Qed.

Lemma edit_none ks : foldl edit_key None ks = None.
Proof. by induction ks. Qed.

Lemma screen_run ks l s t t' :
  line_wf l -> Forall plain ks -> current l = Some t -> shows s t ->
  foldl edit_key (Some t) ks = Some t' ->
  shows (snd (exec terminal_step (l, s) ks)) t' /\
  fst (exec terminal_step (l, s) ks) = exec line_step l ks.
Proof.
  revert l s t. induction ks as [|k ks IH]; intros l s t Hl Hks Hc Hs Ht'.
  { simpl in Ht'. inv_pair. done. }
  apply Forall_cons_1 in Hks as [Hk Hks]. rewrite !exec_cons. cbn [foldl] in Ht'.
  destruct (edit_key (Some t) k) as [t1|] eqn:He; [|by rewrite edit_none in Ht'].
  destruct (plain_feed l k Hl Hk) as (Hw & _ & Hc' & _). rewrite Hc, He in Hc'.
  pose proof (terminal_step_shows l s k t Hl Hk Hc Hs t1 He) as Hstep.
  pose proof (terminal_step_line l s k) as Hfst.
  destruct (terminal_step (l, s) k) as [l1 s1]; cbn [fst snd] in *. subst l1. by eapply IH.
Qed.

Lemma line_bytes_wf ks l : line_wf l -> Forall u8 ks -> line_wf (exec line_step l ks).
Proof.
  intros Hl Hks. apply (exec_invariant line_step u8); [|done..].
  intros l' k Hk Hw. by apply line_feed_refines.
Qed.

(** ** Properties of the editor *)

(** C31. Memory safety of the editor: whatever bytes arrive, in any number, the
    line stays inside its 128-byte buffer, holds printable characters only, and
    keeps a terminator right after them. *)
Theorem line_stays_in_buffer ks :
  Forall u8 ks ->
  let l := exec line_step line_zero ks in
  length (bytes l) = TCS_LINE_CAPACITY /\ (line_length l < TCS_LINE_CAPACITY)%nat /\
  Forall (fun k => printable k = true) (take (line_length l) (bytes l)) /\
  bytes l !! line_length l = Some 0.
Proof. intros Hks. apply line_bytes_wf; [apply line_zero_wf|done]. Qed.

(** A carriage return is remembered only while its line is the submitted one. *)
Definition cr_ok (ks : list Z) (l : tcs_line) : Prop :=
  line_wf l /\ (previous_cr l = true -> completed l = true /\ list.last ks = Some 13).

Lemma feed_cr ks l k : cr_ok ks l -> u8 k -> cr_ok (ks ++ [k]) (line_step l k).
Proof.
  intros [Hl _] Hk. destruct (line_feed_refines l k Hl Hk) as [Hw He]. split; [exact Hw|].
  unfold editor_feed in He. cbn [submitted after_cr editor_of] in He. apply (f_equal fst) in He. cbn [fst] in He.
  pose proof (f_equal after_cr He) as Ha. pose proof (f_equal submitted He) as Hs. unfold line_step.
  cbn [after_cr submitted editor_of] in Ha, Hs. rewrite last_snoc, <- Ha, <- Hs.
  clear. repeat split_if; cbn; try done; intros ->%Z.eqb_eq; done.
Qed.

Lemma reach_cr ks : Forall u8 ks -> cr_ok ks (exec line_step line_zero ks).
Proof.
  induction ks as [|k ks IH] using rev_ind; [split; [apply line_zero_wf|done]|].
  intros [Hks Hk]%Forall_app. rewrite exec_app. apply feed_cr; [by apply IH|]. by apply Forall_cons_1 in Hk as [? _].
Qed.

(** Enter and Ctrl-C leave nothing to act on. *)
Lemma feed_ends ks l k :
  cr_ok ks l -> u8 k -> k = 3 \/ k = 10 \/ k = 13 -> current (line_step l k) = Some [].
Proof.
  intros [Hl Hcr] Hk Hend. destruct (line_feed_refines l k Hl Hk) as [_ He]. unfold line_step, current.
  unfold editor_feed in He. cbn [submitted after_cr editor_of] in He. apply (f_equal fst) in He. cbn [fst] in He.
  pose proof (f_equal submitted He) as Hs. pose proof (f_equal content He) as Hc.
  cbn [submitted editor_of] in Hs. rewrite <- Hs, <- Hc. destruct Hend as [-> |[-> | ->]]; [done| |done].
  cbn [Z.eqb Pos.eqb orb andb]. destruct (previous_cr l); [|done]. by destruct (Hcr eq_refl) as [-> _].
Qed.

(** Nothing was typed on the line yet: it is the first, Enter or Ctrl-C came
    last, or everything on it was removed again. *)
Definition fresh (before : list Z) (l : tcs_line) : Prop :=
  match list.last before with None => True | Some k => k = 3 \/ k = 10 \/ k = 13 end \/
  (line_length l = 0%nat /\ rejected l = false).

Lemma fresh_current before :
  let l := exec line_step line_zero before in
  Forall u8 before -> fresh before l -> current l = Some [].
Proof.
  intros l Hb [Hlast|[Hlen Hr]].
  - subst l. destruct before as [|k before _] using rev_ind; [done|]. rewrite last_snoc in Hlast.
    apply Forall_app in Hb as [Hb [Hk _]%Forall_cons_1]. rewrite exec_app.
    by apply (feed_ends before); [apply reach_cr|..].
  - unfold current, editor_of, text_of. cbn [content]. rewrite Hlen, Hr. by destruct (completed l).
Qed.

(** C30. What Enter submits: on a line on which nothing was typed yet (the first
    line, after any Enter or any Ctrl-C, or emptied by backspaces), in any state
    the editor can reach, plain keys followed by Enter are answered READY exactly
    when the keys edit to a text (printable keys append up to 127, backspace and
    delete remove), and then the buffer holds that text; otherwise the answer is
    REJECTED: a rejected line is never executed, backspaces included. A line feed
    right after a carriage return is not an Enter. *)
Theorem enter_submits_edited_text before ks enter :
  let l := exec line_step line_zero before in
  Forall u8 before -> Forall plain ks -> fresh before l ->
  enter = 13 \/ (enter = 10 /\ (ks <> [] \/ list.last before <> Some 13)) ->
  let '(l', ev) := tcs_line_feed (exec line_step l ks) enter in
  match foldl edit_key (Some []) ks with
  | Some t => ev = TCS_LINE_READY /\ take (line_length l') (bytes l') = t
  | None => ev = TCS_LINE_REJECTED
  end.
Proof.
  intros l Hbe Hks Hopen Henter. destruct (reach_cr before Hbe) as [Hl Hcr]. fold l in Hl, Hcr.
  pose proof (fresh_current before Hbe Hopen) as Hc. fold l in Hc.
  destruct (line_run ks l Hl Hks) as (Hw & Hcur & Hne). rewrite Hc in Hcur.
  assert (Hskip : (enter =? 10) && previous_cr (exec line_step l ks) = false).
  { destruct Henter as [-> |[-> Hn]]; [done|]. destruct ks as [|k ks]; [|by destruct (Hne ltac:(done)) as [_ ->]].
    change (exec line_step l []) with l. destruct (previous_cr l); [|done]. destruct (Hcr eq_refl) as [_ Hlast].
    by destruct Hn. }
  set (m := exec line_step l ks) in *. assert (He : u8 enter) by word_lia.
  destruct (line_feed_refines m enter Hw He) as [_ Hf].
  destruct (tcs_line_feed m enter) as [l' ev]; cbn [fst snd] in Hf.
  unfold editor_feed in Hf. fold (current m) in Hf. cbn [submitted after_cr editor_of] in Hf.
  fold (current m) in Hf.
  rewrite Hskip in Hf. replace (enter =? 3) with false in Hf by lia.
  replace ((enter =? 13) || (enter =? 10)) with true in Hf by lia.
  change (if completed m then Some [] else content (editor_of m)) with (current m) in Hf.
  rewrite <- Hcur. apply pair_equal_spec in Hf as [Hed <-].
  destruct (current m) as [t|] eqn:Hm; [|done]. split; [done|].
  apply (f_equal content) in Hed. simpl in Hed. destruct (rejected l'); [done|].
  injection Hed as ->. done.
Qed.

(** The echo keeps the screen in step with the line: starting from an empty
    display line, as long as the keys edit to a text, the cells left of the
    cursor show exactly that text (a tab as one blank) and everything right of
    the cursor is blank. *)
Theorem echo_shows_line before ks t s :
  let l := exec line_step line_zero before in
  Forall u8 before -> Forall plain ks -> completed l = true \/ l = line_zero ->
  left s = [] -> right s = [] -> foldl edit_key (Some []) ks = Some t ->
  let '(l', s') := exec terminal_step (l, s) ks in
  left s' = map shown t /\ Forall (eq 32) (right s') /\
  (ks <> [] -> take (line_length l') (bytes l') = t).
Proof.
  intros l Hbe Hks Hopen Hs1 Hs2 Ht.
  assert (Hl : line_wf l) by (apply line_bytes_wf; [apply line_zero_wf|done]).
  assert (Hc : current l = Some []) by (unfold current; destruct Hopen as [-> | ->]; done).
  assert (Hs : shows s []) by (split; [done|by rewrite Hs2]).
  destruct (screen_run ks l s [] t Hl Hks Hc Hs Ht) as [Hsh Hline].
  destruct (line_run ks l Hl Hks) as (_ & Hcur & Hne). rewrite Hc, Ht in Hcur.
  destruct (exec terminal_step (l, s) ks) as [l' s']; cbn [fst snd] in *. subst l'.
  destruct Hsh as [H1 H2]. split; [done|]. split; [done|]. intros Hn.
  destruct (Hne Hn) as [Hco _]. unfold current in Hcur. rewrite Hco in Hcur. simpl in Hcur.
  destruct (rejected _); [done|]. by injection Hcur.
Qed.

(** ** The command grammar *)

Definition blanks (l : list Z) : Prop := Forall (fun b => space b = true) l.
Definition name_text (l : list Z) : Prop := Forall (fun b => negb (space b) = true) l.
Definition is_digit (b : Z) : Prop := 48 <= b <= 57.

(** The value of a string of decimal digits. *)
Definition decimal (digits : list Z) : Z := foldl (fun g b => g * 10 + (b - 48)) 0 digits.

(** The lines that are commands, and what they mean. *)
Inductive command_text : list Z -> tcs_command -> Prop :=
| text_empty a : blanks a -> command_text a (command TCS_CMD_EMPTY 0)
| text_name a c (name : String.string) k :
    blanks a -> blanks c ->
    (name, k) ∈ [("help", TCS_CMD_HELP); ("version", TCS_CMD_VERSION); ("status", TCS_CMD_STATUS)] ->
    command_text (a ++ codes name ++ c) (command k 0)
| text_read a b d c :
    blanks a -> blanks b -> b <> [] -> d <> [] -> Forall is_digit d -> blanks c ->
    1 <= decimal d <= UINT64_MAX ->
    command_text (a ++ codes "read" ++ b ++ d ++ c) (command TCS_CMD_READ (decimal d)).

(** How a line divides: blanks, a name, blanks and a rest, blanks. *)
Inductive line_shape : list Z -> Prop :=
| shape_blank a : blanks a -> line_shape a
| shape_name a w c : blanks a -> w <> [] -> name_text w -> blanks c -> line_shape (a ++ w ++ c)
| shape_rest a w b d x c :
    blanks a -> w <> [] -> name_text w -> b <> [] -> blanks b ->
    space (hd 32 (d ++ [x])) = false -> space x = false -> blanks c ->
    line_shape (a ++ w ++ b ++ (d ++ [x]) ++ c).

(** Every list divides into its longest prefix of [p] and the rest. *)
Lemma span (p : Z -> bool) l :
  exists x r, l = x ++ r /\ Forall (fun b => p b = true) x /\
    (r = [] \/ exists b r', r = b :: r' /\ p b = false).
Proof.
  induction l as [|b l (x & r & -> & Hx & Hr)]; [by exists [], []; auto|].
  destruct (p b) eqn:Hb.
  - exists (b :: x), r. split; [done|]. split; [by constructor|done].
  - exists [], (b :: x ++ r). split; [done|]. split; [done|]. right; eauto.
Qed.

(** And into the rest and its longest suffix of [p]. *)
Lemma span_right (p : Z -> bool) l :
  exists r x, l = r ++ x /\ Forall (fun b => p b = true) x /\
    (r = [] \/ exists r' b, r = r' ++ [b] /\ p b = false).
Proof.
  destruct (span p (rev l)) as (x & r & Hl & Hx & Hr).
  exists (rev r), (rev x). split; [by rewrite <- rev_app_distr, <- Hl, rev_involutive|].
  split; [by apply Forall_rev|]. destruct Hr as [->|(b & r' & -> & Hb)]; [by left|right].
  exists (rev r'), b. done.
Qed.

Lemma every_line_has_a_shape l : line_shape l.
Proof.
  destruct (span space l) as (a & r & -> & Ha & [->|(b0 & r' & -> & Hb0)]).
  { rewrite app_nil_r. by constructor. }
  destruct (span_right space (b0 :: r')) as (m & c & Hm & Hc & Hlast). rewrite Hm.
  destruct Hlast as [->|(m' & x & -> & Hx)].
  { simpl in Hm. subst c. inversion Hc; congruence. }
  destruct (span (fun b => negb (space b)) (m' ++ [x])) as (w & r2 & Hw & Hwt & Hr2).
  assert (Hne : w <> []).
  { intros ->. simpl in Hw. destruct Hr2 as [->|(b & r3 & -> & Hb)]; [by destruct m'|].
    apply negb_false_iff in Hb. rewrite Hw in Hm. simpl in Hm. congruence. }
  rewrite Hw. destruct Hr2 as [->|(b & r3 & -> & Hb)].
  { rewrite app_nil_r. by apply shape_name. }
  apply negb_false_iff in Hb.
  destruct (span space (b :: r3)) as (bs & d & Hbd & Hbs & Hd). rewrite Hbd in Hw.
  assert (Hbne : bs <> []).
  { intros ->. simpl in Hbd. subst d. destruct Hd as [|(? & ? & [= <- <-] & ?)]; congruence. }
  destruct Hd as [->|(d0 & d' & -> & Hd0)].
  { exfalso. rewrite app_nil_r in Hw. destruct (exists_last Hbne) as (bs' & y & ->).
    rewrite app_assoc in Hw. apply app_inj_tail in Hw as [_ ->].
    apply Forall_app in Hbs as [_ Hy]. inversion Hy. congruence. }
  destruct (exists_last (l := d0 :: d') ltac:(done)) as (e & y & He).
  rewrite Hbd, He, <- !app_assoc. rewrite He in Hw.
  assert (Hxy : y = x).
  { rewrite !app_assoc in Hw. by apply app_inj_tail in Hw as [_ ->]. }
  subst y. rewrite (app_assoc e). apply shape_rest; auto. by rewrite <- He.
Qed.

(** ** The loops on a divided line *)

(** [forward] started after [x] passes the run [a] of [p] and stops. *)
Lemma forward_run p a fuel x r stop :
  Forall (fun b => p b = true) a -> (length a <= fuel)%nat ->
  (length x + length a <= stop)%nat ->
  (stop = (length x + length a)%nat \/ exists b r', r = b :: r' /\ p b = false) ->
  forward fuel p (x ++ a ++ r) (length x) stop = (length x + length a)%nat.
Proof.
  intros Ha. revert fuel x. induction Ha as [|b a Hb Ha IH]; intros fuel x Hf Hs Hend.
  - simpl. rewrite Nat.add_0_r. destruct fuel; [done|]. simpl.
    destruct (length x <? stop)%nat eqn:Hlt; [|done]. apply Nat.ltb_lt in Hlt.
    destruct Hend as [->|(b & r' & -> & Hb)]; [simpl in Hlt; lia|].
    rewrite list_lookup_total_middle by done. by rewrite Hb.
  - destruct fuel as [|fuel]; [simpl in Hf; lia|]. simpl in Hf, Hs.
    cbn [forward]. rewrite (proj2 (Nat.ltb_lt _ _)) by lia.
    rewrite <- app_comm_cons, list_lookup_total_middle by done. rewrite Hb. cbn [andb].
    specialize (IH fuel (x ++ [b])). rewrite length_app in IH. simpl length in IH.
    rewrite <- app_assoc in IH. simpl app in IH.
    replace (S (length x)) with (length x + 1)%nat by lia. rewrite IH; simpl; try lia.
    destruct Hend as [->|He]; [left; simpl; lia|by right].
Qed.

(** [backward] from the end of the run [c] of [p] comes back to its start. *)
Lemma backward_run p c x r start :
  Forall (fun b => p b = true) c -> (start <= length x)%nat ->
  (start = length x \/ exists x' b, x = x' ++ [b] /\ p b = false) ->
  backward p (x ++ c ++ r) start (length x + length c) = length x.
Proof.
  intros Hc Hs Hend. revert r. induction c as [|b c IH] using rev_ind; intros r.
  - simpl. rewrite Nat.add_0_r. destruct Hend as [->|(x' & b & -> & Hb)].
    + destruct (length x) as [|n] eqn:Hn; [done|]. cbn [backward].
      by rewrite (proj2 (Nat.ltb_ge _ _)) by lia.
    + rewrite length_app. simpl. rewrite Nat.add_1_r. cbn [backward].
      rewrite <- app_assoc. simpl. rewrite list_lookup_total_middle by done.
      by rewrite Hb, andb_false_r.
  - apply Forall_app in Hc as [Hc Hb]. apply Forall_cons_1 in Hb as [Hb _].
    rewrite length_app. simpl. replace (length x + (length c + 1))%nat with (S (length x + length c)) by lia.
    cbn [backward]. rewrite (proj2 (Nat.ltb_lt _ _)) by lia.
    rewrite <- app_assoc, (app_assoc x c). simpl.
    rewrite list_lookup_total_middle by (by rewrite length_app). rewrite Hb. cbn [andb].
    rewrite <- app_assoc. by apply (IH Hc (b :: r)).
Qed.

(** [word] compares a span with a literal. *)
Lemma word_scan_spec fuel l expected n i :
  (n - i <= fuel)%nat -> (i <= n)%nat -> (i <= length expected)%nat -> (n <= length l)%nat ->
  Forall (fun b => b <> 0) expected -> take i l = take i expected ->
  let j := word_scan fuel l (expected ++ [0]) n i in
  (j <= n)%nat /\ (j <= length expected)%nat /\ take j l = take j expected /\
  (j = n \/ j = length expected \/ l !!! j <> expected !!! j).
Proof.
  revert i. induction fuel as [|fuel IH]; intros i Hf Hn He Hl Hz Heq.
  { simpl. split_and!; auto. left. lia. }
  cbn [word_scan]. destruct (_ && _ && _) eqn:Hc.
  - bools. apply Nat.ltb_lt in H.
    assert (Hlt : (i < length expected)%nat).
    { destruct (decide (i = length expected)) as [->|]; [|lia].
      by rewrite list_lookup_total_middle in H1. }
    rewrite lookup_total_app_l in H0 by done.
    apply IH; try lia; try done.
    destruct (lookup_lt_is_Some_2 l i ltac:(lia)) as [x Hx].
    destruct (lookup_lt_is_Some_2 expected i Hlt) as [y Hy].
    rewrite (take_S_r _ _ x), (take_S_r _ _ y), Heq by done.
    apply list_lookup_total_correct in Hx, Hy. by rewrite <- Hx, <- Hy, H0.
  - split_and!; auto. destruct (decide (i = n)) as [|Hin]; [auto|right].
    destruct (decide (i = length expected)) as [|Hie]; [auto|right].
    rewrite (proj2 (Nat.ltb_lt _ _)) in Hc by lia. rewrite lookup_total_app_l in Hc by lia.
    intros Hne. rewrite Hne, Z.eqb_refl, andb_true_r in Hc. simpl in Hc.
    apply negb_false_iff, Z.eqb_eq in Hc.
    destruct (lookup_lt_is_Some_2 expected i ltac:(lia)) as [y Hy].
    pose proof (Forall_lookup_1 _ _ _ _ Hz Hy) as H0. simpl in H0.
    apply list_lookup_total_correct in Hy. congruence.
Qed.

Lemma word_iff l n s :
  (n <= length l)%nat -> Forall (fun b => b <> 0) (codes s) ->
  word l n s = true <-> take n l = codes s.
Proof.
  intros Hl Hz. unfold word.
  destruct (word_scan_spec n l (codes s) n 0 ltac:(lia) ltac:(lia) ltac:(lia) Hl Hz eq_refl)
    as (Hjn & Hje & Heq & Hstop).
  set (j := word_scan _ _ _ _ _) in *. clearbody j. rewrite andb_true_iff, Nat.eqb_eq, Z.eqb_eq.
  split.
  - intros [-> H0]. destruct (decide (n = length (codes s))) as [->|Hne].
    { by rewrite Heq, take_ge. }
    exfalso. rewrite lookup_total_app_l in H0 by lia.
    destruct (lookup_lt_is_Some_2 (codes s) n ltac:(lia)) as [y Hy].
    pose proof (Forall_lookup_1 _ _ _ _ Hz Hy) as Hy0. simpl in Hy0.
    apply list_lookup_total_correct in Hy. congruence.
  - intros Ht. assert (Hlen : length (codes s) = n) by (rewrite <- Ht, length_take; lia).
    assert (j = n) as ->; [|split; [done|]; rewrite <- Hlen; by rewrite list_lookup_total_middle].
    destruct (decide (j = n)) as [|Hne]; [done|]. destruct Hstop as [|[|Hd]]; [done|lia|].
    exfalso. apply Hd. rewrite <- Ht. by rewrite !list_lookup_total_alt, lookup_take_lt by lia.
Qed.

(** The digit loop computes the decimal value, or fails on a non-digit or past
    64 bits. *)
Lemma decimal_from_mono ds g :
  0 <= g -> Forall is_digit ds -> g <= foldl (fun g b => g * 10 + (b - 48)) g ds.
Proof.
  intros Hg Hds. revert g Hg. induction Hds as [|b ds Hb Hds IH]; intros g Hg; simpl; [lia|].
  unfold is_digit in Hb. specialize (IH (g * 10 + (b - 48)) ltac:(lia)). lia.
Qed.

Lemma decimal_loop_iff ds g v :
  u64 g ->
  decimal_loop ds g = Some v <->
  Forall is_digit ds /\ v = foldl (fun g b => g * 10 + (b - 48)) g ds /\ v <= UINT64_MAX.
Proof.
  revert g. induction ds as [|b ds IH]; intros g Hg; cbn [decimal_loop foldl].
  - split; [intros; inv_pair; split_and!; [constructor|done|word_lia]|].
    intros (_ & -> & _). done.
  - destruct ((b <? 48) || (57 <? b)) eqn:Hb.
    { split; [done|]. intros (Hf & _). apply Forall_cons_1 in Hf as [Hf _]. unfold is_digit in Hf. lia. }
    assert (Hd : is_digit b) by (unfold is_digit; lia).
    destruct ((UINT64_MAX - (b - 48)) / 10 <? g) eqn:Hov.
    + split; [done|]. intros (Hf & -> & Hle). exfalso.
      apply Forall_cons_1 in Hf as [_ Hf].
      pose proof (decimal_from_mono ds (g * 10 + (b - 48)) ltac:(unfold is_digit in Hd; word_lia) Hf).
      apply Z.ltb_lt in Hov.
      assert (g * 10 <= UINT64_MAX - (b - 48)) by lia.
      assert (g <= (UINT64_MAX - (b - 48)) / 10) by (apply Z.div_le_lower_bound; lia). lia.
    + assert (g * 10 + (b - 48) <= UINT64_MAX).
      { apply Z.ltb_ge in Hov. pose proof (Z.mul_div_le (UINT64_MAX - (b - 48)) 10). lia. }
      assert (Hu : u64 (g * 10 + (b - 48))) by (unfold is_digit in Hd; word_lia).
      rewrite wrap64_small by done. rewrite IH by done. rewrite List.Forall_cons_iff. tauto.
Qed.

(** ** The parser on a divided line *)

Definition name_command (w : list Z) : tcs_command :=
  if bool_decide (w = codes "help") then command TCS_CMD_HELP 0
  else if bool_decide (w = codes "version") then command TCS_CMD_VERSION 0
  else if bool_decide (w = codes "status") then command TCS_CMD_STATUS 0
  else command TCS_CMD_INVALID 0.

Definition read_command (w d : list Z) : tcs_command :=
  if bool_decide (w = codes "read") then
    match decimal_loop d 0 with
    | Some g => if g =? 0 then command TCS_CMD_INVALID 0 else command TCS_CMD_READ g
    | None => command TCS_CMD_INVALID 0
    end
  else command TCS_CMD_INVALID 0.

Lemma word_decide l n s :
  (n <= length l)%nat -> Forall (fun b => b <> 0) (codes s) ->
  word l n s = bool_decide (take n l = codes s).
Proof.
  intros Hl Hz. pose proof (word_iff l n s Hl Hz) as Hw.
  case_bool_decide; destruct (word l n s); intuition congruence.
Qed.

Ltac literal := vm_compute; repeat (apply List.Forall_cons; [discriminate|]); apply List.Forall_nil.

(** The checks before the scan. *)
Definition text_bytes (t : list Z) : Prop :=
  (length t < TCS_LINE_CAPACITY)%nat /\ Forall (fun k => printable k = true) t.

Lemma existsb_printable t tail :
  Forall u8 t ->
  existsb (fun i => (((t ++ tail) !!! i <? 32) && negb ((t ++ tail) !!! i =? 9)) ||
                    (126 <? (t ++ tail) !!! i)) (seq 0 (length t)) = false <->
  Forall (fun k => printable k = true) t.
Proof.
  intros Hu. rewrite Forall_lookup.
  assert (E : forall i k, t !! i = Some k ->
    ((((t ++ tail) !!! i <? 32) && negb ((t ++ tail) !!! i =? 9)) || (126 <? (t ++ tail) !!! i))
      = negb (printable k)).
  { intros i k Hi. rewrite lookup_total_app_l by by eapply lookup_lt_Some.
    rewrite (list_lookup_total_correct _ _ _ Hi). pose proof (Forall_lookup_1 _ _ _ _ Hu Hi).
    simpl in *. unfold printable. word_lia. }
  split.
  - intros Hex i k Hi. destruct (printable k) eqn:Hk; [done|].
    assert (Hin : In i (seq 0 (length t))) by (apply in_seq; apply lookup_lt_Some in Hi; lia).
    exfalso. apply not_true_iff_false in Hex. apply Hex. apply existsb_exists.
    exists i. split; [done|]. by rewrite (E i k Hi), Hk.
  - intros Hp. apply not_true_iff_false. rewrite existsb_exists. intros (i & Hin & Hi).
    apply in_seq in Hin. destruct (lookup_lt_is_Some_2 t i ltac:(lia)) as [k Hk].
    rewrite (E i k Hk), (Hp i k Hk) in Hi. done.
Qed.

Section Evaluation.
Context (tail : list Z).

(** What the scans find in each shape of line, followed by whatever the buffer
    holds after it. *)
Lemma scan_start fuel a r n :
  blanks a -> (length a <= fuel)%nat -> (length a <= n)%nat ->
  (n = length a \/ exists b r', r = b :: r' /\ space b = false) ->
  forward fuel space (a ++ r) 0 n = length a.
Proof. intros Ha Hf Hn Hr. by apply (forward_run space a fuel [] r n). Qed.

Lemma last_not_space (x w : list Z) :
  w <> [] -> name_text w -> exists x' b, x ++ w = x' ++ [b] /\ space b = false.
Proof.
  intros Hne Hw. destruct (exists_last Hne) as (w' & b & ->).
  apply Forall_app in Hw as [_ Hb]. apply Forall_cons_1 in Hb as [Hb _].
  exists (x ++ w'), b. split; [by rewrite app_assoc|]. by apply negb_true_iff.
Qed.

Lemma head_not_space (w r : list Z) :
  w <> [] -> name_text w -> exists b r', w ++ r = b :: r' /\ space b = false.
Proof.
  destruct w as [|b w]; [done|]. intros _ Hw. apply Forall_cons_1 in Hw as [Hb _].
  exists b, (w ++ r). split; [done|]. by apply negb_true_iff.
Qed.

(** The parser after its checks. *)
Lemma parse_checked t :
  Forall u8 t -> (length t < TCS_LINE_CAPACITY)%nat -> Forall (fun k => printable k = true) t ->
  forall bytes, bytes = t ++ tail -> forall n, n = length t ->
  tcs_command_parse (Some bytes) n =
    let start := forward n space bytes 0 n in
    let stop := backward space bytes start n in
    if (start =? stop)%nat then command TCS_CMD_EMPTY 0
    else
    let split := forward stop (fun b => negb (space b)) bytes start stop in
    let name_length := (split - start)%nat in
    if (split =? stop)%nat then
      if word (drop start bytes) name_length "help" then command TCS_CMD_HELP 0
      else if word (drop start bytes) name_length "version" then command TCS_CMD_VERSION 0
      else if word (drop start bytes) name_length "status" then command TCS_CMD_STATUS 0
      else command TCS_CMD_INVALID 0
    else if negb (word (drop start bytes) name_length "read") then command TCS_CMD_INVALID 0
    else
    let split := forward stop space bytes split stop in
    match decimal_loop (take (stop - split) (drop split bytes)) 0 with
    | None => command TCS_CMD_INVALID 0
    | Some generation =>
        if generation =? 0 then command TCS_CMD_INVALID 0 else command TCS_CMD_READ generation
    end.
Proof.
  intros Hu Hlen Hp bytes -> n ->. unfold tcs_command_parse.
  rewrite (proj2 (Nat.leb_gt _ _)) by done. cbn [orb].
  by rewrite (proj2 (existsb_printable t tail Hu) Hp).
Qed.

Lemma parse_blank a :
  text_bytes a -> Forall u8 a -> blanks a ->
  tcs_command_parse (Some (a ++ tail)) (length a) = command TCS_CMD_EMPTY 0.
Proof.
  intros [Hlen Hp] Hu Ha. rewrite (parse_checked a Hu Hlen Hp _ eq_refl _ eq_refl). cbv zeta.
  rewrite scan_start by auto.
  assert (Hb : backward space (a ++ tail) (length a) (length a) = length a).
  { pose proof (backward_run space [] a tail (length a) ltac:(constructor) ltac:(lia) (or_introl eq_refl)) as H.
    simpl in H. by rewrite Nat.add_0_r in H. }
  by rewrite Hb, Nat.eqb_refl.
Qed.

Lemma parse_name a w c :
  text_bytes (a ++ w ++ c) -> Forall u8 (a ++ w ++ c) ->
  blanks a -> w <> [] -> name_text w -> blanks c ->
  tcs_command_parse (Some ((a ++ w ++ c) ++ tail)) (length (a ++ w ++ c)) = name_command w.
Proof.
  intros [Hlen Hp] Hu Ha Hne Hw Hc.
  rewrite (parse_checked _ Hu Hlen Hp _ eq_refl _ eq_refl). cbv zeta.
  assert (Hwl : (0 < length w)%nat) by (destruct w; [done|simpl; lia]).
  rewrite <- !app_assoc, !length_app.
  rewrite scan_start; [|done|lia|lia|right; by apply head_not_space].
  assert (Hb : backward space (a ++ w ++ c ++ tail) (length a) (length a + (length w + length c))
    = (length a + length w)%nat).
  { pose proof (backward_run space c (a ++ w) tail (length a) Hc) as H.
    rewrite length_app, <- app_assoc, <- Nat.add_assoc in H. apply H; [lia|right].
    by apply last_not_space. }
  rewrite Hb, (proj2 (Nat.eqb_neq _ _)) by lia.
  rewrite (forward_run _ w) by (auto; lia). rewrite Nat.eqb_refl.
  replace (length a + length w - length a)%nat with (length w) by lia.
  rewrite drop_app_length.
  rewrite !word_decide by (literal || (rewrite !length_app; lia)). by rewrite take_app_length.
Qed.

Lemma parse_rest a w b d x c :
  text_bytes (a ++ w ++ b ++ (d ++ [x]) ++ c) -> Forall u8 (a ++ w ++ b ++ (d ++ [x]) ++ c) ->
  blanks a -> w <> [] -> name_text w -> b <> [] -> blanks b ->
  space (hd 32 (d ++ [x])) = false -> space x = false -> blanks c ->
  tcs_command_parse (Some ((a ++ w ++ b ++ (d ++ [x]) ++ c) ++ tail))
    (length (a ++ w ++ b ++ (d ++ [x]) ++ c)) = read_command w (d ++ [x]).
Proof.
  intros [Hlen Hp] Hu Ha Hne Hw Hbne Hb Hhd Hx Hc.
  rewrite (parse_checked _ Hu Hlen Hp _ eq_refl _ eq_refl). cbv zeta. clear Hlen Hp Hu.
  assert (Hwl : (0 < length w)%nat) by (destruct w; [done|simpl; lia]).
  assert (Hbl : (0 < length b)%nat) by (destruct b; [done|simpl; lia]).
  assert (Hdl : (0 < length (d ++ [x]))%nat) by (rewrite length_app; simpl; lia).
  assert (Hd : exists y r, d ++ [x] = y :: r /\ space y = false)
    by (destruct d as [|y d]; simpl in *; eauto).
  assert (Hlast : exists x' y, (a ++ w ++ b) ++ (d ++ [x]) = x' ++ [y] /\ space y = false)
    by (exists ((a ++ w ++ b) ++ d), x; by rewrite <- !app_assoc).
  set (e := d ++ [x]) in *. clearbody e.
  rewrite <- !app_assoc, !length_app.
  rewrite scan_start; [|done|lia|lia|right; by apply head_not_space].
  assert (Hbk : backward space (a ++ w ++ b ++ e ++ c ++ tail) (length a)
      (length a + (length w + (length b + (length e + length c))))
    = (length a + (length w + (length b + length e)))%nat).
  { pose proof (backward_run space c ((a ++ w ++ b) ++ e) tail (length a) Hc) as H.
    rewrite !length_app, <- !app_assoc in H.
    replace (length a + (length w + (length b + (length e + length c))))%nat with
      (length a + (length w + length b) + length e + length c)%nat by lia.
    rewrite H; [lia|lia|right]. rewrite <- !app_assoc in Hlast. exact Hlast. }
  rewrite Hbk, (proj2 (Nat.eqb_neq _ _)) by lia.
  assert (Hsp : exists y r, b ++ e ++ c ++ tail = y :: r /\ negb (space y) = false).
  { destruct b as [|y b]; [done|]. apply Forall_cons_1 in Hb as [Hy _].
    exists y, (b ++ e ++ c ++ tail). by rewrite Hy. }
  rewrite (forward_run _ w) by (auto; lia).
  rewrite (proj2 (Nat.eqb_neq _ _)) by lia.
  replace (length a + length w - length a)%nat with (length w) by lia.
  rewrite drop_app_length.
  rewrite word_decide by (literal || (rewrite !length_app; lia)). rewrite take_app_length.
  unfold read_command. destruct (bool_decide (w = codes "read")); [cbn [negb]|done].
  assert (Hf : forward (length a + (length w + (length b + length e))) space
      (a ++ w ++ b ++ e ++ c ++ tail) (length a + length w)
      (length a + (length w + (length b + length e))) = (length a + length w + length b)%nat).
  { pose proof (forward_run space b (length a + (length w + (length b + length e))) (a ++ w)
      (e ++ c ++ tail) (length a + (length w + (length b + length e))) Hb) as H.
    rewrite length_app, <- app_assoc in H. apply H; [lia|lia|right].
    destruct Hd as (y & r & -> & Hy). by exists y, (r ++ c ++ tail). }
  rewrite Hf.
  replace (length a + (length w + (length b + length e)) - (length a + length w + length b))%nat
    with (length e) by lia.
  rewrite <- !drop_drop, !drop_app_length, take_app_length. done.
Qed.
End Evaluation.

Lemma blanks_printable a : blanks a -> Forall (fun k => printable k = true) a.
Proof. apply List.Forall_impl. intros b Hb. unfold space in Hb. unfold printable. lia. Qed.

Lemma digits_not_space d : Forall is_digit d -> name_text d /\ Forall (fun k => printable k = true) d.
Proof.
  intros Hd. split; (eapply List.Forall_impl; [|exact Hd]); intros b Hb; unfold is_digit in Hb;
  unfold space, printable; lia.
Qed.

Ltac literal_true := vm_compute; repeat (apply List.Forall_cons; [reflexivity|]); apply List.Forall_nil.

Lemma command_text_printable t c : command_text t c -> Forall (fun k => printable k = true) t.
Proof.
  destruct 1 as [a Ha|a c' name k Ha Hc Hin|a b d c' Ha Hb _ _ Hd Hc _].
  - by apply blanks_printable.
  - rewrite !Forall_app. split; [by apply blanks_printable|]. split; [|by apply blanks_printable].
    rewrite !elem_of_cons in Hin. destruct Hin as [[= -> _]|[[= -> _]|[[= -> _]|Hin]]];
    [literal_true..|by apply not_elem_of_nil in Hin].
  - rewrite !Forall_app. pose proof (digits_not_space d Hd) as [_ Hp].
    split_and!; try done; try by apply blanks_printable. literal_true.
Qed.

Lemma name_command_sound a w c r :
  blanks a -> blanks c -> name_command w = r -> c_kind r <> TCS_CMD_INVALID ->
  command_text (a ++ w ++ c) r.
Proof.
  intros Ha Hc <- Hk. unfold name_command in *.
  repeat (case_bool_decide; [subst w; apply text_name; auto; rewrite !elem_of_cons; tauto|]).
  done.
Qed.

Lemma read_command_sound a w b e c r :
  blanks a -> blanks b -> b <> [] -> blanks c -> e <> [] ->
  read_command w e = r -> c_kind r <> TCS_CMD_INVALID ->
  command_text (a ++ w ++ b ++ e ++ c) r.
Proof.
  intros Ha Hb Hbne Hc He <- Hk. unfold read_command in *.
  case_bool_decide; [subst w|done]. destruct (decimal_loop e 0) as [g|] eqn:Hg; [|done].
  apply decimal_loop_iff in Hg as (Hd & Hv & Hle); [|word_lia].
  destruct (g =? 0) eqn:H0; [done|]. fold (decimal e) in Hv. subst g. apply text_read; auto.
  pose proof (decimal_from_mono e 0 ltac:(lia) Hd). unfold decimal in *. lia.
Qed.

(** The parser on accepted bytes, completely. *)
Lemma parse_iff t tail c :
  Forall u8 t -> text_bytes t -> c_kind c <> TCS_CMD_INVALID ->
  tcs_command_parse (Some (t ++ tail)) (length t) = c <-> command_text t c.
Proof.
  intros Hu Ht Hk. split.
  - intros Hpar. destruct (every_line_has_a_shape t) as [a Ha|a w c' Ha Hw Hwt Hc|a w b d x c' Ha Hw Hwt Hb Hbb Hh Hx Hc].
    + rewrite parse_blank in Hpar by done. subst c. by apply text_empty.
    + rewrite parse_name in Hpar by done. by apply name_command_sound.
    + rewrite parse_rest in Hpar by done. apply read_command_sound; auto. by destruct d.
  - intros Htext. destruct Htext as [a Ha|a c' name k Ha Hc Hin|a b d c' Ha Hb Hbne Hdne Hd Hc Hr].
    + by apply parse_blank.
    + rewrite !elem_of_cons in Hin. destruct Hin as [[= -> ->]|[[= -> ->]|[[= -> ->]|Hin]]];
      [..|by apply not_elem_of_nil in Hin]; (rewrite parse_name; [done..|literal_true|done]).
    + destruct (exists_last Hdne) as (d' & x & ->). pose proof (digits_not_space _ Hd) as [Hns _].
      rewrite parse_rest; try done; [|literal_true| |].
      * unfold read_command. rewrite bool_decide_true by done.
        rewrite (proj2 (decimal_loop_iff (d' ++ [x]) 0 (decimal (d' ++ [x])) ltac:(word_lia)));
          [|split_and!; done || lia].
        by rewrite (proj2 (Z.eqb_neq _ _)) by lia.
      * apply negb_true_iff. destruct d'; by apply Forall_cons_1 in Hns as [? _].
      * apply Forall_app in Hns as [_ Hns]. apply Forall_cons_1 in Hns as [? _]. by apply negb_true_iff.
Qed.

(** ** Properties of the parser *)

(** C29. The parser recognizes exactly the command grammar: a span of a buffer
    is answered with a command other than INVALID if and only if it is shorter
    than a line and is, between optional blanks, empty, [help], [version],
    [status], or [read], blanks and a decimal number, which is then the
    generation and lies between 1 and the largest 64-bit value (leading zeros
    allowed, overflow refused). *)
Theorem command_parse_iff buf n c :
  Forall u8 buf -> (n <= length buf)%nat -> c_kind c <> TCS_CMD_INVALID ->
  tcs_command_parse (Some buf) n = c <->
  (n < TCS_LINE_CAPACITY)%nat /\ command_text (take n buf) c.
Proof.
  intros Hu Hn Hk.
  assert (Hlen : length (take n buf) = n) by (rewrite length_take; lia).
  assert (Hut : Forall u8 (take n buf)) by by apply Forall_take.
  destruct (decide (n < TCS_LINE_CAPACITY)%nat) as [Hlt|Hge].
  2: { split; [|lia]. unfold tcs_command_parse. rewrite (proj2 (Nat.leb_le _ _)) by lia.
    simpl. intros <-. done. }
  destruct (decide (Forall (fun k => printable k = true) (take n buf))) as [Hp|Hnp].
  - assert (Ht : text_bytes (take n buf)) by (split; [by rewrite Hlen|done]).
    pose proof (parse_iff (take n buf) (drop n buf) c Hut Ht Hk) as H.
    rewrite take_drop, Hlen in H. rewrite H. tauto.
  - split; [|intros [_ Ht]; by apply command_text_printable in Ht].
    unfold tcs_command_parse. rewrite (proj2 (Nat.leb_gt _ _)) by lia. cbn [orb].
    destruct (existsb _ _) eqn:Hex; [intros <-; done|]. exfalso. apply Hnp.
    apply (existsb_printable (take n buf) (drop n buf) Hut). by rewrite take_drop, Hlen.
Qed.

(** ** Witnesses *)

Ltac bytes_u8 := vm_compute; repeat (apply List.Forall_cons; [split; discriminate|]); apply List.Forall_nil.

Lemma line_stays_in_buffer_witness :
  (line_length (exec line_step line_zero (codes "read 7" ++ [8; 13])%Z) < TCS_LINE_CAPACITY)%nat.
Proof. apply (line_stays_in_buffer (codes "read 7" ++ [8; 13])). bytes_u8. Defined.

Definition keys : list Z := codes "halp" ++ [8; 8] ++ [108; 112].

Lemma keys_plain : Forall plain keys.
Proof. vm_compute. repeat (apply List.Forall_cons; [split_and!; discriminate|]). apply List.Forall_nil. Qed.

(** After a cancelled line. *)
Lemma enter_submits_edited_text_witness :
  let '(l', ev) := tcs_line_feed (exec line_step (exec line_step line_zero (codes "read 9" ++ [3])) keys) 13 in
  ev = TCS_LINE_READY /\ take (line_length l') (bytes l') = codes "halp".
Proof.
  refine (enter_submits_edited_text (codes "read 9" ++ [3]) keys 13 _ keys_plain _ (or_introl eq_refl));
    [bytes_u8|left; left; reflexivity].
Defined.

Lemma echo_shows_line_witness :
  let '(l', s') := exec terminal_step (line_zero, {| left := []; right := [] |}) keys in
  left s' = map shown (codes "halp") /\ Forall (eq 32) (right s') /\
  (keys <> [] -> take (line_length l') (bytes l') = codes "halp").
Proof.
  refine (echo_shows_line [] keys (codes "halp") {| left := []; right := [] |} _ keys_plain
    (or_intror eq_refl) eq_refl eq_refl eq_refl). apply List.Forall_nil.
Defined.

Lemma command_parse_iff_witness :
  command_text (codes " read 018446744073709551615") (command TCS_CMD_READ UINT64_MAX).
Proof.
  refine (proj2 (proj1 (command_parse_iff (codes " read 018446744073709551615") 27
    (command TCS_CMD_READ UINT64_MAX) _ _ _) _)).
  - bytes_u8.
  - vm_compute. lia.
  - discriminate.
  - vm_compute. reflexivity.
Defined.
