(* ===== verification/SignedInput.v ===== *)
(** Typed signed packets: [lib/signed_input.c] and [include/tcs/signed_input.h].

    An operator enters a 192-byte signed packet as exactly 384 lowercase
    hexadecimal digits and Enter. Anything else empties and rejects the frame. *)

From S2P Require Import Prelude Bytes Policy Admin Terminal.

(** ** Data and operations *)

Definition PACKET_BYTES : nat := 192.

Record tcs_signed_input := {
  s_packet : list Z;
  s_digits : nat;
  s_rejected : bool;
  s_previous_cr : bool;
  s_completed : bool
}.

Definition signed_zero : tcs_signed_input :=
  {| s_packet := replicate PACKET_BYTES 0; s_digits := 0; s_rejected := false;
     s_previous_cr := false; s_completed := false |}.

Definition s_set_cr (s : tcs_signed_input) (cr : bool) : tcs_signed_input :=
  {| s_packet := s_packet s; s_digits := s_digits s; s_rejected := s_rejected s;
     s_previous_cr := cr; s_completed := s_completed s |}.
Definition s_complete (s : tcs_signed_input) : tcs_signed_input :=
  {| s_packet := s_packet s; s_digits := s_digits s; s_rejected := s_rejected s;
     s_previous_cr := s_previous_cr s; s_completed := true |}.

Definition tcs_signed_begin (s : tcs_signed_input) (previous_cr : bool) : tcs_signed_input :=
  s_set_cr signed_zero previous_cr.

Definition tcs_signed_discard (s : tcs_signed_input) : tcs_signed_input :=
  {| s_packet := s_packet signed_zero; s_digits := 0; s_rejected := true;
     s_previous_cr := false; s_completed := false |}.

(** The digit value chosen by the two range tests. *)
Definition nibble (byte : Z) : option Z :=
  if (48 <=? byte) && (byte <=? 57) then Some (byte - 48)
  else if (97 <=? byte) && (byte <=? 102) then Some (byte - 97 + 10)
  else None.

Definition tcs_signed_feed (s : tcs_signed_input) (byte : Z)
    : tcs_signed_input * tcs_line_feedback :=
  let f ev stored := {| event := ev; echo := echo_of stored |} in
  if s_completed s then (s, f TCS_LINE_NONE [])
  else if (byte =? 10) && s_previous_cr s then (s_set_cr s false, f TCS_LINE_NONE [])
  else
  let s := s_set_cr s (byte =? 13) in
  if byte =? 3 then
    (s_complete (tcs_signed_discard s), f TCS_LINE_CANCELLED [94; 67; 13; 10])
  else if (byte =? 13) || (byte =? 10) then
    let valid := negb (s_rejected s) && (s_digits s =? 2 * PACKET_BYTES)%nat in
    let s := if negb valid then s_set_cr (tcs_signed_discard s) (s_previous_cr s) else s in
    (s_complete s, f (if valid then TCS_LINE_READY else TCS_LINE_REJECTED) [13; 10])
  else if negb (s_rejected s) then
    match nibble byte with
    | None => (tcs_signed_discard s, f TCS_LINE_NONE [])
    | Some n =>
        if (2 * PACKET_BYTES <=? s_digits s)%nat then (tcs_signed_discard s, f TCS_LINE_NONE [])
        else
          let i := (s_digits s / 2)%nat in
          let value := if (s_digits s mod 2 =? 0)%nat then wrap8 (Z.shiftl n 4)
                       else wrap8 (Z.lor (s_packet s !!! i) n) in
          ({| s_packet := <[i := value]> (s_packet s); s_digits := S (s_digits s);
              s_rejected := s_rejected s; s_previous_cr := s_previous_cr s;
              s_completed := s_completed s |}, f TCS_LINE_NONE [byte])
    end
  else (s, f TCS_LINE_NONE []).

Definition tcs_signed_command (p : list Z) : tcs_admin_command :=
  {| c_sequence := load_le64 (drop 80 p); c_expected_generation := load_le64 (drop 120 p);
     c_request := {| r_op := load_le64 (drop 88 p); r_subject := load_le64 (drop 96 p);
                     r_object := load_le64 (drop 104 p); r_rights := load_le64 (drop 112 p);
                     r_generation := 0 |} |}.

(** ** Digit strings and the bytes they spell *)

Definition is_nibble (n : Z) : Prop := 0 <= n <= 15.

(** Two digits to a byte, high first; a last odd digit fills the high half. *)
Fixpoint pairs (ns : list Z) : list Z :=
  match ns with
  | [] => []
  | [h] => [16 * h]
  | h :: l :: rest => 16 * h + l :: pairs rest
  end.

Definition packet_of (ns : list Z) : list Z :=
  pairs ns ++ replicate (PACKET_BYTES - length (pairs ns)) 0.

(** The digits of a byte string, and their characters. *)
Definition nibbles (p : list Z) : list Z := flat_map (fun b => [b / 16; b mod 16]) p.
Definition hex_char (n : Z) : Z := if n <? 10 then 48 + n else 97 + (n - 10).
Definition hex (p : list Z) : list Z := map hex_char (nibbles p).

Lemma pairs_ind (P : list Z -> Prop) :
  P [] -> (forall h, P [h]) -> (forall h l ns, P ns -> P (h :: l :: ns)) -> forall ns, P ns.
Proof.
  intros H0 H1 H2. assert (H : forall ns, P ns /\ forall h, P (h :: ns)).
  { induction ns as [|n ns [IH IH']]; [auto|]. split; [apply IH'|auto]. }
  intros ns. apply H.
Qed.

Lemma length_pairs ns : length (pairs ns) = ((length ns + 1) / 2)%nat.
Proof.
  induction ns as [|h|h l ns IH] using pairs_ind; [done|done|].
  cbn [pairs length]. rewrite IH.
  replace (S (S (length ns)) + 1)%nat with (1 * 2 + (length ns + 1))%nat by lia.
  rewrite Nat.div_add_l by lia. lia.
Qed.

Lemma lor_nibbles h l : is_nibble h -> is_nibble l -> wrap8 (Z.lor (16 * h) l) = 16 * h + l.
Proof.
  intros Hh Hl. assert (E : Z.lor (16 * h) l = 16 * h + l).
  { rewrite <- Z.lxor_lor, <- Z.add_nocarry_lxor; [done| |];
    (apply Z.bits_inj'; intros n Hn; rewrite Z.land_spec, Z.bits_0;
     replace (16 * h) with (Z.shiftl h 4) by (rewrite Z.shiftl_mul_pow2; lia);
     destruct (Z.lt_ge_cases n 4);
     [by rewrite Z.shiftl_spec_low|
      rewrite <- (Z.mod_small l (2 ^ 4)) by (unfold is_nibble in Hl; lia);
      by rewrite Z.mod_pow2_bits_high, andb_false_r by lia]). }
  rewrite E. unfold wrap8. apply Z.mod_small. unfold is_nibble in *. lia.
Qed.

Lemma shl_nibble n : is_nibble n -> wrap8 (Z.shiftl n 4) = 16 * n.
Proof.
  intros Hn. rewrite Z.shiftl_mul_pow2 by lia. unfold wrap8, is_nibble in *.
  rewrite Z.mod_small; lia.
Qed.

(** Adding a digit to the digits read so far. *)
Lemma pairs_snoc ns n :
  Forall is_nibble ns -> is_nibble n ->
  pairs (ns ++ [n]) =
    if (length ns mod 2 =? 0)%nat then pairs ns ++ [16 * n]
    else <[(length ns / 2)%nat := wrap8 (Z.lor (pairs ns !!! (length ns / 2)%nat) n)]> (pairs ns).
Proof.
  intros Hns Hn. induction ns as [|h|h l ns IH] using pairs_ind; [done| |].
  - apply Forall_cons_1 in Hns as [Hh _]. cbn. by rewrite lor_nibbles.
  - apply Forall_cons_1 in Hns as [Hh Hns]. apply Forall_cons_1 in Hns as [Hl Hns].
    cbn [app pairs length]. rewrite IH by done.
    replace (S (S (length ns))) with (length ns + 1 * 2)%nat by lia.
    rewrite Nat.Div0.mod_add, Nat.div_add by lia. rewrite Nat.add_1_r.
    by destruct (_ =? 0)%nat.
Qed.

Lemma pairs_nibbles p : byte_list p -> pairs (nibbles p) = p.
Proof.
  induction 1 as [|b p Hb Hp IH]; [done|]. cbn [nibbles flat_map app pairs].
  fold (nibbles p). rewrite IH. f_equal. pose proof (Z.div_mod b 16). lia.
Qed.

Lemma nibbles_ok p : byte_list p -> Forall is_nibble (nibbles p) /\ length (nibbles p) = (2 * length p)%nat.
Proof.
  induction 1 as [|b p Hb Hp [IH IH']]; [done|]. cbn [nibbles flat_map app length].
  fold (nibbles p). split; [|lia]. unfold is_nibble. constructor; [|constructor; [|done]].
  - split; [apply Z.div_pos; word_lia|]. apply Z.lt_succ_r, Z.div_lt_upper_bound; word_lia.
  - pose proof (Z.mod_pos_bound b 16). lia.
Qed.

Lemma nibble_hex n : is_nibble n -> nibble (hex_char n) = Some n.
Proof.
  unfold is_nibble, nibble, hex_char. intros Hn.
  destruct (n <? 10) eqn:?; repeat split_if; first [f_equal; lia|exfalso; lia].
Qed.

Lemma nibble_range k n : nibble k = Some n -> is_nibble n.
Proof.
  unfold nibble, is_nibble. intros H. repeat split_if; inv_pair; lia.
Qed.

(** ** The frame, in terms of the digits read *)

(** A frame that holds the digits [ns], or a rejected one. *)
Definition frame (s : tcs_signed_input) (ns : option (list Z)) : Prop :=
  s_completed s = false /\
  match ns with
  | Some ns =>
      s_rejected s = false /\ s_digits s = length ns /\ s_packet s = packet_of ns /\
      Forall is_nibble ns /\ (length ns <= 2 * PACKET_BYTES)%nat
  | None => s_rejected s = true /\ s_packet s = replicate PACKET_BYTES 0
  end.

(** What a key does to the digits read. *)
Definition digit_key (ns : option (list Z)) (k : Z) : option (list Z) :=
  ns ≫= fun ns => nibble k ≫= fun n =>
    if (length ns <? 2 * PACKET_BYTES)%nat then Some (ns ++ [n]) else None.

Lemma packet_snoc ns n :
  Forall is_nibble ns -> is_nibble n -> (length ns < 2 * PACKET_BYTES)%nat ->
  <[(length ns / 2)%nat :=
      if (length ns mod 2 =? 0)%nat then wrap8 (Z.shiftl n 4)
      else wrap8 (Z.lor (packet_of ns !!! (length ns / 2)%nat) n)]> (packet_of ns) =
    packet_of (ns ++ [n]).
Proof.
  intros Hns Hn Hlt. unfold packet_of. rewrite pairs_snoc by done.
  pose proof (length_pairs ns) as Hlen. unfold PACKET_BYTES in *.
  pose proof (Nat.div_mod (length ns) 2 ltac:(lia)) as Hdm.
  pose proof (Nat.mod_upper_bound (length ns) 2 ltac:(lia)) as Hmb.
  destruct (length ns mod 2 =? 0)%nat eqn:Hpar.
  - apply Nat.eqb_eq in Hpar. rewrite shl_nibble by done.
    assert (E : length (pairs ns) = (length ns / 2)%nat).
    { rewrite Hlen, Hdm, Hpar, Nat.add_0_r. rewrite (Nat.mul_comm 2), Nat.div_add_l, Nat.div_mul by lia.
      simpl. lia. }
    rewrite <- E, length_app. replace (192 - length (pairs ns))%nat with
      (S (192 - (length (pairs ns) + length [(16 * n)%Z])))%nat by (simpl; lia).
    cbn [replicate]. rewrite insert_app_r_alt, Nat.sub_diag by lia. cbn.
    by rewrite <- app_assoc.
  - apply Nat.eqb_neq in Hpar. rewrite length_insert.
    assert (E : (length ns / 2 < length (pairs ns))%nat).
    { rewrite Hlen. apply Nat.div_le_lower_bound; lia. }
    rewrite insert_app_l by done. by rewrite lookup_total_app_l by done.
Qed.

Lemma packet_nil : packet_of [] = replicate PACKET_BYTES 0.
Proof. reflexivity. Qed.

Lemma signed_feed_plain s ns k :
  frame s ns -> plain k ->
  frame (fst (tcs_signed_feed s k)) (digit_key ns k) /\
  s_previous_cr (fst (tcs_signed_feed s k)) = false.
Proof.
  intros [Hc Hs] (Hk & H3 & H10 & H13). unfold tcs_signed_feed. rewrite Hc.
  replace (k =? 10) with false by lia. replace (k =? 3) with false by lia.
  replace (k =? 13) with false by lia. cbn [andb orb].
  change (s_rejected (s_set_cr s false)) with (s_rejected s).
  destruct ns as [ns|]; cbn [digit_key mbind option_bind].
  - destruct Hs as (Hr & Hd & Hp & Hn & Hlen). rewrite Hr. cbn [negb].
    destruct (nibble k) as [n|] eqn:Hnk; cbn [option_bind]; [|split; done].
    change (s_digits (s_set_cr s false)) with (s_digits s). rewrite Hd.
    destruct (length ns <? 2 * PACKET_BYTES)%nat eqn:Hlt.
    + apply Nat.ltb_lt in Hlt. rewrite (proj2 (Nat.leb_gt _ _)) by lia.
      apply nibble_range in Hnk as Hni.
      split; [|done]. split; [done|]. cbn [fst s_rejected s_digits s_packet s_set_cr].
      change (Some n ≫= _) with (Some (ns ++ [n])). cbv iota beta.
      rewrite Hp, packet_snoc by done. rewrite length_app. simpl.
      split_and!; try done; try (unfold PACKET_BYTES in *; lia). by apply Forall_app_2, Forall_singleton.
    + apply Nat.ltb_ge in Hlt. rewrite (proj2 (Nat.leb_le _ _)) by lia. by split.
  - destruct Hs as [Hr Hp]. rewrite Hr. cbn [negb]. by split.
Qed.

Definition signed_step (s : tcs_signed_input) (k : Z) : tcs_signed_input :=
  fst (tcs_signed_feed s k).

Lemma signed_run ks s ns :
  frame s ns -> Forall plain ks ->
  frame (exec signed_step s ks) (foldl digit_key ns ks) /\
  (ks <> [] -> s_previous_cr (exec signed_step s ks) = false).
Proof.
  revert s ns. induction ks as [|k ks IH]; intros s ns Hs Hks; [done|].
  apply Forall_cons_1 in Hks as [Hk Hks]. rewrite exec_cons. cbn [foldl].
  destruct (signed_feed_plain s ns k Hs Hk) as [Hf Hcr].
  destruct (IH _ _ Hf Hks) as [Hf' Hcr']. split; [done|]. intros _.
  destruct ks; [done|by apply Hcr'].
Qed.

Lemma begin_frame s cr : frame (tcs_signed_begin s cr) (Some []).
Proof. split; [done|]. split_and!; try done. unfold PACKET_BYTES. simpl. lia. Qed.

(** Enter on a frame with the digits [ns]. *)
Lemma signed_enter s ns enter :
  frame s ns -> enter = 13 \/ (enter = 10 /\ s_previous_cr s = false) ->
  let '(s', f) := tcs_signed_feed s enter in
  match ns with
  | Some ns =>
      if (length ns =? 2 * PACKET_BYTES)%nat
      then event f = TCS_LINE_READY /\ s_packet s' = pairs ns
      else event f = TCS_LINE_REJECTED /\ s_packet s' = replicate PACKET_BYTES 0
  | None => event f = TCS_LINE_REJECTED /\ s_packet s' = replicate PACKET_BYTES 0
  end.
Proof.
  intros [Hc Hs] Henter. unfold tcs_signed_feed. rewrite Hc.
  replace ((enter =? 10) && s_previous_cr s) with false
    by (destruct Henter as [->|[-> ->]]; done).
  replace (enter =? 3) with false by lia.
  replace ((enter =? 13) || (enter =? 10)) with true by lia.
  change (s_rejected (s_set_cr s _)) with (s_rejected s).
  change (s_digits (s_set_cr s _)) with (s_digits s).
  destruct ns as [ns|].
  - destruct Hs as (-> & -> & Hp & Hn & Hlen). cbn [negb andb].
    destruct (length ns =? 2 * PACKET_BYTES)%nat eqn:Hl; cbn [negb]; [|done].
    split; [done|]. cbn [s_complete s_packet s_set_cr]. rewrite Hp. unfold packet_of.
    apply Nat.eqb_eq in Hl. rewrite length_pairs, Hl. by rewrite app_nil_r.
  - destruct Hs as [-> Hp]. done.
Qed.

Lemma digit_key_some ns k :
  digit_key (Some ns) k =
    match nibble k with
    | Some n => if (length ns <? 2 * PACKET_BYTES)%nat then Some (ns ++ [n]) else None
    | None => None
    end.
Proof. unfold digit_key; simpl. by destruct (nibble k). Qed.

Lemma digits_none ks : foldl digit_key None ks = None.
Proof. by induction ks. Qed.

(** The digits of a string of keys: all of them digits, and not too many. *)
Lemma digits_fold ks ns :
  (length ns <= 2 * PACKET_BYTES)%nat ->
  foldl digit_key (Some ns) ks =
    match mapM nibble ks with
    | Some new => if (length ns + length new <=? 2 * PACKET_BYTES)%nat then Some (ns ++ new) else None
    | None => None
    end.
Proof.
  revert ns. induction ks as [|k ks IH]; intros ns Hns.
  - cbn. rewrite Nat.add_0_r, app_nil_r. by rewrite (proj2 (Nat.leb_le _ _)).
  - cbn [foldl mapM]. rewrite digit_key_some. destruct (nibble k) as [n|]; cbn [option_bind mbind].
    + destruct (length ns <? 2 * PACKET_BYTES)%nat eqn:Hlt.
      * apply Nat.ltb_lt in Hlt. rewrite IH by (rewrite length_app; cbn [length]; lia).
        cbn [mbind option_bind]. destruct (mapM nibble ks) as [new|]; cbn; [|done].
        rewrite length_app. cbn [length]. rewrite <- Nat.add_assoc, <- app_assoc. done.
      * rewrite digits_none. apply Nat.ltb_ge in Hlt.
        destruct (mapM nibble ks) as [new|]; cbn; [|done].
        by rewrite (proj2 (Nat.leb_gt _ _)) by (unfold PACKET_BYTES in *; lia).
    + by rewrite digits_none.
Qed.

(** The answer of Enter to the keys typed since the frame was begun. *)
Lemma signed_answer s0 cr ks enter :
  Forall plain ks -> enter = 13 \/ (enter = 10 /\ (ks <> [] \/ cr = false)) ->
  let '(s', f) := tcs_signed_feed (exec signed_step (tcs_signed_begin s0 cr) ks) enter in
  match mapM nibble ks with
  | Some ns =>
      if (length ns =? 2 * PACKET_BYTES)%nat
      then event f = TCS_LINE_READY /\ s_packet s' = pairs ns
      else event f = TCS_LINE_REJECTED /\ s_packet s' = replicate PACKET_BYTES 0
  | None => event f = TCS_LINE_REJECTED /\ s_packet s' = replicate PACKET_BYTES 0
  end.
Proof.
  intros Hks Henter.
  destruct (signed_run ks _ _ (begin_frame s0 cr) Hks) as [Hf Hcr].
  rewrite digits_fold in Hf by (simpl; lia).
  set (s := exec signed_step _ ks) in *.
  assert (He : enter = 13 \/ (enter = 10 /\ s_previous_cr s = false)).
  { destruct Henter as [|[-> Hc]]; [by left|right]. split; [done|].
    destruct ks as [|k ks]; [|by apply Hcr]. destruct Hc as [|Hc]; [done|]. exact Hc. }
  pose proof (signed_enter s _ enter Hf He) as H.
  destruct (tcs_signed_feed s enter) as [s' f]. destruct (mapM nibble ks) as [ns|]; [|done].
  cbn [length Nat.add app] in H. destruct (length ns <=? 2 * PACKET_BYTES)%nat eqn:Hle; [done|].
  apply Nat.leb_gt in Hle. by rewrite (proj2 (Nat.eqb_neq _ _)) by lia.
Qed.

Lemma hex_plain p : byte_list p -> Forall plain (hex p).
Proof.
  intros Hp. apply Forall_map. destruct (nibbles_ok p Hp) as [Hn _].
  eapply List.Forall_impl; [|exact Hn]. intros n Hr. unfold is_nibble in Hr.
  unfold plain, hex_char. destruct (n <? 10) eqn:?; split_and!; word_lia.
Qed.

Lemma mapM_nibble_hex ns : Forall is_nibble ns -> mapM nibble (map hex_char ns) = Some ns.
Proof.
  induction 1 as [|n ns Hn Hns IH]; [done|]. cbn [map mapM].
  rewrite nibble_hex by done. cbn [mbind option_bind]. by rewrite IH.
Qed.

Lemma message_bytes realm boot c :
  byte_list realm -> byte_list boot -> byte_list (message_of realm boot c).
Proof.
  intros Hr Hb. unfold message_of, byte_list. rewrite !Forall_app.
  split_and!; try done; try apply le_bytes_are_bytes.
  unfold domain. repeat (apply List.Forall_cons; [word_lia|]). apply List.Forall_nil.
Qed.

(** ** Properties *)

(** A frame is accepted exactly when it is 384 hexadecimal digits: after
    the frame is begun, keys that do not end it, and Enter, the answer is READY
    with the packet those digits spell if and only if every key was a lowercase
    hexadecimal digit and there were exactly 384; any other frame is REJECTED
    and no byte of it is left in the packet. *)
Theorem signed_frame_exact s0 cr ks enter :
  Forall plain ks -> enter = 13 \/ (enter = 10 /\ (ks <> [] \/ cr = false)) ->
  let '(s', f) := tcs_signed_feed (exec signed_step (tcs_signed_begin s0 cr) ks) enter in
  match mapM nibble ks with
  | Some ns =>
      if (length ns =? 2 * PACKET_BYTES)%nat
      then event f = TCS_LINE_READY /\ s_packet s' = pairs ns
      else event f = TCS_LINE_REJECTED /\ s_packet s' = replicate PACKET_BYTES 0
  | None => event f = TCS_LINE_REJECTED /\ s_packet s' = replicate PACKET_BYTES 0
  end.
Proof. apply signed_answer. Qed.

(** C32. Round trip through the operator's keyboard: a message the encoder
    produced, followed by any 64-byte signature and typed as lowercase
    hexadecimal and Enter, is captured byte for byte, and the fields shown to
    the operator are those of the command that was encoded. *)
Theorem typed_command_roundtrip s0 cr buf realm boot c m signature :
  length buf = TCS_ADMIN_MESSAGE_BYTES -> length realm = 32%nat -> length boot = 32%nat ->
  byte_list realm -> byte_list boot -> command_u64 c ->
  tcs_admin_encode (Some buf) (Some realm) (Some boot) c = (true, Some m) ->
  length signature = 64%nat -> byte_list signature ->
  let '(s', f) :=
    tcs_signed_feed (exec signed_step (tcs_signed_begin s0 cr) (hex (m ++ signature))) 13 in
  event f = TCS_LINE_READY /\ s_packet s' = m ++ signature /\
  tcs_signed_command (s_packet s') = c.
Proof.
  intros Hbuf Hrl Hbl Hrb Hbb Hc Henc Hsl Hsb.
  assert (Hv : nonzero (Some realm) = true /\ nonzero (Some boot) = true /\ valid c = true).
  { unfold tcs_admin_encode in Henc. split_if; [done|]. by bools. }
  destruct Hv as (Hnr & Hnb & Hv).
  rewrite encode_layout in Henc by (done || lia). injection Henc as <-.
  rewrite <- Hbuf, drop_all, app_nil_r.
  assert (Hp : byte_list (message_of realm boot c ++ signature))
    by (apply Forall_app_2; [by apply message_bytes|done]).
  destruct (nibbles_ok _ Hp) as [Hn Hnl].
  pose proof (signed_answer s0 cr (hex (message_of realm boot c ++ signature)) 13
    (hex_plain _ Hp) (or_introl eq_refl)) as H.
  destruct (tcs_signed_feed _ 13) as [s' f]. unfold hex in H.
  rewrite mapM_nibble_hex in H by done.
  rewrite Hnl, length_app, message_of_length, Hsl in H by done.
  change (2 * (128 + 64) =? 2 * PACKET_BYTES)%nat with true in H. destruct H as [Hev Hpk].
  rewrite pairs_nibbles in Hpk by done. rewrite Hpk. split; [done|]. split; [done|].
  change (tcs_signed_command ?p) with (packet_command p).
  apply packet_command_message; auto. by apply valid_generation.
Qed.

(** ** Witnesses *)

Lemma signed_frame_exact_witness :
  event (snd (tcs_signed_feed (exec signed_step (tcs_signed_begin signed_zero false) [48; 65]) 13))
    = TCS_LINE_REJECTED.
Proof.
  pose proof (signed_frame_exact signed_zero false [48; 65] 13) as H.
  destruct (tcs_signed_feed _ 13) as [s' f]. apply H; [|by left].
  repeat (apply List.Forall_cons; [unfold plain; split_and!; word_lia|]). apply List.Forall_nil.
Defined.

Lemma typed_command_roundtrip_witness :
  let '(s', f) :=
    tcs_signed_feed (exec signed_step (tcs_signed_begin signed_zero false)
      (hex (message_of example_realm example_boot example_command ++ example_signature))) 13 in
  event f = TCS_LINE_READY /\
  s_packet s' = message_of example_realm example_boot example_command ++ example_signature /\
  tcs_signed_command (s_packet s') = example_command.
Proof.
  apply (typed_command_roundtrip signed_zero false (replicate 128 0) example_realm example_boot
    example_command); try reflexivity.
  - by apply Forall_replicate.
  - by apply Forall_replicate.
  - unfold command_u64. simpl. split_and!; vm_compute; split; discriminate.
  - by apply Forall_replicate.
Defined.
