(* ===== verification/Launch.v ===== *)
(** Launch records: [lib/launch.c] and [include/tcs/launch.h].

    A public identity (realm and administrator key) is an 80-byte record, a
    launch (identity and boot nonce) a 112-byte one; each starts with a prefix
    whose last byte is the mode, and the three published test keys are accepted
    in fixture mode and in no other. *)

From S2P Require Import Prelude Bytes Terminal SignedInput.
Import String.StringSyntax.
#[local] Open Scope string_scope.
#[local] Open Scope Z_scope.

(** ** Data *)

Definition TCS_PUBLIC_BYTES : nat := 80.
Definition TCS_LAUNCH_BYTES : nat := 112.

(** [enum tcs_launch_mode], passed as any value of its underlying integer. *)
Definition TCS_OPERATOR_MODE : Z := 0.
Definition TCS_FIXTURE_MODE : Z := 1.

Record tcs_identity := { realm : list Z; public_key : list Z }.
Record tcs_launch := { identity : tcs_identity; boot : list Z }.

Definition identity_zero : tcs_identity :=
  {| realm := replicate 32 0; public_key := replicate 32 0 |}.
Definition launch_zero : tcs_launch := {| identity := identity_zero; boot := replicate 32 0 |}.

(** Static arrays of 16 bytes, the initializer padded with zeros. *)
Definition public_prefix : list Z := [84; 67; 83; 45; 80; 85; 66; 1] ++ replicate 8 0.
Definition launch_prefix : list Z := [84; 67; 83; 45; 76; 65; 85; 78; 67; 72; 1] ++ replicate 5 0.

(** ** Operations *)

Definition nonzero (bytes : list Z) : bool := negb (any_bits bytes 32 =? 0).

(** [copy(to + off, from, size)]. *)
Definition copy (to : list Z) (off : nat) (from : list Z) (size : nat) : list Z :=
  blit to off (take size from).

Definition header (bytes prefix : list Z) (mode : Z) : bool :=
  if negb (mode =? TCS_OPERATOR_MODE) && negb (mode =? TCS_FIXTURE_MODE) then false
  else if negb (equal bytes prefix 15) then false
  else bytes !!! 15%nat =? wrap8 mode.

Definition fixtures : list (list Z) :=
  [codes "d75a980182b10ab7d54bfed3c964073a0ee172f3daa62325af021a68f707511a";
   codes "3d4017c3e843895a92b70aa74d1b7ebc9c982ccf2ec4968cc0cd55f12af4660c";
   codes "fc51cd8e6218a1a38da47ed00230f0580816ed13ba3303ac5deb911548908025"].
Definition hex_table : list Z := codes "0123456789abcdef".

(** The comparison of a key with one fixture string. *)
Definition fixture_match (key fixture : list Z) : bool :=
  foldl (fun m i =>
    m && (fixture !!! (2 * i)%nat =? hex_table !!! Z.to_nat (Z.shiftr (key !!! i) 4)) &&
    (fixture !!! (2 * i + 1)%nat =? hex_table !!! Z.to_nat (Z.land (key !!! i) 15)))
    true (seq 0 32).

Definition identity_valid (id : tcs_identity) (mode : Z) : bool :=
  if negb (nonzero (realm id)) || negb (nonzero (public_key id)) then false
  else
    let fixture := foldl (fun f k => f || fixture_match (public_key id) k) false fixtures in
    if mode =? TCS_FIXTURE_MODE then fixture else (mode =? TCS_OPERATOR_MODE) && negb fixture.

(** Each function returns its answer and the caller's output object. *)
Definition tcs_public_encode (out : ptr (list Z)) (id : tcs_identity) (mode : Z)
    : bool * ptr (list Z) :=
  match out with
  | NULL => (false, out)
  | Some o =>
      let o := blit o 0 (replicate TCS_PUBLIC_BYTES 0) in
      if negb (identity_valid id mode) then (false, Some o)
      else
        let o := copy o 0 public_prefix 16 in
        let o := <[15%nat := wrap8 mode]> o in
        let o := copy o 16 (realm id) 32 in
        let o := copy o 48 (public_key id) 32 in
        (true, Some o)
  end.

Definition tcs_public_decode (bytes : ptr (list Z)) (length : nat) (mode : Z)
    (out : ptr tcs_identity) : bool * ptr tcs_identity :=
  match out with
  | NULL => (false, out)
  | Some _ =>
      let out := Some identity_zero in
      match bytes with
      | NULL => (false, out)
      | Some b =>
          if negb (length =? TCS_PUBLIC_BYTES)%nat || negb (header b public_prefix mode)
          then (false, out)
          else
            let id := {| realm := slice b 16 32; public_key := slice b 48 32 |} in
            if negb (identity_valid id mode) then (false, out) else (true, Some id)
      end
  end.

Definition tcs_launch_encode (out : ptr (list Z)) (l : tcs_launch) (mode : Z)
    : bool * ptr (list Z) :=
  match out with
  | NULL => (false, out)
  | Some o =>
      let o := blit o 0 (replicate TCS_LAUNCH_BYTES 0) in
      if negb (identity_valid (identity l) mode) || negb (nonzero (boot l)) then (false, Some o)
      else
        let o := copy o 0 launch_prefix 16 in
        let o := <[15%nat := wrap8 mode]> o in
        let o := copy o 16 (realm (identity l)) 32 in
        let o := copy o 48 (boot l) 32 in
        let o := copy o 80 (public_key (identity l)) 32 in
        (true, Some o)
  end.

Definition tcs_launch_decode (bytes : ptr (list Z)) (length : nat) (mode : Z)
    (out : ptr tcs_launch) : bool * ptr tcs_launch :=
  match out with
  | NULL => (false, out)
  | Some _ =>
      let out := Some launch_zero in
      match bytes with
      | NULL => (false, out)
      | Some b =>
          if negb (length =? TCS_LAUNCH_BYTES)%nat || negb (header b launch_prefix mode)
          then (false, out)
          else
            let l := {| identity := {| realm := slice b 16 32; public_key := slice b 80 32 |};
                        boot := slice b 48 32 |} in
            if negb (identity_valid (identity l) mode) || negb (nonzero (boot l))
            then (false, out) else (true, Some l)
      end
  end.

(** ** Layouts *)

Definition mode_ok (mode : Z) : Prop := mode = TCS_OPERATOR_MODE \/ mode = TCS_FIXTURE_MODE.

(** A prefix with the mode in its last byte. *)
Definition head_of (prefix : list Z) (mode : Z) : list Z := take 15 prefix ++ [mode].

Definition identity_ok (id : tcs_identity) : Prop :=
  length (realm id) = 32%nat /\ length (public_key id) = 32%nat.

(** The records, as concatenations. *)
Definition public_record (id : tcs_identity) (mode : Z) : list Z :=
  head_of public_prefix mode ++ realm id ++ public_key id.
Definition launch_record (l : tcs_launch) (mode : Z) : list Z :=
  head_of launch_prefix mode ++ realm (identity l) ++ boot l ++ public_key (identity l).

Definition prefix_ok (prefix : list Z) : Prop := length prefix = 16%nat.

Lemma mode_byte mode : mode_ok mode -> wrap8 mode = mode.
Proof. by intros [-> | ->]. Qed.

Lemma head_length prefix mode : prefix_ok prefix -> length (head_of prefix mode) = 16%nat.
Proof. unfold prefix_ok, head_of. intros H. rewrite length_app, length_take, H. done. Qed.

Lemma insert_mode prefix mode rest :
  prefix_ok prefix -> <[15%nat := mode]> (prefix ++ rest) = head_of prefix mode ++ rest.
Proof.
  intros H. unfold prefix_ok in H. rewrite insert_app_l by lia. f_equal.
  unfold head_of. rewrite insert_take_drop by lia. f_equal.
  by rewrite drop_ge by lia.
Qed.

Lemma header_iff b prefix mode :
  (16 <= length b)%nat -> prefix_ok prefix ->
  header b prefix mode = true <-> mode_ok mode /\ take 16 b = head_of prefix mode.
Proof.
  intros Hb Hp. unfold prefix_ok in Hp. unfold header, mode_ok.
  destruct (negb (mode =? TCS_OPERATOR_MODE) && negb (mode =? TCS_FIXTURE_MODE)) eqn:Hm.
  { split; [done|]. unfold TCS_OPERATOR_MODE, TCS_FIXTURE_MODE in *. lia. }
  assert (Hmo : mode_ok mode) by (unfold mode_ok, TCS_OPERATOR_MODE, TCS_FIXTURE_MODE in *; lia).
  destruct (lookup_lt_is_Some_2 b 15%nat ltac:(lia)) as [x Hx].
  rewrite (take_S_r _ _ x Hx), (list_lookup_total_correct _ _ _ Hx), (mode_byte mode Hmo).
  unfold head_of. destruct (equal b prefix 15) eqn:He; cbn [negb].
  - apply equal_spec in He; [|lia..]. rewrite He, Z.eqb_eq.
    split; [intros ->; done|]. intros [_ H]. by apply app_inj_tail in H as [_ ->].
  - split; [done|]. intros [_ H]. apply app_inj_tail in H as [H _].
    apply not_true_iff_false in He. destruct He. apply equal_spec; [lia..|done].
Qed.

Lemma identity_valid_mode id mode : identity_valid id mode = true -> mode_ok mode.
Proof.
  unfold identity_valid, mode_ok. repeat split_if; try done; intros; bools; lia.
Qed.

Lemma public_encode_layout o id mode :
  length o = TCS_PUBLIC_BYTES -> identity_ok id -> identity_valid id mode = true ->
  tcs_public_encode (Some o) id mode = (true, Some (public_record id mode)).
Proof.
  intros Ho [Hr Hk] Hv. unfold tcs_public_encode. rewrite Hv. cbn [negb]. do 2 f_equal.
  rewrite mode_byte by by eapply identity_valid_mode.
  unfold copy, public_record. rewrite (take_ge (realm id)), (take_ge (public_key id)) by lia.
  change (take 16 public_prefix) with public_prefix.
  rewrite <- (app_nil_r o), blit_here, app_nil_r by (rewrite length_replicate; done).
  change (replicate TCS_PUBLIC_BYTES 0) with (replicate 16 0 ++ replicate 32 0 ++ replicate 32 0).
  rewrite blit_here by done. rewrite insert_mode by done.
  pose proof (head_length public_prefix mode eq_refl) as Hh.
  rewrite (blit_skip 16), blit_here by (done || (rewrite length_replicate; done)).
  rewrite (blit_skip 16) by (done || lia). cbn [Nat.sub].
  rewrite (blit_skip 32) by (done || lia). cbn [Nat.sub].
  by rewrite <- (app_nil_r (replicate 32 0)), blit_here, app_nil_r by (rewrite length_replicate; done).
Qed.

Lemma launch_encode_layout o l mode :
  length o = TCS_LAUNCH_BYTES -> identity_ok (identity l) -> length (boot l) = 32%nat ->
  identity_valid (identity l) mode = true -> nonzero (boot l) = true ->
  tcs_launch_encode (Some o) l mode = (true, Some (launch_record l mode)).
Proof.
  intros Ho [Hr Hk] Hb Hv Hnb. unfold tcs_launch_encode. rewrite Hv, Hnb. cbn [negb orb].
  do 2 f_equal. rewrite mode_byte by by eapply identity_valid_mode.
  unfold copy, launch_record. rewrite (take_ge (realm _)), (take_ge (public_key _)), (take_ge (boot l)) by lia.
  change (take 16 launch_prefix) with launch_prefix.
  rewrite <- (app_nil_r o), blit_here, app_nil_r by (rewrite length_replicate; done).
  change (replicate TCS_LAUNCH_BYTES 0) with
    (replicate 16 0 ++ replicate 32 0 ++ replicate 32 0 ++ replicate 32 0).
  rewrite blit_here by done. rewrite insert_mode by done.
  pose proof (head_length launch_prefix mode eq_refl) as Hh.
  rewrite (blit_skip 16), blit_here by (done || (rewrite length_replicate; done)).
  rewrite (blit_skip 16 (head_of _ _)) by (done || lia). cbn [Nat.sub].
  rewrite (blit_skip 32 (realm _)) by (done || lia). cbn [Nat.sub].
  rewrite blit_here by (rewrite length_replicate; done).
  rewrite (blit_skip 16 (head_of _ _)) by (done || lia). cbn [Nat.sub].
  rewrite (blit_skip 32 (realm _)) by (done || lia). cbn [Nat.sub].
  rewrite (blit_skip 32 (boot l)) by (done || lia). cbn [Nat.sub].
  by rewrite <- (app_nil_r (replicate 32 0)), blit_here, app_nil_r by (rewrite length_replicate; done).
Qed.

(** A buffer is its fields. *)
Lemma public_fields b :
  length b = TCS_PUBLIC_BYTES -> b = take 16 b ++ slice b 16 32 ++ slice b 48 32.
Proof.
  intros Hb. unfold TCS_PUBLIC_BYTES in Hb. unfold slice.
  rewrite (take_ge (drop 48 b)) by (rewrite length_drop; lia).
  change 48%nat with (16 + 32)%nat. by rewrite <- (drop_drop b), !take_drop.
Qed.

Lemma launch_fields b :
  length b = TCS_LAUNCH_BYTES ->
  b = take 16 b ++ slice b 16 32 ++ slice b 48 32 ++ slice b 80 32.
Proof.
  intros Hb. unfold TCS_LAUNCH_BYTES in Hb. unfold slice.
  rewrite (take_ge (drop 80 b)) by (rewrite length_drop; lia).
  change 80%nat with (16 + 32 + 32)%nat. change 48%nat with (16 + 32)%nat.
  by rewrite <- !(drop_drop b), !take_drop.
Qed.

Lemma public_decode_iff b mode out id :
  length b = TCS_PUBLIC_BYTES ->
  tcs_public_decode (Some b) TCS_PUBLIC_BYTES mode (Some out) = (true, Some id) <->
  identity_ok id /\ identity_valid id mode = true /\ b = public_record id mode.
Proof.
  intros Hb. unfold tcs_public_decode. rewrite Nat.eqb_refl. cbn [negb orb].
  pose proof (header_iff b public_prefix mode) as Hh. unfold TCS_PUBLIC_BYTES in Hb.
  specialize (Hh ltac:(lia) eq_refl). split.
  - intros H. destruct (header b public_prefix mode) eqn:Hhd; [|done].
    destruct (proj1 Hh eq_refl) as [Hm Htake]. cbn [negb] in H.
    set (i := {| realm := slice b 16 32; public_key := slice b 48 32 |}) in *.
    destruct (identity_valid i mode) eqn:Hv; [|done]. cbn [negb] in H. injection H as <-.
    split; [split; simpl; rewrite length_slice; lia|]. split; [done|].
    unfold public_record, i. cbn [realm public_key]. rewrite <- Htake. by apply public_fields.
  - intros ([Hr Hk] & Hv & ->).
    pose proof (head_length public_prefix mode eq_refl) as Hl.
    assert (Hhd : header (public_record id mode) public_prefix mode = true).
    { apply Hh. split; [by eapply identity_valid_mode|]. unfold public_record.
      by rewrite <- Hl, take_app_length. }
    rewrite Hhd. cbn [negb]. unfold public_record. layout.
    destruct id; cbn [realm public_key] in *. by rewrite Hv.
Qed.

(** A launch the codec of a mode accepts. *)
Definition launch_ok (mode : Z) (l : tcs_launch) : Prop :=
  identity_ok (identity l) /\ length (boot l) = 32%nat /\
  identity_valid (identity l) mode = true /\ nonzero (boot l) = true.

Lemma launch_decode_iff b mode out l :
  length b = TCS_LAUNCH_BYTES ->
  tcs_launch_decode (Some b) TCS_LAUNCH_BYTES mode (Some out) = (true, Some l) <->
  identity_ok (identity l) /\ length (boot l) = 32%nat /\
  identity_valid (identity l) mode = true /\ nonzero (boot l) = true /\ b = launch_record l mode.
Proof.
  intros Hb. unfold tcs_launch_decode. rewrite Nat.eqb_refl. cbn [negb orb].
  pose proof (header_iff b launch_prefix mode) as Hh. unfold TCS_LAUNCH_BYTES in Hb.
  specialize (Hh ltac:(lia) eq_refl). split.
  - intros H. destruct (header b launch_prefix mode) eqn:Hhd; [|done].
    destruct (proj1 Hh eq_refl) as [Hm Htake]. cbn [negb identity boot] in H.
    set (i := {| realm := slice b 16 32; public_key := slice b 80 32 |}) in *.
    destruct (identity_valid i mode) eqn:Hv; [|done].
    destruct (nonzero (slice b 48 32)) eqn:Hn; [|done]. cbn [negb orb] in H. injection H as <-.
    cbn [identity boot].
    split; [split; simpl; rewrite length_slice; lia|]. split; [rewrite length_slice; lia|].
    split; [done|]. split; [done|].
    unfold launch_record, i. cbn [identity boot realm public_key]. rewrite <- Htake. by apply launch_fields.
  - intros ([Hr Hk] & Hbl & Hv & Hn & ->).
    pose proof (head_length launch_prefix mode eq_refl) as Hl.
    assert (Hhd : header (launch_record l mode) launch_prefix mode = true).
    { apply Hh. split; [by eapply identity_valid_mode|]. unfold launch_record.
      by rewrite <- Hl, take_app_length. }
    rewrite Hhd. cbn [negb]. unfold launch_record. layout.
    destruct l as [[r k] bt]; cbn [realm public_key identity boot] in *.
    by rewrite Hv, Hn.
Qed.

(** ** The published test keys *)

Lemma foldl_andb {A} (p q : A -> bool) l b :
  foldl (fun m i => m && p i && q i) b l = b && forallb (fun i => p i && q i) l.
Proof.
  revert b. induction l as [|x l IH]; intros b; simpl; [by rewrite andb_true_r|].
  by rewrite IH, !andb_assoc.
Qed.

Lemma hex_table_char n : is_nibble n -> hex_table !!! Z.to_nat n = hex_char n.
Proof.
  intros Hn.
  assert (H : forallb (fun k => hex_table !!! k =? hex_char (Z.of_nat k)) (seq 0 16) = true)
    by reflexivity.
  rewrite forallb_forall in H. specialize (H (Z.to_nat n)). rewrite in_seq in H.
  unfold is_nibble in Hn. rewrite Z2Nat.id in H by lia. apply Z.eqb_eq, H. lia.
Qed.

Lemma lookup_hex key i b :
  key !! i = Some b ->
  hex key !! (2 * i)%nat = Some (hex_char (b / 16)) /\
  hex key !! (2 * i + 1)%nat = Some (hex_char (b mod 16)).
Proof.
  revert i. induction key as [|c key IH]; intros i Hi; [done|].
  unfold hex, nibbles. cbn [flat_map app map]. fold (nibbles key). fold (hex key).
  destruct i as [|i]; [simpl in Hi; by inv_pair|].
  replace (2 * S i)%nat with (S (S (2 * i))) by lia. by apply IH.
Qed.

Lemma length_hex key : byte_list key -> length (hex key) = (2 * length key)%nat.
Proof. intros Hk. unfold hex. rewrite length_map. by destruct (nibbles_ok key Hk). Qed.

(** Comparing digit by digit is comparing with the hexadecimal form. *)
Lemma fixture_match_iff key f :
  byte_list key -> length key = 32%nat -> length f = 64%nat ->
  fixture_match key f = true <-> hex key = f.
Proof.
  intros Hb Hk Hf. unfold fixture_match.
  rewrite (foldl_andb (fun i => f !!! (2 * i)%nat =? hex_table !!! Z.to_nat (Z.shiftr (key !!! i) 4))
    (fun i => f !!! (2 * i + 1)%nat =? hex_table !!! Z.to_nat (Z.land (key !!! i) 15))).
  rewrite andb_true_l, forallb_forall.
  assert (E : forall i b, key !! i = Some b ->
    hex_table !!! Z.to_nat (Z.shiftr (key !!! i) 4) = hex key !!! (2 * i)%nat /\
    hex_table !!! Z.to_nat (Z.land (key !!! i) 15) = hex key !!! (2 * i + 1)%nat).
  { intros i b Hi. destruct (lookup_hex key i b Hi) as [H1 H2].
    rewrite (list_lookup_total_correct _ _ _ H1), (list_lookup_total_correct _ _ _ H2),
      (list_lookup_total_correct _ _ _ Hi).
    pose proof (Forall_lookup_1 _ _ _ _ Hb Hi) as Hr. simpl in Hr.
    change 15 with (Z.ones 4). rewrite Z.land_ones, Z.shiftr_div_pow2 by lia.
    change (2 ^ 4) with 16. pose proof (Z.mod_pos_bound b 16).
    assert (0 <= b / 16 <= 15) by (split; [apply Z.div_pos; word_lia|];
      apply Z.lt_succ_r, Z.div_lt_upper_bound; word_lia).
    split; apply hex_table_char; unfold is_nibble; lia. }
  split.
  - intros H. apply list_eq_same_length with 64%nat; [done|by rewrite length_hex, Hk|].
    intros j x y Hj Hx Hy. apply list_lookup_total_correct in Hx, Hy.
    assert (Hd : j = (2 * (j / 2))%nat \/ j = (2 * (j / 2) + 1)%nat)
      by (pose proof (Nat.div_mod j 2); pose proof (Nat.mod_upper_bound j 2); lia).
    assert (Hlt : (j / 2 < 32)%nat) by (apply Nat.Div0.div_lt_upper_bound; lia).
    destruct (lookup_lt_is_Some_2 key (j / 2) ltac:(lia)) as [b Hi].
    destruct (E _ _ Hi) as [E1 E2].
    specialize (H (j / 2)%nat (proj2 (in_seq 32 0 (j / 2)) ltac:(lia))).
    apply andb_true_iff in H as [H1%Z.eqb_eq H2%Z.eqb_eq]. rewrite E1 in H1. rewrite E2 in H2.
    destruct Hd as [Hd|Hd]; rewrite <- Hd in *; congruence.
  - intros <- i Hi%in_seq. destruct (lookup_lt_is_Some_2 key i ltac:(lia)) as [b Hib].
    destruct (E _ _ Hib) as [-> ->]. by rewrite !Z.eqb_refl.
Qed.

(** The key is one of the three published ones. *)
Definition test_key (key : list Z) : Prop := hex key ∈ fixtures.

Lemma fixture_any key :
  byte_list key -> length key = 32%nat ->
  foldl (fun f k => f || fixture_match key k) false fixtures = true <-> test_key key.
Proof.
  intros Hb Hk. unfold test_key, fixtures. cbn [foldl].
  rewrite !orb_true_iff, !fixture_match_iff by done. rewrite !elem_of_cons. split.
  - intros [[[|]|]|]; [done|tauto..].
  - intros [|[|[|H]]]; [tauto..|by apply not_elem_of_nil in H].
Qed.

Lemma identity_valid_iff id mode :
  identity_ok id -> byte_list (public_key id) ->
  identity_valid id mode = true <->
  nonzero (realm id) = true /\ nonzero (public_key id) = true /\
  ((mode = TCS_FIXTURE_MODE /\ test_key (public_key id)) \/
   (mode = TCS_OPERATOR_MODE /\ ~ test_key (public_key id))).
Proof.
  intros [Hr Hk] Hb. pose proof (fixture_any (public_key id) Hb Hk) as Hf.
  unfold identity_valid, TCS_FIXTURE_MODE, TCS_OPERATOR_MODE in *.
  set (fix_ := foldl _ _ _) in *. clearbody fix_.
  destruct (nonzero (realm id)), (nonzero (public_key id)); cbn [negb orb];
    try (split; [done|intros (? & ? & _); done]).
  destruct (mode =? 1) eqn:H1.
  - rewrite Hf. split; [intros; split_and!; auto; left; split; [lia|done]|].
    intros (_ & _ & [[_ ?]|[? _]]); [done|lia].
  - destruct fix_; cbn [negb].
    + rewrite andb_false_r. split; [done|]. intros (_ & _ & [[? _]|[_ Hn]]); [lia|].
      destruct Hn. by apply Hf.
    + rewrite andb_true_r. split; [intros; split_and!; auto; right; split; [lia|]|].
      * intros Ht. apply Hf in Ht. done.
      * intros (_ & _ & [[? _]|[? _]]); lia.
Qed.

Lemma public_encode_iff o id mode b :
  length o = TCS_PUBLIC_BYTES -> identity_ok id ->
  tcs_public_encode (Some o) id mode = (true, Some b) <->
  identity_valid id mode = true /\ b = public_record id mode.
Proof.
  intros Ho Hid. destruct (identity_valid id mode) eqn:Hv.
  - rewrite public_encode_layout by done. split; [intros [= <-]; done|intros [_ ->]; done].
  - unfold tcs_public_encode. rewrite Hv. split; [done|by intros [? _]].
Qed.

Lemma launch_encode_iff o l mode b :
  length o = TCS_LAUNCH_BYTES -> identity_ok (identity l) -> length (boot l) = 32%nat ->
  tcs_launch_encode (Some o) l mode = (true, Some b) <->
  identity_valid (identity l) mode = true /\ nonzero (boot l) = true /\ b = launch_record l mode.
Proof.
  intros Ho Hid Hb. unfold tcs_launch_encode.
  destruct (identity_valid (identity l) mode) eqn:Hv; [|by split; [|intros [? _]]].
  destruct (nonzero (boot l)) eqn:Hn; [|by split; [|intros (_ & ? & _)]].
  pose proof (launch_encode_layout o l mode Ho Hid Hb Hv Hn) as H.
  unfold tcs_launch_encode in H. rewrite Hv, Hn in H. rewrite H.
  split; [intros [= <-]; done|intros (_ & _ & ->); done].
Qed.

(** ** Properties *)

(** The public record: decoding 80 bytes under a mode gives an identity
    exactly when encoding that identity under that mode gives those 80 bytes, so
    the two functions invert each other and no second byte string is accepted
    for the same identity; a rejected decode leaves a zeroed identity. *)
Theorem public_decode_inverts_encode b mode out o id :
  length b = TCS_PUBLIC_BYTES -> length o = TCS_PUBLIC_BYTES ->
  (tcs_public_decode (Some b) TCS_PUBLIC_BYTES mode (Some out) = (true, Some id) <->
   identity_ok id /\ tcs_public_encode (Some o) id mode = (true, Some b)) /\
  (fst (tcs_public_decode (Some b) TCS_PUBLIC_BYTES mode (Some out)) = false ->
   snd (tcs_public_decode (Some b) TCS_PUBLIC_BYTES mode (Some out)) = Some identity_zero).
Proof.
  intros Hb Ho. split.
  - rewrite public_decode_iff by done. split.
    + intros (Hid & Hv & Heq). split; [done|]. by apply public_encode_iff.
    + intros (Hid & He). apply public_encode_iff in He; [|done..]. tauto.
  - unfold tcs_public_decode. repeat split_if; done.
Qed.

(** C33. The launch record: decoding 112 bytes under a mode gives a launch
    exactly when encoding that launch under that mode gives those bytes; a
    rejected decode leaves a zeroed launch. *)
Theorem launch_decode_inverts_encode b mode out o l :
  length b = TCS_LAUNCH_BYTES -> length o = TCS_LAUNCH_BYTES ->
  (tcs_launch_decode (Some b) TCS_LAUNCH_BYTES mode (Some out) = (true, Some l) <->
   identity_ok (identity l) /\ length (boot l) = 32%nat /\
   tcs_launch_encode (Some o) l mode = (true, Some b)) /\
  (fst (tcs_launch_decode (Some b) TCS_LAUNCH_BYTES mode (Some out)) = false ->
   snd (tcs_launch_decode (Some b) TCS_LAUNCH_BYTES mode (Some out)) = Some launch_zero).
Proof.
  intros Hb Ho. split.
  - rewrite launch_decode_iff by done. split.
    + intros (Hid & Hbl & Hv & Hn & Heq). split; [done|]. split; [done|]. by apply launch_encode_iff.
    + intros (Hid & Hbl & He). apply launch_encode_iff in He; [|done..]. tauto.
  - unfold tcs_launch_decode. repeat split_if; done.
Qed.

(** C34. The published test keys are confined to fixture mode: a launch record
    accepted in operator mode carries a key that is none of the three, one
    accepted in fixture mode carries one of them, no other mode accepts
    anything, and no record is accepted in two modes. *)
Theorem test_keys_confined b mode mode' out l l' :
  length b = TCS_LAUNCH_BYTES -> byte_list b ->
  tcs_launch_decode (Some b) TCS_LAUNCH_BYTES mode (Some out) = (true, Some l) ->
  ((mode = TCS_OPERATOR_MODE /\ ~ test_key (public_key (identity l))) \/
   (mode = TCS_FIXTURE_MODE /\ test_key (public_key (identity l)))) /\
  (tcs_launch_decode (Some b) TCS_LAUNCH_BYTES mode' (Some out) = (true, Some l') -> mode' = mode).
Proof.
  intros Hb Hbytes Hd. apply launch_decode_iff in Hd as (Hid & Hbl & Hv & _ & Heq); [|done].
  assert (Hk : byte_list (public_key (identity l))).
  { unfold byte_list in *. rewrite Heq in Hbytes. unfold launch_record in Hbytes.
    rewrite !Forall_app in Hbytes. apply Hbytes. }
  apply identity_valid_iff in Hv as Hm; [|done..]. split; [tauto|].
  intros Hd'. apply launch_decode_iff in Hd' as (Hid' & Hbl' & Hv' & _ & Heq'); [|done].
  rewrite Heq in Heq'. unfold launch_record, head_of in Heq'. simpl in Heq'. congruence.
Qed.

(** ** Witnesses *)

(** A launch with the first published test key. *)
Definition example_fixture : tcs_launch := {|
  identity := {| realm := replicate 32 1;
                 public_key := [215; 90; 152; 1; 130; 177; 10; 183; 213; 75; 254; 211; 201; 100; 7;
                   58; 14; 225; 114; 243; 218; 166; 35; 37; 175; 2; 26; 104; 247; 7; 81; 26] |};
  boot := replicate 32 2 |}.

Lemma public_decode_inverts_encode_witness :
  identity_ok (identity example_fixture) /\
  tcs_public_encode (Some (replicate 80 0)) (identity example_fixture) TCS_FIXTURE_MODE =
    (true, Some (public_record (identity example_fixture) TCS_FIXTURE_MODE)).
Proof.
  apply (public_decode_inverts_encode (public_record (identity example_fixture) TCS_FIXTURE_MODE)
    TCS_FIXTURE_MODE identity_zero (replicate 80 0)); reflexivity.
Defined.

Lemma launch_decode_inverts_encode_witness :
  tcs_launch_encode (Some (replicate 112 0)) example_fixture TCS_FIXTURE_MODE =
    (true, Some (launch_record example_fixture TCS_FIXTURE_MODE)).
Proof.
  apply (launch_decode_inverts_encode (launch_record example_fixture TCS_FIXTURE_MODE)
    TCS_FIXTURE_MODE launch_zero (replicate 112 0)); reflexivity.
Defined.

Lemma test_keys_confined_witness :
  (TCS_FIXTURE_MODE = TCS_OPERATOR_MODE /\ ~ test_key (public_key (identity example_fixture))) \/
  (TCS_FIXTURE_MODE = TCS_FIXTURE_MODE /\ test_key (public_key (identity example_fixture))).
Proof.
  apply (test_keys_confined (launch_record example_fixture TCS_FIXTURE_MODE) TCS_FIXTURE_MODE
    TCS_OPERATOR_MODE launch_zero example_fixture launch_zero).
  - reflexivity.
  - vm_compute. repeat (apply List.Forall_cons; [split; discriminate|]). apply List.Forall_nil.
  - reflexivity.
Defined.
