(* ===== verification/Boot.v ===== *)
(** The boot context: [lib/boot.c] and [include/tcs/boot.h].

    A named item is read from the firmware-configuration device through two
    callbacks (select a key, read a byte), by scanning the device's directory
    for the one file of that name; the test context is then decoded. The device
    is not part of the sources: its state, its callbacks and what they answer
    are parameters. *)

From S2P Require Import Prelude Bytes Terminal.
Import String.StringSyntax.
#[local] Open Scope string_scope.
#[local] Open Scope Z_scope.

(** ** Data *)

Definition TCS_BOOT_BYTES : nat := 112.
Definition TCS_FWCFG_MAX_FILES : Z := 64.
Definition TCS_FWCFG_MAX_BYTES : nat := 256.

Inductive tcs_boot_status :=
| TCS_BOOT_OK | TCS_BOOT_IO | TCS_BOOT_DEVICE | TCS_BOOT_FEATURES | TCS_BOOT_DIRECTORY
| TCS_BOOT_MISSING | TCS_BOOT_LENGTH | TCS_BOOT_FORMAT.

#[export] Instance tcs_boot_status_eq_dec : EqDecision tcs_boot_status.
Proof. solve_decision. Defined.

(** The callbacks on a device state [D] (the context pointer): [select] answers
    whether it worked; [read] also gives what the pointed byte holds after it. *)
Record tcs_fwcfg_io (D : Type) := {
  io_select : ptr (D -> Z -> D * bool);
  io_read : ptr (D -> Z -> D * bool * Z)
}.
Arguments io_select {D}.
Arguments io_read {D}.

Record tcs_boot_context := { b_realm : list Z; b_boot : list Z; b_public_key : list Z }.

Definition boot_context_zero : tcs_boot_context :=
  {| b_realm := replicate 32 0; b_boot := replicate 32 0; b_public_key := replicate 32 0 |}.

(** ** Reading an item *)

Definition be32 (p : list Z) : Z :=
  Z.lor (Z.lor (Z.lor (wrap32 (Z.shiftl (p !!! 0%nat) 24)) (wrap32 (Z.shiftl (p !!! 1%nat) 16)))
    (wrap32 (Z.shiftl (p !!! 2%nat) 8))) (p !!! 3%nat).

(** [(uint16_t)((uint16_t)field[4] << 8 | field[5])]. *)
Definition entry_key (field : list Z) : Z :=
  wrap16 (Z.lor (Z.shiftl (field !!! 4%nat) 8) (field !!! 5%nat)).

(** [while (n < 56 && p[n]) ++n]. *)
Definition name_span (p : list Z) : nat := forward 56 (fun b => negb (b =? 0)) p 0 56.

Section Device.
Context {D : Type}.

(** [read_bytes(io, out + i, n)], and what [out] holds after it. *)
Fixpoint read_bytes (read : D -> Z -> D * bool * Z) (d : D) (out : list Z) (i n : nat)
    : D * bool * list Z :=
  match n with
  | O => (d, true, out)
  | S n =>
      let '(d, ok, byte) := read d (out !!! i) in
      let out := <[i := byte]> out in
      if negb ok then (d, false, out) else read_bytes read d out (S i) n
  end.

(** The directory loop, [n] entries left: an error, or the key and size found
    (key 0 when none was). [selectors] holds the keys of the entries read. *)
Fixpoint scan_directory (read : D -> Z -> D * bool * Z) (name : list Z) (name_length : nat)
    (n : nat) (d : D) (field selectors : list Z) (selected selected_size : Z)
    : D * (tcs_boot_status + Z * Z) :=
  match n with
  | O => (d, inr (selected, selected_size))
  | S n =>
      let '(d, ok, field) := read_bytes read d field 0 64 in
      if negb ok then (d, inl TCS_BOOT_IO)
      else
      let key := entry_key field in
      if (key <? 32) || (16384 <=? key) || truthy (field !!! 6%nat) || truthy (field !!! 7%nat)
      then (d, inl TCS_BOOT_DIRECTORY)
      else if existsb (fun s => s =? key) selectors then (d, inl TCS_BOOT_DIRECTORY)
      else
      let length := name_span (drop 8 field) in
      if (length =? 0)%nat || (length =? 56)%nat then (d, inl TCS_BOOT_DIRECTORY)
      else if (length =? name_length)%nat && equal (drop 8 field) name length then
        if truthy selected then (d, inl TCS_BOOT_DIRECTORY)
        else scan_directory read name name_length n d field (selectors ++ [key]) key (be32 field)
      else
        scan_directory read name name_length n d field (selectors ++ [key]) selected selected_size
  end.

(** The part of [read_item] between its argument checks and the final read: the
    key of the item. [field[64]] is an uninitialized local: its first bytes are
    written before they are used. *)
Definition locate (select : D -> Z -> D * bool) (read : D -> Z -> D * bool * Z) (d : D)
    (name : list Z) (name_length length : nat) : D * (tcs_boot_status + Z) :=
  let field := replicate 64 0 in
  let '(d, ok) := select d 0 in
  if negb ok then (d, inl TCS_BOOT_IO) else
  let '(d, ok, field) := read_bytes read d field 0 4 in
  if negb ok then (d, inl TCS_BOOT_IO) else
  if negb (field !!! 0%nat =? 81) || negb (field !!! 1%nat =? 69) ||
     negb (field !!! 2%nat =? 77) || negb (field !!! 3%nat =? 85)
  then (d, inl TCS_BOOT_DEVICE) else
  let '(d, ok) := select d 1 in
  if negb ok then (d, inl TCS_BOOT_IO) else
  let '(d, ok, field) := read_bytes read d field 0 4 in
  if negb ok then (d, inl TCS_BOOT_IO) else
  if negb (field !!! 0%nat =? 1) || truthy (field !!! 1%nat) ||
     truthy (field !!! 2%nat) || truthy (field !!! 3%nat)
  then (d, inl TCS_BOOT_FEATURES) else
  let '(d, ok) := select d 25 in
  if negb ok then (d, inl TCS_BOOT_IO) else
  let '(d, ok, field) := read_bytes read d field 0 4 in
  if negb ok then (d, inl TCS_BOOT_IO) else
  let count := be32 field in
  if TCS_FWCFG_MAX_FILES <? count then (d, inl TCS_BOOT_DIRECTORY) else
  match scan_directory read name name_length (Z.to_nat count) d field [] 0 0 with
  | (d, inl err) => (d, inl err)
  | (d, inr (selected, selected_size)) =>
      if negb (truthy selected) then (d, inl TCS_BOOT_MISSING)
      else if negb (selected_size =? Z.of_nat length) then (d, inl TCS_BOOT_LENGTH)
      else (d, inr selected)
  end.

Definition read_item (io : tcs_fwcfg_io D) (d : D) (name out : ptr (list Z)) (length : nat)
    : D * tcs_boot_status * ptr (list Z) :=
  match io_select io, io_read io, name, out with
  | Some select, Some read, Some name, Some o =>
      if (length =? 0)%nat || (TCS_FWCFG_MAX_BYTES <? length)%nat then (d, TCS_BOOT_FORMAT, out)
      else
      let name_length := name_span name in
      if (name_length =? 0)%nat || (name_length =? 56)%nat then (d, TCS_BOOT_FORMAT, out)
      else
      match locate select read d name name_length length with
      | (d, inl err) => (d, err, out)
      | (d, inr selected) =>
          let '(d, ok) := select d selected in
          if negb ok then (d, TCS_BOOT_IO, out) else
          let '(d, ok, o) := read_bytes read d o 0 length in
          (d, if ok then TCS_BOOT_OK else TCS_BOOT_IO, Some o)
      end
  | _, _, _, _ => (d, TCS_BOOT_FORMAT, out)
  end.

Definition tcs_fwcfg_read (io : tcs_fwcfg_io D) (d : D) (name output : ptr (list Z)) (length : nat)
    : D * tcs_boot_status * ptr (list Z) :=
  let '(d, status, output) := read_item io d name output length in
  (d, status,
   match output with
   | Some o =>
       if negb (bool_decide (status = TCS_BOOT_OK)) && (length <=? TCS_FWCFG_MAX_BYTES)%nat
       then Some (blit o 0 (replicate length 0)) else output
   | NULL => NULL
   end).
End Device.

(** ** Decoding the test context *)

Definition boot_prefix : list Z := [84; 67; 83; 45; 66; 79; 79; 84; 1; 1; 0; 0; 0; 0; 0; 0].

Definition tcs_boot_decode_test (bytes : ptr (list Z)) (length : nat) (out : ptr tcs_boot_context)
    : tcs_boot_status * ptr tcs_boot_context :=
  match out with
  | NULL => (TCS_BOOT_FORMAT, out)
  | Some _ =>
      let out := Some boot_context_zero in
      match bytes with
      | NULL => (TCS_BOOT_LENGTH, out)
      | Some b =>
          if negb (length =? TCS_BOOT_BYTES)%nat then (TCS_BOOT_LENGTH, out)
          else if negb (equal b boot_prefix 16) then (TCS_BOOT_FORMAT, out)
          else if existsb (fun start => any_bits (drop start b) 32 =? 0) [16; 48; 80]%nat
          then (TCS_BOOT_FORMAT, out)
          else (TCS_BOOT_OK,
                Some {| b_realm := slice b 16 32; b_boot := slice b 48 32;
                        b_public_key := slice b 80 32 |})
      end
  end.

(** ** Failures leave nothing behind *)

(** [read_item] keeps the size of the output. *)
Lemma read_bytes_length {D} (read : D -> Z -> D * bool * Z) d out i n :
  length (snd (read_bytes read d out i n)) = length out.
Proof.
  revert d out i. induction n as [|n IH]; intros d out i; [done|]. cbn [read_bytes].
  destruct (read d (out !!! i)) as [[d' ok] b]. destruct ok; cbn [negb].
  - by rewrite IH, length_insert.
  - cbn. by rewrite length_insert.
Qed.

Lemma read_item_output {D} (io : tcs_fwcfg_io D) d name o length :
  exists o', snd (read_item io d name (Some o) length) = Some o' /\ List.length o' = List.length o.
Proof.
  unfold read_item. destruct (io_select io) as [select|], (io_read io) as [read|], name as [name|];
    try by exists o.
  destruct (_ || _); [by exists o|]. cbv zeta. destruct (_ || _); [by exists o|].
  destruct (locate _ _ _ _ _ _) as [d1 [err|key]]; [by exists o|].
  destruct (select d1 key) as [d2 ok]. destruct ok; cbn [negb]; [|by exists o].
  pose proof (read_bytes_length read d2 o 0 length) as H.
  destruct (read_bytes read d2 o 0 length) as [[d3 ok] o']. by exists o'.
Qed.

(** ** A device that serves its items *)

(** What the reader relies on in the device: [at_ k p] is a state with key [k]
    selected and [p] of its bytes read, [content k p] is byte [p] of item [k],
    selecting restarts an item and reading advances in it. *)
Class fwcfg_device {D : Type} (select : D -> Z -> D * bool) (read : D -> Z -> D * bool * Z)
    (at_ : Z -> nat -> D) (content : Z -> nat -> Z) : Prop := {
  select_restarts d k : select d k = (at_ k 0%nat, true);
  read_advances k p old : read (at_ k p) old = (at_ k (S p), true, content k p);
  content_u8 k p : u8 (content k p)
}.

Section Serving.
Context {D : Type} (select : D -> Z -> D * bool) (read : D -> Z -> D * bool * Z).
Context (at_ : Z -> nat -> D) (content : Z -> nat -> Z).
Context {Hdev : fwcfg_device select read at_ content}.

(** [n] bytes of item [k] from offset [p]. *)
Definition item (k : Z) (p n : nat) : list Z := map (content k) (seq p n).

Lemma read_bytes_item k p out i n :
  (i + n <= length out)%nat ->
  read_bytes read (at_ k p) out i n = (at_ k (p + n)%nat, true, blit out i (item k p n)).
Proof using Hdev.
  revert p out i. induction n as [|n IH]; intros p out i Hle; cbn [read_bytes].
  - unfold blit, item. simpl. rewrite !Nat.add_0_r. by rewrite take_drop.
  - rewrite read_advances. cbn [negb]. rewrite IH by (rewrite length_insert; lia).
    rewrite Nat.add_succ_r. f_equal. unfold blit, item. cbn [seq map].
    rewrite !length_map, !length_seq. cbn [length app].
    rewrite (take_S_r _ _ (content k p)) by (apply list_lookup_insert_eq; lia).
    rewrite take_insert_ge, drop_insert_lt by lia. rewrite <- app_assoc. simpl.
    by rewrite length_map, length_seq, Nat.add_succ_r.
Qed.

Lemma length_item k p n : length (item k p n) = n.
Proof. unfold item. by rewrite length_map, length_seq. Qed.

(** ** The directory *)

Definition entry (i : nat) : list Z := item 25 (4 + 64 * i) 64.

Definition entry_ok (e : list Z) : bool :=
  (32 <=? entry_key e) && (entry_key e <? 16384) && (e !!! 6%nat =? 0) && (e !!! 7%nat =? 0) &&
  negb (name_span (drop 8 e) =? 0)%nat && negb (name_span (drop 8 e) =? 56)%nat.

(** The entry carries the name. *)
Definition named (name e : list Z) : bool :=
  (name_span (drop 8 e) =? name_span name)%nat && equal (drop 8 e) name (name_span (drop 8 e)).

Definition directory_ok (name : list Z) (es : list (list Z)) : bool :=
  forallb entry_ok es && bool_decide (NoDup (map entry_key es)) &&
  (length (List.filter (named name) es) <=? 1)%nat.

Definition pick (es : list (list Z)) : Z * Z :=
  match es with [] => (0, 0) | e :: _ => (entry_key e, be32 e) end.

Lemma directory_ok_prefix name es es' :
  directory_ok name (es ++ es') = true -> directory_ok name es = true.
Proof.
  unfold directory_ok. rewrite forallb_app, map_app, filter_app, length_app. intros H. bools.
  apply bool_decide_eq_true in H1. apply list.NoDup_app in H1 as (Hn & _). apply Nat.leb_le in H0.
  rewrite H. rewrite bool_decide_true by done. apply Nat.leb_le. lia.
Qed.

Lemma directory_ok_snoc name es e :
  directory_ok name es = true ->
  directory_ok name (es ++ [e]) =
    entry_ok e && negb (existsb (fun s => s =? entry_key e) (map entry_key es)) &&
    (negb (named name e) || (length (List.filter (named name) es) =? 0)%nat).
Proof.
  unfold directory_ok. rewrite forallb_app, map_app, filter_app, length_app. intros H. bools.
  apply bool_decide_eq_true in H1. apply Nat.leb_le in H0. rewrite H. cbn [forallb map andb].
  rewrite andb_true_r. destruct (entry_ok e); [cbn [andb]|done]. f_equal.
  - apply eq_iff_eq_true. rewrite bool_decide_eq_true, negb_true_iff, <- not_true_iff_false.
    rewrite list.NoDup_app, existsb_exists. setoid_rewrite Z.eqb_eq. split.
    + intros (_ & Hd & _) (s & Hin & ->). apply list_elem_of_In in Hin.
      apply (Hd _ Hin). by apply list_elem_of_singleton.
    + intros Hn. split; [done|]. split; [|apply NoDup_singleton].
      intros x Hx Hs. apply list_elem_of_singleton in Hs as ->. apply Hn.
      exists (entry_key e). split; [by apply list_elem_of_In|done].
  - cbn [List.filter]. destruct (named name e); cbn [negb orb length].
    + destruct (length _) as [|[|]]; [done|done|lia].
    + rewrite Nat.add_0_r. by apply Nat.leb_le.
Qed.

Lemma pick_truthy name es :
  directory_ok name es = true ->
  truthy (fst (pick (List.filter (named name) es))) =
    negb (length (List.filter (named name) es) =? 0)%nat.
Proof.
  unfold directory_ok. intros H. bools. destruct (List.filter (named name) es) as [|e l] eqn:Hf; [done|].
  assert (Hin : In e (List.filter (named name) es)) by (rewrite Hf; by left).
  apply filter_In in Hin as [Hin _]. rewrite forallb_forall in H. specialize (H e Hin).
  unfold entry_ok in H. bools. simpl. unfold truthy. lia.
Qed.

(** A full header field is replaced by an entry. *)
Lemma blit_entry field i : length field = 64%nat -> blit field 0 (item 25 (4 + 64 * i) 64) = entry i.
Proof. intros Hf. unfold blit. rewrite length_item, drop_ge by lia. by rewrite app_nil_r. Qed.

Lemma directory_not_ok name es e rest :
  directory_ok name (es ++ [e]) = false -> directory_ok name (es ++ e :: rest) = false.
Proof.
  intros Hno. apply not_true_iff_false. intros Hyes. rewrite (cons_middle e es rest) in Hyes.
  rewrite app_assoc in Hyes. apply directory_ok_prefix in Hyes. congruence.
Qed.

Lemma scan_spec name n done_ field :
  length field = 64%nat -> directory_ok name done_ = true ->
  let all := done_ ++ map entry (seq (length done_) n) in
  snd (scan_directory read name (name_span name) n (at_ 25 (4 + 64 * length done_)%nat) field
         (map entry_key done_) (fst (pick (List.filter (named name) done_)))
         (snd (pick (List.filter (named name) done_)))) =
    if directory_ok name all then inr (pick (List.filter (named name) all))
    else inl TCS_BOOT_DIRECTORY.
Proof using Hdev.
  revert done_ field. induction n as [|n IH]; intros es field Hf Hok; cbv zeta.
  { cbn [seq map scan_directory]. rewrite app_nil_r, Hok. cbn [snd]. by destruct (pick _). }
  cbn [scan_directory seq map]. rewrite read_bytes_item by (rewrite Hf; done).
  rewrite (blit_entry field (length es) Hf). cbn [negb]. set (e := entry (length es)) in *.
  set (rest := map entry (seq (S (length es)) n)).
  pose proof (directory_not_ok name es e rest) as Hfail.
  pose proof (directory_ok_snoc name es e Hok) as Hsnoc. unfold entry_ok in Hsnoc.
  destruct ((entry_key e <? 32) || (16384 <=? entry_key e) || truthy (e !!! 6%nat) ||
    truthy (e !!! 7%nat)) eqn:Hkey.
  { rewrite Hfail; [done|]. rewrite Hsnoc. unfold truthy in Hkey. lia. }
  destruct (existsb _ (map entry_key es)) eqn:Hdup.
  { rewrite Hfail; [done|]. rewrite Hsnoc. by rewrite andb_false_r. }
  destruct ((name_span (drop 8 e) =? 0)%nat || (name_span (drop 8 e) =? 56)%nat) eqn:Hname.
  { rewrite Hfail; [done|]. rewrite Hsnoc. apply orb_true_iff in Hname as [-> | ->];
    by rewrite ?andb_false_r. }
  apply orb_false_iff in Hname as [Hn0 Hn56].
  assert (Hgood : (32 <=? entry_key e) && (entry_key e <? 16384) && (e !!! 6%nat =? 0) &&
    (e !!! 7%nat =? 0) = true) by (unfold truthy in Hkey; lia).
  rewrite Hgood, Hn0, Hn56 in Hsnoc. cbn [negb andb] in Hsnoc.
  change ((name_span (drop 8 e) =? name_span name)%nat && equal (drop 8 e) name (name_span (drop 8 e)))
    with (named name e).
  assert (Hpick : named name e = false \/ length (List.filter (named name) es) = 0%nat ->
    directory_ok name (es ++ [e]) = true ->
    snd (scan_directory read name (name_span name) n (at_ 25 (4 + 64 * length es + 64)%nat) e
      (map entry_key es ++ [entry_key e])
      (if named name e then entry_key e else fst (pick (List.filter (named name) es)))
      (if named name e then be32 e else snd (pick (List.filter (named name) es)))) =
    if directory_ok name (es ++ e :: rest)
    then inr (pick (List.filter (named name) (es ++ e :: rest))) else inl TCS_BOOT_DIRECTORY).
  { intros Hone Hok'. specialize (IH (es ++ [e]) e (length_item _ _ _) Hok').
    rewrite length_app, map_app, filter_app in IH. cbn [length map List.filter] in IH.
    replace (4 + 64 * (length es + 1))%nat with (4 + 64 * length es + 64)%nat in IH by lia.
    replace (length es + 1)%nat with (S (length es)) in IH by lia.
    fold rest in IH. rewrite <- !app_assoc in IH. cbn [app] in IH. rewrite <- IH.
    destruct (named name e) eqn:Hn.
    - destruct Hone as [|Hnil]; [done|]. apply length_zero_iff_nil in Hnil. by rewrite Hnil.
    - by rewrite app_nil_r. }
  destruct (named name e) eqn:Hn; cbn [negb orb] in Hsnoc.
  - rewrite pick_truthy by done. destruct (length _ =? 0)%nat eqn:Hz; cbn [negb].
    + apply Nat.eqb_eq in Hz. apply Hpick; [by right|done].
    + rewrite Hfail; [done|]. by rewrite Hsnoc.
  - apply Hpick; [by left|done].
Qed.

(** ** What the device promises to the reader *)

Definition directory : list (list Z) := map entry (seq 0 (Z.to_nat (be32 (item 25 0 4)))).

(** The key of the item, or the reason there is none. *)
Definition located (name : list Z) (length : nat) : tcs_boot_status + Z :=
  if negb (bool_decide (item 0 0 4 = [81; 69; 77; 85])) then inl TCS_BOOT_DEVICE
  else if negb (bool_decide (item 1 0 4 = [1; 0; 0; 0])) then inl TCS_BOOT_FEATURES
  else if TCS_FWCFG_MAX_FILES <? be32 (item 25 0 4) then inl TCS_BOOT_DIRECTORY
  else if negb (directory_ok name directory) then inl TCS_BOOT_DIRECTORY
  else match List.filter (named name) directory with
  | [] => inl TCS_BOOT_MISSING
  | e :: _ => if be32 e =? Z.of_nat length then inr (entry_key e) else inl TCS_BOOT_LENGTH
  end.

Lemma blit_head field x i : (i < length x)%nat -> blit field 0 x !!! i = x !!! i.
Proof. intros Hi. unfold blit. simpl. by rewrite lookup_total_app_l. Qed.

Lemma length_blit_head field x : (length x <= length field)%nat -> length (blit field 0 x) = length field.
Proof. intros H. apply blit_length. lia. Qed.

Lemma item4 k : item k 0 4 = [content k 0; content k 1; content k 2; content k 3].
Proof. reflexivity. Qed.

Lemma head4 field k i : (i < 4)%nat -> blit field 0 (item k 0 4) !!! i = content k i.
Proof.
  intros Hi. rewrite blit_head by by rewrite length_item. rewrite item4.
  do 4 (destruct i as [|i]; [done|]). lia.
Qed.

Lemma be32_head field k : be32 (blit field 0 (item k 0 4)) = be32 (item k 0 4).
Proof. unfold be32. by rewrite !blit_head by (rewrite length_item; lia). Qed.

Lemma four_differ k a b c d :
  negb (content k 0 =? a) || negb (content k 1 =? b) || negb (content k 2 =? c) ||
    negb (content k 3 =? d) = negb (bool_decide (item k 0 4 = [a; b; c; d])).
Proof.
  rewrite item4. case_bool_decide as H; [injection H as -> -> -> ->; by rewrite !Z.eqb_refl|].
  apply not_false_iff_true. intros Hf. bools. by apply H; f_equal; [|f_equal; [|f_equal; [|f_equal]]].
Qed.

Lemma locate_spec d name length :
  snd (locate select read d name (name_span name) length) = located name length.
Proof using Hdev.
  unfold locate, located. rewrite select_restarts. cbn [negb].
  rewrite read_bytes_item by (rewrite length_replicate; lia). cbn [negb].
  set (f0 := blit (replicate 64 0) 0 (item 0 0 4)).
  assert (Hf0 : List.length f0 = 64%nat)
    by (unfold f0; rewrite length_blit_head; [done|rewrite length_item, length_replicate; lia]).
  unfold f0 at 1 2 3 4. rewrite !head4 by lia. rewrite four_differ.
  destruct (negb (bool_decide (item 0 0 4 = _))); [done|].
  rewrite select_restarts. cbn [negb].
  rewrite read_bytes_item by (rewrite Hf0; lia). cbn [negb].
  set (f1 := blit f0 0 (item 1 0 4)).
  assert (Hf1 : List.length f1 = 64%nat)
    by (unfold f1; rewrite length_blit_head; [done|rewrite length_item; lia]).
  unfold f1 at 1 2 3 4. rewrite !head4 by lia. unfold truthy at 1 2 3.
  rewrite (four_differ 1 1 0 0 0). destruct (negb (bool_decide (item 1 0 4 = _))); [done|].
  rewrite select_restarts. cbn [negb].
  rewrite read_bytes_item by (rewrite Hf1; lia). cbn [negb].
  rewrite be32_head. destruct (TCS_FWCFG_MAX_FILES <? be32 (item 25 0 4)); [done|].
  set (f2 := blit f1 0 (item 25 0 4)).
  assert (Hf2 : List.length f2 = 64%nat)
    by (unfold f2; rewrite length_blit_head; [done|rewrite length_item; lia]).
  pose proof (scan_spec name (Z.to_nat (be32 (item 25 0 4))) [] f2 Hf2 eq_refl) as Hs.
  cbn [map app List.length List.filter pick fst snd] in Hs. fold directory in Hs.
  replace (4 + 64 * 0)%nat with (0 + 4)%nat in Hs by lia.
  destruct (scan_directory _ _ _ _ _ _ _ _ _) as [d' res]. cbn [snd] in Hs. subst res.
  destruct (directory_ok name directory) eqn:Hok; cbn [negb]; [|done].
  pose proof (pick_truthy name directory Hok) as Ht.
  destruct (List.filter (named name) directory) as [|e es]; [done|].
  cbn [pick fst snd List.length Nat.eqb negb] in *. rewrite Ht. cbn [negb].
  by destruct (be32 e =? Z.of_nat length).
Qed.

Definition serving_io : tcs_fwcfg_io D := {| io_select := Some select; io_read := Some read |}.

(** A C string of 1 to 55 characters. *)
Definition name_ok (name : list Z) : Prop := (0 < name_span name < 56)%nat.

Lemma fwcfg_read_located d name o length :
  name_ok name -> (0 < length <= TCS_FWCFG_MAX_BYTES)%nat -> (length <= List.length o)%nat ->
  let '(_, status, out) := tcs_fwcfg_read serving_io d (Some name) (Some o) length in
  match located name length with
  | inl err => status = err /\ err <> TCS_BOOT_OK /\ out = Some (blit o 0 (replicate length 0))
  | inr key => status = TCS_BOOT_OK /\ out = Some (blit o 0 (item key 0 length))
  end.
Proof using Hdev.
  intros Hname Hlen Ho. unfold tcs_fwcfg_read, read_item, serving_io. cbn [io_select io_read].
  unfold name_ok in Hname.
  rewrite (proj2 (Nat.eqb_neq length 0)), (proj2 (Nat.ltb_ge TCS_FWCFG_MAX_BYTES length)) by lia.
  rewrite (proj2 (Nat.eqb_neq (name_span name) 0)), (proj2 (Nat.eqb_neq (name_span name) 56)) by lia.
  cbn [orb]. pose proof (locate_spec d name length) as Hloc.
  destruct (locate select read d name (name_span name) length) as [d1 res]. cbn [snd] in Hloc.
  assert (Herr : forall err, located name length = inl err -> err <> TCS_BOOT_OK).
  { unfold located. intros err. repeat split_if; try congruence.
    destruct (List.filter _ _); [congruence|]. split_if; congruence. }
  subst res. destruct (located name length) as [err|key].
  - specialize (Herr err eq_refl). rewrite bool_decide_false by done. cbn [negb andb].
    by rewrite (proj2 (Nat.leb_le _ _)) by lia.
  - rewrite select_restarts. cbn [negb]. by rewrite read_bytes_item by lia.
Qed.

(** The one entry with the name. *)
Lemma filter_one (f : list Z -> bool) l e rest :
  List.filter f l = e :: rest -> (List.length (List.filter f l) <= 1)%nat ->
  exists before after, l = before ++ e :: after /\ f e = true /\
    Forall (fun x => f x = false) (before ++ after).
Proof.
  intros Hf Hle. rewrite Hf in Hle. destruct rest; [|simpl in Hle; lia]. clear Hle.
  induction l as [|x l IH]; [done|]. simpl in Hf. destruct (f x) eqn:Hx.
  - injection Hf as -> Hl. exists [], l. split; [done|]. split; [done|]. simpl.
    clear IH Hx. induction l as [|y l IH]; [constructor|]. simpl in Hl.
    destruct (f y) eqn:Hy; [done|]. by constructor; [|apply IH].
  - destruct (IH Hf) as (b & a & -> & He & Hr). exists (x :: b), a. split; [done|].
    split; [done|]. simpl. by constructor.
Qed.

Lemma filter_only (f : list Z -> bool) before e after :
  f e = true -> Forall (fun x => f x = false) (before ++ after) ->
  List.filter f (before ++ e :: after) = [e].
Proof.
  intros He Hr. apply Forall_app in Hr as [Hb Ha]. rewrite filter_app. simpl. rewrite He.
  assert (E : forall l, Forall (fun x => f x = false) l -> List.filter f l = []).
  { induction 1 as [|x l Hx _ IH]; [done|]. simpl. by rewrite Hx. }
  by rewrite !E.
Qed.

(** The firmware offers a file: it is QEMU's traditional interface, its
    directory is well formed, and exactly one entry has the name; the entry
    gives the file's size and the item under its key is the file. *)
Record offers (name bytes : list Z) : Prop := {
  offered_by_qemu : item 0 0 4 = codes "QEMU";
  offered_traditionally : item 1 0 4 = [1; 0; 0; 0];
  offered_few : be32 (item 25 0 4) <= TCS_FWCFG_MAX_FILES;
  offered_well : Forall (fun x => entry_ok x = true) directory;
  offered_keys : NoDup (map entry_key directory);
  offered_once : exists before e after, directory = before ++ e :: after /\
    named name e = true /\ Forall (fun x => named name x = false) (before ++ after) /\
    be32 e = Z.of_nat (List.length bytes) /\ item (entry_key e) 0 (List.length bytes) = bytes
}.

Lemma directory_ok_iff name :
  directory_ok name directory = true <->
  Forall (fun x => entry_ok x = true) directory /\ NoDup (map entry_key directory) /\
  (List.length (List.filter (named name) directory) <= 1)%nat.
Proof.
  unfold directory_ok. rewrite !andb_true_iff, bool_decide_eq_true, Nat.leb_le.
  rewrite forallb_forall, List.Forall_forall. tauto.
Qed.

(** Located is offered, and what is read is what is offered. *)
Lemma located_offers name bytes :
  offers name bytes <->
  exists key, located name (List.length bytes) = inr key /\ bytes = item key 0 (List.length bytes).
Proof.
  unfold located. change (codes "QEMU") with [81; 69; 77; 85]. split.
  - intros [-> -> Hfew Hwell Hkeys (b & e & a & Heq & Hn & Hrest & Hsz & Hb)].
    rewrite !bool_decide_true, (proj2 (Z.ltb_ge _ _)) by done. cbn [negb].
    rewrite (proj2 (directory_ok_iff name)); cycle 1.
    { split_and!; [done|done|]. rewrite Heq, filter_only by done. cbn. lia. }
    rewrite Heq, filter_only by done. rewrite Hsz, Z.eqb_refl. cbn [negb]. by exists (entry_key e).
  - intros (key & H & Hb). case_bool_decide as Hq; [|done]. case_bool_decide as Hf; [|done]. cbn [negb] in H.
    destruct (_ <? be32 _) eqn:Hc; [done|]. destruct (directory_ok name directory) eqn:Hok; [|done].
    apply directory_ok_iff in Hok as (Hwell & Hkeys & Hone). cbn [negb] in H.
    destruct (List.filter (named name) directory) as [|e es] eqn:Hfil; [done|].
    destruct (be32 e =? _) eqn:Hsz; [|done]. injection H as <-. rewrite <- Hfil in Hone.
    destruct (filter_one _ _ _ _ Hfil Hone) as (b & a & Heq & Hn & Hrest).
    split; [done|done|lia|done|done|]. exists b, e, a. split_and!; try done. lia.
Qed.

(** What a read answers, in terms of what is offered. *)
Lemma fwcfg_reads d name o length :
  name_ok name -> (0 < length <= TCS_FWCFG_MAX_BYTES)%nat -> (length <= List.length o)%nat ->
  let '(_, status, out) := tcs_fwcfg_read serving_io d (Some name) (Some o) length in
  (forall bytes, List.length bytes = length -> offers name bytes ->
     status = TCS_BOOT_OK /\ out = Some (blit o 0 bytes)) /\
  (status = TCS_BOOT_OK -> exists bytes, List.length bytes = length /\ offers name bytes) /\
  (status <> TCS_BOOT_OK -> out = Some (blit o 0 (replicate length 0))).
Proof using Hdev.
  intros Hname Hlen Ho. pose proof (fwcfg_read_located d name o length Hname Hlen Ho) as H.
  destruct (tcs_fwcfg_read _ _ _ _ _) as [[d' status] out].
  destruct (located name length) as [err|key] eqn:Hl.
  - destruct H as (-> & Hne & ->). split_and!; [|done|done].
    intros bytes Hb (key & Hk & _)%located_offers. rewrite Hb in Hk. congruence.
  - destruct H as [-> ->]. split_and!; [| |done].
    + intros bytes Hb (key' & Hk & Hi)%located_offers. rewrite Hb in *. split; [done|]. congruence.
    + intros _. exists (item key 0 length). rewrite length_item. split; [done|].
      apply located_offers. exists key. by rewrite length_item.
Qed.
End Serving.

(** ** Properties *)

(** What a successful read means: from a device that serves its items, the
    reader answers OK exactly when the device identifies itself, offers only the
    traditional interface, lists at most 64 files, every directory entry is well
    formed, no key is listed twice, exactly one entry carries the wanted name
    and its size is the requested length; the output then starts with the
    content of that file, and in every other case it starts with zeros. *)
Theorem fwcfg_read_ok_iff {D} (select : D -> Z -> D * bool) (read : D -> Z -> D * bool * Z)
    (at_ : Z -> nat -> D) (content : Z -> nat -> Z)
    (Hdev : fwcfg_device select read at_ content) d name o length :
  name_ok name -> (0 < length <= TCS_FWCFG_MAX_BYTES)%nat -> (length <= List.length o)%nat ->
  let '(_, status, out) :=
    tcs_fwcfg_read (serving_io select read) d (Some name) (Some o) length in
  (status = TCS_BOOT_OK <-> exists bytes, List.length bytes = length /\ offers content name bytes) /\
  (forall bytes, List.length bytes = length -> offers content name bytes -> out = Some (blit o 0 bytes)) /\
  (status <> TCS_BOOT_OK -> out = Some (blit o 0 (replicate length 0))).
Proof.
  intros Hname Hlen Ho.
  pose proof (fwcfg_reads select read at_ content (Hdev := Hdev) d name o length Hname Hlen Ho) as H.
  destruct (tcs_fwcfg_read _ _ _ _ _) as [[d' status] out]. destruct H as (Hok & Hex & Hno).
  split_and!; [split; [done|]|by intros; apply Hok|done]. intros (bytes & Hb & Hf). by apply (Hok bytes).
Qed.

Lemma read_bytes_drop {D} (read : D -> Z -> D * bool * Z) d out i n :
  drop (i + n) (snd (read_bytes read d out i n)) = drop (i + n) out.
Proof.
  revert d out i. induction n as [|n IH]; intros d out i; [done|]. cbn [read_bytes].
  destruct (read d (out !!! i)) as [[d' ok] b]. destruct ok; cbn [negb snd].
  - rewrite Nat.add_succ_r. change (S (i + n)) with (S i + n)%nat. rewrite IH.
    apply drop_insert_lt. lia.
  - apply drop_insert_lt. lia.
Qed.

(** What a read leaves of the output beyond the request. *)
Lemma read_item_rest {D} (io : tcs_fwcfg_io D) d name o length :
  exists o', snd (read_item io d name (Some o) length) = Some o' /\ drop length o' = drop length o.
Proof.
  unfold read_item. destruct (io_select io) as [select|], (io_read io) as [read|], name as [name|];
    try by exists o.
  destruct (_ || _); [by exists o|]. cbv zeta. destruct (_ || _); [by exists o|].
  destruct (locate _ _ _ _ _ _) as [d1 [err|key]]; [by exists o|].
  destruct (select d1 key) as [d2 ok]. destruct ok; cbn [negb]; [|by exists o].
  pose proof (read_bytes_drop read d2 o 0 length) as H.
  destruct (read_bytes read d2 o 0 length) as [[d3 ok] o']. by exists o'.
Qed.

Lemma read_item_too_long {D} (io : tcs_fwcfg_io D) d name o length :
  (TCS_FWCFG_MAX_BYTES < length)%nat -> read_item io d name (Some o) length = (d, TCS_BOOT_FORMAT, Some o).
Proof.
  intros Hlen. unfold read_item. destruct (io_select io), (io_read io), name; try done.
  by rewrite (proj2 (Nat.ltb_lt _ _)), orb_true_r.
Qed.

(** C35. A failed read leaks nothing: whatever the device answers (failing,
    lying or stopping anywhere), a request of at most 256 bytes that is not
    answered OK leaves the first [length] bytes of the output zero and the bytes
    after them as they were; a longer request is always refused as FORMAT, before
    the device is touched, and leaves the whole output as it was. *)
Theorem fwcfg_failure_zeroes {D} (io : tcs_fwcfg_io D) d name o length :
  let '(d', status, out) := tcs_fwcfg_read io d name (Some o) length in
  if (length <=? TCS_FWCFG_MAX_BYTES)%nat
  then (length <= List.length o)%nat -> status <> TCS_BOOT_OK -> out = Some (replicate length 0 ++ drop length o)
  else d' = d /\ status = TCS_BOOT_FORMAT /\ out = Some o.
Proof.
  unfold tcs_fwcfg_read. destruct (Nat.leb_spec length TCS_FWCFG_MAX_BYTES) as [Hlen|Hlen]; cycle 1.
  { pose proof (read_item_too_long io d name o length Hlen) as H.
    by rewrite H, andb_false_r. }
  pose proof (read_item_rest io d name o length) as H.
  destruct (read_item io d name (Some o) length) as [[d' st] out]. cbn [snd] in H.
  destruct H as (o' & -> & Hd). intros Ho Hne. rewrite bool_decide_false by done. cbn [negb andb].
  unfold blit. rewrite length_replicate. simpl. by rewrite Hd.
Qed.

(** The contexts a record can spell. *)
Definition boot_context_ok (c : tcs_boot_context) : Prop :=
  List.length (b_realm c) = 32%nat /\ List.length (b_boot c) = 32%nat /\
  List.length (b_public_key c) = 32%nat /\
  any_bits (b_realm c) 32 <> 0 /\ any_bits (b_boot c) 32 <> 0 /\ any_bits (b_public_key c) 32 <> 0.

Definition boot_record (c : tcs_boot_context) : list Z :=
  boot_prefix ++ b_realm c ++ b_boot c ++ b_public_key c.

Lemma any_bits_slice b o n : (o + n <= List.length b)%nat ->
  any_bits (drop o b) n = any_bits (slice b o n) n.
Proof.
  intros H. with_strategy transparent [any_bits] unfold any_bits.
  assert (E : forall l acc, Forall (fun i => (i < n)%nat) l ->
    foldl (fun any i => wrap8 (Z.lor any (drop o b !!! i))) acc l =
    foldl (fun any i => wrap8 (Z.lor any (slice b o n !!! i))) acc l).
  { intros l. induction l as [|i l IH]; intros acc Hl; [done|].
    apply Forall_cons_1 in Hl as [Hi Hl]. cbn [foldl]. rewrite IH by done. do 3 f_equal.
    unfold slice. by rewrite !list_lookup_total_alt, lookup_take_lt. }
  apply E. apply List.Forall_forall. intros i Hi%in_seq. lia.
Qed.

Lemma boot_fields b :
  List.length b = TCS_BOOT_BYTES -> b = take 16 b ++ slice b 16 32 ++ slice b 48 32 ++ slice b 80 32.
Proof.
  intros Hb. unfold TCS_BOOT_BYTES in Hb. unfold slice.
  rewrite (take_ge (drop 80 b)) by (rewrite length_drop; lia).
  change 80%nat with (16 + 32 + 32)%nat. change 48%nat with (16 + 32)%nat.
  by rewrite <- !(drop_drop b), !take_drop.
Qed.

(** The decoder on a full record, its loop over the three fields unrolled. *)
Lemma boot_decode_eq b out :
  tcs_boot_decode_test (Some b) TCS_BOOT_BYTES (Some out) =
    if negb (equal b boot_prefix 16) then (TCS_BOOT_FORMAT, Some boot_context_zero)
    else if (any_bits (drop 16 b) 32 =? 0) ||
            ((any_bits (drop 48 b) 32 =? 0) || ((any_bits (drop 80 b) 32 =? 0) || false))
    then (TCS_BOOT_FORMAT, Some boot_context_zero)
    else (TCS_BOOT_OK, Some {| b_realm := slice b 16 32; b_boot := slice b 48 32;
                               b_public_key := slice b 80 32 |}).
Proof. reflexivity. Qed.

Lemma boot_decode_sound b out c :
  List.length b = TCS_BOOT_BYTES ->
  tcs_boot_decode_test (Some b) TCS_BOOT_BYTES (Some out) = (TCS_BOOT_OK, Some c) ->
  b = boot_record c /\ boot_context_ok c.
Proof.
  intros Hb. rewrite boot_decode_eq. pose proof (boot_fields b Hb) as Hfields. unfold TCS_BOOT_BYTES in Hb.
  rewrite !any_bits_slice by lia. intros H.
  destruct (equal b boot_prefix 16) eqn:He; [cbn [negb] in H|done].
  destruct (any_bits (slice b 16 32) 32 =? 0) eqn:H1; [done|].
  destruct (any_bits (slice b 48 32) 32 =? 0) eqn:H2; [done|].
  destruct (any_bits (slice b 80 32) 32 =? 0) eqn:H3; [done|].
  cbn [orb] in H. injection H as <-. apply equal_spec in He; [|lia|done].
  rewrite (take_ge boot_prefix) in He by done.
  apply Z.eqb_neq in H1, H2, H3.
  unfold boot_record, boot_context_ok. cbn [b_realm b_boot b_public_key].
  rewrite !length_slice by lia. rewrite <- He. auto 10.
Qed.

Lemma boot_decode_complete b out c :
  b = boot_record c -> boot_context_ok c ->
  tcs_boot_decode_test (Some b) TCS_BOOT_BYTES (Some out) = (TCS_BOOT_OK, Some c).
Proof.
  intros -> (Hr & Hbt & Hk & Hz1 & Hz2 & Hz3). rewrite boot_decode_eq.
  assert (Hp : List.length boot_prefix = 16%nat) by done.
  assert (Hl : List.length (boot_record c) = 112%nat)
    by (unfold boot_record; rewrite !length_app, Hp, Hr, Hbt, Hk; done).
  rewrite !any_bits_slice by lia.
  assert (He : equal (boot_record c) boot_prefix 16 = true).
  { apply equal_spec; [lia|by rewrite Hp|]. unfold boot_record.
    rewrite <- Hp. by rewrite take_app_length, firstn_all. }
  rewrite He. cbn [negb]. unfold boot_record. layout.
  rewrite (proj2 (Z.eqb_neq _ _) Hz1), (proj2 (Z.eqb_neq _ _) Hz2), (proj2 (Z.eqb_neq _ _) Hz3).
  cbn [orb]. by destruct c.
Qed.

(** The test context is decoded exactly: 112 bytes are answered OK with a
    context if and only if they are the format's prefix followed by its realm,
    boot and key of 32 bytes each, none of them all zeros; any other input, of
    any length, leaves a zeroed context. *)
Theorem boot_decode_iff b out c :
  List.length b = TCS_BOOT_BYTES ->
  (tcs_boot_decode_test (Some b) TCS_BOOT_BYTES (Some out) = (TCS_BOOT_OK, Some c) <->
   b = boot_record c /\ boot_context_ok c) /\
  (forall n, fst (tcs_boot_decode_test (Some b) n (Some out)) <> TCS_BOOT_OK ->
   snd (tcs_boot_decode_test (Some b) n (Some out)) = Some boot_context_zero).
Proof.
  intros Hb. split; [split|].
  - by apply boot_decode_sound.
  - intros [Heq Hok]. by apply boot_decode_complete.
  - intros n. unfold tcs_boot_decode_test. repeat split_if; done.
Qed.

(** ** Witnesses *)

(** A device with one file, "x" of two bytes, under key 32. *)
Definition example_content (k : Z) (p : nat) : Z :=
  (match k with
   | 0 => codes "QEMU"
   | 1 => [1; 0; 0; 0]
   | 25 => [0; 0; 0; 1] ++ [0; 0; 0; 2] ++ [0; 32; 0; 0] ++ [120] ++ replicate 55 0
   | 32 => [5; 6]
   | _ => []
   end ++ replicate 512 0) !!! p.

Definition example_select (d : Z * nat) (k : Z) : (Z * nat) * bool := ((k, 0%nat), true).
Definition example_read (d : Z * nat) (old : Z) : (Z * nat) * bool * Z :=
  let b := example_content (fst d) (snd d) in
  ((fst d, S (snd d)), true, if (0 <=? b) && (b <=? 255) then b else 0).

Lemma example_device :
  fwcfg_device example_select example_read pair
    (fun k p => let b := example_content k p in if (0 <=? b) && (b <=? 255) then b else 0).
Proof.
  constructor; [done|done|]. intros k p. simpl.
  destruct ((0 <=? _) && _) eqn:H; word_lia.
Qed.

Lemma fwcfg_read_ok_iff_witness :
  exists bytes, List.length bytes = 2%nat /\
    offers (fun k p => let b := example_content k p in if (0 <=? b) && (b <=? 255) then b else 0) [120; 0] bytes.
Proof.
  pose proof (fwcfg_read_ok_iff example_select example_read _ _ example_device (0, 0%nat) [120; 0]
    [9; 9; 9] 2) as H.
  assert (Hok : snd (fst (tcs_fwcfg_read (serving_io example_select example_read) (0, 0%nat) (Some [120; 0])
    (Some [9; 9; 9]) 2)) = TCS_BOOT_OK) by (vm_compute; reflexivity).
  destruct (tcs_fwcfg_read _ _ _ _ _) as [[d' status] out]. cbn [fst snd] in Hok.
  apply H; [vm_compute; lia|vm_compute; lia|simpl; lia|exact Hok].
Defined.

Lemma fwcfg_failure_zeroes_witness :
  let '(_, status, out) :=
    tcs_fwcfg_read (serving_io example_select example_read) (0, 0%nat) (Some [121; 0])
      (Some [9; 9; 9]) 2 in
  out = Some [0; 0; 9].
Proof.
  pose proof (fwcfg_failure_zeroes (serving_io example_select example_read) (0, 0%nat)
    (Some [121; 0]) [9; 9; 9] 2) as H.
  destruct (tcs_fwcfg_read _ _ _ _ _) as [[d' status] out] eqn:E.
  apply H; [simpl; lia|]. intros ->. vm_compute in E. discriminate.
Defined.

Definition example_context : tcs_boot_context :=
  {| b_realm := replicate 32 1; b_boot := replicate 32 2; b_public_key := replicate 32 3 |}.

Lemma boot_decode_iff_witness :
  tcs_boot_decode_test (Some (boot_record example_context)) TCS_BOOT_BYTES (Some boot_context_zero) =
    (TCS_BOOT_OK, Some example_context).
Proof.
  apply (boot_decode_iff (boot_record example_context) boot_context_zero example_context); [done|].
  split; [done|]. unfold boot_context_ok. split_and!; try done; vm_compute; discriminate.
Defined.
