(* ===== verification/Ipc.v ===== *)
(** Protected procedure calls and the message formats of [include/tcs/ipc.h].

    A protection domain is a program over its own static state, its message
    registers and the rest of the system. The kernel and its library are not
    part of the sources: [call] stands for what the peers of a domain answer,
    and a call transfers the words its message info counts, no more. *)

From S2P Require Import Prelude Policy.

(** ** Messages and registers *)

Record message := { m_label : Z; m_words : list Z }.
Record msginfo := { i_label : Z; i_count : nat }.

#[export] Instance message_eq_dec : EqDecision message.
Proof. solve_decision. Defined.

(** The message registers of a domain. *)
Definition regs : Type := nat -> Z.

Definition set_reg (r : regs) (i : nat) (v : Z) : regs := fun j => if (j =? i)%nat then v else r j.

(** The registers after a transfer of [words]: the others hold [rest]. *)
Definition load (words : list Z) (rest : regs) : regs :=
  fun i => match words !! i with Some w => w | None => rest i end.

(** The words a message info takes from the registers. *)
Definition store (r : regs) (n : nat) : list Z := map r (seq 0 n).

Definition message_u64 (m : message) : Prop := u64 (m_label m) /\ Forall u64 (m_words m).

(** ** Programs *)

(** A domain with static state [S] in a system [W]. *)
Record pd (S W : Type) := { self : S; peers : W; mr : regs }.
Arguments self {S W}.
Arguments peers {S W}.
Arguments mr {S W}.

Definition prog (S W A : Type) : Type := pd S W -> pd S W * A.

Definition ret {S W A} (a : A) : prog S W A := fun st => (st, a).
Definition bind {S W A B} (m : prog S W A) (f : A -> prog S W B) : prog S W B :=
  fun st => let '(st', a) := m st in f a st'.

Declare Scope ipc_scope.
Delimit Scope ipc_scope with ipc.
Notation "'let*' x := m 'in' k" := (bind m (fun x => k))
  (at level 10, x pattern, m at level 100, k at level 200) : ipc_scope.
Notation "'do*' m 'in' k" := (bind m (fun _ => k))
  (at level 10, m at level 100, k at level 200) : ipc_scope.
#[global] Open Scope ipc_scope.

(** [if (b) m]. *)
Definition when {S W} (b : bool) (m : prog S W unit) : prog S W unit := if b then m else ret tt.

(** [for (i = from; n times; ++i) body(i)]. *)
Fixpoint loop {S W} (from n : nat) (body : nat -> prog S W unit) : prog S W unit :=
  match n with
  | O => ret tt
  | Datatypes.S n => do* body from in loop (Datatypes.S from) n body
  end.

Section Operations.
Context {S W : Type}.

(** Static variables. *)
Definition get : prog S W S := fun st => (st, self st).
Definition put (s : S) : prog S W unit :=
  fun st => ({| self := s; peers := peers st; mr := mr st |}, tt).

Definition microkit_mr_get (i : nat) : prog S W Z := fun st => (st, mr st i).
Definition microkit_mr_set (i : nat) (v : Z) : prog S W unit :=
  fun st => ({| self := self st; peers := peers st; mr := set_reg (mr st) i v |}, tt).

(** Debug output has no effect on the system. *)
Definition microkit_dbg_puts : prog S W unit := ret tt.

(** The peers' answers, and what the registers beyond a message hold. *)
Context (call : W -> Z -> message -> W * message) (residue : message -> regs).

Definition microkit_ppcall (ch : Z) (info : msginfo) : prog S W msginfo :=
  fun st =>
    let '(w, m) :=
      call (peers st) ch {| m_label := i_label info; m_words := store (mr st) (i_count info) |} in
    ({| self := self st; peers := w; mr := load (m_words m) (residue m) |},
     {| i_label := m_label m; i_count := length (m_words m) |}).

(** One entry of a domain's [protected] function by a message. *)
Definition serve (protected : Z -> msginfo -> prog S W msginfo) (s : S) (w : W) (ch : Z)
    (m : message) : S * W * message :=
  let '(st, info) :=
    protected ch {| i_label := m_label m; i_count := length (m_words m) |}
      {| self := s; peers := w; mr := load (m_words m) (residue m) |} in
  (self st, peers st, {| m_label := i_label info; m_words := store (mr st) (i_count info) |}).
End Operations.

(** ** Labels *)

Definition TCS_LABEL (op : Z) : Z := Z.lor 256 op.
Definition TCS_REPLY : Z := 384.
Definition TCS_SNAPSHOT_REPLY : Z := 386.
Definition TCS_SELF_STATUS : Z := 6.
Definition TCS_STORE_READ : Z := 16.
Definition TCS_CLIENT_READ : Z := 17.
Definition TCS_CLIENT_BAD_LENGTH : Z := 18.
Definition TCS_CLIENT_TRY_GRANT : Z := 19.
Definition TCS_CLIENT_STATUS : Z := 20.
Definition TCS_STORE_STATUS : Z := 21.
Definition TCS_AUDIT_APPEND : Z := 32.
Definition TCS_AUDIT_COUNT : Z := 33.
Definition TCS_AUDIT_GET : Z := 34.
Definition TCS_AUDIT_CAPACITY : nat := 64.

(** ** The helpers of ipc.h *)

Definition info (label : Z) (count : nat) : msginfo := {| i_label := label; i_count := count |}.

Definition tcs_message (msg : msginfo) (op : Z) (count : nat) : bool :=
  (i_label msg =? TCS_LABEL op) && (i_count msg =? count)%nat.

Section Helpers.
Context {S W : Type}.
#[local] Abbreviation prog := (prog S W).

Definition tcs_reply (r : tcs_result) : prog msginfo :=
  do* microkit_mr_set 0 (status r) in
  do* microkit_mr_set 1 (value r) in
  ret (info TCS_REPLY 2).

Definition tcs_response (msg : msginfo) : prog tcs_result :=
  if negb (i_label msg =? TCS_REPLY) || negb (i_count msg =? 2)%nat
  then ret (result TCS_BAD_MESSAGE 0)
  else
    let* st := microkit_mr_get 0 in
    let* v := microkit_mr_get 1 in
    ret (result st v).

Definition tcs_snapshot_reply (s : tcs_snapshot) : prog msginfo :=
  if negb (n_status s =? TCS_OK) then tcs_reply (result (n_status s) 0)
  else if negb (tcs_snapshot_valid s) then tcs_reply (result TCS_BAD_MESSAGE 0)
  else
    do* microkit_mr_set 0 (n_state s) in
    do* microkit_mr_set 1 (n_generation s) in
    do* microkit_mr_set 2 (n_object s) in
    do* microkit_mr_set 3 (n_rights s) in
    ret (info TCS_SNAPSHOT_REPLY 4).

Definition tcs_snapshot_response (msg : msginfo) : prog tcs_snapshot :=
  let invalid := snapshot_error TCS_BAD_MESSAGE in
  if i_label msg =? TCS_REPLY then
    let* r := tcs_response msg in
    if (TCS_DENIED <=? status r) && (status r <=? TCS_EXHAUSTED) && (value r =? 0)
    then ret (snapshot_error (status r))
    else ret invalid
  else if negb (i_label msg =? TCS_SNAPSHOT_REPLY) || negb (i_count msg =? 4)%nat then ret invalid
  else
    let* st := microkit_mr_get 0 in
    let* g := microkit_mr_get 1 in
    let* o := microkit_mr_get 2 in
    let* r := microkit_mr_get 3 in
    let s := {| n_status := TCS_OK; n_state := st; n_generation := g; n_object := o;
                n_rights := r |} in
    ret (if tcs_snapshot_valid s then s else invalid).

Context (call : W -> Z -> message -> W * message) (residue : message -> regs).

Definition tcs_policy_call (ch : Z) (r : tcs_request) : prog tcs_result :=
  do* microkit_mr_set 0 (r_subject r) in
  do* microkit_mr_set 1 (r_object r) in
  do* microkit_mr_set 2 (r_rights r) in
  do* microkit_mr_set 3 (r_generation r) in
  let* msg := microkit_ppcall call residue ch (info (TCS_LABEL (r_op r)) 4) in
  tcs_response msg.
End Helpers.

(** ** The formats, as messages *)

Definition reply_message (r : tcs_result) : message :=
  {| m_label := TCS_REPLY; m_words := [status r; value r] |}.

(** The result a message is understood as. *)
Definition response (m : message) : tcs_result :=
  if m_label m =? TCS_REPLY then
    match m_words m with [st; v] => result st v | _ => result TCS_BAD_MESSAGE 0 end
  else result TCS_BAD_MESSAGE 0.

Definition snapshot_message (s : tcs_snapshot) : message :=
  if negb (n_status s =? TCS_OK) then reply_message (result (n_status s) 0)
  else if negb (tcs_snapshot_valid s) then reply_message (result TCS_BAD_MESSAGE 0)
  else {| m_label := TCS_SNAPSHOT_REPLY;
          m_words := [n_state s; n_generation s; n_object s; n_rights s] |}.

(** The snapshot a message is understood as. *)
Definition snapshot_response (m : message) : tcs_snapshot :=
  let invalid := snapshot_error TCS_BAD_MESSAGE in
  if m_label m =? TCS_REPLY then
    let r := response m in
    if (TCS_DENIED <=? status r) && (status r <=? TCS_EXHAUSTED) && (value r =? 0)
    then snapshot_error (status r) else invalid
  else if m_label m =? TCS_SNAPSHOT_REPLY then
    match m_words m with
    | [st; g; o; r] =>
        let s := {| n_status := TCS_OK; n_state := st; n_generation := g; n_object := o;
                    n_rights := r |} in
        if tcs_snapshot_valid s then s else invalid
    | _ => invalid
    end
  else invalid.

Definition request_message (r : tcs_request) : message :=
  {| m_label := TCS_LABEL (r_op r);
     m_words := [r_subject r; r_object r; r_rights r; r_generation r] |}.

(** ** What the helpers do *)

Section HelperLemmas.
Context {S W : Type}.
Implicit Types st : pd S W.

Lemma tcs_response_run st m rest :
  mr st = load (m_words m) rest ->
  tcs_response {| i_label := m_label m; i_count := length (m_words m) |} st = (st, response m).
Proof.
  intros Hr. unfold tcs_response, response. cbn [i_label i_count].
  destruct (m_label m =? TCS_REPLY); cbn [negb orb]; [|done].
  destruct (m_words m) as [|a [|b [|c l]]]; try done.
  simpl. cbv [bind microkit_mr_get ret]. by rewrite Hr.
Qed.

Lemma tcs_snapshot_response_run st m rest :
  mr st = load (m_words m) rest ->
  tcs_snapshot_response {| i_label := m_label m; i_count := length (m_words m) |} st =
    (st, snapshot_response m).
Proof.
  intros Hr. unfold tcs_snapshot_response, snapshot_response. cbn [i_label i_count].
  destruct (m_label m =? TCS_REPLY).
  - unfold bind. rewrite (tcs_response_run st m rest Hr). by destruct (_ && _).
  - destruct (m_label m =? TCS_SNAPSHOT_REPLY); cbn [negb orb]; [|done].
    destruct (m_words m) as [|a [|b [|c [|d [|e l]]]]]; try done.
    simpl. cbv [bind microkit_mr_get ret]. by rewrite Hr.
Qed.

(** A reply is the domain's state with the message in its registers. *)
Lemma tcs_reply_run st r :
  let '(st', i) := tcs_reply r st in
  self st' = self st /\ peers st' = peers st /\
  {| m_label := i_label i; m_words := store (mr st') (i_count i) |} = reply_message r.
Proof. done. Qed.

Lemma tcs_snapshot_reply_run st s :
  let '(st', i) := tcs_snapshot_reply s st in
  self st' = self st /\ peers st' = peers st /\
  {| m_label := i_label i; m_words := store (mr st') (i_count i) |} = snapshot_message s.
Proof.
  unfold tcs_snapshot_reply, snapshot_message.
  destruct (negb (n_status s =? TCS_OK)); [done|]. by destruct (negb (tcs_snapshot_valid s)).
Qed.
End HelperLemmas.

Lemma response_reply r : response (reply_message r) = r.
Proof. by destruct r. Qed.

Lemma snapshot_response_valid s :
  tcs_snapshot_valid s = true -> snapshot_response (snapshot_message s) = s.
Proof.
  intros Hv. assert (Hs : n_status s = TCS_OK).
  { unfold tcs_snapshot_valid in Hv. split_if; [done|]. bools. lia. }
  destruct s as [st g o r ri]; simpl in Hs; subst st.
  unfold snapshot_message. rewrite Hv. cbn [n_status negb]. rewrite Z.eqb_refl. cbn [negb].
  unfold snapshot_response. cbn [m_label m_words]. cbn. cbn in Hv. by rewrite Hv.
Qed.

(** Runs the register and state operations of a program. *)
Ltac run_prog :=
  cbv [bind ret get put microkit_mr_get microkit_mr_set microkit_dbg_puts info];
  cbn [self peers mr i_label i_count m_label m_words store map seq set_reg Nat.eqb load lookup
       list_lookup length].
