(* ===== verification/Wp.v ===== *)
(** A small program logic for the programs of [Ipc]: what a program guarantees
    of its result and its final state, rule by rule. *)

From S2P Require Import Prelude Policy Ipc.

Section Rules.
Context {S W : Type}.
Implicit Types st : pd S W.

(** [m], run from [st], ends in a state and a result [Q] holds of. *)
Definition wp {A} (m : prog S W A) (st : pd S W) (Q : A -> pd S W -> Prop) : Prop :=
  let '(st', a) := m st in Q a st'.

Lemma wp_run {A} (m : prog S W A) st Q : wp m st Q <-> Q (snd (m st)) (fst (m st)).
Proof. unfold wp. by destruct (m st). Qed.

Lemma wp_mono {A} (m : prog S W A) st (Q R : A -> pd S W -> Prop) :
  wp m st Q -> (forall a st', Q a st' -> R a st') -> wp m st R.
Proof. unfold wp. destruct (m st). auto. Qed.

Lemma wp_ret {A} (a : A) st Q : Q a st -> wp (ret a) st Q.
Proof. done. Qed.

Lemma wp_bind {A B} (m : prog S W A) (f : A -> prog S W B) st Q :
  wp m st (fun a st' => wp (f a) st' Q) -> wp (bind m f) st Q.
Proof. unfold wp, bind. by destruct (m st). Qed.

Lemma wp_if {A} (b : bool) (m n : prog S W A) st Q :
  (b = true -> wp m st Q) -> (b = false -> wp n st Q) -> wp (if b then m else n) st Q.
Proof. destruct b; auto. Qed.

Lemma wp_when (b : bool) (m : prog S W unit) st (Q : unit -> pd S W -> Prop) :
  (b = true -> wp m st Q) -> (b = false -> Q tt st) -> wp (when b m) st Q.
Proof. destruct b; [auto|]. intros _ HQ. by apply HQ. Qed.

Lemma wp_get st Q : Q (self st) st -> wp get st Q.
Proof. done. Qed.

Lemma wp_put (s : S) st (Q : unit -> pd S W -> Prop) :
  Q tt {| self := s; peers := peers st; mr := mr st |} -> wp (put s) st Q.
Proof. done. Qed.

Lemma wp_mr_get i st Q : Q (mr st i) st -> wp (microkit_mr_get i) st Q.
Proof. done. Qed.

Lemma wp_mr_set i v st (Q : unit -> pd S W -> Prop) :
  Q tt {| self := self st; peers := peers st; mr := set_reg (mr st) i v |} ->
  wp (microkit_mr_set i v) st Q.
Proof. done. Qed.

(** A counted loop: an invariant indexed by the counter. *)
Lemma wp_loop (I : nat -> pd S W -> Prop) body n from st :
  I from st ->
  (forall i st', (from <= i < from + n)%nat -> I i st' -> wp (body i) st' (fun _ => I (i + 1)%nat)) ->
  wp (loop from n body) st (fun _ => I (from + n)%nat).
Proof.
  revert from st. induction n as [|n IH]; intros from st Hst Hbody; cbn [loop].
  - apply wp_ret. by rewrite Nat.add_0_r.
  - apply wp_bind. eapply wp_mono; [apply Hbody; [lia|done]|]. intros [] st' Hst'.
    rewrite Nat.add_1_r in Hst'. rewrite <- Nat.add_succ_comm. apply (IH (Datatypes.S from) st' Hst').
    intros i st'' Hi. apply Hbody. lia.
Qed.

Section Calls.
Context (call : W -> Z -> message -> W * message) (residue : message -> regs).

Lemma wp_ppcall ch i st Q :
  (let '(w, m) := call (peers st) ch
                    {| m_label := i_label i; m_words := store (mr st) (i_count i) |} in
   Q {| i_label := m_label m; i_count := length (m_words m) |}
     {| self := self st; peers := w; mr := load (m_words m) (residue m) |}) ->
  wp (microkit_ppcall call residue ch i) st Q.
Proof. unfold wp, microkit_ppcall. by destruct (call _ _ _). Qed.
End Calls.
End Rules.

(** One rule, chosen by the shape of the program. *)
Ltac wp_step :=
  lazymatch goal with
  | |- wp (bind _ _) _ _ => apply wp_bind
  | |- wp (ret _) _ _ => apply wp_ret
  | |- wp get _ _ => apply wp_get
  | |- wp (put _) _ _ => apply wp_put
  | |- wp (microkit_mr_get _) _ _ => apply wp_mr_get
  | |- wp (microkit_mr_set _ _) _ _ => apply wp_mr_set
  | |- wp (if _ then _ else _) _ _ => apply wp_if; intros ?
  end.
