(* ===== verification/Servers.v ===== *)
(** The servers of the seed system: [servers/policy.c], [servers/audit.c],
    [servers/storage.c] and [servers/client.c].

    Each server's [protected] entry is a program over its static variables; what
    it does to a message is then stated as a function on messages. *)

From S2P Require Import Prelude Policy Ipc.

(** ** servers/policy.c *)

Record policy_server := { live : tcs_policy; ready : bool }.

Definition policy_start : policy_server := {| live := policy_zero; ready := false |}.
Definition policy_init (s : policy_server) : policy_server := {| live := live s; ready := true |}.

Section PolicyServer.
Context {W : Type} (call : W -> Z -> message -> W * message) (residue : message -> regs).
#[local] Abbreviation prog := (prog policy_server W).

Definition policy_protected (ch : Z) (msg : msginfo) : prog msginfo :=
  let label := i_label msg in
  let* s := get in
  if negb (ready s) || (negb (ch =? 0) && negb (ch =? 1)) then tcs_reply (result TCS_DENIED 0)
  else if label =? TCS_LABEL TCS_SELF_STATUS then
    if negb (ch =? 1) then tcs_reply (result TCS_DENIED 0)
    else if negb (i_count msg =? 0)%nat then tcs_reply (result TCS_BAD_MESSAGE 0)
    else tcs_snapshot_reply (tcs_policy_self_status (live s) TCS_STORAGE)
  else if negb (i_count msg =? 4)%nat || (label <? TCS_LABEL TCS_GRANT) ||
          (TCS_LABEL TCS_RESTORE <? label)
  then tcs_reply (result TCS_BAD_MESSAGE 0)
  else
  let* w0 := microkit_mr_get 0 in
  let* w1 := microkit_mr_get 1 in
  let* w2 := microkit_mr_get 2 in
  let* w3 := microkit_mr_get 3 in
  let r := {| r_op := Z.land label 255; r_subject := w0; r_object := w1; r_rights := w2;
              r_generation := w3 |} in
  let actor := if ch =? 0 then TCS_ADMIN else TCS_STORAGE in
  let '(candidate, decision) := tcs_policy_apply (live s) actor r in
  do* microkit_mr_set 0 (r_op r) in
  do* microkit_mr_set 1 (tcs_actor_val actor) in
  do* microkit_mr_set 2 (r_subject r) in
  do* microkit_mr_set 3 (r_object r) in
  do* microkit_mr_set 4 (r_rights r) in
  do* microkit_mr_set 5 (r_generation r) in
  do* microkit_mr_set 6 (status decision) in
  let* reply := microkit_ppcall call residue 2 (info (TCS_LABEL TCS_AUDIT_APPEND) 7) in
  let* logged := tcs_response reply in
  let '(live', committed) :=
    tcs_policy_commit (live s) candidate r decision (status logged =? TCS_OK) in
  do* put {| live := live'; ready := ready s |} in
  do* (if negb (status logged =? TCS_OK) then microkit_dbg_puts else ret tt) in
  tcs_reply committed.
End PolicyServer.

(** ** servers/audit.c *)

Record audit_server := { records : list (list Z); count : nat }.

Definition audit_start : audit_server :=
  {| records := replicate TCS_AUDIT_CAPACITY (replicate 7 0); count := 0 |}.

Definition set_field (s : audit_server) (record field : nat) (v : Z) : audit_server :=
  {| records := alter (fun fields => <[field := v]> fields) record (records s); count := count s |}.

Section AuditServer.
Context {W : Type}.
#[local] Abbreviation prog := (prog audit_server W).

Definition audit_protected (ch : Z) (msg : msginfo) : prog msginfo :=
  let* s := get in
  if (ch =? 1) && tcs_message msg TCS_AUDIT_COUNT 0 then
    tcs_reply (result TCS_OK (Z.of_nat (count s)))
  else if (ch =? 1) && tcs_message msg TCS_AUDIT_GET 1 then
    let* index := microkit_mr_get 0 in
    if Z.of_nat (count s) <=? index then tcs_reply (result TCS_DENIED 0)
    else
      do* microkit_mr_set 0 (wrap64 (index + 1)) in
      do* loop 0 7 (fun i => microkit_mr_set (i + 1) ((records s !!! Z.to_nat index) !!! i)) in
      ret (info (TCS_LABEL TCS_AUDIT_GET) 8)
  else if negb (ch =? 0) then tcs_reply (result TCS_DENIED 0)
  else if negb (tcs_message msg TCS_AUDIT_APPEND 7) then tcs_reply (result TCS_BAD_MESSAGE 0)
  else if (count s =? TCS_AUDIT_CAPACITY)%nat then tcs_reply (result TCS_AUDIT_FULL 0)
  else
    do* loop 0 7 (fun i =>
      let* v := microkit_mr_get i in
      let* s := get in
      put (set_field s (count s) i v)) in
    let* s := get in
    do* put {| records := records s; count := S (count s) |} in
    do* microkit_dbg_puts in
    let* s := get in
    tcs_reply (result TCS_OK (Z.of_nat (count s))).
End AuditServer.

(** ** servers/storage.c *)

Section StorageServer.
Context {W : Type} (call : W -> Z -> message -> W * message) (residue : message -> regs).
#[local] Abbreviation prog := (prog unit W).

Definition storage_protected (ch : Z) (msg : msginfo) : prog msginfo :=
  if negb (ch =? 0) then tcs_reply (result TCS_DENIED 0)
  else if tcs_message msg TCS_STORE_STATUS 0 then
    microkit_ppcall call residue 1 (info (TCS_LABEL TCS_SELF_STATUS) 0)
  else if negb (tcs_message msg TCS_STORE_READ 3) then tcs_reply (result TCS_BAD_MESSAGE 0)
  else
  let* w0 := microkit_mr_get 0 in
  let* w1 := microkit_mr_get 1 in
  let* w2 := microkit_mr_get 2 in
  let r := {| r_op := TCS_CHECK; r_subject := TCS_CLIENT_SUBJECT; r_object := w0;
              r_rights := w1; r_generation := w2 |} in
  let* decision := tcs_policy_call call residue 1 r in
  tcs_reply (result (status decision) (if status decision =? TCS_OK then TCS_SAMPLE else 0)).
End StorageServer.

(** ** servers/client.c *)

Section ClientServer.
Context {W : Type} (call : W -> Z -> message -> W * message) (residue : message -> regs).
#[local] Abbreviation prog := (prog unit W).

Definition client_protected (ch : Z) (msg : msginfo) : prog msginfo :=
  if negb (ch =? 0) then tcs_reply (result TCS_DENIED 0)
  else if tcs_message msg TCS_CLIENT_STATUS 0 then
    microkit_ppcall call residue 1 (info (TCS_LABEL TCS_STORE_STATUS) 0)
  else if tcs_message msg TCS_CLIENT_BAD_LENGTH 0 then
    microkit_ppcall call residue 1 (info (TCS_LABEL TCS_STORE_READ) 0)
  else if tcs_message msg TCS_CLIENT_TRY_GRANT 0 then
    microkit_ppcall call residue 1 (info (TCS_LABEL TCS_GRANT) 0)
  else if negb (tcs_message msg TCS_CLIENT_READ 3) then tcs_reply (result TCS_BAD_MESSAGE 0)
  else microkit_ppcall call residue 1 (info (TCS_LABEL TCS_STORE_READ) 3).
End ClientServer.

(** ** The servers as functions on messages *)

(** The audit record of a decision. *)
Definition decision_record (r : tcs_request) (actor : tcs_actor) (d : tcs_result) : list Z :=
  [r_op r; tcs_actor_val actor; r_subject r; r_object r; r_rights r; r_generation r; status d].

Definition append_message (fields : list Z) : message :=
  {| m_label := TCS_LABEL TCS_AUDIT_APPEND; m_words := fields |}.

Definition channel_actor (ch : Z) : tcs_actor := if ch =? 0 then TCS_ADMIN else TCS_STORAGE.

(** The decision on a request: one audit append, then the commit. *)
Definition policy_decide {W} (call : W -> Z -> message -> W * message) (p : tcs_policy) (w : W)
    (actor : tcs_actor) (r : tcs_request) : tcs_policy * W * tcs_result :=
  let '(candidate, d) := tcs_policy_apply p actor r in
  let '(w', m) := call w 2 (append_message (decision_record r actor d)) in
  let '(p', res) := tcs_policy_commit p candidate r d (status (response m) =? TCS_OK) in
  (p', w', res).

Definition policy_answer {W} (call : W -> Z -> message -> W * message) (s : policy_server) (w : W)
    (ch : Z) (m : message) : policy_server * W * message :=
  if negb (ready s) || (negb (ch =? 0) && negb (ch =? 1)) then
    (s, w, reply_message (result TCS_DENIED 0))
  else if m_label m =? TCS_LABEL TCS_SELF_STATUS then
    (s, w,
     if negb (ch =? 1) then reply_message (result TCS_DENIED 0)
     else if negb (length (m_words m) =? 0)%nat then reply_message (result TCS_BAD_MESSAGE 0)
     else snapshot_message (tcs_policy_self_status (live s) TCS_STORAGE))
  else
    match m_words m with
    | [su; ob; ri; ge] =>
        if (m_label m <? TCS_LABEL TCS_GRANT) || (TCS_LABEL TCS_RESTORE <? m_label m) then
          (s, w, reply_message (result TCS_BAD_MESSAGE 0))
        else
          let '(p', w', res) := policy_decide call (live s) w (channel_actor ch)
            {| r_op := Z.land (m_label m) 255; r_subject := su; r_object := ob; r_rights := ri;
               r_generation := ge |} in
          ({| live := p'; ready := ready s |}, w', reply_message res)
    | _ => (s, w, reply_message (result TCS_BAD_MESSAGE 0))
    end.

Lemma policy_serve {W} (call : W -> Z -> message -> W * message) residue s w ch m :
  serve residue (policy_protected call residue) s w ch m = policy_answer call s w ch m.
Proof.
  unfold serve, policy_answer, policy_protected. cbn [i_label i_count].
  unfold bind at 1, get at 1. cbn [self].
  destruct (negb (ready s) || _); [done|].
  destruct (m_label m =? TCS_LABEL TCS_SELF_STATUS).
  { destruct (negb (ch =? 1)); [done|]. destruct (negb _); [done|].
    pose proof (tcs_snapshot_reply_run {| self := s; peers := w; mr := load (m_words m) (residue m) |}
      (tcs_policy_self_status (live s) TCS_STORAGE)) as H.
    destruct (tcs_snapshot_reply _ _) as [st' i]. by destruct H as (-> & -> & ->). }
  destruct (m_words m) as [|su [|ob [|ri [|ge [|x l]]]]]; try done.
  cbn [length Nat.eqb negb orb]. destruct (_ || _); [done|].
  run_prog. fold (channel_actor ch). unfold policy_decide.
  destruct (tcs_policy_apply _ _ _) as [candidate d]. unfold microkit_ppcall. run_prog.
  cbn [r_op r_subject r_object r_rights r_generation].
  change {| m_label := TCS_LABEL TCS_AUDIT_APPEND; m_words := _ |} with
    (append_message (decision_record {| r_op := Z.land (m_label m) 255; r_subject := su;
       r_object := ob; r_rights := ri; r_generation := ge |} (channel_actor ch) d)).
  destruct (call w 2 _) as [w' reply].
  rewrite (tcs_response_run _ reply (residue reply)) by done.
  destruct (tcs_policy_commit _ _ _ _ _) as [live' res].
  by destruct (negb (status (response reply) =? TCS_OK)).
Qed.

(** *** The audit log *)

(** The decisions recorded, oldest first. *)
Definition audit_log (s : audit_server) : list (list Z) := take (count s) (records s).

Definition audit_wf (s : audit_server) : Prop :=
  length (records s) = TCS_AUDIT_CAPACITY /\ (count s <= TCS_AUDIT_CAPACITY)%nat /\
  Forall (fun fields => length fields = 7%nat) (records s).

(** The contract of the audit server, on the log alone: append-only, bounded,
    readable by record number. *)
Definition audit_answer (log : list (list Z)) (ch : Z) (m : message) : list (list Z) * message :=
  if (ch =? 1) && (m_label m =? TCS_LABEL TCS_AUDIT_COUNT) && (length (m_words m) =? 0)%nat then
    (log, reply_message (result TCS_OK (Z.of_nat (length log))))
  else if (ch =? 1) && (m_label m =? TCS_LABEL TCS_AUDIT_GET) && (length (m_words m) =? 1)%nat then
    let index := m_words m !!! 0%nat in
    (log, if Z.of_nat (length log) <=? index then reply_message (result TCS_DENIED 0)
          else {| m_label := TCS_LABEL TCS_AUDIT_GET;
                  m_words := (index + 1) :: log !!! Z.to_nat index |})
  else if negb (ch =? 0) then (log, reply_message (result TCS_DENIED 0))
  else if negb ((m_label m =? TCS_LABEL TCS_AUDIT_APPEND) && (length (m_words m) =? 7)%nat) then
    (log, reply_message (result TCS_BAD_MESSAGE 0))
  else if (length log =? TCS_AUDIT_CAPACITY)%nat then
    (log, reply_message (result TCS_AUDIT_FULL 0))
  else (log ++ [m_words m], reply_message (result TCS_OK (Z.of_nat (length log) + 1))).

Lemma audit_log_length s : audit_wf s -> length (audit_log s) = count s.
Proof. intros (Hl & Hc & _). unfold audit_log. rewrite length_take. lia. Qed.

Lemma alter_middle {A} (f : A -> A) before x after :
  alter f (length before) (before ++ x :: after) = before ++ f x :: after.
Proof. induction before as [|y before IH]; [done|]. cbn. f_equal. exact IH. Qed.

Lemma insert_middle {A} before (x y : A) after :
  <[length before := y]> (before ++ x :: after) = before ++ y :: after.
Proof. rewrite list_insert_alter. apply alter_middle. Qed.

(** The seven stores of an append. *)
Lemma append_stores {W} s (w : W) r :
  (count s < length (records s))%nat -> Forall (fun fields => length fields = 7%nat) (records s) ->
  loop 0 7 (fun i => let* v := microkit_mr_get i in
                     let* s := get in put (set_field s (count s) i v))
    {| self := s; peers := w; mr := r |} =
    ({| self := {| records := <[count s := store r 7]> (records s); count := count s |};
        peers := w; mr := r |}, tt).
Proof.
  intros Hlt Hall. destruct s as [recs n]. cbn [records count] in *.
  destruct (lookup_lt_is_Some_2 recs n Hlt) as [fields Hf].
  pose proof (Forall_lookup_1 _ _ _ _ Hall Hf) as Hlen. simpl in Hlen.
  rewrite <- (take_drop_middle recs n fields Hf).
  assert (Hn : n = length (take n recs)) by (rewrite length_take; lia).
  set (before := take n recs) in *. set (after := drop (S n) recs). clearbody before after.
  subst n. do 7 (destruct fields as [|? fields]; [done|]). destruct fields; [|done].
  cbv [loop]. run_prog. unfold set_field. cbn [records count].
  rewrite !alter_middle, insert_middle. done.
Qed.

Lemma store_load words rest : store (load words rest) (length words) = words.
Proof.
  unfold store, load. apply list_eq_same_length with (length words);
    [done|by rewrite length_map, length_seq|].
  intros i x y Hi Hx Hy. rewrite list_lookup_fmap in Hx.
  rewrite lookup_seq_lt in Hx by done. simpl in Hx. rewrite Hy in Hx. by inv_pair.
Qed.

Lemma audit_log_snoc s words :
  audit_wf s -> (count s < TCS_AUDIT_CAPACITY)%nat ->
  audit_log {| records := <[count s := words]> (records s); count := S (count s) |} =
    audit_log s ++ [words].
Proof.
  intros (Hl & _ & _) Hlt. unfold audit_log. cbn [records count].
  rewrite (take_S_r _ _ words) by (apply list_lookup_insert_eq; lia).
  by rewrite take_insert_ge.
Qed.

(** The server implements the contract. *)
Lemma audit_serve {W} residue s (w : W) ch m :
  audit_wf s -> Forall u64 (m_words m) ->
  exists s' a, serve residue audit_protected s w ch m = (s', w, a) /\ audit_wf s' /\
    audit_answer (audit_log s) ch m = (audit_log s', a).
Proof.
  intros Hs Hm. pose proof Hs as (Hl & Hc & Hall).
  unfold serve, audit_answer, audit_protected, tcs_message. rewrite audit_log_length by done.
  unfold bind at 1, get at 1. cbn [self i_label i_count].
  destruct (ch =? 1) eqn:Hch; cbn [andb].
  { replace (ch =? 0) with false by lia. cbn [negb].
    destruct ((m_label m =? TCS_LABEL TCS_AUDIT_COUNT) && _).
    { by exists s, (reply_message (result TCS_OK (Z.of_nat (count s)))). }
    destruct (m_label m =? TCS_LABEL TCS_AUDIT_GET); cbn [andb].
    2: { by exists s, (reply_message (result TCS_DENIED 0)). }
    destruct (m_words m) as [|index [|? ?]] eqn:Hw; cbn [length Nat.eqb];
      try by exists s, (reply_message (result TCS_DENIED 0)).
    run_prog. cbn [lookup_total list_lookup_total].
    destruct (Z.of_nat (count s) <=? index) eqn:Hi.
    { by exists s, (reply_message (result TCS_DENIED 0)). }
    assert (Hu : u64 index) by (by inversion Hm).
    eexists s, _. split; [reflexivity|]. split; [done|]. f_equal. f_equal.
    run_prog. unfold wrap64. rewrite Z.mod_small by (unfold TCS_AUDIT_CAPACITY in *; word_lia).
    f_equal. unfold audit_log.
    assert (Hlt : (Z.to_nat index < count s)%nat) by (unfold u64 in Hu; lia).
    destruct (lookup_lt_is_Some_2 (records s) (Z.to_nat index) ltac:(lia)) as [fields Hf].
    rewrite list_lookup_total_alt, lookup_take_lt, Hf by done. cbn [default].
    rewrite (list_lookup_total_correct _ _ _ Hf).
    pose proof (Forall_lookup_1 _ _ _ _ Hall Hf) as Hlen. simpl in Hlen.
    do 7 (destruct fields as [|? fields]; [done|]). by destruct fields. }
  destruct (ch =? 0); cbn [negb]; [|by exists s, (reply_message (result TCS_DENIED 0))].
  destruct (m_label m =? TCS_LABEL TCS_AUDIT_APPEND); cbn [andb negb];
    [|by exists s, (reply_message (result TCS_BAD_MESSAGE 0))].
  destruct (length (m_words m) =? 7)%nat eqn:Hlen; cbn [negb];
    [|by exists s, (reply_message (result TCS_BAD_MESSAGE 0))].
  destruct (count s =? TCS_AUDIT_CAPACITY)%nat eqn:Hfull;
    [by exists s, (reply_message (result TCS_AUDIT_FULL 0))|].
  apply Nat.eqb_eq in Hlen. apply Nat.eqb_neq in Hfull.
  assert (Hlt : (count s < TCS_AUDIT_CAPACITY)%nat) by lia.
  unfold bind at 1. rewrite append_stores by (done || lia).
  rewrite <- Hlen, store_load. run_prog.
  exists {| records := <[count s := m_words m]> (records s); count := S (count s) |}.
  eexists. split; [reflexivity|]. split.
  - split; [cbn [records]; by rewrite length_insert|]. split; [cbn [count]; lia|].
    cbn [records]. by apply Forall_insert.
  - rewrite audit_log_snoc by done. f_equal. unfold reply_message. cbn [count status value Policy.result].
    cbn. do 3 f_equal. lia.
Qed.

(** *** Storage and client *)

Definition check_request (object rights generation : Z) : tcs_request :=
  {| r_op := TCS_CHECK; r_subject := TCS_CLIENT_SUBJECT; r_object := object; r_rights := rights;
     r_generation := generation |}.

(** What storage discloses for a decision of the policy. *)
Definition disclose (decision : tcs_result) : tcs_result :=
  result (status decision) (if status decision =? TCS_OK then TCS_SAMPLE else 0).

Definition storage_answer {W} (call : W -> Z -> message -> W * message) (w : W) (ch : Z)
    (m : message) : W * message :=
  if negb (ch =? 0) then (w, reply_message (result TCS_DENIED 0))
  else if (m_label m =? TCS_LABEL TCS_STORE_STATUS) && (length (m_words m) =? 0)%nat then
    call w 1 {| m_label := TCS_LABEL TCS_SELF_STATUS; m_words := [] |}
  else if negb ((m_label m =? TCS_LABEL TCS_STORE_READ) && (length (m_words m) =? 3)%nat) then
    (w, reply_message (result TCS_BAD_MESSAGE 0))
  else
    let '(w', a) := call w 1 (request_message (check_request (m_words m !!! 0%nat)
                                (m_words m !!! 1%nat) (m_words m !!! 2%nat))) in
    (w', reply_message (disclose (response a))).

Definition client_answer {W} (call : W -> Z -> message -> W * message) (w : W) (ch : Z)
    (m : message) : W * message :=
  let forward label words := call w 1 {| m_label := TCS_LABEL label; m_words := words |} in
  if negb (ch =? 0) then (w, reply_message (result TCS_DENIED 0))
  else if (m_label m =? TCS_LABEL TCS_CLIENT_STATUS) && (length (m_words m) =? 0)%nat then
    forward TCS_STORE_STATUS []
  else if (m_label m =? TCS_LABEL TCS_CLIENT_BAD_LENGTH) && (length (m_words m) =? 0)%nat then
    forward TCS_STORE_READ []
  else if (m_label m =? TCS_LABEL TCS_CLIENT_TRY_GRANT) && (length (m_words m) =? 0)%nat then
    forward TCS_GRANT []
  else if negb ((m_label m =? TCS_LABEL TCS_CLIENT_READ) && (length (m_words m) =? 3)%nat) then
    (w, reply_message (result TCS_BAD_MESSAGE 0))
  else forward TCS_STORE_READ (m_words m).

Section Forwarding.
Context {W : Type} (call : W -> Z -> message -> W * message) (residue : message -> regs).

(** A domain that returns its peer's answer passes the message on. *)
Lemma ppcall_forward {S} (s : S) (w : W) r ch i :
  let '(st, i') := microkit_ppcall call residue ch i {| self := s; peers := w; mr := r |} in
  let '(w', a) := call w ch {| m_label := i_label i; m_words := store r (i_count i) |} in
  self st = s /\ peers st = w' /\
  {| m_label := i_label i'; m_words := store (mr st) (i_count i') |} = a.
Proof.
  unfold microkit_ppcall. cbn [peers mr self]. destruct (call w ch _) as [w' a].
  split_and!; [done|done|]. cbn [i_label i_count mr]. rewrite store_load. by destruct a.
Qed.

Lemma storage_serve (w : W) ch m :
  serve residue (storage_protected call residue) tt w ch m =
    let '(w', a) := storage_answer call w ch m in (tt, w', a).
Proof.
  unfold serve, storage_answer, storage_protected, tcs_message. cbn [i_label i_count].
  destruct (negb (ch =? 0)); [done|].
  destruct ((m_label m =? TCS_LABEL TCS_STORE_STATUS) && _).
  { pose proof (ppcall_forward tt w (load (m_words m) (residue m)) 1
      (info (TCS_LABEL TCS_SELF_STATUS) 0)) as H.
    destruct (microkit_ppcall _ _ _ _ _) as [st i].
    cbn [i_label i_count info] in H. change (store (load _ _) 0) with (@nil Z) in H.
    destruct (call w 1 _) as [w' a]. by destruct H as (-> & -> & ->). }
  destruct (m_words m) as [|o [|r [|g [|x l]]]]; cbn [length Nat.eqb];
    rewrite ?andb_false_r; try done.
  destruct (m_label m =? TCS_LABEL TCS_STORE_READ); cbn [andb negb]; [|done].
  unfold tcs_policy_call, microkit_ppcall. run_prog.
  cbn [r_op r_subject r_object r_rights r_generation lookup_total list_lookup_total].
  unfold request_message, check_request. cbn [r_op r_subject r_object r_rights r_generation].
  destruct (call w 1 _) as [w' a].
  by rewrite (tcs_response_run _ a (residue a)) by done.
Qed.

Lemma client_serve (w : W) ch m :
  serve residue (client_protected call residue) tt w ch m =
    let '(w', a) := client_answer call w ch m in (tt, w', a).
Proof.
  unfold serve, client_answer, client_protected, tcs_message. cbn [i_label i_count].
  destruct (negb (ch =? 0)); [done|].
  assert (Hfwd : forall label n words, store (load (m_words m) (residue m)) n = words ->
    (let '(st, i) := microkit_ppcall call residue 1 (info (TCS_LABEL label) n)
       {| self := tt; peers := w; mr := load (m_words m) (residue m) |} in
     (self st, peers st, {| m_label := i_label i; m_words := store (mr st) (i_count i) |})) =
    let '(w', a) := call w 1 {| m_label := TCS_LABEL label; m_words := words |} in (tt, w', a)).
  { intros label n words <-.
    pose proof (ppcall_forward tt w (load (m_words m) (residue m)) 1 (info (TCS_LABEL label) n)) as H.
    destruct (microkit_ppcall _ _ _ _ _) as [st i]. cbn [i_label i_count info] in H.
    destruct (call w 1 _) as [w' a]. by destruct H as (-> & -> & ->). }
  destruct (_ && _); [by apply Hfwd|]. destruct (_ && _); [by apply Hfwd|].
  destruct (_ && _); [by apply Hfwd|].
  destruct ((m_label m =? TCS_LABEL TCS_CLIENT_READ) && (length (m_words m) =? 3)%nat) eqn:Hr;
    cbn [negb]; [|done].
  apply Hfwd. apply andb_true_iff in Hr as [_ Hr%Nat.eqb_eq]. rewrite <- Hr. apply store_load.
Qed.
End Forwarding.
