(* ===== verification/Authority.v ===== *)
(** The authority of the system and its interfaces.

    [authority] is a policy and the bounded log of its decisions;
    [decide_and_record] is one decision. The classes state what a domain may
    rely on when it calls another: the audit's log ([audit_channel]), the policy's
    answers to the storage ([policy_channel]) and the storage's answers to the
    client ([storage_channel]). The servers' answers are derived from the
    interfaces alone, whatever system provides them. *)

From S2P Require Import Prelude Policy Ipc Servers.

(** ** Decisions and their record *)

Abbreviation log := (list (list Z)).

(** The authority of the system and the record of its decisions. *)
Definition authority : Type := tcs_policy * log.

(** A decision: recorded when the log has room, and committed. *)
Definition decide_and_record (st : authority) (actor : tcs_actor) (r : tcs_request)
    : authority * tcs_result :=
  let '(p, l) := st in
  let '(candidate, d) := tcs_policy_apply p actor r in
  let room := negb (length l =? TCS_AUDIT_CAPACITY)%nat in
  let '(p', res) := tcs_policy_commit p candidate r d room in
  ((p', if room then l ++ [decision_record r actor d] else l), res).

Definition policy_op (m : message) : bool :=
  (TCS_LABEL TCS_GRANT <=? m_label m) && (m_label m <=? TCS_LABEL TCS_RESTORE) &&
  (length (m_words m) =? 4)%nat.

Definition message_request (m : message) : tcs_request :=
  {| r_op := Z.land (m_label m) 255; r_subject := m_words m !!! 0%nat;
     r_object := m_words m !!! 1%nat; r_rights := m_words m !!! 2%nat;
     r_generation := m_words m !!! 3%nat |}.

(** What the client's domain is asked. *)
Definition client_op (m : message) (op : Z) (count : nat) : bool :=
  (m_label m =? TCS_LABEL op) && (length (m_words m) =? count)%nat.

Definition bad_message : message := reply_message (result TCS_BAD_MESSAGE 0).

(** The policy's answers to its two callers: the administrator on channel 0, the
    storage on channel 1. *)
Definition policy_contract (st : authority) (ch : Z) (m : message) : authority * message :=
  if m_label m =? TCS_LABEL TCS_SELF_STATUS then
    (st,
     if ch =? 0 then reply_message (result TCS_DENIED 0)
     else if negb (length (m_words m) =? 0)%nat then bad_message
     else snapshot_message (tcs_policy_self_status (fst st) TCS_STORAGE))
  else if policy_op m then
    let '(st', res) := decide_and_record st (channel_actor ch) (message_request m) in
    (st', reply_message res)
  else (st, bad_message).

(** A read by the client: a check, disclosed. *)
Definition read_contract (st : authority) (m : message) : authority * message :=
  let '(st', res) := decide_and_record st TCS_STORAGE
    (check_request (m_words m !!! 0%nat) (m_words m !!! 1%nat) (m_words m !!! 2%nat)) in
  (st', reply_message (disclose res)).

Definition storage_contract (st : authority) (m : message) : authority * message :=
  if client_op m TCS_STORE_STATUS 0 then
    (st, snapshot_message (tcs_policy_self_status (fst st) TCS_STORAGE))
  else if client_op m TCS_STORE_READ 3 then read_contract st m
  else (st, bad_message).

Definition client_contract (st : authority) (m : message) : authority * message :=
  if client_op m TCS_CLIENT_STATUS 0 then
    (st, snapshot_message (tcs_policy_self_status (fst st) TCS_STORAGE))
  else if client_op m TCS_CLIENT_READ 3 then read_contract st m
  else (st, bad_message).

Lemma apply_status_u64 p actor r : u64 (status (snd (tcs_policy_apply p actor r))).
Proof.
  unfold tcs_policy_apply, apply_to_subject.
  repeat split_if; simpl; policy_lia.
Qed.

Lemma decision_record_u64 p actor r :
  request_u64 r -> Forall u64 (decision_record r actor (snd (tcs_policy_apply p actor r))).
Proof.
  intros (Ho & Hs & Hb & Hr & Hg). unfold decision_record.
  repeat apply List.Forall_cons; try done; [destruct actor; simpl; word_lia|apply apply_status_u64].
Qed.

Lemma land_255_u64 z : u64 (Z.land z 255).
Proof.
  change 255 with (Z.ones 8). rewrite Z.land_ones by lia.
  pose proof (Z.mod_pos_bound z (2 ^ 8)). word_lia.
Qed.

Lemma words_u64 m i : Forall u64 (m_words m) -> (i < length (m_words m))%nat -> u64 (m_words m !!! i).
Proof. intros Hm Hi. by apply Forall_lookup_total_1. Qed.

(** ** What a decision does to the authority *)

(** The policy event and the record of a decision. *)
Definition decision_event (actor : tcs_actor) (r : tcs_request) (recorded : bool) : policy_event :=
  {| ev_actor := actor; ev_request := r; ev_audit_ok := recorded |}.

Definition has_room (l : log) : bool := (length l <? TCS_AUDIT_CAPACITY)%nat.


Lemma decide_room p l actor r :
  (length l < TCS_AUDIT_CAPACITY)%nat ->
  decide_and_record (p, l) actor r =
    ((policy_step p {| ev_actor := actor; ev_request := r; ev_audit_ok := true |},
      l ++ [decision_record r actor (snd (tcs_policy_apply p actor r))]),
     snd (tcs_policy_apply p actor r)).
Proof.
  intros Hl. unfold decide_and_record, policy_step, policy_transition, tcs_policy_commit. simpl.
  destruct (tcs_policy_apply p actor r) as [candidate d].
  replace (length l =? TCS_AUDIT_CAPACITY)%nat with false by (symmetry; apply Nat.eqb_neq; lia).
  done.
Qed.

Lemma decide_full p l actor r :
  length l = TCS_AUDIT_CAPACITY ->
  decide_and_record (p, l) actor r =
    ((policy_step p {| ev_actor := actor; ev_request := r; ev_audit_ok := false |}, l),
     result TCS_AUDIT_FULL 0).
Proof.
  intros Hl. unfold decide_and_record, policy_step, policy_transition, tcs_policy_commit. simpl.
  destruct (tcs_policy_apply p actor r) as [candidate d]. by rewrite Hl.
Qed.

(** A check leaves the policy alone. *)
Lemma check_keeps p audit r :
  policy_ok p -> request_u64 r -> r_op r = TCS_CHECK ->
  policy_step p {| ev_actor := TCS_STORAGE; ev_request := r; ev_audit_ok := audit |} = p.
Proof.
  intros Hp Hr Hop. destruct (policy_check_iff p TCS_STORAGE r Hp Hr Hop) as [Hfst _].
  unfold policy_step, policy_transition, tcs_policy_commit. simpl.
  destruct (tcs_policy_apply p TCS_STORAGE r) as [candidate d]. simpl in Hfst. subst candidate.
  destruct audit; by destruct (_ && _).
Qed.

Definition authority_ok (st : authority) : Prop :=
  policy_ok (fst st) /\ (length (snd st) <= TCS_AUDIT_CAPACITY)%nat.

(** The requests behind the system's two kinds of decision. *)
Lemma message_request_u64 m : policy_op m = true -> Forall u64 (m_words m) -> request_u64 (message_request m).
Proof.
  intros (_ & Hl%Nat.eqb_eq)%andb_true_iff Hm.
  split_and!; cbn; [apply land_255_u64|apply words_u64; [done|lia]..].
Qed.

Lemma check_request_u64 o r g : u64 o -> u64 r -> u64 g -> request_u64 (check_request o r g).
Proof. intros. split_and!; try done; cbn; policy_lia. Qed.

(** The one decision a call asks for, if any. *)
(** ** Reads *)

Lemma disclose_iff d :
  (disclose d = result TCS_OK TCS_SAMPLE <-> status d = TCS_OK) /\
  (disclose d <> result TCS_OK TCS_SAMPLE -> value (disclose d) = 0).
Proof.
  unfold disclose. destruct (status d =? TCS_OK) eqn:Hd; cbn [value result].
  - apply Z.eqb_eq in Hd. rewrite Hd. done.
  - apply Z.eqb_neq in Hd. split; [|done]. split; [by intros [= ?]|done].
Qed.

Lemma read_decision st o r g :
  authority_ok st -> u64 o -> u64 r -> u64 g ->
  status (snd (decide_and_record st TCS_STORAGE (check_request o r g))) = TCS_OK <->
  has_room (snd st) = true /\ o = TCS_OBJECT /\ r = TCS_READ /\
  admits (fst st) TCS_CLIENT_SUBJECT g.
Proof.
  intros [Hp Hl] Ho Hr Hg. destruct st as [p l]. cbn [fst snd] in *. unfold has_room.
  pose proof (check_request_u64 o r g Ho Hr Hg) as Hreq.
  destruct (policy_check_iff p TCS_STORAGE (check_request o r g) Hp Hreq eq_refl) as [_ Hiff].
  destruct (length l <? TCS_AUDIT_CAPACITY)%nat eqn:Hroom.
  - apply Nat.ltb_lt in Hroom. rewrite decide_room by done. cbn [snd]. rewrite Hiff.
    cbn [check_request r_subject r_object r_rights r_generation]. intuition done.
  - apply Nat.ltb_ge in Hroom. rewrite decide_full by lia. cbn. split; [done|]. by intros [? _].
Qed.

(** Only the console's channel to the policy changes the policy. *)
Lemma client_op_words m op n : client_op m op n = true -> m_label m = TCS_LABEL op /\ length (m_words m) = n.
Proof. unfold client_op. intros [?%Z.eqb_eq ?%Nat.eqb_eq]%andb_true_iff. done. Qed.

Lemma snapshot_message_discloses_nothing s :
  snapshot_message s <> reply_message (result TCS_OK TCS_SAMPLE) /\
  (m_label (snapshot_message s) = TCS_REPLY -> value (response (snapshot_message s)) = 0).
Proof. unfold snapshot_message. repeat split_if; split; done. Qed.

(** The client's calls: what they disclose. *)
(** What the client's calls disclose. *)
Lemma client_contract_discloses st m :
  authority_ok st -> Forall u64 (m_words m) ->
  let a := snd (client_contract st m) in
  (a = reply_message (result TCS_OK TCS_SAMPLE) <->
   m_label m = TCS_LABEL TCS_CLIENT_READ /\ has_room (snd st) = true /\
   exists g, m_words m = [TCS_OBJECT; TCS_READ; g] /\ admits (fst st) TCS_CLIENT_SUBJECT g) /\
  (m_label a = TCS_REPLY -> a <> reply_message (result TCS_OK TCS_SAMPLE) -> value (response a) = 0).
Proof.
  intros Hok Hm. unfold client_contract, read_contract.
  destruct (client_op m TCS_CLIENT_STATUS 0) eqn:Hs.
  { apply client_op_words in Hs as [Hs _].
    destruct (snapshot_message_discloses_nothing (tcs_policy_self_status (fst st) TCS_STORAGE)).
    split; [|auto]. split; [by intros|]. rewrite Hs. by intros [? _]. }
  destruct (client_op m TCS_CLIENT_READ 3) eqn:Hr; cycle 1.
  { split; [|done]. split; [done|]. intros (Hl & _ & g & Hw & _). unfold client_op in Hr.
    by rewrite Hl, Hw in Hr. }
  apply client_op_words in Hr as [Hlabel Hlen].
  pose proof (read_decision st _ _ _ Hok (words_u64 m 0 Hm ltac:(lia))
    (words_u64 m 1 Hm ltac:(lia)) (words_u64 m 2 Hm ltac:(lia))) as Hread.
  destruct (decide_and_record _ _ _) as [st' res]. cbn [snd] in *.
  destruct (disclose_iff res) as [Hiff Hzero]. rewrite response_reply.
  assert (Hinj : reply_message (disclose res) = reply_message (result TCS_OK TCS_SAMPLE) <->
                 disclose res = result TCS_OK TCS_SAMPLE).
  { split; [|by intros ->]. intros H. rewrite <- (response_reply (disclose res)), H. done. }
  rewrite Hinj. split; [|intros _; exact Hzero]. rewrite Hiff, Hread. split.
  - intros (Hroom & Ho & Hri & Had). split_and!; [done|done|]. exists (m_words m !!! 2%nat).
    split; [|done]. destruct (m_words m) as [|a0 [|a1 [|a2 [|]]]]; try done. cbn in Ho, Hri.
    by subst.
  - intros (_ & Hroom & g & Hw & Had). by rewrite Hw.
Qed.

(** A decision changes the policy only when it is OK, and recorded or a reduction. *)
Lemma policy_step_changes p actor r recorded :
  policy_step p (decision_event actor r recorded) <> p ->
  status (snd (tcs_policy_apply p actor r)) = TCS_OK /\
  (recorded = true \/ is_reduction r = true).
Proof.
  unfold policy_step, policy_transition, tcs_policy_commit. cbn [decision_event ev_actor ev_request ev_audit_ok].
  destruct (tcs_policy_apply p actor r) as [candidate d]. cbn [snd].
  destruct (status d =? TCS_OK) eqn:Hd; cbn [andb]; [|by destruct recorded].
  apply Z.eqb_eq in Hd. destruct recorded; [auto|]. destruct (is_reduction r); auto.
Qed.

(** ** Replaying the log *)

Definition actor_of (v : Z) : tcs_actor :=
  if v =? 1 then TCS_ADMIN else if v =? 2 then TCS_STORAGE else TCS_UNKNOWN.

(** The decision a record tells. *)
Definition record_event (fields : list Z) : policy_event :=
  decision_event (actor_of (fields !!! 1%nat))
    {| r_op := fields !!! 0%nat; r_subject := fields !!! 2%nat; r_object := fields !!! 3%nat;
       r_rights := fields !!! 4%nat; r_generation := fields !!! 5%nat |} true.

(** The policy the recorded decisions produce from zero-initialized memory. *)
Definition replay (l : log) : tcs_policy := exec policy_step policy_zero (map record_event l).

Lemma record_event_record r actor d :
  record_event (decision_record r actor d) = decision_event actor r true.
Proof. by destruct r, actor. Qed.

Lemma replay_snoc l fields : replay (l ++ [fields]) = policy_step (replay l) (record_event fields).
Proof. unfold replay. by rewrite map_app, exec_app. Qed.


(** A decision keeps the authority well formed. *)
Lemma decide_eq st actor r :
  authority_ok st ->
  fst (decide_and_record st actor r) =
    (policy_step (fst st) (decision_event actor r (has_room (snd st))),
     if has_room (snd st)
     then snd st ++ [decision_record r actor (snd (tcs_policy_apply (fst st) actor r))]
     else snd st).
Proof.
  intros [_ Hl]. destruct st as [p l]. cbn [fst snd] in *. unfold has_room.
  destruct (length l <? TCS_AUDIT_CAPACITY)%nat eqn:Hroom.
  - apply Nat.ltb_lt in Hroom. by rewrite decide_room.
  - apply Nat.ltb_ge in Hroom. by rewrite decide_full by lia.
Qed.

Lemma decide_ok st actor r :
  authority_ok st -> request_u64 r -> authority_ok (fst (decide_and_record st actor r)).
Proof.
  intros Hok Hr. rewrite decide_eq by done. pose proof Hok as [Hp Hl].
  split; cbn [fst snd]; [by apply policy_step_ok|]. unfold has_room.
  destruct (_ <? _)%nat eqn:Hroom; [|done]. apply Nat.ltb_lt in Hroom. rewrite length_app. cbn. lia.
Qed.

Lemma policy_contract_ok st ch m :
  authority_ok st -> Forall u64 (m_words m) -> authority_ok (fst (policy_contract st ch m)).
Proof.
  intros Hok Hm. unfold policy_contract. destruct (_ =? _); [done|].
  destruct (policy_op m) eqn:Hop; [|done].
  pose proof (decide_ok st (channel_actor ch) (message_request m) Hok (message_request_u64 m Hop Hm)).
  by destruct (decide_and_record _ _ _).
Qed.

Lemma audit_answer_append (l : log) fields :
  (length l <= TCS_AUDIT_CAPACITY)%nat -> length fields = 7%nat ->
  audit_answer l 0 (append_message fields) =
    (if has_room l then l ++ [fields] else l,
     reply_message (if has_room l then result TCS_OK (Z.of_nat (length l) + 1)
                    else result TCS_AUDIT_FULL 0)).
Proof.
  intros Hl Hf. unfold audit_answer, has_room, append_message. cbn [m_words m_label].
  rewrite Hf. change (_ && (7 =? 7)%nat) with true. cbn [Z.eqb Pos.eqb andb negb].
  destruct (length l =? TCS_AUDIT_CAPACITY)%nat eqn:Hfull.
  - apply Nat.eqb_eq in Hfull. replace (length l <? TCS_AUDIT_CAPACITY)%nat with false; [done|].
    symmetry. apply Nat.ltb_ge. lia.
  - apply Nat.eqb_neq in Hfull. replace (length l <? TCS_AUDIT_CAPACITY)%nat with true; [done|].
    symmetry. apply Nat.ltb_lt. lia.
Qed.

(** The client's calls keep the policy. *)
Lemma client_contract_keeps st m :
  authority_ok st -> Forall u64 (m_words m) ->
  authority_ok (fst (client_contract st m)) /\ fst (fst (client_contract st m)) = fst st.
Proof.
  intros Hok Hm. unfold client_contract, read_contract.
  destruct (client_op m TCS_CLIENT_STATUS 0); [done|].
  destruct (client_op m TCS_CLIENT_READ 3) eqn:Hr; [|done].
  apply client_op_words in Hr as [_ Hl].
  set (r := check_request _ _ _).
  assert (Hreq : request_u64 r) by (apply check_request_u64; apply words_u64; (done || lia)).
  pose proof (decide_ok st TCS_STORAGE r Hok Hreq) as Hd.
  pose proof (decide_eq st TCS_STORAGE r Hok) as He.
  destruct (decide_and_record st TCS_STORAGE r) as [st' res]. cbn [fst] in *. subst st'.
  split; [done|]. apply check_keeps; [apply Hok|done|done].
Qed.

(** ** Sequences of calls *)

(** The state after the calls [es] and the answers to them, in order. *)
Fixpoint answers {S} (call : S -> Z -> message -> S * message) (s : S) (es : list (Z * message))
    : S * list message :=
  match es with
  | [] => (s, [])
  | e :: es =>
      let '(s', a) := call s (fst e) (snd e) in
      let '(s'', l) := answers call s' es in
      (s'', a :: l)
  end.

Lemma answers_invariant {S} (call : S -> Z -> message -> S * message) (P : S -> Prop)
    (Q : Z * message -> Prop) es s :
  (forall s e, Q e -> P s -> P (fst (call s (fst e) (snd e)))) ->
  Forall Q es -> P s -> P (fst (answers call s es)).
Proof.
  intros Hstep. revert s. induction es as [|e es IH]; intros s Hes HP; [done|].
  apply List.Forall_cons_iff in Hes as [He Hes]. cbn [answers].
  specialize (IH _ Hes (Hstep s e He HP)).
  destruct (call s (fst e) (snd e)) as [s1 a]. cbn [fst] in IH. by destruct (answers call s1 es).
Qed.

(** A simulation of each call is one of every sequence. *)
Lemma answers_simulation {S T} (call : S -> Z -> message -> S * message)
    (spec : T -> Z -> message -> T * message) (ok : S -> Prop) (abs : S -> T)
    (Q : Z * message -> Prop) es s :
  (forall s e, ok s -> Q e -> exists s' a, call s (fst e) (snd e) = (s', a) /\ ok s' /\
     spec (abs s) (fst e) (snd e) = (abs s', a)) ->
  ok s -> Forall Q es ->
  exists s', answers call s es = (s', snd (answers spec (abs s) es)) /\ ok s' /\
    fst (answers spec (abs s) es) = abs s'.
Proof.
  intros Hsim. revert s. induction es as [|e es IH]; intros s Hok Hes; [by exists s|].
  apply List.Forall_cons_iff in Hes as [He Hes]. cbn [answers].
  destruct (Hsim s e Hok He) as (s1 & a & -> & Hok1 & ->).
  destruct (IH s1 Hok1 Hes) as (s2 & -> & Hok2 & Habs).
  exists s2. destruct (answers spec (abs s1) es) as [st l]. cbn [fst snd] in *. by subst.
Qed.

(** ** Interfaces *)

Section Interfaces.
Context {W : Type} (call : W -> Z -> message -> W * message) (ok : W -> Prop).

(** Channel 2 of a policy domain: a log that appends a decision's record while it
    has room. *)
Class audit_channel (log_of : W -> log) : Prop := {
  log_bounded w : ok w -> (length (log_of w) <= TCS_AUDIT_CAPACITY)%nat;
  log_append w fields :
    ok w -> Forall u64 fields -> length fields = 7%nat ->
    exists w', ok w' /\
      call w 2 (append_message fields) =
        (w', reply_message (if has_room (log_of w)
                            then result TCS_OK (Z.of_nat (length (log_of w)) + 1)
                            else result TCS_AUDIT_FULL 0)) /\
      log_of w' = if has_room (log_of w) then log_of w ++ [fields] else log_of w }.

Context (abs : W -> authority).

(** Channel 1 of the storage domain: the policy. *)
Class policy_channel : Prop :=
  policy_answers w m : ok w -> Forall u64 (m_words m) ->
    exists w' a, call w 1 m = (w', a) /\ ok w' /\ policy_contract (abs w) 1 m = (abs w', a).

(** Channel 1 of the client domain: the storage. *)
Class storage_channel : Prop :=
  storage_answers w m : ok w -> Forall u64 (m_words m) ->
    exists w' a, call w 1 m = (w', a) /\ ok w' /\ storage_contract (abs w) m = (abs w', a).
End Interfaces.

(** A policy domain's decision, over an audit channel. *)
Lemma policy_decides {W} (call : W -> Z -> message -> W * message) ok log_of
    `{!audit_channel call ok log_of} p w actor r :
  ok w -> request_u64 r ->
  exists w', ok w' /\
    policy_decide call p w actor r =
      (fst (fst (decide_and_record (p, log_of w) actor r)), w',
       snd (decide_and_record (p, log_of w) actor r)) /\
    log_of w' = snd (fst (decide_and_record (p, log_of w) actor r)).
Proof.
  intros Hw Hr. pose proof (log_bounded call ok (log_of:=log_of) w Hw) as Hlen.
  pose proof (decision_record_u64 p actor r Hr) as Hrec.
  destruct (log_append call ok (log_of:=log_of) w _ Hw Hrec eq_refl) as (w' & Hw' & Hcall & Hlog).
  exists w'. split; [done|]. rewrite Hlog. unfold policy_decide, decide_and_record, has_room in *.
  destruct (tcs_policy_apply p actor r) as [candidate d]. cbn [snd] in Hcall. rewrite Hcall.
  rewrite response_reply.
  destruct (length (log_of w) <? TCS_AUDIT_CAPACITY)%nat eqn:Hroom;
    [apply Nat.ltb_lt in Hroom | apply Nat.ltb_ge in Hroom].
  - replace (length (log_of w) =? TCS_AUDIT_CAPACITY)%nat with false
      by (symmetry; apply Nat.eqb_neq; lia).
    cbn [negb status result]. change (TCS_OK =? TCS_OK) with true.
    by destruct (tcs_policy_commit _ _ _ _ _).
  - replace (length (log_of w) =? TCS_AUDIT_CAPACITY)%nat with true
      by (symmetry; apply Nat.eqb_eq; lia).
    cbn [negb status result]. change (TCS_AUDIT_FULL =? TCS_OK) with false.
    by destruct (tcs_policy_commit _ _ _ _ _).
Qed.

(** The policy domain's answer, over an audit channel. *)
Lemma policy_answer_contract {W} (call : W -> Z -> message -> W * message) ok log_of
    `{!audit_channel call ok log_of} s w ch m :
  ok w -> ready s = true -> Forall u64 (m_words m) -> ch = 0 \/ ch = 1 ->
  exists w', ok w' /\
    policy_answer call s w ch m =
      ({| live := fst (fst (policy_contract (live s, log_of w) ch m)); ready := true |}, w',
       snd (policy_contract (live s, log_of w) ch m)) /\
    log_of w' = snd (fst (policy_contract (live s, log_of w) ch m)).
Proof.
  intros Hw Hready Hm Hch. destruct s as [p rd]. cbn [ready live] in *. subst rd.
  unfold policy_answer, policy_contract. cbn [ready live fst snd].
  replace (negb true || (negb (ch =? 0) && negb (ch =? 1))) with false by lia.
  destruct (m_label m =? TCS_LABEL TCS_SELF_STATUS).
  { exists w. split_and!; [done| |done]. by destruct Hch as [-> | ->]. }
  unfold policy_op. destruct (m_words m) as [|su [|ob [|ri [|ge [|x l]]]]] eqn:Hwords;
    cbn [length Nat.eqb]; rewrite ?andb_false_r; try by exists w.
  destruct ((m_label m <? TCS_LABEL TCS_GRANT) || (TCS_LABEL TCS_RESTORE <? m_label m)) eqn:Hrange.
  { replace (_ && _ && true) with false by lia. by exists w. }
  replace ((TCS_LABEL TCS_GRANT <=? m_label m) && (m_label m <=? TCS_LABEL TCS_RESTORE) && true)
    with true by lia.
  repeat match goal with H : Forall _ (_ :: _) |- _ => apply List.Forall_cons_iff in H as [? ?] end.
  unfold message_request. rewrite Hwords. cbn [lookup_total list_lookup_total].
  set (r := {| r_op := _ |}).
  assert (Hr : request_u64 r) by (unfold request_u64, r; cbn; auto using land_255_u64).
  destruct (policy_decides call ok log_of p w (channel_actor ch) r Hw Hr) as (w' & Hw' & -> & Hlog).
  exists w'. destruct (decide_and_record _ _ _) as [[p' l'] res]. done.
Qed.

(** The storage's answer, over a policy channel. *)
Lemma storage_answer_contract {W} (call : W -> Z -> message -> W * message) ok abs
    `{!policy_channel call ok abs} w m :
  ok w -> Forall u64 (m_words m) ->
  exists w' a, storage_answer call w 0 m = (w', a) /\ ok w' /\
    storage_contract (abs w) m = (abs w', a).
Proof.
  intros Hw Hm. unfold storage_answer, storage_contract, read_contract. cbn [Z.eqb negb].
  fold (client_op m TCS_STORE_STATUS 0). fold (client_op m TCS_STORE_READ 3).
  destruct (client_op m TCS_STORE_STATUS 0).
  { by destruct (policy_answers call ok abs w {| m_label := TCS_LABEL TCS_SELF_STATUS; m_words := [] |} Hw)
      as (w' & a & -> & Hw' & Ha); [|eauto]. }
  destruct (client_op m TCS_STORE_READ 3) eqn:Hread; cbn [negb]; [|by exists w, bad_message].
  apply andb_true_iff in Hread as [_ Hlen%Nat.eqb_eq].
  set (r := check_request _ _ _).
  assert (Hr : request_u64 r) by (apply check_request_u64; apply words_u64; (done || lia)).
  destruct (policy_answers call ok abs w (request_message r) Hw) as (w' & a & -> & Hw' & Ha).
  { destruct Hr as (_ & ? & ? & ? & ?). by repeat apply List.Forall_cons. }
  change (policy_contract (abs w) 1 (request_message r)) with
    (let '(st', res) := decide_and_record (abs w) TCS_STORAGE r in (st', reply_message res)) in Ha.
  destruct (decide_and_record _ _ _) as [st' res]. injection Ha as -> <-.
  rewrite response_reply. by eexists w', _.
Qed.

(** The client's answer, over a storage channel. *)
Lemma client_answer_contract {W} (call : W -> Z -> message -> W * message) ok abs
    `{!storage_channel call ok abs} w m :
  ok w -> Forall u64 (m_words m) ->
  exists w' a, client_answer call w 0 m = (w', a) /\ ok w' /\
    client_contract (abs w) m = (abs w', a).
Proof.
  intros Hw Hm. unfold client_answer, client_contract. cbn [Z.eqb negb].
  fold (client_op m TCS_CLIENT_STATUS 0). fold (client_op m TCS_CLIENT_BAD_LENGTH 0).
  fold (client_op m TCS_CLIENT_TRY_GRANT 0). fold (client_op m TCS_CLIENT_READ 3).
  assert (Hbad : forall op, client_op m op 0 = true -> client_op m TCS_CLIENT_READ 3 = false).
  { unfold client_op. intros op [_ Hl%Nat.eqb_eq]%andb_true_iff. rewrite Hl. apply andb_false_r. }
  assert (Hcall : forall label words, Forall u64 words ->
    exists w' a, call w 1 {| m_label := TCS_LABEL label; m_words := words |} = (w', a) /\ ok w' /\
      storage_contract (abs w) {| m_label := TCS_LABEL label; m_words := words |} = (abs w', a)).
  { intros label words Hwords. by apply (storage_answers call ok abs). }
  destruct (client_op m TCS_CLIENT_STATUS 0); [by apply Hcall|].
  destruct (client_op m TCS_CLIENT_BAD_LENGTH 0) eqn:Hb; [rewrite (Hbad _ Hb); by apply Hcall|].
  destruct (client_op m TCS_CLIENT_TRY_GRANT 0) eqn:Ht; [rewrite (Hbad _ Ht); by apply Hcall|].
  destruct (client_op m TCS_CLIENT_READ 3) eqn:Hread; cbn [negb]; [|by exists w, bad_message].
  destruct (Hcall TCS_STORE_READ (m_words m) Hm) as (w' & a & -> & Hw' & Ha).
  exists w', a. split_and!; [done|done|]. rewrite <- Ha. unfold storage_contract, client_op in *.
  cbn [m_label m_words]. apply andb_true_iff in Hread as [_ ->]. done.
Qed.
