(* ===== verification/System.v ===== *)
(** The seed system of [system/tcs.system]: the console's calls, answered by the
    client, storage, policy and audit domains.

    [deliver] runs a protected call through the channels the system description
    declares; a caller waits for the answer, and every call goes to a domain of
    higher priority, so that the nesting is bounded. *)

From S2P Require Import Prelude Policy Ipc Servers Authority.

(** ** The domains and their channels *)

Inductive domain := console | client | storage | policy | audit.

(** The [pp] ends of the channels: the domain and the channel number a call
    arrives at. *)
Definition route (d : domain) (ch : Z) : option (domain * Z) :=
  match d with
  | console => if ch =? 0 then Some (policy, 0) else if ch =? 1 then Some (client, 0)
               else if ch =? 2 then Some (audit, 1) else None
  | client => if ch =? 1 then Some (storage, 0) else None
  | storage => if ch =? 1 then Some (policy, 1) else None
  | policy => if ch =? 2 then Some (audit, 0) else None
  | audit => None
  end.

Definition priority (d : domain) : nat :=
  match d with console => 10 | client => 20 | storage => 30 | policy => 40 | audit => 50 end.

(** Calls go up in priority. *)
Lemma route_priority d ch d' ch' : route d ch = Some (d', ch') -> (priority d < priority d')%nat.
Proof. destruct d; simpl; intros; repeat split_if; inv_pair; simpl; lia. Qed.

(** The static state of the domains; storage and client keep none. *)
Record seed := { policy_state : policy_server; audit_state : audit_server }.

Definition seed_boot : seed :=
  {| policy_state := policy_init policy_start; audit_state := audit_start |}.

Section Deliver.
(** [refused] is what a call on a channel the system does not declare gives. *)
Context (residue : message -> regs) (refused : message).

(** A call that arrives at a domain. The console has no protected entry. *)
Definition enter (d : domain) (call : seed -> Z -> message -> seed * message) (s : seed) (ch : Z)
    (m : message) : seed * message :=
  match d with
  | console => (s, refused)
  | client =>
      let '(_, s', a) := serve residue (client_protected call residue) tt s ch m in (s', a)
  | storage =>
      let '(_, s', a) := serve residue (storage_protected call residue) tt s ch m in (s', a)
  | policy =>
      let '(p, s', a) :=
        serve residue (policy_protected call residue) (policy_state s) s ch m in
      ({| policy_state := p; audit_state := audit_state s' |}, a)
  | audit =>
      let '(u, s', a) := serve residue audit_protected (audit_state s) s ch m in
      ({| policy_state := policy_state s'; audit_state := u |}, a)
  end.

(** A call by the domain [d] on its channel [ch]; [fuel] bounds the nesting. *)
Fixpoint deliver (fuel : nat) (d : domain) (s : seed) (ch : Z) (m : message) : seed * message :=
  match fuel, route d ch with
  | S n, Some (d', ch') => enter d' (deliver n d') s ch' m
  | _, _ => (s, refused)
  end.

(** The console's calls: the deepest path is client, storage, policy, audit. *)
Definition console_call : seed -> Z -> message -> seed * message := deliver 4 console.

Definition console_step (s : seed) (e : Z * message) : seed := fst (console_call s (fst e) (snd e)).
End Deliver.

(** ** The contract of the system *)

Definition contract (st : authority) (ch : Z) (m : message) : authority * message :=
  if ch =? 0 then policy_contract st 0 m
  else if ch =? 1 then client_contract st m
  else
    let '(l, a) := audit_answer (snd st) 1 m in
    ((fst st, l), a).

(** ** Invariant and abstraction *)

Definition seed_ok (s : seed) : Prop :=
  ready (policy_state s) = true /\ policy_ok (live (policy_state s)) /\ audit_wf (audit_state s).

Definition abs_seed (s : seed) : authority := (live (policy_state s), audit_log (audit_state s)).

Section Refinement.
Context (residue : message -> regs) (refused : message).
#[local] Abbreviation deliver := (deliver residue refused).
#[local] Abbreviation enter := (enter residue refused).

(** The audit's answer to a domain is its contract's. *)
Lemma audit_enter s call ch m :
  audit_wf (audit_state s) -> Forall u64 (m_words m) ->
  exists u a, enter audit call s ch m = ({| policy_state := policy_state s; audit_state := u |}, a) /\
    audit_wf u /\ audit_answer (audit_log (audit_state s)) ch m = (audit_log u, a).
Proof.
  intros Hw Hm. destruct (audit_serve residue _ s ch m Hw Hm) as (u & a & Hs & Hu & Ha).
  exists u, a. split_and!; [|done|done]. cbn [enter System.enter]. by rewrite Hs.
Qed.

(** The policy's calls reach the audit, and leave the policy's state alone. *)
#[local] Instance policy_audit n s0 :
  audit_channel (deliver (S n) policy)
    (fun s => audit_wf (audit_state s) /\ policy_state s = s0)
    (fun s => audit_log (audit_state s)).
Proof.
  split.
  - intros s [Hw _]. rewrite audit_log_length by done. apply Hw.
  - intros s fields [Hw Hs0] Hf Hlen.
    destruct (audit_enter s (deliver n audit) 0 (append_message fields) Hw Hf) as (u & a & He & Hu & Ha).
    exists {| policy_state := policy_state s; audit_state := u |}. split; [done|].
    cbn [System.deliver route Z.eqb Pos.eqb]. rewrite He. cbn [audit_state].
    rewrite audit_answer_append in Ha by (done || rewrite audit_log_length by done; apply Hw).
    by injection Ha as <- <-.
Qed.

(** A message at the policy's channel to the console or to the storage. *)
Lemma policy_enter n s ch m :
  seed_ok s -> Forall u64 (m_words m) -> ch = 0 \/ ch = 1 ->
  exists s' a, enter policy (deliver (S n) policy) s ch m = (s', a) /\ seed_ok s' /\
    policy_contract (abs_seed s) ch m = (abs_seed s', a).
Proof.
  intros (Hready & Hp & Hw) Hm Hch. cbn [System.enter]. rewrite policy_serve.
  destruct (policy_answer_contract (deliver (S n) policy) _ _ (policy_state s) s ch m
              (conj Hw eq_refl) Hready Hm Hch) as (s' & [Hw' _] & -> & Hlog).
  cbn [live ready] in *. pose proof (policy_contract_ok (abs_seed s) ch m) as Hok.
  unfold abs_seed in *. destruct (policy_contract _ ch m) as [[p' l'] a]. cbn [fst snd] in *.
  eexists _, a. split_and!; [reflexivity| |cbn [policy_state audit_state live]; by rewrite Hlog].
  split_and!; [done| |done]. apply Hok; [|done]. split; [done|]. cbn [snd].
  rewrite audit_log_length by done. apply Hw.
Qed.

#[local] Instance storage_policy n : policy_channel (deliver (S (S n)) storage) seed_ok abs_seed.
Proof.
  intros s m Hok Hm. cbn [System.deliver route Z.eqb Pos.eqb]. apply (policy_enter n); auto.
Qed.

#[local] Instance client_storage n :
  storage_channel (deliver (S (S (S n))) client) seed_ok abs_seed.
Proof.
  intros s m Hok Hm. change (deliver (S (S (S n))) client s 1 m) with
    (enter storage (deliver (S (S n)) storage) s 0 m).
  cbn [System.enter]. rewrite storage_serve.
  destruct (storage_answer_contract (deliver (S (S n)) storage) seed_ok abs_seed s m Hok Hm)
    as (s' & a & -> & Hok' & Ha).
  by exists s', a.
Qed.

(** The system implements its contract at every console call. *)
Lemma console_refines s ch m :
  seed_ok s -> Forall u64 (m_words m) -> 0 <= ch <= 2 ->
  exists s' a, console_call residue refused s ch m = (s', a) /\ seed_ok s' /\
    contract (abs_seed s) ch m = (abs_seed s', a).
Proof.
  intros Hok Hm Hch. assert (ch = 0 \/ ch = 1 \/ ch = 2) as [-> | [-> | ->]] by lia.
  - apply (policy_enter 2 s 0 m Hok Hm). auto.
  - change (console_call residue refused s 1 m) with (enter client (deliver 3 client) s 0 m).
    cbn [System.enter]. rewrite client_serve.
    destruct (client_answer_contract (deliver 3 client) seed_ok abs_seed s m Hok Hm)
      as (s' & a & -> & Hok' & Ha).
    by exists s', a.
  - pose proof Hok as (Hr & Hp & Hw).
    destruct (audit_enter s (deliver 3 audit) 1 m Hw Hm) as (u & a & He & Hu & Ha).
    eexists _, a. split_and!; [exact He|done|]. unfold contract. cbn [Z.eqb Pos.eqb].
    unfold abs_seed. cbn [fst snd]. by rewrite Ha.
Qed.
End Refinement.

(** ** Sequences of console calls *)

Definition authority_boot : authority := (policy_zero, []).

(** Messages of machine words on the console's channels. *)
Definition console_event (e : Z * message) : Prop := 0 <= fst e <= 2 /\ Forall u64 (m_words (snd e)).

Lemma seed_boot_ok : seed_ok seed_boot.
Proof.
  split_and!; [done|apply policy_zero_ok|]. split_and!; [done|cbn; unfold TCS_AUDIT_CAPACITY; lia|].
  by apply Forall_replicate.
Qed.

Lemma abs_seed_ok s : seed_ok s -> authority_ok (abs_seed s).
Proof.
  intros (_ & Hp & Hw). split; [done|]. cbn [abs_seed snd].
  rewrite audit_log_length by done. apply Hw.
Qed.

(** The one decision a call asks for, if any. *)
Definition call_decision (ch : Z) (m : message) : option (tcs_actor * tcs_request) :=
  if (ch =? 0) && policy_op m then Some (TCS_ADMIN, message_request m)
  else if (ch =? 1) && client_op m TCS_CLIENT_READ 3 then
    Some (TCS_STORAGE, check_request (m_words m !!! 0%nat) (m_words m !!! 1%nat) (m_words m !!! 2%nat))
  else None.

Lemma call_decision_u64 ch m actor r :
  Forall u64 (m_words m) -> call_decision ch m = Some (actor, r) -> request_u64 r.
Proof.
  intros Hm. unfold call_decision.
  destruct ((ch =? 0) && policy_op m) eqn:H0.
  { intros [= <- <-]. apply andb_true_iff in H0 as [_ H0]. by apply message_request_u64. }
  destruct ((ch =? 1) && client_op m TCS_CLIENT_READ 3) eqn:H1; [|done].
  intros [= <- <-]. apply andb_true_iff in H1 as [_ [_ Hl%Nat.eqb_eq]%andb_true_iff].
  apply check_request_u64; apply words_u64; (done || lia).
Qed.

(** A call changes the authority by its decision, or not at all. *)
Lemma contract_authority st ch m :
  fst (contract st ch m) =
    match call_decision ch m with
    | Some (actor, r) => fst (decide_and_record st actor r)
    | None => st
    end.
Proof.
  unfold contract, policy_contract, client_contract, read_contract, call_decision.
  destruct (ch =? 0) eqn:H0.
  { destruct (m_label m =? TCS_LABEL TCS_SELF_STATUS) eqn:Hl.
    - replace (policy_op m) with false; [by rewrite andb_false_r; replace (ch =? 1) with false by lia|].
      unfold policy_op. bools. rewrite Hl. done.
    - destruct (policy_op m); cbn [andb]; [by destruct (decide_and_record _ _ _)|].
      by replace (ch =? 1) with false by lia. }
  cbn [andb]. destruct (ch =? 1) eqn:H1; cbn [andb].
  { destruct (client_op m TCS_CLIENT_STATUS 0) eqn:Hs.
    - replace (client_op m TCS_CLIENT_READ 3) with false; [done|].
      unfold client_op in *. apply andb_true_iff in Hs as [Hs%Z.eqb_eq _]. by rewrite Hs.
    - destruct (client_op m TCS_CLIENT_READ 3); [|done]. by destruct (decide_and_record _ _ _). }
  unfold audit_answer. cbn [Z.eqb Pos.eqb negb].
  destruct (true && _ && _); [by destruct st|]. destruct (true && _ && _); by destruct st.
Qed.

Lemma contract_step st ch m :
  authority_ok st ->
  fst (contract st ch m) =
    match call_decision ch m with
    | None => st
    | Some (actor, r) =>
        (policy_step (fst st) (decision_event actor r (has_room (snd st))),
         if has_room (snd st)
         then snd st ++ [decision_record r actor (snd (tcs_policy_apply (fst st) actor r))]
         else snd st)
    end.
Proof.
  intros Hok. rewrite contract_authority.
  destruct (call_decision ch m) as [[actor r]|]; [by apply decide_eq|done].
Qed.

Lemma contract_ok st e :
  authority_ok st -> console_event e -> authority_ok (fst (contract st (fst e) (snd e))).
Proof.
  intros Hok [_ Hm]. rewrite contract_authority.
  destruct (call_decision _ _) as [[actor r]|] eqn:Hd; [|done].
  apply decide_ok; [done|]. by eapply call_decision_u64.
Qed.

(** *** Runs of the system and of its contract *)

Lemma answers_refines residue refused es s :
  seed_ok s -> Forall console_event es ->
  exists s', answers (console_call residue refused) s es = (s', snd (answers contract (abs_seed s) es)) /\
    seed_ok s' /\ fst (answers contract (abs_seed s) es) = abs_seed s'.
Proof.
  apply answers_simulation. intros s1 e Hok [Hch Hm]. by apply console_refines.
Qed.

Lemma console_run_ok residue refused es s :
  seed_ok s -> Forall console_event es -> seed_ok (fst (answers (console_call residue refused) s es)).
Proof. intros Hok Hes. destruct (answers_refines residue refused es s Hok Hes) as (s' & -> & ? & _). done. Qed.

Lemma contract_run_invariant (P : authority -> Prop) es st :
  (forall st e, authority_ok st -> console_event e -> P st -> P (fst (contract st (fst e) (snd e)))) ->
  authority_ok st -> Forall console_event es -> P st -> P (fst (answers contract st es)).
Proof.
  intros Hstep Hok Hes HP.
  apply (answers_invariant contract (fun st => authority_ok st /\ P st) console_event es st).
  - intros st1 e He [Hok1 HP1]. split; [by apply contract_ok|by apply Hstep].
  - done.
  - done.
Qed.

(** Only the console's channel to the policy changes the policy. *)
Lemma contract_policy_kept st ch m :
  authority_ok st -> Forall u64 (m_words m) -> ch <> 0 ->
  fst (fst (contract st ch m)) = fst st.
Proof.
  intros Hok Hm Hch. rewrite contract_step by done.
  destruct (call_decision ch m) as [[actor r]|] eqn:Hd; [|done].
  pose proof (call_decision_u64 _ _ _ _ Hm Hd) as Hr. unfold call_decision in Hd.
  replace (ch =? 0) with false in Hd by lia. cbn [andb] in Hd.
  destruct ((ch =? 1) && client_op m TCS_CLIENT_READ 3); [|done]. injection Hd as <- <-.
  cbn [fst]. apply check_keeps; [apply Hok|done|done].
Qed.

Lemma contract_log st ch m :
  authority_ok st -> exists recorded, snd (fst (contract st ch m)) = snd st ++ recorded.
Proof.
  intros Hok. rewrite contract_step by done.
  destruct (call_decision ch m) as [[actor r]|]; [destruct (has_room (snd st))|];
    first [by eexists|exists []; by rewrite app_nil_r].
Qed.

(** Every session open now was opened by a recorded decision. *)
Definition explained (st : authority) : Prop :=
  policy_ok (replay (snd st)) /\
  (has_room (snd st) = true -> fst st = replay (snd st)) /\
  (forall i g, 0 <= i < TCS_SUBJECTS -> admits (fst st) i g -> admits (replay (snd st)) i g).

Lemma contract_explained st e :
  authority_ok st -> console_event e -> explained st -> explained (fst (contract st (fst e) (snd e))).
Proof.
  intros Hok [_ Hm] (Hrok & Heq & Hadm). rewrite contract_step by done. pose proof Hok as [Hp _].
  destruct (call_decision _ _) as [[actor r]|] eqn:Hd; [|by split_and!].
  pose proof (call_decision_u64 _ _ _ _ Hm Hd) as Hr.
  destruct (has_room (snd st)) eqn:Hroom; unfold explained; cbn [fst snd].
  - rewrite replay_snoc, record_event_record, <- Heq by done.
    split_and!; [by apply policy_step_ok|done|done].
  - split_and!; [done|congruence|]. intros i g Hi Had. apply Hadm; [done|].
    by apply unrecorded_only_reduces in Had.
Qed.

Lemma audit_get_entry (l : log) i fields :
  l !! i = Some fields -> (length l <= TCS_AUDIT_CAPACITY)%nat ->
  audit_answer l 1 {| m_label := TCS_LABEL TCS_AUDIT_GET; m_words := [Z.of_nat i] |} =
    (l, {| m_label := TCS_LABEL TCS_AUDIT_GET; m_words := (Z.of_nat i + 1) :: fields |}).
Proof.
  intros Hi Hl. pose proof (lookup_lt_Some _ _ _ Hi). unfold audit_answer.
  cbn [Z.eqb Pos.eqb andb m_label m_words length Nat.eqb lookup_total list_lookup_total].
  change (TCS_LABEL TCS_AUDIT_GET =? TCS_LABEL TCS_AUDIT_COUNT) with false.
  change (TCS_LABEL TCS_AUDIT_GET =? TCS_LABEL TCS_AUDIT_GET) with true. cbn [andb].
  replace (Z.of_nat (length l) <=? Z.of_nat i) with false by lia.
  rewrite Nat2Z.id. by rewrite (list_lookup_total_correct _ _ _ Hi).
Qed.

(** ** Properties *)

Section Properties.
Context (residue : message -> regs) (refused : message).
#[local] Abbreviation console_call := (console_call residue refused).

(** C3. The seed system implements its contract: from boot, whatever the console
    sends to the policy, the client and the audit, in whatever order, the five
    domains together answer what one authority (a policy and a bounded log)
    answers, and their states stay well formed. *)
Theorem seed_refines_contract es :
  Forall console_event es ->
  snd (answers console_call seed_boot es) = snd (answers contract authority_boot es) /\
  abs_seed (fst (answers console_call seed_boot es)) = fst (answers contract authority_boot es) /\
  seed_ok (fst (answers console_call seed_boot es)).
Proof.
  intros Hes.
  destruct (answers_refines residue refused es seed_boot seed_boot_ok Hes) as (s' & -> & Hok & Habs).
  split_and!; [done| |done]. cbn [fst]. by rewrite <- Habs.
Qed.

(** C9. The sample is disclosed exactly to a read of the object, with the read
    right, under the generation of an open session of the client, recorded by
    the audit; any other reply carries the value 0, and no call to the client
    changes the policy. *)
Theorem client_read_disclosed_iff s m :
  seed_ok s -> message_u64 m ->
  let '(s', a) := console_call s 1 m in
  let p := live (policy_state s) in
  let l := audit_log (audit_state s) in
  (a = reply_message (result TCS_OK TCS_SAMPLE) <->
   m_label m = TCS_LABEL TCS_CLIENT_READ /\ (length l < TCS_AUDIT_CAPACITY)%nat /\
   exists g, m_words m = [TCS_OBJECT; TCS_READ; g] /\ admits p TCS_CLIENT_SUBJECT g) /\
  (m_label a = TCS_REPLY -> a <> reply_message (result TCS_OK TCS_SAMPLE) -> value (response a) = 0) /\
  live (policy_state s') = p.
Proof.
  intros Hok [_ Hm].
  destruct (console_refines residue refused s 1 m Hok Hm ltac:(lia)) as (s' & a & -> & Hok' & Hc).
  pose proof (abs_seed_ok s Hok) as Haok.
  pose proof (contract_policy_kept (abs_seed s) 1 m Haok Hm ltac:(lia)) as Hkept.
  destruct (client_contract_discloses (abs_seed s) m Haok Hm) as [Hiff Hzero].
  change (client_contract (abs_seed s) m) with (contract (abs_seed s) 1 m) in *. rewrite Hc in *. cbn [fst snd abs_seed] in *. unfold has_room in Hiff. rewrite Nat.ltb_lt in Hiff.
  done.
Qed.
(** C22. Every change of the policy is the administrator's and is recorded: a
    call changes the policy only if it is the console's request on its channel to
    the policy, decided OK, and either the audit log gains the record of exactly
    that decision or the log is full and the request reduces authority. *)
Theorem policy_changes_are_recorded s ch m :
  seed_ok s -> message_u64 m -> 0 <= ch <= 2 ->
  let s' := fst (console_call s ch m) in
  live (policy_state s') <> live (policy_state s) ->
  ch = 0 /\ policy_op m = true /\
  status (snd (tcs_policy_apply (live (policy_state s)) TCS_ADMIN (message_request m))) = TCS_OK /\
  (audit_log (audit_state s') =
     audit_log (audit_state s) ++
       [decision_record (message_request m) TCS_ADMIN
          (snd (tcs_policy_apply (live (policy_state s)) TCS_ADMIN (message_request m)))] \/
   length (audit_log (audit_state s)) = TCS_AUDIT_CAPACITY /\
   is_reduction (message_request m) = true /\
   audit_log (audit_state s') = audit_log (audit_state s)).
Proof.
  intros Hok [_ Hm] Hch.
  destruct (console_refines residue refused s ch m Hok Hm Hch) as (s' & a & -> & Hok' & Hc).
  pose proof (abs_seed_ok s Hok) as Haok. cbn [fst]. intros Hne.
  destruct (decide (ch = 0)) as [->|Hch0]; cycle 1.
  { pose proof (contract_policy_kept (abs_seed s) ch m Haok Hm Hch0) as Hk. by rewrite Hc in Hk. }
  pose proof (contract_step (abs_seed s) 0 m Haok) as Hst. rewrite Hc in Hst.
  unfold call_decision in Hst. cbn [Z.eqb andb] in Hst.
  destruct (policy_op m) eqn:Hop; [|by injection Hst].
  cbn [fst snd abs_seed] in Hst. injection Hst as Hlive Hlog. rewrite Hlive in Hne.
  apply policy_step_changes in Hne as [Hstatus Hcause]. split_and!; [done..|].
  destruct Haok as [_ Hlen]. cbn [snd abs_seed] in Hlen. rewrite Hlog. unfold has_room in *.
  destruct (_ <? _)%nat eqn:Hroom; [by left|right]. apply Nat.ltb_ge in Hroom.
  split_and!; [lia| |done]. by destruct Hcause.
Qed.

(** C14. The audit log explains the authority: at any point of any run, the
    recorded decisions replayed from zero-initialized memory give the live
    policy as long as the log has room, and once it is full the live policy
    still admits no read that the replayed one does not. *)
Theorem log_explains_policy es :
  Forall console_event es ->
  let s := fst (answers console_call seed_boot es) in
  let l := audit_log (audit_state s) in
  ((length l < TCS_AUDIT_CAPACITY)%nat -> live (policy_state s) = replay l) /\
  (forall i g, 0 <= i < TCS_SUBJECTS -> admits (live (policy_state s)) i g -> admits (replay l) i g).
Proof.
  intros Hes s l.
  destruct (answers_refines residue refused es seed_boot seed_boot_ok Hes) as (s' & Hrun & Hok & Habs).
  assert (Hex : explained (fst (answers contract authority_boot es))).
  { apply contract_run_invariant; [intros; by apply contract_explained|..|done|].
    - apply (abs_seed_ok seed_boot), seed_boot_ok.
    - split_and!; [apply policy_zero_ok|done|done]. }
  change authority_boot with (abs_seed seed_boot) in Hex. rewrite Habs in Hex.
  destruct Hex as (_ & Heq & Hadm). unfold l, s. rewrite Hrun. cbn [fst snd abs_seed] in *.
  split; [|done]. intros Hroom. apply Heq. by apply Nat.ltb_lt.
Qed.

(** The audit log is append-only, bounded and readable: a decision recorded
    at some point is returned, under its number, to every later request for it,
    whatever happens in between. *)
Theorem recorded_stays_readable s es i fields :
  seed_ok s -> Forall console_event es -> audit_log (audit_state s) !! i = Some fields ->
  let s' := fst (answers console_call s es) in
  let get := {| m_label := TCS_LABEL TCS_AUDIT_GET; m_words := [Z.of_nat i] |} in
  (length (audit_log (audit_state s')) <= TCS_AUDIT_CAPACITY)%nat /\
  snd (console_call s' 2 get) =
    {| m_label := TCS_LABEL TCS_AUDIT_GET; m_words := (Z.of_nat i + 1) :: fields |}.
Proof.
  intros Hok Hes Hi s' get.
  destruct (answers_refines residue refused es s Hok Hes) as (s1 & Hrun & Hok1 & Habs).
  assert (Hpre : exists l, snd (fst (answers contract (abs_seed s) es)) = audit_log (audit_state s) ++ l).
  { apply (contract_run_invariant (fun st => exists l, snd st = audit_log (audit_state s) ++ l));
      [|by apply abs_seed_ok|done|exists []; by rewrite app_nil_r].
    intros st e Hst _ [l Hl]. destruct (contract_log st (fst e) (snd e) Hst) as [l' ->].
    exists (l ++ l'). by rewrite Hl, app_assoc. }
  rewrite Habs in Hpre. destruct Hpre as [l Hl]. cbn [snd abs_seed] in Hl.
  destruct (abs_seed_ok s1 Hok1) as [_ Hlen]. cbn [snd abs_seed] in Hlen.
  unfold s'. rewrite Hrun. cbn [fst]. split; [done|].
  assert (Hlook : audit_log (audit_state s1) !! i = Some fields) by (rewrite Hl; by apply lookup_app_l_Some).
  pose proof (lookup_lt_Some _ _ _ Hlook) as Hlt.
  destruct (console_refines residue refused s1 2 get Hok1) as (s2 & a & -> & _ & Hc); [|lia|].
  { repeat constructor; unfold TCS_AUDIT_CAPACITY in *; word_lia. }
  unfold contract in Hc. cbn [Z.eqb Pos.eqb] in Hc. unfold abs_seed in Hc. cbn [snd] in Hc.
  unfold get in Hc. rewrite (audit_get_entry _ _ _ Hlook Hlen) in Hc. by injection Hc as _ _ <-.
Qed.
End Properties.

(** ** Witnesses *)

Section Witnesses.
Let residue : message -> regs := fun _ _ => 0.
Let refused : message := {| m_label := 0; m_words := [] |}.

Definition grant_client : Z * message :=
  (0, {| m_label := TCS_LABEL TCS_GRANT; m_words := [TCS_CLIENT_SUBJECT; TCS_OBJECT; TCS_READ; 0] |}).
Definition read_request : message :=
  {| m_label := TCS_LABEL TCS_CLIENT_READ; m_words := [TCS_OBJECT; TCS_READ; 1] |}.

Ltac words_concrete := repeat (apply List.Forall_cons || apply List.Forall_nil);
  unfold TCS_CLIENT_SUBJECT; cbn; policy_lia.

Lemma grant_client_event : console_event grant_client.
Proof. split; cbn [grant_client fst snd m_words]; [lia|]. words_concrete. Qed.

Lemma seed_refines_contract_witness :
  snd (answers (console_call residue refused) seed_boot [grant_client]) =
    snd (answers contract authority_boot [grant_client]).
Proof.
  refine (proj1 (seed_refines_contract residue refused [grant_client] _)).
  apply List.Forall_cons; [apply grant_client_event|apply List.Forall_nil].
Defined.

Lemma seed_granted_ok :
  seed_ok (fst (answers (console_call residue refused) seed_boot [grant_client])).
Proof.
  apply console_run_ok; [apply seed_boot_ok|].
  apply List.Forall_cons; [apply grant_client_event|apply List.Forall_nil].
Qed.

Lemma read_object_u64 : message_u64 read_request.
Proof. split; [vm_compute; split; discriminate|]. cbn [read_request m_words]. words_concrete. Qed.

Lemma client_read_disclosed_iff_witness :
  snd (console_call residue refused
         (fst (answers (console_call residue refused) seed_boot [grant_client])) 1 read_request) =
    reply_message (result TCS_OK TCS_SAMPLE).
Proof.
  pose proof (client_read_disclosed_iff residue refused _ read_request seed_granted_ok
    read_object_u64) as H.
  destruct (console_call _ _ _ 1 read_request) as [s' a]. apply H.
  split; [reflexivity|]. split; [vm_compute; lia|]. exists 1. split; [reflexivity|].
  vm_compute. split; reflexivity.
Defined.

Lemma policy_changes_are_recorded_witness :
  policy_op (snd grant_client) = true.
Proof.
  refine (proj1 (proj2 (policy_changes_are_recorded residue refused seed_boot 0 (snd grant_client)
    seed_boot_ok _ _ _))).
  - split; [vm_compute; split; discriminate|apply grant_client_event].
  - lia.
  - vm_compute. discriminate.
Defined.

Lemma log_explains_policy_witness :
  live (policy_state (fst (answers (console_call residue refused) seed_boot [grant_client]))) =
    policy_granted.
Proof.
  refine (proj1 (log_explains_policy residue refused [grant_client] _) _).
  - apply List.Forall_cons; [apply grant_client_event|apply List.Forall_nil].
  - vm_compute. lia.
Defined.

Lemma recorded_stays_readable_witness :
  snd (console_call residue refused
         (fst (answers (console_call residue refused)
                 (fst (answers (console_call residue refused) seed_boot [grant_client]))
                 [grant_client])) 2
         {| m_label := TCS_LABEL TCS_AUDIT_GET; m_words := [0] |}) =
    {| m_label := TCS_LABEL TCS_AUDIT_GET; m_words := [1; 1; 1; 1; 42; 1; 0; 0] |}.
Proof.
  refine (proj2 (recorded_stays_readable residue refused _ [grant_client] 0 [1; 1; 1; 42; 1; 0; 0]
    seed_granted_ok _ _)).
  - apply List.Forall_cons; [apply grant_client_event|apply List.Forall_nil].
  - vm_compute. reflexivity.
Defined.
End Witnesses.
