(* ===== verification/Console.v ===== *)
(** The demonstration console of the seed system: [servers/console.c].

    A script of calls to the policy (channel 0), the client (channel 1) and the
    audit (channel 2), each compared with the answer it must have. Debug output
    has no effect on the system; its text is kept as the name of each check. *)

From S2P Require Import Prelude Policy Ipc.
From Stdlib Require Ascii String.
Import String.StringSyntax.
#[local] Open Scope string_scope.
#[local] Open Scope Z_scope.

Section Console.
Context {W : Type} (call : W -> Z -> message -> W * message) (residue : message -> regs).
#[local] Abbreviation prog := (prog bool W).
#[local] Abbreviation microkit_ppcall := (microkit_ppcall call residue).
Abbreviation name := String.string (only parsing).

(** [failed |= !ok]. *)
Definition fail_unless (ok : bool) : prog unit :=
  let* failed := get in put (failed || negb ok).

Definition expect (what : name) (r : tcs_result) (st : Z) : prog unit :=
  let ok := (status r =? st) && ((st =? TCS_OK) || (value r =? 0)) in
  do* microkit_dbg_puts in
  fail_unless ok.

Definition control (op subject : Z) : prog tcs_result :=
  tcs_policy_call call residue 0
    {| r_op := op; r_subject := subject; r_object := 0; r_rights := 0; r_generation := 0 |}.

Definition grant (subject : Z) : prog tcs_result :=
  tcs_policy_call call residue 0
    {| r_op := TCS_GRANT; r_subject := subject; r_object := TCS_OBJECT; r_rights := TCS_READ;
       r_generation := 0 |}.

Definition read_object (object rights generation : Z) : prog tcs_result :=
  do* microkit_mr_set 0 object in
  do* microkit_mr_set 1 rights in
  do* microkit_mr_set 2 generation in
  let* msg := microkit_ppcall 1 (info (TCS_LABEL TCS_CLIENT_READ) 3) in
  tcs_response msg.

Definition expect_self (what : name) (state : tcs_state) (generation : Z) : prog unit :=
  let* msg := microkit_ppcall 1 (info (TCS_LABEL TCS_CLIENT_STATUS) 0) in
  let* s := tcs_snapshot_response msg in
  let active := bool_decide (state = TCS_ACTIVE) in
  let ok := (n_status s =? TCS_OK) && (n_state s =? tcs_state_val state) &&
            (n_generation s =? generation) &&
            (n_object s =? (if active then TCS_OBJECT else 0)) &&
            (n_rights s =? (if active then TCS_READ else 0)) in
  do* microkit_dbg_puts in
  fail_unless ok.

(** A call without a payload, or with what the registers hold, and its reply. *)
Definition call_reply (ch label : Z) (count : nat) : prog tcs_result :=
  let* msg := microkit_ppcall ch (info label count) in
  tcs_response msg.

(** [for (i = logged.value; i < TCS_AUDIT_CAPACITY; ++i)], [n] rounds left. *)
Fixpoint fill_audit (n : nat) (generation : Z) : prog unit :=
  match n with
  | O => ret tt
  | S n =>
      let* r := read_object TCS_OBJECT TCS_READ generation in
      do* expect "bounded audit append" r TCS_OK in
      fill_audit n generation
  end.

(** The sessions: what is granted, used, revoked, isolated and restored. The
    generation of the last session is carried on. *)
Definition check_sessions : prog Z :=
  do* expect_self "initial self-status" TCS_RESTRICTED 0 in
  do* microkit_mr_set 0 2 in
  let* r := call_reply 1 (TCS_LABEL TCS_CLIENT_STATUS) 1 in
  do* expect "self-status rejects subject payload" r TCS_BAD_MESSAGE in
  let* r := call_reply 0 (TCS_LABEL TCS_SELF_STATUS) 0 in
  do* expect "admin channel is not self-status identity" r TCS_DENIED in
  let* r := read_object TCS_OBJECT TCS_READ 1 in
  do* expect "default deny" r TCS_DENIED in
  let* session := grant 1 in
  do* expect "admin grants session" session TCS_OK in
  let old := value session in
  do* expect_self "status reflects grant" TCS_ACTIVE old in
  let* data := read_object TCS_OBJECT TCS_READ old in
  do* expect "authorized IPC read" data TCS_OK in
  do* when (negb (value data =? TCS_SAMPLE)) (do* put true in microkit_dbg_puts) in
  let* r := read_object 43 TCS_READ old in
  do* expect "wrong object denied" r TCS_DENIED in
  let* r := read_object TCS_OBJECT TCS_WRITE old in
  do* expect "write escalation denied" r TCS_DENIED in
  let* r := control TCS_REVOKE 1 in
  do* expect "revoke acknowledged" r TCS_OK in
  do* expect_self "status clears revoked rights" TCS_RESTRICTED (wrap64 (old + 1)) in
  let* r := read_object TCS_OBJECT TCS_READ old in
  do* expect "revoked session denied" r TCS_DENIED in
  let* session := grant 1 in
  do* expect "explicit regrant" session TCS_OK in
  do* expect_self "status returns current generation" TCS_ACTIVE (value session) in
  let* r := read_object TCS_OBJECT TCS_READ old in
  do* expect "old session remains stale" r TCS_STALE in
  let* r := read_object TCS_OBJECT TCS_READ (value session) in
  do* expect "new session works" r TCS_OK in
  let* r := control TCS_QUARANTINE 1 in
  do* expect "quarantine acknowledged" r TCS_OK in
  do* expect_self "status reflects quarantine" TCS_QUARANTINED (wrap64 (value session + 1)) in
  let* r := read_object TCS_OBJECT TCS_READ (value session) in
  do* expect "quarantine blocks reads" r TCS_ISOLATED in
  let* r := grant 1 in
  do* expect "quarantine blocks grants" r TCS_ISOLATED in
  let* r := control TCS_RESTORE 1 in
  do* expect "explicit restore" r TCS_OK in
  do* expect_self "status reflects restricted restore" TCS_RESTRICTED (wrap64 (value session + 2)) in
  let* r := read_object TCS_OBJECT TCS_READ (value session) in
  do* expect "restore grants no access" r TCS_DENIED in
  let* r := call_reply 1 (TCS_LABEL TCS_CLIENT_BAD_LENGTH) 0 in
  do* expect "malformed IPC denied" r TCS_BAD_MESSAGE in
  let* r := call_reply 1 (TCS_LABEL TCS_CLIENT_TRY_GRANT) 0 in
  do* expect "client cannot grant through storage" r TCS_BAD_MESSAGE in
  let* stranger := grant 2 in
  do* expect "grant to different subject" stranger TCS_OK in
  do* expect_self "status cannot select other subject" TCS_RESTRICTED (wrap64 (value session + 2)) in
  let* r := read_object TCS_OBJECT TCS_READ (value stranger) in
  do* expect "other subject handle denied" r TCS_DENIED in
  ret (value session).

(** The finite audit, and what its exhaustion allows. *)
Definition check_audit : prog unit :=
  let* session := grant 1 in
  do* expect "grant before audit exhaustion" session TCS_OK in
  let* logged := call_reply 2 (TCS_LABEL TCS_AUDIT_COUNT) 0 in
  do* expect "audit count available" logged TCS_OK in
  do* when ((value logged =? 0) || (Z.of_nat TCS_AUDIT_CAPACITY <? value logged)) (put true) in
  do* microkit_mr_set 0 0 in
  let* record := microkit_ppcall 2 (info (TCS_LABEL TCS_AUDIT_GET) 1) in
  let* w0 := microkit_mr_get 0 in
  let* w1 := microkit_mr_get 1 in
  let* w2 := microkit_mr_get 2 in
  let* w3 := microkit_mr_get 3 in
  let* w7 := microkit_mr_get 7 in
  let record_ok := tcs_message record TCS_AUDIT_GET 8 && (w0 =? 1) && (w1 =? TCS_CHECK) &&
                   (w2 =? tcs_actor_val TCS_STORAGE) && (w3 =? 1) && (w7 =? TCS_DENIED) in
  do* microkit_dbg_puts in
  do* fail_unless record_ok in
  do* fill_audit (TCS_AUDIT_CAPACITY - Z.to_nat (value logged)) (value session) in
  let* r := read_object TCS_OBJECT TCS_READ (value session) in
  do* expect "full audit denies reads" r TCS_AUDIT_FULL in
  let* r := grant 1 in
  do* expect "full audit denies grants" r TCS_AUDIT_FULL in
  let* r := control TCS_REVOKE 1 in
  do* expect "revoke reports missing audit" r TCS_AUDIT_FULL in
  expect_self "status remains live after audit failure" TCS_RESTRICTED (wrap64 (value session + 1)).

Definition console_init : prog unit :=
  do* microkit_dbg_puts in
  let* _ := check_sessions in
  do* check_audit in
  microkit_dbg_puts.

Definition console_notified (ch : Z) : prog unit := ret tt.
End Console.
