(* ===== verification/Demonstration.v ===== *)
(** What the demonstration of [servers/console.c] demonstrates: whoever answers
    the console's calls, it reports success only after a conversation in which
    the access rules were kept and every kind of forbidden access was tried.
    The rules are a monitor of the conversation, apart from the script. *)

From S2P Require Import Prelude Policy Ipc Wp System Console.
Import String.StringSyntax.
#[local] Open Scope string_scope.
#[local] Open Scope Z_scope.

(** ** The conversation *)

(** A call and its answer. *)
Definition exchange : Type := Z * message * message.

(** Any peers, with a record of what they were asked and answered. *)
Definition recorded {W} (call : W -> Z -> message -> W * message)
    (w : W * list exchange) (ch : Z) (m : message) : (W * list exchange) * message :=
  let '(w', a) := call (fst w) ch m in ((w', snd w ++ [(ch, m, a)]), a).

(** ** The rules *)

(** Where the client's session stands. *)
Inductive phase := Ungranted | Granted | Revoked | Isolated | Restored.

#[export] Instance phase_eq_dec : EqDecision phase.
Proof. solve_decision. Defined.

Definition reported (p : phase) : tcs_state :=
  match p with Granted => TCS_ACTIVE | Isolated => TCS_QUARANTINED | _ => TCS_RESTRICTED end.

(** The session and its generation; the audit records that are left, once known;
    how the first read was answered; the reads that were refused, each with the
    phase it was in; and whether all answers kept to the rules. *)
Record conduct := {
  k_phase : phase;
  k_generation : Z;
  k_room : option nat;
  k_first : option Z;
  k_refused : list (phase * (Z * Z * Z));
  k_sound : bool
}.

Definition conduct_start : conduct :=
  {| k_phase := Ungranted; k_generation := 0; k_room := None; k_first := None; k_refused := []; k_sound := true |}.

Definition require (b : bool) (k : conduct) : conduct :=
  {| k_phase := k_phase k; k_generation := k_generation k; k_room := k_room k; k_first := k_first k;
     k_refused := k_refused k; k_sound := k_sound k && b |}.
Definition moved_to (p : phase) (generation : Z) (k : conduct) : conduct :=
  {| k_phase := p; k_generation := generation; k_room := k_room k; k_first := k_first k;
     k_refused := k_refused k; k_sound := k_sound k |}.

Definition has_room (k : conduct) : bool := match k_room k with Some O => false | _ => true end.
Definition granted (k : conduct) : bool := match k_phase k with Granted => true | _ => false end.
Definition isolated (k : conduct) : bool := match k_phase k with Isolated => true | _ => false end.

(** A read is allowed to the current session of the one object, while it can be
    recorded. *)
Definition allowed (k : conduct) (object rights generation : Z) : bool :=
  granted k && (generation =? k_generation k) && (object =? TCS_OBJECT) &&
  (rights =? TCS_READ) && has_room k.

Definition watch_read (k : conduct) (object rights generation : Z) (r : tcs_result) : conduct :=
  let ok := status r =? TCS_OK in
  {| k_phase := k_phase k; k_generation := k_generation k;
     k_room := if ok then pred <$> k_room k else k_room k;
     k_first := match k_first k with None => Some (status r) | first => first end;
     k_refused := if ok then k_refused k else k_refused k ++ [(k_phase k, (object, rights, generation))];
     k_sound := k_sound k && (negb ok || allowed k object rights generation) |}.

(** A status tells the truth about the session. *)
Definition truthful (k : conduct) (s : tcs_snapshot) : bool :=
  let active := bool_decide (reported (k_phase k) = TCS_ACTIVE) in
  (n_status s =? TCS_OK) && (n_state s =? tcs_state_val (reported (k_phase k))) &&
  (n_generation s =? k_generation k) && (n_object s =? (if active then TCS_OBJECT else 0)) &&
  (n_rights s =? (if active then TCS_READ else 0)).

(** Operations on the client's session. A grant counts when it is answered, the
    others as soon as they are requested. *)
Definition watch_control (k : conduct) (op : Z) (r : tcs_result) : conduct :=
  let next := wrap64 (k_generation k + 1) in
  if op =? TCS_LABEL TCS_GRANT then
    if status r =? TCS_OK
    then moved_to Granted (value r) (require (negb (isolated k) && has_room k) k)
    else k
  else if op =? TCS_LABEL TCS_REVOKE then moved_to Revoked next k
  else if op =? TCS_LABEL TCS_QUARANTINE then moved_to Isolated next k
  else if op =? TCS_LABEL TCS_RESTORE then moved_to Restored next k
  else k.

(** The oldest audit record is of the first read, with its answer. *)
Definition first_recorded (k : conduct) (a : message) : bool :=
  let word i := m_words a !!! i in
  (m_label a =? TCS_LABEL TCS_AUDIT_GET) && (length (m_words a) =? 8)%nat && (word 0%nat =? 1) &&
  (word 1%nat =? TCS_CHECK) && (word 2%nat =? tcs_actor_val TCS_STORAGE) && (word 3%nat =? TCS_CLIENT_SUBJECT) &&
  bool_decide (k_first k = Some (word 7%nat)).

(** The policy is channel 0, the client channel 1, the audit channel 2. What is
    not one of their operations must not be answered with success. *)
Definition watch (k : conduct) (e : exchange) : conduct :=
  let '(ch, m, a) := e in
  let r := response a in
  if ch =? 0 then
    match m_words m with
    | [subject; _; _; _] => if subject =? TCS_CLIENT_SUBJECT then watch_control k (m_label m) r else k
    | _ => require (negb (status r =? TCS_OK)) k
    end
  else if ch =? 1 then
    match m_words m with
    | [object; rights; generation] =>
        if m_label m =? TCS_LABEL TCS_CLIENT_READ then watch_read k object rights generation r
        else require (negb (status r =? TCS_OK)) k
    | [] =>
        if m_label m =? TCS_LABEL TCS_CLIENT_STATUS then require (truthful k (snapshot_response a)) k
        else require (negb (status r =? TCS_OK)) k
    | _ => require (negb (status r =? TCS_OK)) k
    end
  else
    match m_words m with
    | [] =>
        if status r =? TCS_OK then
          {| k_phase := k_phase k; k_generation := k_generation k;
             k_room := Some (TCS_AUDIT_CAPACITY - Z.to_nat (value r))%nat; k_first := k_first k;
             k_refused := k_refused k;
             k_sound := k_sound k && (negb (value r =? 0) && (value r <=? Z.of_nat TCS_AUDIT_CAPACITY)) |}
        else k
    | _ => require (first_recorded k a) k
    end.

Definition conduct_of (log : list exchange) : conduct := exec watch conduct_start log.

(** ** The script *)

Section Script.
Context {W : Type} (call : W -> Z -> message -> W * message) (residue : message -> regs).
#[local] Abbreviation world := (W * list exchange)%type.
#[local] Abbreviation pcall := (recorded call).
Implicit Types st : pd bool world.

(** After [n] calls, unless it failed, the script has seen the conduct [k]. *)
Definition progress (n : nat) (k : conduct) (st : pd bool world) : Prop :=
  length (snd (peers st)) = n /\ (self st = false -> conduct_of (snd (peers st)) = k).

(** From [st], [p] makes the one call [m] and returns what [read] makes of the
    answer. *)
Definition asks {A} (p : prog bool world A) (ch : Z) (m : message) (read : message -> A) st : Prop :=
  exists w a, p st = ({| self := self st; peers := (w, snd (peers st) ++ [(ch, m, a)]);
                         mr := load (m_words a) (residue a) |}, read a).

Lemma asks_ppcall ch i st :
  asks (microkit_ppcall pcall residue ch i) ch {| m_label := i_label i; m_words := store (mr st) (i_count i) |}
    (fun a => {| i_label := m_label a; i_count := length (m_words a) |}) st.
Proof. unfold asks, microkit_ppcall, recorded. destruct (call _ _ _) as [w a]. by exists w, a. Qed.

Lemma asks_bind {A B} (p : prog bool world A) ch m read (f : A -> prog bool world B) read' st :
  asks p ch m read st ->
  (forall st' a, mr st' = load (m_words a) (residue a) -> f (read a) st' = (st', read' a)) ->
  asks (bind p f) ch m read' st.
Proof.
  intros (w & a & Hp) Hf. exists w, a. unfold bind. rewrite Hp. by apply Hf.
Qed.

Lemma asks_response ch i st :
  asks (let* msg := microkit_ppcall pcall residue ch i in tcs_response msg) ch
    {| m_label := i_label i; m_words := store (mr st) (i_count i) |} response st.
Proof. eapply asks_bind; [apply asks_ppcall|]. intros st' a Hr. by eapply tcs_response_run. Qed.

(** The message registers before a call. *)
Definition with_regs st (r : regs) : pd bool world := {| self := self st; peers := peers st; mr := r |}.

Lemma asks_policy r st : asks (tcs_policy_call pcall residue 0 r) 0 (request_message r) response st.
Proof.
  exact (asks_response 0 (info (TCS_LABEL (r_op r)) 4) (with_regs st (set_reg (set_reg (set_reg (set_reg (mr st)
    0 (r_subject r)) 1 (r_object r)) 2 (r_rights r)) 3 (r_generation r)))).
Qed.

Lemma asks_read object rights generation st :
  asks (read_object pcall residue object rights generation) 1
    {| m_label := TCS_LABEL TCS_CLIENT_READ; m_words := [object; rights; generation] |} response st.
Proof.
  exact (asks_response 1 (info (TCS_LABEL TCS_CLIENT_READ) 3) (with_regs st (set_reg (set_reg (set_reg (mr st)
    0 object) 1 rights) 2 generation))).
Qed.

(** *** Rules *)

Lemma wp_asks {A B} (p : prog bool world A) ch m read (f : A -> prog bool world B) n k st Q :
  asks p ch m read st -> progress n k st ->
  (forall a st', mr st' = load (m_words a) (residue a) -> progress (S n) (watch k (ch, m, a)) st' -> wp (f (read a)) st' Q) ->
  wp (bind p f) st Q.
Proof.
  intros (w & a & Hp) [Hn Hk] Hf. apply wp_bind. unfold wp at 1. rewrite Hp. apply Hf; [done|]. split.
  - cbn [peers snd]. rewrite length_app, Hn. cbn. lia.
  - cbn [self peers snd]. intros Hs. unfold conduct_of. rewrite exec_app. by rewrite <- (Hk Hs).
Qed.

(** A check that fails ends all claims; one that passes may say more. *)
Lemma wp_check (ok : bool) n k k' st :
  progress n k st -> (ok = true -> k = k') -> wp (fail_unless ok) st (fun _ st' => progress n k' st').
Proof.
  intros [Hn Hk] Hok. unfold fail_unless. apply wp_bind, wp_get, wp_put. split; [exact Hn|].
  cbn [self peers]. intros [Hs Ho%negb_false_iff]%orb_false_iff. rewrite <- (Hok Ho). by apply Hk.
Qed.

(** A call whose answer is compared with an expected status. *)
Lemma wp_expect {B} (p : prog bool world tcs_result) ch m what s (f : tcs_result -> prog bool world B) n k k' st Q :
  asks p ch m response st -> progress n k st ->
  (forall a v, response a = result s v -> watch k (ch, m, a) = k' v) ->
  (forall r st', progress (S n) (k' (value r)) st' -> wp (f r) st' Q) ->
  wp (let* r := p in do* expect what r s in f r) st Q.
Proof.
  intros Ha Hp Hw Hf. eapply wp_asks; [exact Ha|exact Hp|]. intros a st' _ Hp'.
  apply wp_bind, (wp_mono _ _ (fun _ st'' => progress (S n) (k' (value (response a))) st'')); [|intros []; apply Hf].
  change (wp (fail_unless ((status (response a) =? s) && ((s =? TCS_OK) || (value (response a) =? 0)))) st'
            (fun _ st'' => progress (S n) (k' (value (response a))) st'')).
  eapply wp_check; [exact Hp'|]. intros [Hs%Z.eqb_eq _]%andb_true_iff. apply Hw.
  destruct (response a) as [st0 v]. by cbn in Hs |- *; subst.
Qed.

(** A status that must be the truth. *)
Lemma wp_expect_self what state generation n k st :
  progress n k st -> state = reported (k_phase k) -> generation = k_generation k ->
  wp (expect_self pcall residue what state generation) st (fun _ st' => progress (S n) k st').
Proof.
  intros Hp -> ->. unfold expect_self.
  eapply wp_asks; [apply asks_ppcall|exact Hp|]. intros a st' Hr Hp'. apply wp_bind.
  unfold wp at 1. rewrite (tcs_snapshot_response_run _ a (residue a)) by exact Hr.
  change (wp (fail_unless (truthful k (snapshot_response a))) st' (fun _ st'' => progress (S n) k st'')).
  eapply wp_check; [exact Hp'|]. intros Ht. cbn [watch Z.eqb Pos.eqb]. cbn. rewrite Ht.
  unfold require. destruct k. cbn. by rewrite andb_true_r.
Qed.

(** A check of the answer that is no call. *)
Lemma wp_when_fails {B} (b : bool) (m : prog bool world unit) (f : unit -> prog bool world B) n k k' st Q :
  progress n k st -> (b = false -> k = k') ->
  (forall st', self (fst (m st')) = true /\ peers (fst (m st')) = peers st') ->
  (forall st', progress n k' st' -> wp (f tt) st' Q) -> wp (bind (when b m) f) st Q.
Proof.
  intros [Hn Hk] Hb Hm Hf. apply wp_bind. destruct b; cbn [when].
  - destruct (Hm st) as [Hs Hp]. unfold wp at 1. destruct (m st) as [st' []]. apply Hf. cbn [fst] in *.
    split; [by rewrite Hp|]. by rewrite Hs.
  - apply wp_ret, Hf. split; [done|]. rewrite <- (Hb eq_refl). exact Hk.
Qed.

(** *** The sessions *)

Lemma wrap64_twice g : wrap64 (wrap64 (g + 1) + 1) = wrap64 (g + 2).
Proof. unfold wrap64. rewrite Zplus_mod_idemp_l. f_equal. lia. Qed.

(** The reads that must be refused: without a session; of another object and for
    writing in the session [old]; when it is revoked, and when it was replaced by
    [new]; [new] in quarantine and after it; and the session of [other]. *)
Definition attempts (old new other : Z) : list (phase * (Z * Z * Z)) :=
  [(Ungranted, (TCS_OBJECT, TCS_READ, 1));
   (Granted, (43, TCS_READ, old)); (Granted, (TCS_OBJECT, TCS_WRITE, old));
   (Revoked, (TCS_OBJECT, TCS_READ, old)); (Granted, (TCS_OBJECT, TCS_READ, old));
   (Isolated, (TCS_OBJECT, TCS_READ, new)); (Restored, (TCS_OBJECT, TCS_READ, new));
   (Restored, (TCS_OBJECT, TCS_READ, other))].

(** What the sessions leave. *)
Definition after_sessions (old new other : Z) : conduct :=
  {| k_phase := Restored; k_generation := wrap64 (new + 2); k_room := None; k_first := Some TCS_DENIED;
     k_refused := attempts old new other; k_sound := true |}.

Ltac watched :=
  let a := fresh in let v := fresh in let Ha := fresh in
  intros a v Ha; cbn [watch Z.eqb Pos.eqb]; rewrite Ha;
  cbv [watch_read watch_control moved_to require allowed has_room granted isolated conduct_start after_sessions]; cbn;
  repeat match goal with |- context [TCS_LABEL ?x =? TCS_LABEL ?y] =>
    let b := eval vm_compute in (TCS_LABEL x =? TCS_LABEL y) in change (TCS_LABEL x =? TCS_LABEL y) with b end; cbn;
  rewrite ?Z.eqb_refl, ?wrap64_twice; cbn; reflexivity.

Ltac told := (* one truthful status *)
  apply wp_bind; eapply wp_mono;
  [eapply wp_expect_self; [eassumption|reflexivity|cbn; rewrite ?wrap64_twice; reflexivity]|intros [] ? ?].
Ltac asked H := (* one checked call *)
  eapply wp_expect; [apply H|eassumption|watched|cbv beta; intros].

Lemma sessions_demonstrated n st :
  progress n conduct_start st ->
  wp (check_sessions pcall residue) st (fun _ st' => exists old new other, progress (28 + n) (after_sessions old new other) st').
Proof.
  intros Hp. unfold check_sessions. told. apply wp_bind, wp_mr_set.
  asked (asks_response 1 (info (TCS_LABEL TCS_CLIENT_STATUS) 1)).
  asked (asks_response 0 (info (TCS_LABEL TCS_SELF_STATUS) 0)). asked asks_read. asked asks_policy. cbv zeta. told.
  asked asks_read. eapply wp_when_fails; [eassumption|reflexivity|done|intros].
  asked asks_read. asked asks_read. asked asks_policy. told. asked asks_read.
  asked asks_policy. told. asked asks_read. asked asks_read. asked asks_policy. told. asked asks_read.
  asked asks_policy. asked asks_policy. told. asked asks_read.
  asked (asks_response 1 (info (TCS_LABEL TCS_CLIENT_BAD_LENGTH) 0)).
  asked (asks_response 1 (info (TCS_LABEL TCS_CLIENT_TRY_GRANT) 0)).
  asked asks_policy. told. asked asks_read. apply wp_ret. by do 3 eexists.
Qed.

(** *** The audit *)

Lemma load_total (words : list Z) (rest : regs) i : (i < length words)%nat -> load words rest i = words !!! i.
Proof. intros Hi. unfold load. by rewrite (list_lookup_lookup_total_lt words i Hi). Qed.

(** What the audit check leaves: one more refusal, of the last session [g]. *)
Definition after_audit (tried : list (phase * (Z * Z * Z))) (g : Z) : conduct :=
  {| k_phase := Revoked; k_generation := wrap64 (g + 1); k_room := Some 0%nat; k_first := Some TCS_DENIED;
     k_refused := tried ++ [(Granted, (TCS_OBJECT, TCS_READ, g))]; k_sound := true |}.

(** In a session, with [room] audit records left. *)
Definition filling (tried : list (phase * (Z * Z * Z))) (g : Z) (room : nat) : conduct :=
  {| k_phase := Granted; k_generation := g; k_room := Some room; k_first := Some TCS_DENIED;
     k_refused := tried; k_sound := true |}.

(** The comparison of the first record, on the registers it was loaded to. *)
Lemma record_checked rest tried g room m a :
  tcs_message {| i_label := m_label a; i_count := length (m_words a) |} TCS_AUDIT_GET 8 &&
    (load (m_words a) rest 0%nat =? 1) && (load (m_words a) rest 1%nat =? TCS_CHECK) &&
    (load (m_words a) rest 2%nat =? tcs_actor_val TCS_STORAGE) && (load (m_words a) rest 3%nat =? 1) &&
    (load (m_words a) rest 7%nat =? TCS_DENIED) = true ->
  m_words m <> [] -> watch (filling tried g room) (2, m, a) = filling tried g room.
Proof.
  intros Hok Hm. cbn [watch Z.eqb Pos.eqb]. destruct (m_words m) as [|w ws]; [done|].
  assert (Hf : first_recorded (filling tried g room) a = true).
  { destruct (length (m_words a) =? 8)%nat eqn:Hl.
    - apply Nat.eqb_eq in Hl. rewrite !load_total in Hok by lia. unfold first_recorded, tcs_message in *.
      cbn [i_label i_count] in Hok. apply andb_true_iff in Hok as [Hok H7%Z.eqb_eq]. rewrite H7.
      apply andb_true_iff. by split.
    - exfalso. unfold tcs_message in Hok. cbn [i_label i_count] in Hok. rewrite Hl, andb_false_r in Hok. done. }
  unfold require. by rewrite Hf.
Qed.

Lemma fill_demonstrated tried g room : forall n st,
  progress n (filling tried g room) st ->
  wp (fill_audit pcall residue room g) st (fun _ st' => progress (room + n) (filling tried g 0) st').
Proof.
  induction room as [|room IH]; intros n st Hp; cbn [fill_audit]; [by apply wp_ret|].
  cbv [filling] in Hp. asked asks_read. rewrite Nat.add_succ_comm. by apply IH.
Qed.

Lemma audit_demonstrated n old new other st :
  progress n (after_sessions old new other) st ->
  wp (check_audit pcall residue) st (fun _ st' => exists room g,
    (room <= TCS_AUDIT_CAPACITY)%nat /\ progress (room + (7 + n)) (after_audit (attempts old new other) g) st').
Proof.
  intros Hp. cbv [after_sessions] in Hp. unfold check_audit. asked asks_policy.
  asked (asks_response 2 (info (TCS_LABEL TCS_AUDIT_COUNT) 0)).
  eapply (wp_when_fails _ _ _ _ _ (filling (attempts old new other) (value r) (64 - Z.to_nat (value r0)))); [eassumption| |done|].
  { intros [H1 H2]%orb_false_iff. unfold filling. f_equal. rewrite H1. cbn [negb andb]. lia. }
  intros st2 Hp2. apply wp_bind, wp_mr_set.
  eapply wp_asks; [apply asks_ppcall|exact Hp2|]. intros a st3 Hr Hp3.
  do 5 (apply wp_bind, wp_mr_get). apply wp_bind, wp_ret, wp_bind.
  apply (wp_mono _ _ (fun _ st' => progress (S (S (S n))) (filling (attempts old new other) (value r) (64 - Z.to_nat (value r0))) st')).
  { eapply wp_check; [exact Hp3|]. intros Hok. rewrite !Hr in Hok. by eapply (record_checked (residue a)). }
  intros [] st4 Hp4. apply wp_bind. eapply wp_mono; [by apply fill_demonstrated|]. intros [] st5 Hp5.
  cbv [filling] in Hp5. asked asks_read. asked asks_policy. asked asks_policy.
  eapply wp_mono; [eapply wp_expect_self; [eassumption|reflexivity|cbn; reflexivity]|].
  intros [] st6 Hp6. exists (TCS_AUDIT_CAPACITY - Z.to_nat (value r0))%nat, (value r). split; [lia|].
  replace (TCS_AUDIT_CAPACITY - _ + (7 + n))%nat with (S (S (S (S (TCS_AUDIT_CAPACITY - Z.to_nat (value r0) + S (S (S n)))))))
    by lia. exact Hp6.
Qed.
End Script.

(** ** What success means *)

Section Verdict.
Context {W : Type} (call : W -> Z -> message -> W * message) (residue : message -> regs).

(** The console from its start: its verdict ([failed]) and the conversation. *)
Definition demonstration (w : W) (rest : regs) : pd bool (W * list exchange) :=
  fst (console_init (recorded call) residue {| self := false; peers := (w, []); mr := rest |}).

Lemma demonstration_ends w rest :
  exists room old new other g, (room <= TCS_AUDIT_CAPACITY)%nat /\
    progress (room + 35) (after_audit (attempts old new other) g) (demonstration w rest).
Proof.
  apply (wp_run (console_init (recorded call) residue) _
    (fun _ st => exists room old new other g, (room <= TCS_AUDIT_CAPACITY)%nat /\
       progress (room + 35) (after_audit (attempts old new other) g) st)).
  apply wp_bind, wp_ret, wp_bind. eapply wp_mono; [by apply (sessions_demonstrated call residue 0)|].
  intros _g st (old & new & other & Hp). apply wp_bind. eapply wp_mono; [by apply audit_demonstrated|].
  intros [] st' (room & g & Hr & H). apply wp_ret. by exists room, old, new, other, g.
Qed.

End Verdict.

