(* ===== verification/AdminIpc.v ===== *)
(** The private formats of the administrator's channels:
    [include/tcs/admin_ipc.h].

    Packets and contexts travel as little-endian words, executions and receipts
    field by field. The helpers are programs over the message registers; the
    messages they make and read are functions. *)

From S2P Require Import Prelude Bytes Policy Admin Receipt Ipc.

Definition TCS_ADMIN_SUBMIT : Z := 0x201.
Definition TCS_ADMIN_EXECUTE : Z := 0x202.
Definition TCS_ADMIN_RECEIPT : Z := 0x280.
Definition TCS_ADMIN_ADMISSION : Z := 0x281.
Definition TCS_TEST_BOOT_CONTEXT : Z := 0x301.
Definition TCS_TEST_BOOT_DATA : Z := 0x380.
Definition TCS_ADMIN_PACKET_WORDS : nat := 24.
Definition TCS_ADMIN_RECEIPT_WORDS : nat := 13.

Section Helpers.
Context {S W : Type}.
#[local] Abbreviation prog := (prog S W).

(** A loop that updates a local variable. *)
Fixpoint loop_with {A} (from n : nat) (body : nat -> A -> prog A) (a : A) : prog A :=
  match n with
  | O => ret a
  | Datatypes.S n =>
      let* a := body from a in
      loop_with (Datatypes.S from) n body a
  end.

Definition tcs_words_from_bytes (bytes : list Z) (length : nat) : prog unit :=
  loop 0 (length / 8) (fun i => microkit_mr_set i (load_le64 (drop (8 * i) bytes))).

(** The buffer after the transfer. *)
Definition tcs_bytes_from_words (bytes : list Z) (length : nat) : prog (list Z) :=
  loop_with 0 (length / 8) (fun i bytes =>
    let* word := microkit_mr_get i in
    ret (blit bytes (8 * i) (le_bytes word))) bytes.

Definition tcs_execution_words (c : tcs_admin_command) : prog unit :=
  do* microkit_mr_set 0 (c_sequence c) in
  do* microkit_mr_set 1 (c_expected_generation c) in
  do* microkit_mr_set 2 (r_op (c_request c)) in
  do* microkit_mr_set 3 (r_subject (c_request c)) in
  do* microkit_mr_set 4 (r_object (c_request c)) in
  microkit_mr_set 5 (r_rights (c_request c)).

Definition tcs_execution_from_words : prog tcs_admin_command :=
  let* w0 := microkit_mr_get 0 in
  let* w1 := microkit_mr_get 1 in
  let* w2 := microkit_mr_get 2 in
  let* w3 := microkit_mr_get 3 in
  let* w4 := microkit_mr_get 4 in
  let* w5 := microkit_mr_get 5 in
  ret {| c_sequence := w0; c_expected_generation := w1;
         c_request := {| r_op := w2; r_subject := w3; r_object := w4; r_rights := w5;
                         r_generation := 0 |} |}.

Definition tcs_admin_receipt_reply (r : tcs_admin_receipt) : prog msginfo :=
  do* tcs_execution_words (rc_command r) in
  do* microkit_mr_set 6 (rc_decision r) in
  do* microkit_mr_set 7 (rc_audit_ok r) in
  do* microkit_mr_set 8 (rc_applied r) in
  do* microkit_mr_set 9 (n_state (rc_post r)) in
  do* microkit_mr_set 10 (n_generation (rc_post r)) in
  do* microkit_mr_set 11 (n_object (rc_post r)) in
  do* microkit_mr_set 12 (n_rights (rc_post r)) in
  ret (info TCS_ADMIN_RECEIPT TCS_ADMIN_RECEIPT_WORDS).

(** [(struct tcs_admin_receipt){0}]. *)
Definition receipt_zero : tcs_admin_receipt :=
  {| rc_command := command_zero; rc_decision := 0; rc_audit_ok := 0; rc_applied := 0;
     rc_post := {| n_status := 0; n_state := 0; n_generation := 0; n_object := 0;
                   n_rights := 0 |} |}.

(** Returns the success flag and the caller's receipt object. *)
Definition tcs_admin_receipt_decode (m : msginfo) : prog (bool * tcs_admin_receipt) :=
  if negb (i_label m =? TCS_ADMIN_RECEIPT) || negb (i_count m =? TCS_ADMIN_RECEIPT_WORDS)%nat
  then ret (false, receipt_zero)
  else
    let* c := tcs_execution_from_words in
    let* w6 := microkit_mr_get 6 in
    let* w7 := microkit_mr_get 7 in
    let* w8 := microkit_mr_get 8 in
    let* w9 := microkit_mr_get 9 in
    let* w10 := microkit_mr_get 10 in
    let* w11 := microkit_mr_get 11 in
    let* w12 := microkit_mr_get 12 in
    ret (true, {| rc_command := c; rc_decision := w6; rc_audit_ok := w7; rc_applied := w8;
                  rc_post := {| n_status := TCS_OK; n_state := w9; n_generation := w10;
                                n_object := w11; n_rights := w12 |} |}).

Definition tcs_admin_admission_reply (status : tcs_admin_status) : prog msginfo :=
  do* microkit_mr_set 0 (tcs_admin_status_val status) in
  ret (info TCS_ADMIN_ADMISSION 1).
End Helpers.

(** ** The formats, as messages *)

(** Words of a byte buffer, and the bytes of words. *)
Definition words_of (bytes : list Z) : list Z :=
  map (fun i => load_le64 (drop (8 * i) bytes)) (seq 0 (length bytes / 8)).
Definition bytes_of (words : list Z) : list Z := flat_map le_bytes words.

Definition command_words (c : tcs_admin_command) : list Z :=
  [c_sequence c; c_expected_generation c; r_op (c_request c); r_subject (c_request c);
   r_object (c_request c); r_rights (c_request c)].

Definition words_command (w : list Z) : tcs_admin_command :=
  {| c_sequence := w !!! 0%nat; c_expected_generation := w !!! 1%nat;
     c_request := {| r_op := w !!! 2%nat; r_subject := w !!! 3%nat; r_object := w !!! 4%nat;
                     r_rights := w !!! 5%nat; r_generation := 0 |} |}.

Definition execution_message (c : tcs_admin_command) : message :=
  {| m_label := TCS_ADMIN_EXECUTE; m_words := command_words c |}.

Definition submit_message (packet : list Z) : message :=
  {| m_label := TCS_ADMIN_SUBMIT; m_words := words_of packet |}.

Definition receipt_message (r : tcs_admin_receipt) : message :=
  {| m_label := TCS_ADMIN_RECEIPT;
     m_words := command_words (rc_command r) ++
       [rc_decision r; rc_audit_ok r; rc_applied r; n_state (rc_post r);
        n_generation (rc_post r); n_object (rc_post r); n_rights (rc_post r)] |}.

Definition admission_message (status : tcs_admin_status) : message :=
  {| m_label := TCS_ADMIN_ADMISSION; m_words := [tcs_admin_status_val status] |}.

(** The receipt a message is understood as. *)
Definition message_receipt (m : message) : bool * tcs_admin_receipt :=
  if negb (m_label m =? TCS_ADMIN_RECEIPT) ||
     negb (length (m_words m) =? TCS_ADMIN_RECEIPT_WORDS)%nat
  then (false, receipt_zero)
  else
    let w := m_words m in
    (true, {| rc_command := words_command w; rc_decision := w !!! 6%nat;
              rc_audit_ok := w !!! 7%nat; rc_applied := w !!! 8%nat;
              rc_post := {| n_status := TCS_OK; n_state := w !!! 9%nat;
                            n_generation := w !!! 10%nat; n_object := w !!! 11%nat;
                            n_rights := w !!! 12%nat |} |}).

(** ** What the helpers do *)

Lemma load_lookup words rest i : (i < length words)%nat -> load words rest i = words !!! i.
Proof.
  intros Hi. unfold load. rewrite list_lookup_total_alt.
  destruct (lookup_lt_is_Some_2 words i Hi) as [w ->]. done.
Qed.

(** Filling the registers one after the other. *)
Lemma store_snoc r n v : store (set_reg r n v) (S n) = store r n ++ [v].
Proof.
  unfold store. rewrite seq_S, map_app. cbn [map plus]. unfold set_reg at 2.
  rewrite Nat.eqb_refl. f_equal. apply map_ext_in. intros i Hi%in_seq. unfold set_reg.
  destruct (Nat.eqb_spec i n); [lia|done].
Qed.

Section HelperLemmas.
Context {S W : Type}.
Implicit Types st : pd S W.

Definition with_mr st (r : regs) : pd S W := {| self := self st; peers := peers st; mr := r |}.

Lemma execution_from_words_run st words rest :
  mr st = load words rest -> (6 <= length words)%nat ->
  tcs_execution_from_words st = (st, words_command words).
Proof.
  intros Hr Hl. unfold tcs_execution_from_words. cbv [bind microkit_mr_get ret].
  rewrite Hr, !load_lookup by lia. done.
Qed.

Lemma receipt_decode_run st m rest :
  mr st = load (m_words m) rest ->
  tcs_admin_receipt_decode {| i_label := m_label m; i_count := length (m_words m) |} st =
    (st, message_receipt m).
Proof.
  intros Hr. unfold tcs_admin_receipt_decode, message_receipt. cbn [i_label i_count].
  destruct (negb (m_label m =? TCS_ADMIN_RECEIPT)); cbn [orb]; [done|].
  destruct (length (m_words m) =? TCS_ADMIN_RECEIPT_WORDS)%nat eqn:Hl; cbn [negb]; [|done].
  apply Nat.eqb_eq in Hl. unfold TCS_ADMIN_RECEIPT_WORDS in Hl.
  unfold bind at 1. rewrite (execution_from_words_run st _ rest Hr) by lia.
  cbv [bind microkit_mr_get ret]. rewrite Hr, !load_lookup by lia. done.
Qed.

Lemma bind_mr_set {A} st i v (k : unit -> prog S W A) :
  bind (microkit_mr_set i v) k st = k tt (with_mr st (set_reg (mr st) i v)).
Proof. done. Qed.

Lemma bind_assoc {A B C} (m : prog S W A) (f : A -> prog S W B) (g : B -> prog S W C) st :
  bind (bind m f) g st = bind m (fun a => bind (f a) g) st.
Proof. unfold bind. by destruct (m st). Qed.

Lemma with_mr_mr st r r' : with_mr (with_mr st r) r' = with_mr st r'.
Proof. done. Qed.

Lemma mr_with_mr st r : mr (with_mr st r) = r.
Proof. done. Qed.

(** The receipt words, as a transfer of them over what was there. *)
Lemma receipt_reply_run st r :
  exists rg, tcs_admin_receipt_reply r st =
      (with_mr st rg, info TCS_ADMIN_RECEIPT TCS_ADMIN_RECEIPT_WORDS) /\
    store rg TCS_ADMIN_RECEIPT_WORDS = m_words (receipt_message r).
Proof.
  eexists. split.
  - unfold tcs_admin_receipt_reply, tcs_execution_words.
    repeat (rewrite ?bind_assoc, bind_mr_set; cbv beta). rewrite !with_mr_mr, !mr_with_mr.
    reflexivity.
  - unfold TCS_ADMIN_RECEIPT_WORDS. by rewrite !store_snoc.
Qed.

Lemma admission_reply_run st status :
  let '(st', i) := tcs_admin_admission_reply status st in
  self st' = self st /\ peers st' = peers st /\
  {| m_label := i_label i; m_words := store (mr st') (i_count i) |} = admission_message status.
Proof. done. Qed.

(** The execution words, as a transfer of them over what was there. *)
Lemma execution_words_run st c :
  exists r, tcs_execution_words c st = (with_mr st r, tt) /\ store r 6 = command_words c.
Proof. eexists. split; [reflexivity|]. done. Qed.

Ltac nat_cases :=
  repeat match goal with
  | |- context [(?a =? ?b)%nat] => destruct (Nat.eqb_spec a b)
  | |- context [(?a <=? ?b)%nat] => destruct (Nat.leb_spec a b)
  | |- context [(?a <? ?b)%nat] => destruct (Nat.ltb_spec a b)
  end; cbn [andb]; subst; try (done || lia).

Lemma loop_mr_set (f : nat -> Z) n from st :
  exists r, loop from n (fun i => microkit_mr_set i (f i)) st = (with_mr st r, tt) /\
    forall j, r j = if ((from <=? j) && (j <? from + n))%nat then f j else mr st j.
Proof.
  revert from st. induction n as [|n IH]; intros from st; cbn [loop].
  - exists (mr st). split; [by destruct st|]. intros j.
    nat_cases.
  - destruct (IH (Datatypes.S from)
      {| self := self st; peers := peers st; mr := set_reg (mr st) from (f from) |}) as (r & Hrun & Hr).
    exists r. split; [exact Hrun|]. intros j. rewrite Hr. cbn [mr]. unfold set_reg.
    nat_cases.
Qed.

Lemma words_from_bytes_run st bytes :
  exists r, tcs_words_from_bytes bytes (length bytes) st = (with_mr st r, tt) /\
    store r (length bytes / 8) = words_of bytes.
Proof.
  destruct (loop_mr_set (fun i => load_le64 (drop (8 * i) bytes)) (length bytes / 8) 0 st)
    as (r & Hrun & Hr).
  exists r. split; [done|]. unfold store, words_of. apply map_ext_in. intros i Hi%in_seq.
  rewrite Hr. nat_cases.
Qed.

Lemma bytes_of_app l1 l2 : bytes_of (l1 ++ l2) = bytes_of l1 ++ bytes_of l2.
Proof. apply flat_map_app. Qed.

Lemma bytes_of_length words : length (bytes_of words) = (8 * length words)%nat.
Proof. 
  induction words as [|w words IH]; [done|]. change (bytes_of (w :: words)) with (le_bytes w ++ bytes_of words).
  rewrite length_app, le_bytes_length, IH. cbn [length]. lia.
Qed.

Lemma bytes_loop st words rest done todo buf :
  mr st = load words rest -> words = done ++ todo ->
  length buf = (8 * length todo)%nat ->
  loop_with (length done) (length todo) (fun i bytes =>
    let* word := microkit_mr_get i in ret (blit bytes (8 * i) (le_bytes word)))
    (bytes_of done ++ buf) st = (st, bytes_of words).
Proof.
  intros Hr. revert done buf. induction todo as [|w todo IH]; intros done buf Hw Hbuf; cbn [length loop_with].
  - destruct buf; [|done]. subst words. by rewrite !app_nil_r.
  - unfold bind at 1 2, microkit_mr_get at 1. unfold ret at 1. cbv beta iota.
    assert (Hget : mr st (length done) = w).
    { rewrite Hr, load_lookup by (subst words; rewrite length_app; cbn; lia).
      subst words. by apply list_lookup_total_middle. }
    rewrite Hget. cbn [length] in Hbuf.
    assert (Hblit : blit (bytes_of done ++ buf) (8 * length done) (le_bytes w) =
                    bytes_of (done ++ [w]) ++ drop 8 buf).
    { unfold blit. rewrite <- bytes_of_length, take_app_length, drop_app_ge by lia.
      rewrite bytes_of_app. cbn [bytes_of flat_map]. rewrite app_nil_r, <- app_assoc.
      do 3 f_equal. rewrite le_bytes_length. lia. }
    rewrite Hblit. replace (Datatypes.S (length done)) with (length (done ++ [w]))
      by (rewrite length_app; cbn; lia).
    apply IH; [by rewrite <- app_assoc|]. rewrite length_drop. lia.
Qed.

Lemma bytes_from_words_run st words rest buf :
  mr st = load words rest -> length buf = (8 * length words)%nat ->
  tcs_bytes_from_words buf (length buf) st = (st, bytes_of words).
Proof.
  intros Hr Hb. unfold tcs_bytes_from_words. rewrite Hb, Nat.mul_comm, Nat.div_mul by done.
  by apply (bytes_loop st words rest [] words buf).
Qed.
End HelperLemmas.

(** ** Round trips *)

Lemma words_of_bytes_of words : Forall u64 words -> words_of (bytes_of words) = words.
Proof.
  intros Hw. unfold words_of. rewrite bytes_of_length, Nat.mul_comm, Nat.div_mul by done.
  induction Hw as [|w words Hw Hws IH]; [done|]. cbn [length seq map]. f_equal.
  - cbn [bytes_of flat_map]. rewrite Nat.mul_0_r. by apply load_le_bytes.
  - rewrite <- seq_shift, map_map. rewrite <- IH at 2. apply map_ext. intros i.
    cbn [bytes_of flat_map]. replace (8 * S i)%nat with (length (le_bytes w) + 8 * i)%nat
      by (rewrite le_bytes_length; lia).
    by rewrite drop_app_add.
Qed.

Lemma bytes_of_words_of n bytes :
  byte_list bytes -> length bytes = (8 * n)%nat -> bytes_of (words_of bytes) = bytes.
Proof.
  intros Hb Hl. unfold words_of. rewrite Hl, Nat.mul_comm, Nat.div_mul by done.
  revert bytes Hb Hl. induction n as [|n IH]; intros bytes Hb Hl; [by destruct bytes|].
  cbn [seq map bytes_of flat_map]. rewrite Nat.mul_0_r, drop_0.
  rewrite le_bytes_load by (done || lia). etrans; [|apply (take_drop 8 bytes)]. f_equal.
  rewrite <- (IH (drop 8 bytes)) by (try apply Forall_drop; rewrite ?length_drop; done || lia).
  unfold bytes_of. f_equal. rewrite <- seq_shift, map_map. apply map_ext. intros i.
  rewrite drop_drop. do 2 f_equal. lia.
Qed.

Lemma bytes_of_byte_list words : byte_list (bytes_of words).
Proof. induction words; [constructor|]. apply Forall_app_2; [apply le_bytes_are_bytes|done]. Qed.

Lemma words_of_length bytes n : length bytes = (8 * n)%nat -> length (words_of bytes) = n.
Proof. intros H. unfold words_of. rewrite length_map, length_seq, H, Nat.mul_comm. by apply Nat.div_mul. Qed.

Lemma words_of_u64 bytes : byte_list bytes -> Forall u64 (words_of bytes).
Proof.
  intros Hb. unfold words_of. apply List.Forall_forall. intros w (i & <- & Hi%in_seq)%in_map_iff.
  apply load_le64_range; [|by apply Forall_drop]. rewrite length_drop.
  pose proof (Nat.div_mod_eq (length bytes) 8). lia.
Qed.

Lemma words_command_words c tail :
  r_generation (c_request c) = 0 -> words_command (command_words c ++ tail) = c.
Proof. destruct c as [s e [op su ob ri g]]. simpl. by intros ->. Qed.

(** A receipt survives its transfer. *)
Lemma receipt_roundtrip r :
  r_generation (c_request (rc_command r)) = 0 -> n_status (rc_post r) = TCS_OK ->
  message_receipt (receipt_message r) = (true, r).
Proof.
  intros Hg Hs. unfold message_receipt, receipt_message. cbn [m_label m_words].
  rewrite words_command_words by done. cbn. rewrite <- Hs. by destruct r as [? ? ? ? []].
Qed.
