(* ===== verification/AdminServers.v ===== *)
(** The servers of the administrator's path: [include/tcs/admin_server.h],
    [servers/admin.c], [servers/launch_admin.c], [servers/launch_boot.c] and
    [servers/admin_policy.c].

    The administrator admits a signed packet, has the policy execute the command
    and forwards its receipt after checking it; the policy executes a command
    once, in sequence, and records the decision. The signature check, the kernel's
    calls and the firmware device are parameters. *)

From S2P Require Import Prelude Bytes Policy Admin Receipt Terminal Launch Boot Ipc Servers AdminIpc.
Import String.StringSyntax.
#[local] Open Scope string_scope.
#[local] Open Scope Z_scope.

Definition TCS_LAUNCH_CONTEXT : Z := 0x401.
Definition TCS_LAUNCH_DATA : Z := 0x480.
Definition TCS_LAUNCH_ITEM : list Z := codes "opt/tcs/launch-context" ++ [0].

(** ** include/tcs/admin_server.h *)

Section AdminServer.
Context (crypto_ed25519_check : list Z -> list Z -> list Z -> Z).
Context {W : Type} (call : W -> Z -> message -> W * message) (residue : message -> regs).
#[local] Abbreviation prog := (prog tcs_admin W).

(** The administrator is a static object: its address is never null. *)
Definition tcs_admin_server_request (ch : Z) (msg : msginfo) : prog msginfo :=
  if negb (ch =? 0) then tcs_reply (result TCS_DENIED 0)
  else if negb (i_label msg =? TCS_ADMIN_SUBMIT) || negb (i_count msg =? TCS_ADMIN_PACKET_WORDS)%nat
  then tcs_admin_admission_reply TCS_ADMIN_BAD_PACKET
  else
  let packet := replicate (Z.to_nat TCS_ADMIN_PACKET_BYTES) 0 in
  let* packet := tcs_bytes_from_words packet (length packet) in
  let* administrator := get in
  let '(status, administrator', command) :=
    tcs_admin_admit crypto_ed25519_check (Some administrator) (Some packet)
      (Z.of_nat (length packet)) (Some command_zero) in
  let command := default command_zero command in
  do* put (default administrator administrator') in
  if negb (bool_decide (status = TCS_ADMIN_ACCEPTED)) then tcs_admin_admission_reply status
  else
  do* tcs_execution_words command in
  let* reply := microkit_ppcall call residue 2 (info TCS_ADMIN_EXECUTE 6) in
  let* decoded := tcs_admin_receipt_decode reply in
  let '(ok, receipt) := decoded in
  if negb ok || negb (tcs_admin_receipt_valid command receipt)
  then tcs_admin_admission_reply TCS_ADMIN_BAD_COMPLETION
  else
  let* administrator := get in
  let '(status, administrator') :=
    tcs_admin_complete (Some administrator) (c_sequence command) in
  do* put (default administrator administrator') in
  if negb (bool_decide (status = TCS_ADMIN_ACCEPTED))
  then tcs_admin_admission_reply TCS_ADMIN_BAD_COMPLETION
  else tcs_admin_receipt_reply receipt.

(** ** servers/admin.c *)

Definition admin_init : prog unit :=
  let* reply := microkit_ppcall call residue 1 (info TCS_TEST_BOOT_CONTEXT 0) in
  if negb (i_label reply =? TCS_TEST_BOOT_DATA) || negb (i_count reply =? TCS_BOOT_BYTES / 8)%nat
  then ret tt
  else
  let* bytes := tcs_bytes_from_words (replicate TCS_BOOT_BYTES 0) TCS_BOOT_BYTES in
  match tcs_boot_decode_test (Some bytes) TCS_BOOT_BYTES (Some boot_context_zero) with
  | (TCS_BOOT_OK, Some context) =>
      let* administrator := get in
      let '(_, administrator') :=
        tcs_admin_init (Some administrator) (Some (b_public_key context)) (Some (b_realm context))
          (Some (b_boot context)) in
      put (default administrator administrator')
  | _ => ret tt
  end.

(** ** servers/launch_admin.c *)

(** [mode] is the launch mode the image is built with. *)
Definition launch_admin_init (mode : Z) : prog unit :=
  let* reply := microkit_ppcall call residue 1 (info TCS_LAUNCH_CONTEXT 0) in
  if negb (i_label reply =? TCS_LAUNCH_DATA) || negb (i_count reply =? TCS_LAUNCH_BYTES / 8)%nat
  then ret tt
  else
  let* bytes := tcs_bytes_from_words (replicate TCS_LAUNCH_BYTES 0) TCS_LAUNCH_BYTES in
  match tcs_launch_decode (Some bytes) TCS_LAUNCH_BYTES mode (Some launch_zero) with
  | (true, Some launch) =>
      let* administrator := get in
      let '(_, administrator') :=
        tcs_admin_init (Some administrator) (Some (public_key (identity launch)))
          (Some (realm (identity launch))) (Some (boot launch)) in
      put (default administrator administrator')
  | _ => ret tt
  end.
End AdminServer.

(** ** servers/launch_boot.c *)

Record launch_boot_server := { lb_bytes : list Z; lb_ready : bool }.

Definition launch_boot_start : launch_boot_server :=
  {| lb_bytes := replicate TCS_LAUNCH_BYTES 0; lb_ready := false |}.

Section LaunchBoot.
(** The device's selector and data registers. *)
Context {D : Type} (write_selector : D -> Z -> D) (read_data : D -> D * Z).

Definition select_item (d : D) (key : Z) : D * bool :=
  (write_selector d (wrap16 (Z.lor (Z.shiftl key 8) (Z.shiftr key 8))), true).

Definition read_byte (d : D) (byte : Z) : D * bool * Z :=
  let '(d, b) := read_data d in (d, true, b).

Definition launch_boot_init (mode : Z) (d : D) (s : launch_boot_server) : D * launch_boot_server :=
  let io := {| io_select := Some select_item; io_read := Some read_byte |} in
  let '(d, status, bytes) :=
    tcs_fwcfg_read io d (Some TCS_LAUNCH_ITEM) (Some (lb_bytes s)) TCS_LAUNCH_BYTES in
  let bytes := default (lb_bytes s) bytes in
  (d, {| lb_bytes := bytes;
         lb_ready := bool_decide (status = TCS_BOOT_OK) &&
           fst (tcs_launch_decode (Some bytes) TCS_LAUNCH_BYTES mode (Some launch_zero)) |}).
End LaunchBoot.

Definition launch_boot_protected {W} (ch : Z) (msg : msginfo) : prog launch_boot_server W msginfo :=
  let* s := get in
  if negb (lb_ready s) || negb (ch =? 0) then tcs_reply (result TCS_DENIED 0)
  else if negb (i_label msg =? TCS_LAUNCH_CONTEXT) || negb (i_count msg =? 0)%nat
  then tcs_reply (result TCS_BAD_MESSAGE 0)
  else
    do* tcs_words_from_bytes (lb_bytes s) (length (lb_bytes s)) in
    ret (info TCS_LAUNCH_DATA (length (lb_bytes s) / 8)).

(** ** servers/admin_policy.c *)

Record admin_policy_server := {
  policy_live : tcs_policy;
  policy_ready : bool;
  execution_sequence : Z;
  execution_exhausted : bool
}.

Definition admin_policy_start : admin_policy_server :=
  {| policy_live := policy_zero; policy_ready := false; execution_sequence := 1;
     execution_exhausted := false |}.

Definition admin_policy_init (s : admin_policy_server) : admin_policy_server :=
  {| policy_live := policy_live s; policy_ready := true;
     execution_sequence := execution_sequence s; execution_exhausted := execution_exhausted s |}.

Definition set_live (s : admin_policy_server) (p : tcs_policy) : admin_policy_server :=
  {| policy_live := p; policy_ready := policy_ready s;
     execution_sequence := execution_sequence s; execution_exhausted := execution_exhausted s |}.

(** Consume even a stale or audit-denied execution. *)
Definition consume_execution (s : admin_policy_server) : admin_policy_server :=
  if execution_sequence s =? UINT64_MAX then
    {| policy_live := policy_live s; policy_ready := policy_ready s;
       execution_sequence := execution_sequence s; execution_exhausted := true |}
  else
    {| policy_live := policy_live s; policy_ready := policy_ready s;
       execution_sequence := wrap64 (execution_sequence s + 1);
       execution_exhausted := execution_exhausted s |}.

Section AdminPolicy.
Context {W : Type} (call : W -> Z -> message -> W * message) (residue : message -> regs).
#[local] Abbreviation prog := (prog admin_policy_server W).

Definition record_decision (request : tcs_request) (actor : tcs_actor) (decision : tcs_result)
    : prog bool :=
  do* microkit_mr_set 0 (r_op request) in
  do* microkit_mr_set 1 (tcs_actor_val actor) in
  do* microkit_mr_set 2 (r_subject request) in
  do* microkit_mr_set 3 (r_object request) in
  do* microkit_mr_set 4 (r_rights request) in
  do* microkit_mr_set 5 (r_generation request) in
  do* microkit_mr_set 6 (status decision) in
  let* reply := microkit_ppcall call residue 2 (info (TCS_LABEL TCS_AUDIT_APPEND) 7) in
  let* logged := tcs_response reply in
  ret ((status logged =? TCS_OK) && (1 <=? value logged) &&
       (value logged <=? Z.of_nat TCS_AUDIT_CAPACITY)).

Definition admin_policy_protected (ch : Z) (msg : msginfo) : prog msginfo :=
  let* s := get in
  if negb (policy_ready s) || (negb (ch =? 0) && negb (ch =? 1)) then tcs_reply (result TCS_DENIED 0)
  else if ch =? 1 then
    if i_label msg =? TCS_LABEL TCS_SELF_STATUS then
      if negb (i_count msg =? 0)%nat then tcs_reply (result TCS_BAD_MESSAGE 0)
      else tcs_snapshot_reply (tcs_policy_self_status (policy_live s) TCS_STORAGE)
    else
    let label := i_label msg in
    if negb (i_count msg =? 4)%nat || (label <? TCS_LABEL TCS_GRANT) ||
       (TCS_LABEL TCS_RESTORE <? label)
    then tcs_reply (result TCS_BAD_MESSAGE 0)
    else
    let* w0 := microkit_mr_get 0 in
    let* w1 := microkit_mr_get 1 in
    let* w2 := microkit_mr_get 2 in
    let* w3 := microkit_mr_get 3 in
    let request := {| r_op := Z.land label 255; r_subject := w0; r_object := w1; r_rights := w2;
                      r_generation := w3 |} in
    let '(candidate, decision) := tcs_policy_apply (policy_live s) TCS_STORAGE request in
    let* audit_ok := record_decision request TCS_STORAGE decision in
    let '(live', committed) :=
      tcs_policy_commit (policy_live s) candidate request decision audit_ok in
    do* put (set_live s live') in
    tcs_reply committed
  else if negb (i_label msg =? TCS_ADMIN_EXECUTE) || negb (i_count msg =? 6)%nat
  then tcs_reply (result TCS_BAD_MESSAGE 0)
  else
  let* c := tcs_execution_from_words in
  if negb (tcs_admin_execution_valid c) then tcs_reply (result TCS_BAD_MESSAGE 0)
  else if execution_exhausted s || negb (c_sequence c =? execution_sequence s)
  then tcs_reply (result TCS_STALE 0)
  else
  do* put (consume_execution s) in
  let* s := get in
  let '(candidate, decision) :=
    tcs_policy_admin_compare_apply (Some (policy_live s)) TCS_ADMIN c in
  let candidate := default (policy_live s) candidate in
  let* audit_ok := record_decision (c_request c) TCS_ADMIN decision in
  let '(live', _) := tcs_policy_commit (policy_live s) candidate (c_request c) decision audit_ok in
  do* put (set_live s live') in
  let subject := subject_at live' (r_subject (c_request c)) in
  let reduction := (r_op (c_request c) =? TCS_REVOKE) || (r_op (c_request c) =? TCS_QUARANTINE) in
  tcs_admin_receipt_reply
    {| rc_command := c; rc_decision := status decision; rc_audit_ok := bool_word audit_ok;
       rc_applied := bool_word ((status decision =? TCS_OK) && (audit_ok || reduction));
       rc_post := {| n_status := TCS_OK; n_state := tcs_state_val (s_state subject);
                     n_generation := s_generation subject; n_object := s_object subject;
                     n_rights := s_rights subject |} |}.
End AdminPolicy.

(** ** The servers as functions on messages *)

(** A decision's record, and whether the audit acknowledged it with a record
    number it can have. *)
Definition log_decision {W} (call : W -> Z -> message -> W * message) (w : W) (fields : list Z)
    : W * bool :=
  let '(w', m) := call w 2 (append_message fields) in
  (w', (status (response m) =? TCS_OK) && (1 <=? value (response m)) &&
       (value (response m) <=? Z.of_nat TCS_AUDIT_CAPACITY)).

Definition admin_answer (check : list Z -> list Z -> list Z -> Z) {W}
    (call : W -> Z -> message -> W * message) (a : tcs_admin) (w : W) (ch : Z) (m : message)
    : tcs_admin * W * message :=
  if negb (ch =? 0) then (a, w, reply_message (result TCS_DENIED 0))
  else if negb (m_label m =? TCS_ADMIN_SUBMIT) ||
          negb (length (m_words m) =? TCS_ADMIN_PACKET_WORDS)%nat
  then (a, w, admission_message TCS_ADMIN_BAD_PACKET)
  else
    let '(status, a', c) :=
      tcs_admin_admit check (Some a) (Some (bytes_of (m_words m))) TCS_ADMIN_PACKET_BYTES
        (Some command_zero) in
    let a' := default a a' in
    let c := default command_zero c in
    if negb (bool_decide (status = TCS_ADMIN_ACCEPTED)) then (a', w, admission_message status)
    else
      let '(w', reply) := call w 2 (execution_message c) in
      let '(ok, receipt) := message_receipt reply in
      if negb ok || negb (tcs_admin_receipt_valid c receipt)
      then (a', w', admission_message TCS_ADMIN_BAD_COMPLETION)
      else
        let '(status, a'') := tcs_admin_complete (Some a') (c_sequence c) in
        (default a' a'', w',
         if negb (bool_decide (status = TCS_ADMIN_ACCEPTED))
         then admission_message TCS_ADMIN_BAD_COMPLETION else receipt_message receipt).

Definition admin_policy_answer {W} (call : W -> Z -> message -> W * message)
    (s : admin_policy_server) (w : W) (ch : Z) (m : message) : admin_policy_server * W * message :=
  if negb (policy_ready s) || (negb (ch =? 0) && negb (ch =? 1)) then
    (s, w, reply_message (result TCS_DENIED 0))
  else if ch =? 1 then
    if m_label m =? TCS_LABEL TCS_SELF_STATUS then
      (s, w,
       if negb (length (m_words m) =? 0)%nat then reply_message (result TCS_BAD_MESSAGE 0)
       else snapshot_message (tcs_policy_self_status (policy_live s) TCS_STORAGE))
    else if negb (length (m_words m) =? 4)%nat || (m_label m <? TCS_LABEL TCS_GRANT) ||
            (TCS_LABEL TCS_RESTORE <? m_label m)
    then (s, w, reply_message (result TCS_BAD_MESSAGE 0))
    else
      let request := {| r_op := Z.land (m_label m) 255; r_subject := m_words m !!! 0%nat;
                        r_object := m_words m !!! 1%nat; r_rights := m_words m !!! 2%nat;
                        r_generation := m_words m !!! 3%nat |} in
      let '(candidate, d) := tcs_policy_apply (policy_live s) TCS_STORAGE request in
      let '(w', audit_ok) := log_decision call w (decision_record request TCS_STORAGE d) in
      let '(live', committed) := tcs_policy_commit (policy_live s) candidate request d audit_ok in
      (set_live s live', w', reply_message committed)
  else if negb (m_label m =? TCS_ADMIN_EXECUTE) || negb (length (m_words m) =? 6)%nat
  then (s, w, reply_message (result TCS_BAD_MESSAGE 0))
  else
    let c := words_command (m_words m) in
    if negb (tcs_admin_execution_valid c) then (s, w, reply_message (result TCS_BAD_MESSAGE 0))
    else if execution_exhausted s || negb (c_sequence c =? execution_sequence s)
    then (s, w, reply_message (result TCS_STALE 0))
    else
      let '(_, d) := admin_decision (policy_live s) c in
      let '(w', audit_ok) := log_decision call w (decision_record (c_request c) TCS_ADMIN d) in
      let '(live', receipt) := admin_execute (policy_live s) c audit_ok in
      (set_live (consume_execution s) live', w', receipt_message receipt).

Section Serving.
Context {W : Type} (call : W -> Z -> message -> W * message) (residue : message -> regs).

Lemma record_decision_run (s : admin_policy_server) (w : W) r request actor d :
  exists rg, record_decision call residue request actor d {| self := s; peers := w; mr := r |} =
    let '(w', ok) := log_decision call w (decision_record request actor d) in
    ({| self := s; peers := w'; mr := rg |}, ok).
Proof.
  unfold log_decision, record_decision.
  destruct (call w 2 (append_message (decision_record request actor d))) as [w' m] eqn:Hc.
  exists (load (m_words m) (residue m)).
  repeat (rewrite bind_mr_set; cbv beta). rewrite !with_mr_mr, !mr_with_mr. cbn [mr].
  unfold bind at 1, microkit_ppcall. cbn [with_mr self peers mr info i_label i_count].
  rewrite !store_snoc. cbn [store map seq app].
  change {| m_label := TCS_LABEL TCS_AUDIT_APPEND; m_words := _ |} with
    (append_message (decision_record request actor d)).
  rewrite Hc. unfold bind.
  by rewrite (tcs_response_run _ m (residue m)).
Qed.

(** A reply that fills the registers, as a message. *)
Lemma receipt_reply_message {S} (st : pd S W) r :
  let '(st', i) := tcs_admin_receipt_reply r st in
  self st' = self st /\ peers st' = peers st /\
  {| m_label := i_label i; m_words := store (mr st') (i_count i) |} = receipt_message r.
Proof.
  destruct (receipt_reply_run st r) as (rg & -> & Hw). cbn [with_mr self peers mr info i_label i_count].
  by rewrite Hw.
Qed.

Lemma admin_policy_serve s w ch m :
  serve residue (admin_policy_protected call residue) s w ch m = admin_policy_answer call s w ch m.
Proof.
  unfold serve, admin_policy_answer, admin_policy_protected. cbn [i_label i_count].
  unfold bind at 1, get at 1. cbn [self].
  destruct (negb (policy_ready s) || _); [done|]. destruct (ch =? 1).
  - destruct (m_label m =? TCS_LABEL TCS_SELF_STATUS).
    { destruct (negb _); [done|].
      pose proof (tcs_snapshot_reply_run {| self := s; peers := w; mr := load (m_words m) (residue m) |}
        (tcs_policy_self_status (policy_live s) TCS_STORAGE)) as H.
      destruct (tcs_snapshot_reply _ _) as [st' i]. by destruct H as (-> & -> & ->). }
    destruct (m_words m) as [|su [|ob [|ri [|ge [|x l]]]]]; try done.
    cbn [length Nat.eqb negb orb]. destruct (_ || _); [done|].
    unfold bind at 1 2 3 4, microkit_mr_get at 1 2 3 4. cbn [mr load lookup list_lookup lookup_total list_lookup_total].
    set (request := {| r_op := _ |}).
    destruct (tcs_policy_apply _ _ _) as [candidate d].
    unfold bind at 1.
    destruct (record_decision_run s w (load [su; ob; ri; ge] (residue m)) request TCS_STORAGE d) as (rg & ->).
    destruct (log_decision _ _ _) as [w' ok].
    by destruct (tcs_policy_commit _ _ _ _ _) as [live' committed].
  - destruct (negb (m_label m =? TCS_ADMIN_EXECUTE)); [done|].
    destruct (length (m_words m) =? 6)%nat eqn:Hl; cbn [negb orb]; [|done]. apply Nat.eqb_eq in Hl.
    unfold bind at 1.
    rewrite (execution_from_words_run _ (m_words m) (residue m)) by (done || lia).
    set (c := words_command (m_words m)).
    destruct (negb (tcs_admin_execution_valid c)); [done|].
    destruct (execution_exhausted s || _); [done|].
    unfold bind at 1 2, put at 1, get at 1. cbn [self peers mr].
    assert (Hlive : policy_live (consume_execution s) = policy_live s).
    { unfold consume_execution. by destruct (_ =? _). }
    rewrite Hlive. unfold admin_execute, admin_decision.
    destruct (tcs_policy_admin_compare_apply (Some (policy_live s)) TCS_ADMIN c) as [cand d] eqn:Hcmp.
    replace (match cand with Some candidate => (candidate, d) | NULL => (policy_live s, d) end)
      with (default (policy_live s) cand, d) by by destruct cand.
    unfold bind at 1.
    destruct (record_decision_run (consume_execution s) w (load (m_words m) (residue m)) (c_request c)
      TCS_ADMIN d) as (rg & ->).
    destruct (log_decision _ _ _) as [w' ok].
    destruct (tcs_policy_commit _ _ _ _ _) as [live' committed].
    unfold bind at 1, put at 1. cbn [self peers mr].
    change ({| rc_command := c; rc_decision := _; rc_audit_ok := _; rc_applied := _; rc_post := _ |})
      with (admin_receipt live' c d ok).
    pose proof (receipt_reply_message {| self := set_live (consume_execution s) live'; peers := w';
      mr := rg |} (admin_receipt live' c d ok)) as H.
    destruct (tcs_admin_receipt_reply _ _) as [st' i]. by destruct H as (-> & -> & ->).
Qed.

Lemma admin_serve check a w ch m :
  serve residue (tcs_admin_server_request check call residue) a w ch m =
    admin_answer check call a w ch m.
Proof.
  unfold serve, admin_answer, tcs_admin_server_request. cbn [i_label i_count].
  destruct (negb (ch =? 0)); [done|]. destruct (negb (m_label m =? TCS_ADMIN_SUBMIT)); [done|].
  destruct (length (m_words m) =? TCS_ADMIN_PACKET_WORDS)%nat eqn:Hl; cbn [negb orb]; [|done].
  apply Nat.eqb_eq in Hl. unfold TCS_ADMIN_PACKET_WORDS in Hl. cbv zeta.
  unfold bind at 1.
  rewrite (bytes_from_words_run _ (m_words m) (residue m)) by (done || rewrite length_replicate, Hl; done).
  unfold bind at 1, get at 1. cbn [self].
  rewrite bytes_of_length, Hl. change (Z.of_nat (8 * 24)) with TCS_ADMIN_PACKET_BYTES.
  destruct (tcs_admin_admit _ _ _ _ _) as [[status a'] c].
  set (adm := default a a'). set (cmd := default command_zero c).
  unfold bind at 1, put at 1. cbn [self peers mr].
  destruct (negb (bool_decide (status = TCS_ADMIN_ACCEPTED))); [done|].
  unfold bind at 1.
  destruct (execution_words_run {| self := adm; peers := w; mr := load (m_words m) (residue m) |} cmd)
    as (rg & -> & Hrg).
  unfold bind at 1, microkit_ppcall. cbn [with_mr self peers mr info i_label i_count]. rewrite Hrg.
  fold (execution_message cmd). destruct (call w 2 (execution_message cmd)) as [w' reply].
  unfold bind at 1. rewrite (receipt_decode_run _ reply (residue reply)) by done.
  destruct (message_receipt reply) as [ok receipt].
  destruct (negb ok || negb (tcs_admin_receipt_valid cmd receipt)); [done|].
  unfold bind at 1, get at 1. cbn [self].
  destruct (tcs_admin_complete _ _) as [status' a''].
  unfold bind at 1, put at 1. cbn [self peers mr].
  destruct (negb (bool_decide (status' = TCS_ADMIN_ACCEPTED))); [done|].
  pose proof (receipt_reply_message {| self := default adm a''; peers := w';
      mr := load (m_words reply) (residue reply) |} receipt) as H.
  destruct (tcs_admin_receipt_reply _ _) as [st' i]. by destruct H as (-> & -> & ->).
Qed.
End Serving.
