(* ===== verification/GuestBoot.v ===== *)
(** The boot of the interactive image ([system/interactive.system]): the
    bootstrap domain ([servers/launch_boot.c]) reads the launch context QEMU
    passes as a firmware item, the administrator ([servers/launch_admin.c]) asks
    it for the bytes and takes its key, realm and boot from them. *)

From S2P Require Import Prelude Bytes Policy Admin Terminal Launch Boot Ipc AdminIpc AdminServers.
Import String.StringSyntax.
#[local] Open Scope string_scope.
#[local] Open Scope Z_scope.

(** The administrator of a launch. *)
Definition administrator_of (l : tcs_launch) : tcs_admin :=
  {| a_public_key := public_key (identity l); a_realm := realm (identity l); a_boot := boot l;
     a_next_sequence := 1; a_pending_sequence := 0; a_initialized := true; a_exhausted := false |}.

Section Guest.
Context (MODE : Z) (residue : message -> regs) (refused : message).
Context {D : Type} (write_selector : D -> Z -> D) (read_data : D -> D * Z).

(** The administrator's channel 1 ends at the bootstrap domain's channel 0. *)
Definition boot_call (s : launch_boot_server) (ch : Z) (m : message) : launch_boot_server * message :=
  if ch =? 1 then
    let '(s', _, reply) := serve residue launch_boot_protected s tt 0 m in (s', reply)
  else (s, refused).

(** The bootstrap domain has the higher priority: it reads the device before
    the administrator asks. *)
Definition boot_administrator (registers : regs) (d : D) : tcs_admin :=
  let '(_, bootstrap) := launch_boot_init write_selector read_data MODE d launch_boot_start in
  self (fst (launch_admin_init boot_call residue MODE
    {| self := admin_zero; peers := bootstrap; mr := registers |})).

Lemma launch_boot_answers s :
  length (lb_bytes s) = TCS_LAUNCH_BYTES ->
  boot_call s 1 {| m_label := TCS_LAUNCH_CONTEXT; m_words := [] |} =
    (s, if lb_ready s then {| m_label := TCS_LAUNCH_DATA; m_words := words_of (lb_bytes s) |}
        else reply_message (result TCS_DENIED 0)).
Proof.
  intros Hlen. unfold boot_call, serve, launch_boot_protected. cbn [Z.eqb Pos.eqb].
  destruct s as [bytes [|]]; cbn [lb_ready lb_bytes] in *; [|done].
  unfold bind at 1, get. cbn [self lb_ready negb orb i_label m_label i_count m_words length Nat.eqb Z.eqb
    TCS_LAUNCH_CONTEXT Pos.eqb lb_bytes].
  unfold bind.
  match goal with |- context [tcs_words_from_bytes bytes _ ?st] =>
    destruct (words_from_bytes_run st bytes) as (r & -> & Hr) end.
  unfold ret, with_mr, info. cbn [self peers mr i_label i_count]. by rewrite Hr.
Qed.

(** What the administrator makes of the bytes it is given. *)
Definition started_from (bytes : list Z) : tcs_admin :=
  match tcs_launch_decode (Some bytes) TCS_LAUNCH_BYTES MODE (Some launch_zero) with
  | (true, Some l) => administrator_of l
  | _ => admin_zero
  end.

Lemma admin_init_launch l :
  launch_ok MODE l ->
  tcs_admin_init (Some admin_zero) (Some (public_key (identity l))) (Some (realm (identity l)))
    (Some (boot l)) = (true, Some (administrator_of l)).
Proof.
  intros ([Hr Hk] & Hb & Hv & Hn). unfold identity_valid in Hv.
  destruct (negb (Launch.nonzero (realm _)) || _) eqn:Hz; [done|]. bools.
  unfold tcs_admin_init, administrator_of. cbn [a_initialized admin_zero orb Admin.nonzero].
  unfold Launch.nonzero in *. rewrite Hn. repeat match goal with H : negb (any_bits _ _ =? 0) = true |- _ => rewrite H end.
  cbn [negb orb]. assert (Hcopy : forall f, length f = 32%nat -> Admin.copy (replicate 32 0) 0 f 32 = f).
  { intros f Hf. unfold Admin.copy. rewrite take_ge by lia. unfold blit. rewrite Hf.
    cbn [take app]. by rewrite drop_ge, app_nil_r. }
  cbn [a_realm a_boot a_public_key admin_zero]. by rewrite !Hcopy.
Qed.

Lemma started_launch bytes l :
  length bytes = TCS_LAUNCH_BYTES ->
  tcs_launch_decode (Some bytes) TCS_LAUNCH_BYTES MODE (Some launch_zero) = (true, Some l) ->
  launch_ok MODE l /\ bytes = launch_record l MODE.
Proof. intros Hlen H. apply launch_decode_iff in H as (? & ? & ? & ? & ?); done. Qed.

Lemma launch_admin_starts s registers :
  length (lb_bytes s) = TCS_LAUNCH_BYTES -> byte_list (lb_bytes s) ->
  self (fst (launch_admin_init boot_call residue MODE
    {| self := admin_zero; peers := s; mr := registers |})) =
  if lb_ready s then started_from (lb_bytes s) else admin_zero.
Proof.
  intros Hlen Hb. unfold launch_admin_init, bind at 1, microkit_ppcall.
  cbn [peers mr self info i_label i_count]. change (store registers 0) with (@nil Z).
  rewrite launch_boot_answers by done. destruct (lb_ready s); [|done].
  cbn [m_label m_words i_label i_count].
  rewrite (words_of_length _ 14) by done. change (negb _ || negb _) with false. cbn iota.
  unfold bind at 1.
  pose proof (words_of_length (lb_bytes s) 14 Hlen) as Hw.
  rewrite (bytes_from_words_run _ (words_of (lb_bytes s))
    (residue {| m_label := TCS_LAUNCH_DATA; m_words := words_of (lb_bytes s) |})
    (replicate TCS_LAUNCH_BYTES 0)) by (done || by rewrite Hw).
  rewrite (bytes_of_words_of 14) by done. unfold started_from.
  destruct (tcs_launch_decode _ _ _ _) as [[|] [l|]] eqn:Hd; try done.
  apply started_launch in Hd as [Hl _]; [|done].
  unfold bind, get, put. cbn [self fst]. by rewrite admin_init_launch.
Qed.
End Guest.

(** ** From the firmware to the administrator *)

Section Device.
Context (MODE : Z) (residue : message -> regs) (refused : message).
Context {D : Type} (write_selector : D -> Z -> D) (read_data : D -> D * Z).
Context (at_ : Z -> nat -> D) (content : Z -> nat -> Z).
Context {Hdev : fwcfg_device (select_item write_selector) (read_byte read_data) at_ content}.

#[local] Abbreviation item_name := TCS_LAUNCH_ITEM.
#[local] Abbreviation started := (boot_administrator MODE residue refused write_selector read_data).

Lemma offered_bytes bytes : offers content item_name bytes -> byte_list bytes.
Proof using Hdev.
  intros [_ _ _ _ _ (b & e & a & _ & _ & _ & _ & <-)]. unfold item. apply List.Forall_forall.
  intros x (p & <- & _)%in_map_iff. apply Hdev.
Qed.

(** The record of an acceptable launch decodes to it. *)
Lemma launch_record_length l : launch_ok MODE l -> length (launch_record l MODE) = TCS_LAUNCH_BYTES.
Proof.
  intros ([Hr Hk] & Hb & _). unfold launch_record.
  rewrite !length_app, (head_length launch_prefix MODE eq_refl), Hr, Hk, Hb. done.
Qed.

Lemma launch_decode_record l :
  launch_ok MODE l ->
  tcs_launch_decode (Some (launch_record l MODE)) TCS_LAUNCH_BYTES MODE (Some launch_zero) = (true, Some l).
Proof. intros Hl. pose proof Hl as (? & ? & ? & ?). apply launch_decode_iff; [by apply launch_record_length|done]. Qed.

(** The bytes after the bootstrap domain's read, and whether it has them. *)
Lemma launch_boot_reads d :
  let s := snd (launch_boot_init write_selector read_data MODE d launch_boot_start) in
  length (lb_bytes s) = TCS_LAUNCH_BYTES /\ byte_list (lb_bytes s) /\
  (forall bytes, length bytes = TCS_LAUNCH_BYTES -> offers content item_name bytes ->
     lb_bytes s = bytes /\
     lb_ready s = fst (tcs_launch_decode (Some bytes) TCS_LAUNCH_BYTES MODE (Some launch_zero))) /\
  (lb_ready s = true -> offers content item_name (lb_bytes s)).
Proof using Hdev.
  intros s.
  assert (Hname : name_ok item_name) by (vm_compute; lia).
  pose proof (fwcfg_reads _ _ at_ content (Hdev := Hdev) d item_name (replicate TCS_LAUNCH_BYTES 0) TCS_LAUNCH_BYTES
    Hname ltac:(unfold TCS_LAUNCH_BYTES, TCS_FWCFG_MAX_BYTES; lia) ltac:(by rewrite length_replicate)) as H.
  unfold launch_boot_init, serving_io in *. cbn [lb_bytes launch_boot_start] in *.
  destruct (tcs_fwcfg_read _ _ _ _ _) as [[d' status] out]. cbn [snd] in s. subst s. cbn [lb_bytes lb_ready].
  destruct H as (Hok & Hex & Hno).
  assert (Hall : forall bytes, length bytes = TCS_LAUNCH_BYTES -> blit (replicate TCS_LAUNCH_BYTES 0) 0 bytes = bytes).
  { intros bytes Hb. rewrite <- (app_nil_r bytes) at 2. rewrite <- (app_nil_r (replicate _ 0)).
    apply blit_here. rewrite Hb. apply length_replicate. }
  destruct (decide (status = TCS_BOOT_OK)) as [->|Hne].
  - destruct (Hex eq_refl) as (bytes & Hlen & Hb). destruct (Hok bytes Hlen Hb) as [_ ->]. cbn [default].
    rewrite (Hall bytes Hlen). split_and!; [done|by eapply offered_bytes| |done].
    intros bytes' Hlen' Hb'. destruct (Hok bytes' Hlen' Hb') as [_ [= Heq]]. rewrite !Hall in Heq by done.
    by subst bytes'.
  - rewrite (Hno Hne), bool_decide_false by done. cbn [default andb]. rewrite Hall by (by rewrite length_replicate).
    unfold id. split_and!; [apply length_replicate|by apply Forall_replicate| |done].
    intros bytes Hlen Hb. by destruct (Hok bytes Hlen Hb).
Qed.

Lemma guest_started l registers d :
  launch_ok MODE l -> offers content item_name (launch_record l MODE) -> started registers d = administrator_of l.
Proof using Hdev.
  intros Hl Ho. unfold boot_administrator. pose proof (launch_boot_reads d) as H. cbv zeta in H.
  destruct (launch_boot_init _ _ _ _ _) as [d' s]. cbn [snd] in H. destruct H as (Hlen & Hb & Hoff & _).
  rewrite launch_admin_starts by done. destruct (Hoff _ (launch_record_length l Hl) Ho) as [-> ->].
  unfold started_from. by rewrite (launch_decode_record l Hl).
Qed.

(** C16. A guest's administrator is the one of the launch its firmware passes:
    when QEMU offers exactly one launch context of 112 bytes and it is a record
    of the mode the image is built for, the administrator starts with the key,
    realm and boot of that record and expects command 1; in every other case
    (a malformed directory, no or two such files, another length, a record of
    another mode or a test key) it stays uninitialized and admits nothing. *)
Theorem guest_starts_as_launched registers d :
  (forall l, launch_ok MODE l -> offers content item_name (launch_record l MODE) ->
     started registers d = administrator_of l) /\
  ((forall l, launch_ok MODE l -> ~ offers content item_name (launch_record l MODE)) ->
     started registers d = admin_zero /\
     forall check packet, fst (fst (tcs_admin_admit check (Some (started registers d)) packet 192
       (Some command_zero))) = TCS_ADMIN_NOT_READY).
Proof using Hdev.
  split; [intros l; apply guest_started|]. intros Hnone.
  assert (Hzero : started registers d = admin_zero).
  { unfold boot_administrator. pose proof (launch_boot_reads d) as H. cbv zeta in H.
    destruct (launch_boot_init _ _ _ _ _) as [d' s]. cbn [snd] in H. destruct H as (Hlen & Hb & _ & Hready).
    rewrite launch_admin_starts by done. destruct (lb_ready s); [|done]. unfold started_from.
    destruct (tcs_launch_decode _ _ _ _) as [[|] [l|]] eqn:Hd; try done.
    apply started_launch in Hd as [Hl Heq]; [|done]. destruct (Hnone l Hl). rewrite <- Heq. by apply Hready. }
  rewrite Hzero. split; [done|]. intros check packet. by destruct packet.
Qed.
End Device.

(** ** A firmware with one file *)

(** The items by the value the selector is given, and the registers. *)
Definition firmware_item (file : list Z) (selector : Z) : list Z :=
  match selector with
  | 0 => codes "QEMU"
  | 256 => [1; 0; 0; 0]
  | 6400 => [0; 0; 0; 1] ++ [0; 0; 0; Z.of_nat (length file)] ++ [0; 32; 0; 0] ++ TCS_LAUNCH_ITEM ++ replicate 33 0
  | 8192 => file
  | _ => []
  end.
Definition firmware_byte (file : list Z) (selector : Z) (p : nat) : Z :=
  let b := firmware_item file selector !!! p in if (0 <=? b) && (b <=? UINT8_MAX) then b else 0.
Definition selector_of (key : Z) : Z := wrap16 (Z.lor (Z.shiftl key 8) (Z.shiftr key 8)).

Definition firmware_select (d : Z * nat) (selector : Z) : Z * nat := (selector, 0%nat).
Definition firmware_read (file : list Z) (d : Z * nat) : (Z * nat) * Z :=
  ((fst d, S (snd d)), firmware_byte file (fst d) (snd d)).
Definition firmware_content (file : list Z) (key : Z) : nat -> Z := firmware_byte file (selector_of key).

Lemma firmware_device file :
  fwcfg_device (select_item firmware_select) (read_byte (firmware_read file))
    (fun key p => (selector_of key, p)) (firmware_content file).
Proof.
  constructor; [done|done|]. intros k p. unfold firmware_content, firmware_byte. cbv zeta.
  destruct (_ && _) eqn:H; unfold u8, UINT8_MAX in *; lia.
Qed.

(** That it offers a file is a matter of computation. *)
Definition offers_check (content : Z -> nat -> Z) (name file : list Z) : bool :=
  bool_decide (item content 0 0 4 = codes "QEMU") && bool_decide (item content 1 0 4 = [1; 0; 0; 0]) &&
  (be32 (item content 25 0 4) <=? TCS_FWCFG_MAX_FILES) &&
  match directory content with
  | [e] => entry_ok e && named name e && (be32 e =? Z.of_nat (length file)) &&
           bool_decide (item content (entry_key e) 0 (length file) = file)
  | _ => false
  end.

Lemma offers_checked content name file : offers_check content name file = true -> offers content name file.
Proof.
  unfold offers_check. destruct (directory content) as [|e [|]] eqn:Hd; rewrite ?andb_false_r; try done.
  rewrite !andb_true_iff, !bool_decide_eq_true, Z.leb_le, Z.eqb_eq.
  intros [[[Hq Hf] Hfew] [[[He Hn] Hsz] Hi]].
  split; rewrite ?Hd; [done..|by apply List.Forall_cons|by apply NoDup_singleton|].
  exists [], e, []. by split_and!.
Qed.

Definition example_launch : tcs_launch :=
  {| identity := {| realm := replicate 32 1; public_key := replicate 32 9 |}; boot := replicate 32 2 |}.

Lemma guest_starts_as_launched_witness :
  boot_administrator TCS_OPERATOR_MODE (fun _ _ => 0) (reply_message (result TCS_DENIED 0)) firmware_select
    (firmware_read (launch_record example_launch TCS_OPERATOR_MODE)) (fun _ => 0) (0, 0%nat) =
  administrator_of example_launch.
Proof.
  apply (guest_starts_as_launched TCS_OPERATOR_MODE (fun _ _ => 0) (reply_message (result TCS_DENIED 0))
    firmware_select (firmware_read (launch_record example_launch TCS_OPERATOR_MODE)) _ _
    (Hdev := firmware_device _)).
  - repeat split; reflexivity.
  - apply offers_checked. vm_compute. reflexivity.
Defined.
