(* ===== verification/AdminSystem.v ===== *)
(** The administered system of [system/interactive.system]: the terminal's calls,
    answered by the client and the administrator.

    The storage and the client are those of the seed system, over the same
    interfaces; the administrator executes signed commands at the conditional
    policy server. The serial driver and the boot owner are not called once the
    system runs. *)

From stdpp Require Import sets.
From S2P Require Import Prelude Bytes Policy Admin Receipt Ipc Servers Authority AdminIpc AdminServers.

(** ** The domains and their channels *)

Inductive admin_domain := terminal | client | administrator | storage | policy | audit.

(** The [pp] ends, less those to the serial driver and the boot owner. *)
Definition admin_route (d : admin_domain) (ch : Z) : option (admin_domain * Z) :=
  match d with
  | terminal => if ch =? 1 then Some (client, 0) else if ch =? 2 then Some (administrator, 0)
                else None
  | client => if ch =? 1 then Some (storage, 0) else None
  | administrator => if ch =? 2 then Some (policy, 0) else None
  | storage => if ch =? 1 then Some (policy, 1) else None
  | policy => if ch =? 2 then Some (audit, 0) else None
  | audit => None
  end.

Record admin_system := {
  admin_state : tcs_admin;
  apolicy_state : admin_policy_server;
  aaudit_state : audit_server
}.

Section Deliver.
Context (check : list Z -> list Z -> list Z -> Z).
Context (residue : message -> regs) (refused : message).

Definition admin_enter (d : admin_domain) (call : admin_system -> Z -> message -> admin_system * message)
    (s : admin_system) (ch : Z) (m : message) : admin_system * message :=
  match d with
  | terminal => (s, refused)
  | client =>
      let '(_, s', a) := serve residue (client_protected call residue) tt s ch m in (s', a)
  | administrator =>
      let '(adm, s', a) :=
        serve residue (tcs_admin_server_request check call residue) (admin_state s) s ch m in
      ({| admin_state := adm; apolicy_state := apolicy_state s'; aaudit_state := aaudit_state s' |}, a)
  | storage =>
      let '(_, s', a) := serve residue (storage_protected call residue) tt s ch m in (s', a)
  | policy =>
      let '(p, s', a) :=
        serve residue (admin_policy_protected call residue) (apolicy_state s) s ch m in
      ({| admin_state := admin_state s'; apolicy_state := p; aaudit_state := aaudit_state s' |}, a)
  | audit =>
      let '(u, s', a) := serve residue audit_protected (aaudit_state s) s ch m in
      ({| admin_state := admin_state s'; apolicy_state := apolicy_state s'; aaudit_state := u |}, a)
  end.

Fixpoint admin_deliver (fuel : nat) (d : admin_domain) (s : admin_system) (ch : Z) (m : message)
    : admin_system * message :=
  match fuel, admin_route d ch with
  | S n, Some (d', ch') => admin_enter d' (admin_deliver n d') s ch' m
  | _, _ => (s, refused)
  end.

(** The terminal's calls: the deepest path is client, storage, policy, audit. *)
Definition terminal_call : admin_system -> Z -> message -> admin_system * message :=
  admin_deliver 4 terminal.
End Deliver.

(** ** Contract *)

Definition abs_admin (s : admin_system) : authority :=
  (policy_live (apolicy_state s), audit_log (aaudit_state s)).

(** The administrator is idle and its sequence number is the policy's. *)
Definition in_step (a : tcs_admin) (p : admin_policy_server) : Prop :=
  a_initialized a = true ->
  a_pending_sequence a = 0 /\ a_next_sequence a = execution_sequence p /\
  a_exhausted a = execution_exhausted p /\ 0 < execution_sequence p.

Definition admin_ok (s : admin_system) : Prop :=
  in_step (admin_state s) (apolicy_state s) /\ u64 (execution_sequence (apolicy_state s)) /\
  policy_ready (apolicy_state s) = true /\ policy_ok (policy_live (apolicy_state s)) /\
  audit_wf (aaudit_state s).

(** The state after a command, admitted, executed and completed. *)
Definition complete (a : tcs_admin) : tcs_admin :=
  {| a_public_key := a_public_key a; a_realm := a_realm a; a_boot := a_boot a;
     a_next_sequence := a_next_sequence a; a_pending_sequence := 0;
     a_initialized := a_initialized a; a_exhausted := a_exhausted a |}.

(** A command's execution by the authority: the policy after it, the log with its
    record while there is room, and the receipt. *)
Definition execute_and_record (st : authority) (c : tcs_admin_command)
    : authority * tcs_admin_receipt :=
  let '(p, l) := st in
  let '(p', receipt) := admin_execute p c (has_room l) in
  ((p', if has_room l
        then l ++ [decision_record (c_request c) TCS_ADMIN (snd (admin_decision p c))] else l),
   receipt).

(** ** Lemmas *)

Lemma log_decision_room {W} (call : W -> Z -> message -> W * message) ok log_of
    `{!audit_channel call ok log_of} w fields :
  ok w -> Forall u64 fields -> length fields = 7%nat ->
  exists w', ok w' /\ log_decision call w fields = (w', has_room (log_of w)) /\
    log_of w' = if has_room (log_of w) then log_of w ++ [fields] else log_of w.
Proof.
  intros Hw Hf Hl. pose proof (log_bounded call ok (log_of:=log_of) w Hw) as Hb.
  destruct (log_append call ok (log_of:=log_of) w fields Hw Hf Hl) as (w' & Hw' & Hcall & Hlog).
  exists w'. split_and!; [done| |done]. unfold log_decision. rewrite Hcall, response_reply.
  destruct (has_room (log_of w)) eqn:Hroom; cbn [status value result]; [|done].
  unfold has_room, TCS_AUDIT_CAPACITY in *. apply Nat.ltb_lt in Hroom.
  f_equal. apply andb_true_intro; split; [apply andb_true_intro; split|]; [done|apply Z.leb_le; lia..].
Qed.

(** The conditional policy server's answer to the storage is the contract's. *)
Lemma admin_policy_contract {W} (call : W -> Z -> message -> W * message) ok log_of
    `{!audit_channel call ok log_of} s w m :
  ok w -> policy_ready s = true -> Forall u64 (m_words m) ->
  exists w', ok w' /\
    admin_policy_answer call s w 1 m =
      (set_live s (fst (fst (policy_contract (policy_live s, log_of w) 1 m))), w',
       snd (policy_contract (policy_live s, log_of w) 1 m)) /\
    log_of w' = snd (fst (policy_contract (policy_live s, log_of w) 1 m)).
Proof.
  intros Hw Hready Hm. destruct s as [p rd seq ex]. cbn [policy_ready policy_live] in *. subst rd.
  unfold admin_policy_answer, policy_contract, set_live.
  cbn [policy_ready policy_live execution_sequence execution_exhausted fst snd negb orb Z.eqb Pos.eqb].
  destruct (m_label m =? TCS_LABEL TCS_SELF_STATUS).
  { exists w. split_and!; [done|by destruct (negb _)|done]. }
  unfold policy_op. destruct (m_words m) as [|su [|ob [|ri [|ge [|x l]]]]] eqn:Hwords;
    cbn [length Nat.eqb negb orb]; rewrite ?andb_false_r; try by exists w.
  destruct ((m_label m <? TCS_LABEL TCS_GRANT) || (TCS_LABEL TCS_RESTORE <? m_label m)) eqn:Hrange.
  { replace (_ && _ && true) with false by lia. by exists w. }
  replace ((TCS_LABEL TCS_GRANT <=? m_label m) && (m_label m <=? TCS_LABEL TCS_RESTORE) && true)
    with true by lia.
  repeat match goal with H : Forall _ (_ :: _) |- _ => apply List.Forall_cons_iff in H as [? ?] end.
  unfold message_request. rewrite Hwords. cbn [lookup_total list_lookup_total].
  set (r := {| r_op := _ |}).
  assert (Hr : request_u64 r) by (unfold request_u64, r; cbn; auto using land_255_u64).
  pose proof (log_bounded call ok (log_of:=log_of) w Hw) as Hb.
  pose proof (decision_record_u64 p TCS_STORAGE r Hr) as Hrec.
  unfold decide_and_record. change (channel_actor 1) with TCS_STORAGE.
  destruct (tcs_policy_apply p TCS_STORAGE r) as [candidate d]. cbn [snd] in Hrec.
  destruct (log_decision_room call ok log_of w _ Hw Hrec eq_refl) as (w' & Hw' & -> & Hlog).
  exists w'. split; [done|].
  assert (Hroom : negb (length (log_of w) =? TCS_AUDIT_CAPACITY)%nat = has_room (log_of w)).
  { unfold has_room. destruct (Nat.eqb_spec (length (log_of w)) TCS_AUDIT_CAPACITY),
      (Nat.ltb_spec (length (log_of w)) TCS_AUDIT_CAPACITY); done || lia. }
  rewrite Hroom, Hlog. by destruct (tcs_policy_commit _ _ _ _ _).
Qed.

(** ** The administrator, over a channel that executes *)

(** The sequence number a policy expects next, and whether it is used up. *)
Definition next_execution (sq : Z * bool) : Z * bool :=
  if fst sq =? UINT64_MAX then (fst sq, true) else (wrap64 (fst sq + 1), snd sq).

Class execution_channel {W} (call : W -> Z -> message -> W * message) (ok : W -> Prop)
    (abs : W -> authority) (sq : W -> Z * bool) : Prop :=
  executes w c :
    ok w -> command_u64 c -> tcs_admin_execution_valid c = true -> r_generation (c_request c) = 0 ->
    sq w = (c_sequence c, false) ->
    exists w', ok w' /\
      call w 2 (execution_message c) =
        (w', receipt_message (snd (execute_and_record (abs w) c))) /\
      abs w' = fst (execute_and_record (abs w) c) /\ sq w' = next_execution (sq w).

(** The packet a message submits. *)
Definition submitted (m : message) : option (list Z) :=
  if (m_label m =? TCS_ADMIN_SUBMIT) && (length (m_words m) =? TCS_ADMIN_PACKET_WORDS)%nat
  then Some (bytes_of (m_words m)) else None.

Section Contract.
Context (check : list Z -> list Z -> list Z -> Z).

Definition admission (a : tcs_admin) (packet : list Z)
    : tcs_admin_status * ptr tcs_admin * ptr tcs_admin_command :=
  tcs_admin_admit check (Some a) (Some packet) TCS_ADMIN_PACKET_BYTES (Some command_zero).

(** The command a message has executed, if it is admitted. *)
Definition admitted (a : tcs_admin) (m : message) : option tcs_admin_command :=
  match submitted m with
  | Some packet =>
      match admission a packet with (TCS_ADMIN_ACCEPTED, _, c) => c | _ => None end
  | None => None
  end.

Definition admin_contract (a : tcs_admin) (st : authority) (m : message)
    : tcs_admin * authority * message :=
  match submitted m with
  | None => (a, st, admission_message TCS_ADMIN_BAD_PACKET)
  | Some packet =>
      match admission a packet with
      | (TCS_ADMIN_ACCEPTED, _, Some c) =>
          let '(st', receipt) := execute_and_record st c in
          (complete (consume a (c_sequence c)), st', receipt_message receipt)
      | (status, _, _) => (a, st, admission_message status)
      end
  end.

Lemma submitted_packet m packet :
  submitted m = Some packet -> byte_list packet /\ length packet = Z.to_nat TCS_ADMIN_PACKET_BYTES.
Proof.
  unfold submitted. destruct (_ && _) eqn:H; [|done]. intros [= <-].
  apply andb_true_iff in H as [_ Hl%Nat.eqb_eq]. split; [apply bytes_of_byte_list|].
  by rewrite bytes_of_length, Hl.
Qed.

Lemma valid_execution c : valid c = true -> tcs_admin_execution_valid c = true.
Proof. unfold valid, tcs_admin_execution_valid, truthy. repeat split_if; done. Qed.

(** What an accepted packet says. *)
Lemma admission_accepted a packet a' oc :
  byte_list packet -> length packet = Z.to_nat TCS_ADMIN_PACKET_BYTES ->
  admission a packet = (TCS_ADMIN_ACCEPTED, a', oc) ->
  exists c, oc = Some c /\ a' = Some (consume a (c_sequence c)) /\ command_u64 c /\
    tcs_admin_execution_valid c = true /\ r_generation (c_request c) = 0 /\
    a_initialized a = true /\ a_pending_sequence a = 0 /\ a_exhausted a = false /\
    c_sequence c = a_next_sequence a /\ c_sequence c <> 0.
Proof.
  intros Hb Hl Ha. change (length packet = 192%nat) in Hl.
  apply (admit_accepted_iff check a packet TCS_ADMIN_PACKET_BYTES command_zero) in Ha
    as (Hi & Hp & He & _ & _ & Hv & _ & _ & Hs & _ & -> & ->).
  exists (packet_command packet). split_and!; auto using valid_execution, valid_generation.
  - apply packet_command_u64; [unfold TCS_ADMIN_MESSAGE_BYTES; lia|done].
  - unfold valid in Hv. split_if; [done|]. bools. lia.
Qed.

Lemma admission_rejected a packet status a' oc :
  admission a packet = (status, a', oc) -> status <> TCS_ADMIN_ACCEPTED ->
  a' = Some a.
Proof.
  intros Ha Hne. pose proof (admit_rejected check (Some a) (Some packet) TCS_ADMIN_PACKET_BYTES
    (Some command_zero)) as H.
  unfold admission in Ha. rewrite Ha in H. cbn [fst] in H. specialize (H Hne). by injection H.
Qed.

(** The administrator over an executing channel: a submission is rejected without
    a trace, or it is admitted, executed, checked and completed in one call. *)
Lemma admin_answer_contract {W} (call : W -> Z -> message -> W * message) ok abs sq
    `{!execution_channel call ok abs sq} a w m :
  ok w -> policy_ok (fst (abs w)) ->
  (a_initialized a = true -> a_exhausted a = false -> sq w = (a_next_sequence a, false)) ->
  exists w', ok w' /\
    admin_answer check call a w 0 m =
      (fst (fst (admin_contract a (abs w) m)), w', snd (admin_contract a (abs w) m)) /\
    abs w' = snd (fst (admin_contract a (abs w) m)) /\
    sq w' = match admitted a m with Some _ => next_execution (sq w) | None => sq w end.
Proof.
  intros Hw Hp Hsq. unfold admin_answer, admin_contract, admitted, submitted. cbn [Z.eqb negb].
  destruct (m_label m =? TCS_ADMIN_SUBMIT) eqn:Hlab; cbn [negb orb andb]; [|by exists w].
  destruct (length (m_words m) =? TCS_ADMIN_PACKET_WORDS)%nat eqn:Hl; cbn [negb]; [|by exists w].
  fold (admission a (bytes_of (m_words m))).
  destruct (submitted_packet m (bytes_of (m_words m))) as [Hb Hlen].
  { unfold submitted. by rewrite Hlab, Hl. }
  destruct (admission a (bytes_of (m_words m))) as [[status a'] oc] eqn:Hadm.
  destruct (decide (status = TCS_ADMIN_ACCEPTED)) as [->|Hne]; cycle 1.
  { rewrite (admission_rejected _ _ _ _ _ Hadm Hne). rewrite bool_decide_false by done.
    exists w. by destruct status. }
  destruct (admission_accepted _ _ _ _ Hb Hlen Hadm)
    as (c & -> & -> & Hc & Hv & Hg & Hi & Hpe & He & Hs & Hs0).
  rewrite bool_decide_true by done. cbn [negb from_option id].
  destruct (executes (call:=call) (ok:=ok) (abs:=abs) (sq:=sq) w c Hw Hc Hv Hg) as (w' & Hw' & Hcall & Habs & Hsq').
  { by rewrite Hs, Hsq. }
  rewrite Hcall. destruct (abs w) as [p l]. cbn [fst] in Hp.
  pose proof (admin_execute_receipt_valid p c (has_room l) Hp Hc Hv) as Hrv.
  assert (Hrc : message_receipt (receipt_message (snd (admin_execute p c (has_room l)))) =
    (true, snd (admin_execute p c (has_room l)))).
  { apply receipt_roundtrip; unfold admin_execute, admin_decision;
    destruct (tcs_policy_admin_compare_apply _ _ _) as [[?|] ?]; by destruct (tcs_policy_commit _ _ _ _ _). }
  unfold execute_and_record in *. destruct (admin_execute p c (has_room l)) as [p' receipt].
  cbn [fst snd] in *. rewrite Hrc, Hrv. cbn [negb orb].
  unfold tcs_admin_complete, consume. cbn [a_initialized a_pending_sequence a_exhausted a_next_sequence
    a_public_key a_realm a_boot].
  rewrite Hi, (proj2 (Z.eqb_neq _ _) Hs0), Z.eqb_refl. cbn [negb orb from_option id].
  exists w'. rewrite bool_decide_true by done. unfold complete. cbn [a_initialized a_pending_sequence
    a_exhausted a_next_sequence a_public_key a_realm a_boot]. by rewrite ?Hi.
Qed.
End Contract.

(** ** The system implements the contract *)

Definition sequencing (s : admin_system) : Z * bool :=
  (execution_sequence (apolicy_state s), execution_exhausted (apolicy_state s)).

(** The invariant of the policy's side, whatever the administrator's state. *)
Definition policy_side_ok (s : admin_system) : Prop :=
  u64 (execution_sequence (apolicy_state s)) /\ policy_ready (apolicy_state s) = true /\
  policy_ok (policy_live (apolicy_state s)) /\ audit_wf (aaudit_state s).

Lemma abs_admin_ok s : policy_side_ok s -> authority_ok (abs_admin s).
Proof.
  intros (_ & _ & Hp & Hw). split; [done|]. cbn [abs_admin snd].
  rewrite audit_log_length by done. apply Hw.
Qed.

Section Refinement.
Context (check : list Z -> list Z -> list Z -> Z).
Context (residue : message -> regs) (refused : message).
#[local] Abbreviation deliver := (admin_deliver check residue refused).
#[local] Abbreviation enter := (admin_enter check residue refused).

#[local] Instance apolicy_audit n a0 p0 :
  audit_channel (deliver (S n) policy)
    (fun s => audit_wf (aaudit_state s) /\ admin_state s = a0 /\ apolicy_state s = p0)
    (fun s => audit_log (aaudit_state s)).
Proof.
  split.
  - intros s [Hw _]. rewrite audit_log_length by done. apply Hw.
  - intros s fields (Hw & Ha0 & Hp0) Hf Hlen.
    destruct (audit_serve residue (aaudit_state s) s 0 (append_message fields) Hw Hf)
      as (u & a & Hs & Hu & Ha).
    exists {| admin_state := admin_state s; apolicy_state := apolicy_state s; aaudit_state := u |}.
    split; [done|]. cbn [admin_deliver admin_route Z.eqb Pos.eqb admin_enter]. rewrite Hs.
    rewrite audit_answer_append in Ha by (done || rewrite audit_log_length by done; apply Hw).
    cbn [aaudit_state admin_state apolicy_state]. by injection Ha as <- <-.
Qed.

#[local] Instance storage_apolicy n a0 sq0 :
  policy_channel (deliver (S (S n)) storage)
    (fun s => policy_side_ok s /\ admin_state s = a0 /\ sequencing s = sq0) abs_admin.
Proof.
  intros s m ((Hseq & Hready & Hp & Hw) & Ha0 & Hsq0) Hm.
  change (deliver (S (S n)) storage s 1 m) with (enter policy (deliver (S n) policy) s 1 m).
  cbn [admin_enter]. rewrite admin_policy_serve.
  destruct (admin_policy_contract (deliver (S n) policy) _ _ (apolicy_state s) s m
    (conj Hw (conj eq_refl eq_refl)) Hready Hm) as (s' & (Hw' & Ha' & Hp') & -> & Hlog).
  pose proof (policy_contract_ok (abs_admin s) 1 m) as Hok. unfold abs_admin in *.
  destruct (policy_contract _ 1 m) as [[p' l'] a]. cbn [fst snd] in *.
  eexists _, a. split; [reflexivity|split].
  - split; [|split].
    + split_and!; [done|done| |done]. apply Hok; [|done]. split; [done|]. cbn [snd].
      rewrite audit_log_length by done. apply Hw.
    + cbn [admin_state]. by rewrite Ha'.
    + done.
  - cbn [apolicy_state aaudit_state set_live policy_live]. by rewrite Hlog.
Qed.

#[local] Instance client_astorage n a0 sq0 :
  storage_channel (deliver (S (S (S n))) client)
    (fun s => policy_side_ok s /\ admin_state s = a0 /\ sequencing s = sq0) abs_admin.
Proof.
  intros s m Hok Hm. change (deliver (S (S (S n))) client s 1 m) with
    (enter storage (deliver (S (S n)) storage) s 0 m).
  cbn [admin_enter]. rewrite storage_serve.
  destruct (storage_answer_contract (deliver (S (S n)) storage) _ abs_admin s m Hok Hm)
    as (s' & a & -> & Hok' & Ha).
  by exists s', a.
Qed.

Lemma admin_decision_status p c : u64 (status (snd (admin_decision p c))).
Proof.
  unfold admin_decision, tcs_policy_admin_compare_apply. cbn [bool_decide negb].
  pose proof (apply_status_u64 p TCS_ADMIN (c_request c)).
  repeat split_if; cbn; try policy_lia. by destruct (tcs_policy_apply _ _ _).
Qed.

#[local] Instance administrator_policy n a0 :
  execution_channel (deliver (S (S n)) administrator)
    (fun s => policy_side_ok s /\ admin_state s = a0) abs_admin sequencing.
Proof.
  intros s c ((Hseq & Hready & Hp & Hw) & Ha0) Hc Hv Hg Hsq.
  change (deliver (S (S n)) administrator s 2 (execution_message c)) with
    (enter policy (deliver (S n) policy) s 0 (execution_message c)).
  cbn [admin_enter]. rewrite admin_policy_serve. unfold admin_policy_answer.
  rewrite Hready. cbn [negb orb Z.eqb execution_message m_label m_words].
  change (TCS_ADMIN_EXECUTE =? TCS_ADMIN_EXECUTE) with true. cbn [length command_words Nat.eqb negb orb andb].
  pose proof (words_command_words c [] Hg) as Hwc. rewrite app_nil_r in Hwc.
  fold (command_words c). rewrite Hwc, Hv. injection Hsq as Hs He. rewrite He, Hs, Z.eqb_refl.
  cbn [negb orb]. unfold execute_and_record, abs_admin.
  pose proof (admin_execute_ok (policy_live (apolicy_state s)) c (has_room (audit_log (aaudit_state s)))
    Hp Hc Hv) as Hok.
  pose proof (admin_decision_status (policy_live (apolicy_state s)) c) as Hst.
  destruct (admin_decision _ c) as [candidate d]. cbn [snd] in Hst.
  assert (Hrec : Forall u64 (decision_record (c_request c) TCS_ADMIN d)).
  { destruct Hc as (? & ? & ? & ? & ? & ?).
    repeat apply List.Forall_cons; try done. rewrite Hg. word_lia. }
  destruct (log_decision_room (deliver (S n) policy) _ _ s _ (conj Hw (conj eq_refl eq_refl)) Hrec eq_refl)
    as (s' & (Hw' & Ha' & Hp') & -> & Hlog).
  destruct (admin_execute _ _ _) as [p' receipt]. cbn [fst snd] in *.
  eexists. split; [|split; [reflexivity|split]].
  - split; [|cbn [admin_state]; by rewrite Ha']. split_and!; [|..|done|done].
    + cbn [apolicy_state set_live execution_sequence]. unfold consume_execution.
      destruct (_ =? _); cbn [execution_sequence]; [done|apply wrap64_range].
    + cbn [apolicy_state set_live policy_ready]. unfold consume_execution. by destruct (_ =? _).
  - cbn [apolicy_state set_live policy_live aaudit_state]. by rewrite Hlog.
  - unfold sequencing, next_execution. cbn [fst snd apolicy_state]. unfold set_live, consume_execution.
    rewrite Hs. by destruct (c_sequence c =? UINT64_MAX).
Qed.

(** What the terminal's domain can ask: the client on channel 1, the administrator
    on channel 2. *)
Definition administered (st : tcs_admin * authority) (ch : Z) (m : message)
    : tcs_admin * authority * message :=
  if ch =? 1 then
    let '(au, ans) := client_contract (snd st) m in
    (fst st, au, ans)
  else admin_contract check (fst st) (snd st) m.

Definition abs_administered (s : admin_system) : tcs_admin * authority :=
  (admin_state s, abs_admin s).

(** Admission and execution consume the same number. *)
Lemma in_step_complete a s sq :
  in_step a (apolicy_state s) -> a_initialized a = true -> u64 (execution_sequence (apolicy_state s)) ->
  a_exhausted a = false -> c_sequence sq = a_next_sequence a ->
  forall s', sequencing s' = next_execution (sequencing s) ->
  in_step (complete (consume a (c_sequence sq))) (apolicy_state s').
Proof.
  intros Hin Hi Hu He Hs s' Hsq _. destruct (Hin Hi) as (_ & Hn & Hx & Hpos).
  unfold sequencing, next_execution in Hsq. cbn [fst snd] in Hsq.
  unfold complete, consume. cbn [a_pending_sequence a_next_sequence a_exhausted].
  rewrite Hs, Hn in *.
  destruct (execution_sequence (apolicy_state s) =? UINT64_MAX) eqn:Hmax; injection Hsq as -> ->.
  - done.
  - apply Z.eqb_neq in Hmax. split_and!; [done|done|done|]. rewrite wrap64_succ by done. lia.
Qed.

Lemma terminal_refines s ch m :
  admin_ok s -> Forall u64 (m_words m) -> 1 <= ch <= 2 ->
  exists s' a, terminal_call check residue refused s ch m = (s', a) /\ admin_ok s' /\
    administered (abs_administered s) ch m = (abs_administered s', a).
Proof.
  intros (Hin & Hside) Hm Hch. assert (ch = 1 \/ ch = 2) as [-> | ->] by lia.
  - change (terminal_call check residue refused s 1 m) with (enter client (deliver 3 client) s 0 m).
    cbn [admin_enter]. rewrite client_serve.
    destruct (client_answer_contract (deliver 3 client) _ abs_admin s m
      (conj Hside (conj eq_refl eq_refl)) Hm) as (s' & a & -> & (Hside' & Ha' & Hsq') & Hc).
    exists s', a. split; [done|]. split; [split; [|exact Hside']|].
    + rewrite Ha'. unfold sequencing in Hsq'. injection Hsq' as Hs' He'. unfold in_step.
      by rewrite Hs', He'.
    + unfold administered, abs_administered. cbn [Z.eqb Pos.eqb fst snd]. by rewrite Hc, Ha'.
  - change (terminal_call check residue refused s 2 m) with
      (enter administrator (deliver 3 administrator) s 0 m).
    cbn [admin_enter]. rewrite admin_serve.
    destruct (admin_answer_contract check (deliver 3 administrator)
      (fun s1 => policy_side_ok s1 /\ admin_state s1 = admin_state s) abs_admin sequencing
      (admin_state s) s m) as (s' & (Hside' & _) & -> & Habs & Hsq').
    + done.
    + apply Hside.
    + intros Hi He. destruct (Hin Hi) as (_ & -> & Hx & _). unfold sequencing. by rewrite <- Hx, He.
    + eexists _, _. split; [reflexivity|]. split.
      * split; [|exact Hside']. cbn [admin_state apolicy_state]. revert Hsq' Habs.
        unfold admitted, admin_contract.
        destruct (submitted m) as [packet|] eqn:Hsub; cycle 1.
        { unfold sequencing. intros [= Hs' He'] _. unfold in_step. by rewrite Hs', He'. }
        destruct (submitted_packet m packet Hsub) as [Hb Hl].
        destruct (admission check (admin_state s) packet) as [[status a'] oc] eqn:Hadm.
        destruct (decide (status = TCS_ADMIN_ACCEPTED)) as [->|Hne]; cycle 1.
        { intros Hsq' _.
          assert (Hsq : sequencing s' = sequencing s) by by destruct status.
          unfold sequencing in Hsq. injection Hsq as Hs' He'. unfold in_step. rewrite Hs', He'.
          by destruct status. }
        destruct (admission_accepted check _ _ _ _ Hb Hl Hadm)
          as (c & -> & _ & _ & _ & _ & Hi & _ & He & Hs & _).
        destruct (execute_and_record _ c) as [st' r]. cbn [fst snd]. intros Hsq' _.
        by eapply in_step_complete; [apply Hin|done|apply Hside|done|done|].
      * unfold administered, abs_administered. cbn [Z.eqb Pos.eqb fst snd admin_state].
        destruct (admin_contract check (admin_state s) (abs_admin s) m) as [[a' st'] ans].
        cbn [fst snd] in *. by rewrite <- Habs.
Qed.
End Refinement.

(** ** What was signed *)

Definition admin_boot (a : tcs_admin) : admin_system :=
  {| admin_state := a; apolicy_state := admin_policy_init admin_policy_start;
     aaudit_state := audit_start |}.

(** Messages of machine words on the terminal's two channels. *)
Definition terminal_event (e : Z * message) : Prop := 1 <= fst e <= 2 /\ Forall u64 (m_words (snd e)).

(** A command's execution and what the audit answered to it. *)
Definition execute_all (p : tcs_policy) (runs : list (tcs_admin_command * bool)) : tcs_policy :=
  foldl (fun p run => fst (admin_execute p (fst run) (snd run))) p runs.

(** One of the messages submits a packet that encodes the command for the
    administrator's identity and carries a valid signature of the encoding. *)
Definition signed_in (check : list Z -> list Z -> list Z -> Z) (key realm boot : list Z)
    (es : list (Z * message)) (c : tcs_admin_command) : Prop :=
  exists m packet, In (2, m) es /\ submitted m = Some packet /\
    tcs_admin_encode (Some (replicate TCS_ADMIN_MESSAGE_BYTES 0)) (Some realm) (Some boot) c =
      (true, Some (take TCS_ADMIN_MESSAGE_BYTES packet)) /\
    check (slice packet 128 64) key (take TCS_ADMIN_MESSAGE_BYTES packet) = 0.

Section Signed.
Context (check : list Z -> list Z -> list Z -> Z).

Lemma admission_signed a packet a' c :
  admin_identity_ok a -> byte_list packet -> length packet = Z.to_nat TCS_ADMIN_PACKET_BYTES ->
  admission check a packet = (TCS_ADMIN_ACCEPTED, a', Some c) ->
  tcs_admin_encode (Some (replicate TCS_ADMIN_MESSAGE_BYTES 0)) (Some (a_realm a)) (Some (a_boot a)) c =
    (true, Some (take TCS_ADMIN_MESSAGE_BYTES packet)) /\
  check (slice packet 128 64) (a_public_key a) (take TCS_ADMIN_MESSAGE_BYTES packet) = 0.
Proof.
  intros Ha Hb Hl Hadm. change (length packet = 192%nat) in Hl.
  apply (admit_accepted_iff check a packet TCS_ADMIN_PACKET_BYTES command_zero) in Hadm
    as (_ & _ & _ & _ & Hd & Hv & Hr & Hbo & _ & Hc & _ & [= ->]).
  split; [|done]. apply equal_slice in Hr, Hbo; try (apply Ha || lia).
  apply (equal_spec packet domain 16) in Hd; [|lia|by apply Nat.leb_le].
  by apply (packet_checks_iff a packet (packet_command packet) Ha Hb Hl).
Qed.

(** What the administrator's state tells after [k] commands. *)
Definition counted (a : tcs_admin) (k : nat) : Prop :=
  a_initialized a = true /\ a_pending_sequence a = 0 /\
  if a_exhausted a then Z.of_nat k = UINT64_MAX
  else a_next_sequence a = Z.of_nat k + 1 /\ Z.of_nat k < UINT64_MAX.

Definition same_identity (a a0 : tcs_admin) : Prop :=
  a_public_key a = a_public_key a0 /\ a_realm a = a_realm a0 /\ a_boot a = a_boot a0.

(** The policy is the execution, in order, of commands that were signed. *)
Definition as_signed (a0 : tcs_admin) (es : list (Z * message)) (st : tcs_admin * authority) : Prop :=
  authority_ok (snd st) /\ same_identity (fst st) a0 /\
  exists runs, counted (fst st) (length runs) /\
    map (fun run => c_sequence (fst run)) runs = map Z.of_nat (seq 1 (length runs)) /\
    Forall (fun run => signed_in check (a_public_key a0) (a_realm a0) (a_boot a0) es (fst run)) runs /\
    fst (snd st) = execute_all policy_zero runs.

Lemma counted_next a k c :
  counted a k -> a_exhausted a = false -> c_sequence c = a_next_sequence a ->
  counted (complete (consume a (c_sequence c))) (S k) /\ c_sequence c = Z.of_nat (S k).
Proof.
  intros (Hi & _ & Hn) He Hs. rewrite He in Hn. destruct Hn as [Hn Hlt]. split; [|lia].
  unfold counted, complete, consume. cbn [a_initialized a_pending_sequence a_exhausted a_next_sequence].
  rewrite Hs, Hn. split; [done|]. split; [done|].
  destruct (Z.of_nat k + 1 =? UINT64_MAX) eqn:Hmax; [lia|]. rewrite He.
  rewrite wrap64_small by word_lia. word_lia.
Qed.

Lemma administered_as_signed a0 es st e :
  admin_identity_ok a0 -> terminal_event e -> In e es -> as_signed a0 es st ->
  as_signed a0 es (fst (administered check st (fst e) (snd e))).
Proof.
  destruct st as [a st], e as [ch m]. cbn [fst snd].
  intros Hid [Hch Hm] Hin (Hok & Hsame & runs & Hcount & Hseq & Hsig & Hp). cbn [fst snd] in *.
  unfold administered. cbn [fst snd]. destruct (ch =? 1) eqn:H1.
  { destruct (client_contract_keeps st m Hok Hm) as [Hok' Hkeep].
    destruct (client_contract st m) as [st' ans]. cbn [fst snd] in *.
    split; [done|]. split; [done|]. exists runs. cbn [fst snd]. by rewrite Hkeep. }
  assert (ch = 2) as -> by lia. unfold admin_contract.
  destruct (submitted m) as [packet|] eqn:Hsub; [|by split; [done|split; [done|exists runs]]].
  destruct (submitted_packet m packet Hsub) as [Hb Hl].
  destruct (admission check a packet) as [[status a'] oc] eqn:Hadm.
  destruct (decide (status = TCS_ADMIN_ACCEPTED)) as [->|Hne]; cycle 1.
  { destruct status; try done; (split; [done|split; [done|by exists runs]]). }
  destruct (admission_accepted check _ _ _ _ Hb Hl Hadm)
    as (c & -> & _ & Hc & Hv & _ & Hi & _ & He & Hs & _).
  assert (Hida : admin_identity_ok a).
  { destruct Hsame as (_ & Hr & Hbo). unfold admin_identity_ok. by rewrite Hr, Hbo. }
  destruct (admission_signed a packet _ c Hida Hb Hl Hadm) as [Henc Hck].
  destruct (counted_next a _ c Hcount He Hs) as [Hcount' Hsc].
  unfold execute_and_record. destruct st as [p l]. cbn [fst snd] in *.
  pose proof (admin_execute_ok p c (has_room l) (proj1 Hok) Hc Hv) as Hpok.
  destruct (admin_execute p c (has_room l)) as [p' r] eqn:Hex. cbn [fst snd] in *.
  split; [split; cbn [fst snd]; [done|]|split; [done|]].
  { destruct Hok as [_ Hlen]. cbn [snd] in Hlen. unfold has_room.
    destruct (_ <? _)%nat eqn:Hroom; [|done]. apply Nat.ltb_lt in Hroom. rewrite length_app. cbn. lia. }
  exists (runs ++ [(c, has_room l)]). rewrite length_app, Nat.add_1_r. cbn [fst snd].
  split; [done|]. split; [|split].
  - rewrite seq_S, !map_app, Hseq. cbn [map fst plus]. by rewrite Hsc.
  - apply Forall_app_2; [done|]. apply List.Forall_cons; [|done]. exists m, packet.
    destruct Hsame as (Hk & Hr & Hbo). cbn [fst]. rewrite <- Hk, <- Hr, <- Hbo. done.
  - unfold execute_all. rewrite foldl_app. cbn [foldl fst snd]. fold (execute_all policy_zero runs).
    by rewrite <- Hp, Hex.
Qed.
End Signed.

(** A refused packet, and why. *)
Lemma admission_refusal check a packet status a' oc :
  (a_initialized a = true -> a_pending_sequence a = 0) ->
  admission check a packet = (status, a', oc) -> status <> TCS_ADMIN_ACCEPTED ->
  status ∈ [TCS_ADMIN_NOT_READY; TCS_ADMIN_BAD_PACKET; TCS_ADMIN_BAD_CONTEXT;
            TCS_ADMIN_BAD_SIGNATURE; TCS_ADMIN_REPLAY; TCS_ADMIN_EXHAUSTED].
Proof.
  intros Hpe. unfold admission, tcs_admin_admit. intros H Hne.
  destruct (a_initialized a); cbn [negb] in H; [|injection H as <- _ _; set_solver].
  rewrite Hpe in H by done. change (truthy 0) with false in H. cbn iota in H.
  repeat split_if; injection H as <- _ _; set_solver.
Qed.

Lemma admin_init_identity key realm boot a :
  length key = 32%nat -> length realm = 32%nat -> length boot = 32%nat ->
  tcs_admin_init (Some admin_zero) (Some key) (Some realm) (Some boot) = (true, Some a) ->
  admin_identity_ok a /\ a_public_key a = key /\ a_realm a = realm /\ a_boot a = boot /\ counted a 0.
Proof.
  intros Hk Hr Hb. unfold tcs_admin_init. cbn [a_initialized admin_zero orb].
  destruct (_ || _ || _) eqn:Hnz; [done|]. bools. intros [= <-].
  assert (Hcopy : forall f, length f = 32%nat -> copy (replicate 32 0) 0 f 32 = f).
  { intros f Hf. unfold copy. rewrite take_ge by lia. unfold blit. rewrite Hf.
    cbn [take app]. by rewrite drop_ge, app_nil_r. }
  unfold admin_identity_ok, counted. cbn [a_realm a_boot a_public_key a_initialized a_pending_sequence
    a_exhausted a_next_sequence admin_zero].
  rewrite !Hcopy by done. by split_and!.
Qed.

Lemma admin_boot_ok key realm boot a :
  tcs_admin_init (Some admin_zero) (Some key) (Some realm) (Some boot) = (true, Some a) ->
  admin_ok (admin_boot a).
Proof.
  unfold tcs_admin_init. cbn [a_initialized admin_zero orb].
  destruct (_ || _ || _); [done|]. intros [= <-].
  split; [by intros _|]. split; [cbn; word_lia|]. split; [done|]. split; [apply policy_zero_ok|].
  split_and!; [done|cbn; unfold TCS_AUDIT_CAPACITY; lia|]. by apply Forall_replicate.
Qed.

(** ** Properties *)

Section Properties.
Context (check : list Z -> list Z -> list Z -> Z).
Context (residue : message -> regs) (refused : message).
#[local] Abbreviation terminal_call := (terminal_call check residue refused).

(** C6. A submission is all or nothing: either its packet is admitted, and then
    in the same call the command is executed by the policy, recorded while the
    audit has room, acknowledged with exactly the receipt of that execution and
    completed, so that the administrator is idle again; or it is refused with a
    status that says why and no domain changes. The administrator is never left
    busy and no completion is ever lost. *)
Theorem submission_executes_or_refuses s m :
  admin_ok s -> message_u64 m ->
  let '(s', a) := terminal_call s 2 m in
  let p := policy_live (apolicy_state s) in
  let l := audit_log (aaudit_state s) in
  admin_ok s' /\
  match admitted check (admin_state s) m with
  | Some c =>
      a = receipt_message (snd (admin_execute p c (has_room l))) /\
      policy_live (apolicy_state s') = fst (admin_execute p c (has_room l)) /\
      audit_log (aaudit_state s') =
        (if has_room l
         then l ++ [decision_record (c_request c) TCS_ADMIN (snd (admin_decision p c))] else l) /\
      a_pending_sequence (admin_state s') = 0
  | None =>
      abs_administered s' = abs_administered s /\
      exists status, a = admission_message status /\
        status ∈ [TCS_ADMIN_NOT_READY; TCS_ADMIN_BAD_PACKET; TCS_ADMIN_BAD_CONTEXT;
                  TCS_ADMIN_BAD_SIGNATURE; TCS_ADMIN_REPLAY; TCS_ADMIN_EXHAUSTED]
  end.
Proof.
  intros Hok [_ Hm]. pose proof Hok as [Hin Hside].
  destruct (terminal_refines check residue refused s 2 m Hok Hm ltac:(lia)) as (s' & a & -> & Hok' & Hc).
  intros p l. split; [done|].
  change (admin_contract check (admin_state s) (p, l) m = (abs_administered s', a)) in Hc.
  unfold admin_contract, admitted in *.
  destruct (submitted m) as [packet|] eqn:Hsub; cycle 1.
  { apply pair_equal_spec in Hc as [<- <-]. split; [done|]. eexists. split; [reflexivity|]. clear; set_solver. }
  destruct (submitted_packet m packet Hsub) as [Hb Hlen].
  destruct (admission check (admin_state s) packet) as [[status a'] oc] eqn:Hadm.
  destruct (decide (status = TCS_ADMIN_ACCEPTED)) as [->|Hne].
  - destruct (admission_accepted check _ _ _ _ Hb Hlen Hadm) as (c & -> & _).
    unfold execute_and_record in Hc. destruct (admin_execute p c (has_room l)) as [p' r].
    injection Hc as Ha Hp Hl <-. cbn [fst snd]. split_and!; [done|done|done|]. by rewrite <- Ha.
  - assert (Hst : (admin_state s, (p, l), admission_message status) = (abs_administered s', a))
      by by destruct status.
    assert (Hsplit : match status with TCS_ADMIN_ACCEPTED => oc | _ => None end = None)
      by by destruct status.
    rewrite Hsplit. apply pair_equal_spec in Hst as [<- <-]. split; [done|]. exists status.
    split; [done|]. eapply admission_refusal; [|done|done]. intros Hi. by destruct (Hin Hi).
Qed.

(** C1. The policy is exactly what was signed: after any interleaving of client
    calls and submissions (forged, replayed, reordered, malformed) from boot, the
    live policy is the execution, from zero-initialized memory, of commands
    numbered 1, 2, ..., k, each of them encoded for this administrator's realm
    and boot in a packet that was submitted with a valid signature of it. *)
Theorem policy_is_what_was_signed key realm boot a es :
  length realm = 32%nat -> length boot = 32%nat -> length key = 32%nat ->
  tcs_admin_init (Some admin_zero) (Some key) (Some realm) (Some boot) = (true, Some a) ->
  Forall terminal_event es ->
  let s := fst (answers terminal_call (admin_boot a) es) in
  exists runs : list (tcs_admin_command * bool),
    map (fun run => c_sequence (fst run)) runs = map Z.of_nat (seq 1 (length runs)) /\
    Forall (fun run => signed_in check key realm boot es (fst run)) runs /\
    policy_live (apolicy_state s) = execute_all policy_zero runs.
Proof.
  intros Hlr Hlb Hlk Hinit Hes s.
  destruct (admin_init_identity key realm boot a Hlk Hlr Hlb Hinit) as (Hid & Hk & Hr & Hbo & Hcount).
  destruct (answers_simulation terminal_call (administered check) admin_ok abs_administered
    terminal_event es (admin_boot a)) as (s' & Hrun & Hok & Habs).
  - intros s1 e Hok1 [Hch Hm]. by apply terminal_refines.
  - by eapply admin_boot_ok.
  - done.
  - assert (Hsig : as_signed check a es (fst (answers (administered check) (abs_administered (admin_boot a)) es))).
    { apply (answers_invariant _ (as_signed check a es) (fun e => terminal_event e /\ In e es)).
      - intros st e [He Hin] Hst. by apply administered_as_signed.
      - apply List.Forall_forall. intros e Hin. split; [|done]. by eapply List.Forall_forall in Hes.
      - split; [by eapply abs_admin_ok, admin_boot_ok|split; [done|]]. by exists []. }
    rewrite Habs in Hsig. destruct Hsig as (_ & _ & runs & _ & Hseq & Hall & Hp).
    exists runs. unfold s. rewrite Hrun, <- Hk, <- Hr, <- Hbo. done.
Qed.
End Properties.

(** ** Witnesses *)

Section Witnesses.
Let residue : message -> regs := fun _ _ => 0.
Let refused : message := {| m_label := 0; m_words := [] |}.

Definition example_submission : message := submit_message example_packet.

Lemma example_submission_u64 : message_u64 example_submission.
Proof.
  split; [cbn; unfold TCS_ADMIN_SUBMIT; word_lia|]. apply words_of_u64.
  vm_compute. repeat constructor; discriminate.
Qed.

Lemma example_init :
  tcs_admin_init (Some admin_zero) (Some example_key) (Some example_realm) (Some example_boot) =
    (true, Some example_admin).
Proof. vm_compute. reflexivity. Qed.

Lemma submission_executes_or_refuses_witness :
  snd (terminal_call example_check residue refused (admin_boot example_admin) 2 example_submission) =
    receipt_message (snd (admin_execute policy_zero example_command true)).
Proof.
  pose proof (submission_executes_or_refuses example_check residue refused (admin_boot example_admin)
    example_submission (admin_boot_ok _ _ _ _ example_init) example_submission_u64) as H.
  assert (Ha : admitted example_check example_admin example_submission = Some example_command)
    by (vm_compute; reflexivity).
  destruct (terminal_call _ _ _ _ 2 example_submission) as [s' a].
  cbn [admin_state admin_boot] in H. rewrite Ha in H. exact (proj1 (proj2 H)).
Defined.

Lemma policy_is_what_was_signed_witness :
  exists runs : list (tcs_admin_command * bool),
    policy_live (apolicy_state (fst (answers (terminal_call example_check residue refused)
      (admin_boot example_admin) [(2, example_submission); (2, example_submission)]))) =
    execute_all policy_zero runs.
Proof.
  destruct (policy_is_what_was_signed example_check residue refused example_key example_realm
    example_boot example_admin [(2, example_submission); (2, example_submission)]) as (runs & _ & _ & H).
  - reflexivity.
  - reflexivity.
  - reflexivity.
  - apply example_init.
  - apply List.Forall_cons; [|apply List.Forall_cons; [|apply List.Forall_nil]];
      (split; [cbn; lia|apply example_submission_u64]).
  - exists runs. exact H.
Defined.
End Witnesses.
