(* ===== verification/SerialServer.v ===== *)
(** The serial driver: [servers/serial.c].

    The UART is not part of the sources: its registers are read and written
    through parameters, and everything the driver does to the outside (register
    accesses, notifications, interrupt acknowledgements) is kept, in order, in a
    trace, so that what holds does so for every device. *)

From S2P Require Import Prelude Policy Serial Ipc Wp.

(** ** Registers and constants *)

Definition TCS_SERIAL_CHUNK : nat := 32.
Definition TCS_SERIAL_READ : Z := 48.
Definition TCS_SERIAL_WRITE : Z := 49.
Definition TCS_SERIAL_DATA : Z := 0x181.

Definition DR : Z := 0x00.
Definition ECR : Z := 0x04.
Definition FR : Z := 0x18.
Definition IBRD : Z := 0x24.
Definition FBRD : Z := 0x28.
Definition LCRH : Z := 0x2c.
Definition CR : Z := 0x30.
Definition IFLS : Z := 0x34.
Definition IMSC : Z := 0x38.
Definition MIS : Z := 0x40.
Definition ICR : Z := 0x44.
Definition DMACR : Z := 0x48.
Definition RX_EMPTY : Z := Z.shiftl 1 4.
Definition TX_FULL : Z := Z.shiftl 1 5.
Definition RX_IRQ : Z := Z.shiftl 1 4.
Definition TX_IRQ : Z := Z.shiftl 1 5.
Definition RT_IRQ : Z := Z.shiftl 1 6.
Definition ERROR_IRQ : Z := Z.shiftl 15 7.
Definition RECEIVE_IRQS : Z := Z.lor (Z.lor RX_IRQ RT_IRQ) ERROR_IRQ.
Definition UART_IRQ_CHANNEL : Z := 0.
Definition TERMINAL_CHANNEL : Z := 1.

(** ** The outside *)

Inductive effect := Read (offset v : Z) | Write (offset v : Z) | Notify (ch : Z) | IrqAck (ch : Z).

Record uart_world (D : Type) := { device : D; trace : list effect }.
Arguments device {D}.
Arguments trace {D}.

Section Driver.
Context {D : Type} (reg_read : D -> Z -> D * Z) (reg_write : D -> Z -> Z -> D).
#[local] Abbreviation prog := (prog tcs_serial_rx (uart_world D)).

Definition effect_on (d : D) (e : effect) (st : pd tcs_serial_rx (uart_world D))
    : pd tcs_serial_rx (uart_world D) :=
  {| self := self st; peers := {| device := d; trace := trace (peers st) ++ [e] |}; mr := mr st |}.

(** [REG(offset)], read and assigned. *)
Definition reg_get (offset : Z) : prog Z := fun st =>
  let '(d, v) := reg_read (device (peers st)) offset in (effect_on d (Read offset v) st, v).
Definition reg_set (offset v : Z) : prog unit := fun st =>
  (effect_on (reg_write (device (peers st)) offset v) (Write offset v) st, tt).

Definition microkit_notify (ch : Z) : prog unit := fun st =>
  (effect_on (device (peers st)) (Notify ch) st, tt).
Definition microkit_irq_ack (ch : Z) : prog unit := fun st =>
  (effect_on (device (peers st)) (IrqAck ch) st, tt).

(** ** servers/serial.c *)

Definition serial_init : prog unit :=
  do* reg_set IMSC 0 in
  do* reg_set CR 0 in
  do* reg_set DMACR 0 in
  do* reg_set ICR 0x7ff in
  do* reg_set ECR 0 in
  do* reg_set IBRD 13 in
  do* reg_set FBRD 1 in
  do* reg_set LCRH (Z.lor (Z.shiftl 3 5) (Z.shiftl 1 4)) in
  do* reg_set IFLS 0 in
  do* reg_set CR (Z.lor (Z.lor (Z.shiftl 1 9) (Z.shiftl 1 8)) 1) in
  do* reg_set IMSC RECEIVE_IRQS in
  microkit_irq_ack UART_IRQ_CHANNEL.

(** The receive loop, [n] rounds left. *)
Fixpoint receive_loop (n : nat) : prog unit :=
  match n with
  | O => ret tt
  | S n =>
      let* fr := reg_get FR in
      if truthy (Z.land fr RX_EMPTY) then ret tt
      else
        let* data := reg_get DR in
        let* rx := get in
        do* (if truthy (Z.land data 0xf00) then
               do* put (tcs_serial_loss rx) in
               reg_set ECR 0
             else put (tcs_serial_receive rx (wrap8 data))) in
        receive_loop n
  end.

Definition serial_notified (ch : Z) : prog unit :=
  if negb (ch =? UART_IRQ_CHANNEL) then ret tt
  else
  let* pending := reg_get MIS in
  do* when (truthy (Z.land pending ERROR_IRQ))
    (let* rx := get in
     do* put (tcs_serial_loss rx) in
     reg_set ECR 0) in
  do* receive_loop 64 in
  do* reg_set ICR (Z.lor (Z.lor RT_IRQ ERROR_IRQ) (Z.land pending TX_IRQ)) in
  do* when (truthy (Z.land pending TX_IRQ)) (reg_set IMSC RECEIVE_IRQS) in
  let* rx := get in
  do* when (negb (count rx =? 0)%nat || lost rx || truthy (Z.land pending TX_IRQ))
    (microkit_notify TERMINAL_CHANNEL) in
  microkit_irq_ack UART_IRQ_CHANNEL.

(** [for (i = 0; i < count; ++i) if (microkit_mr_get(i) > UINT8_MAX)]. *)
Fixpoint oversize (i n : nat) : prog bool :=
  match n with
  | O => ret false
  | S n =>
      let* w := microkit_mr_get i in
      if UINT8_MAX <? w then ret true else oversize (S i) n
  end.

(** The transmit loop, [n] words left: the number sent in the end. *)
Fixpoint transmit (sent n : nat) : prog nat :=
  match n with
  | O => ret sent
  | S n =>
      let* fr := reg_get FR in
      if truthy (Z.land fr TX_FULL) then ret sent
      else
        let* w := microkit_mr_get sent in
        do* reg_set DR (wrap32 w) in
        transmit (S sent) n
  end.

Definition serial_protected (ch : Z) (msg : msginfo) : prog msginfo :=
  if negb (ch =? TERMINAL_CHANNEL) then tcs_reply (result TCS_DENIED 0)
  else if tcs_message msg TCS_SERIAL_READ 0 then
    let* rx := get in
    let '(rx, (flags, byte)) := tcs_serial_take rx in
    do* put rx in
    do* when (negb (count rx =? 0)%nat) (microkit_notify TERMINAL_CHANNEL) in
    do* microkit_mr_set 0 flags in
    do* microkit_mr_set 1 byte in
    ret (info TCS_SERIAL_DATA 2)
  else
  let count := i_count msg in
  if negb (i_label msg =? TCS_LABEL TCS_SERIAL_WRITE) || (count =? 0)%nat ||
     (TCS_SERIAL_CHUNK <? count)%nat
  then tcs_reply (result TCS_BAD_MESSAGE 0)
  else
  let* bad := oversize 0 count in
  if bad then tcs_reply (result TCS_BAD_MESSAGE 0)
  else
  let* sent := transmit 0 count in
  do* when (sent <? count)%nat (reg_set IMSC (Z.lor RECEIVE_IRQS TX_IRQ)) in
  do* when (negb (sent =? 0)%nat) (microkit_notify TERMINAL_CHANNEL) in
  tcs_reply (result TCS_OK (Z.of_nat sent)).
End Driver.

(** ** What a trace tells *)

(** The data read from and written to the device, the signals sent, in order. *)
Definition dr_reads (es : list effect) : list Z :=
  flat_map (fun e => match e with Read o v => if o =? DR then [v] else [] | _ => [] end) es.
Definition writes (offset : Z) (es : list effect) : list Z :=
  flat_map (fun e => match e with Write o v => if o =? offset then [v] else [] | _ => [] end) es.
Abbreviation dr_writes := (writes DR) (only parsing).
Definition signals (es : list effect) : list effect :=
  flat_map (fun e => match e with Notify _ | IrqAck _ => [e] | _ => [] end) es.

(** The device said, by the flag register, that bit [b] is set. *)
Definition reported (b : Z) (es : list effect) : Prop :=
  exists fr, In (Read FR fr) es /\ truthy (Z.land fr b) = true.

(** The queue after words read from the data register: a word with error bits is
    a loss. *)
Definition queue_data (q : byte_queue) (data : list Z) : byte_queue :=
  foldl (fun q v => if truthy (Z.land v 0xf00) then {| waiting := []; gap := true |}
                    else queue_receive q (wrap8 v)) q data.

Lemma dr_reads_app es1 es2 : dr_reads (es1 ++ es2) = dr_reads es1 ++ dr_reads es2.
Proof. apply flat_map_app. Qed.
Lemma writes_app o es1 es2 : writes o (es1 ++ es2) = writes o es1 ++ writes o es2.
Proof. apply flat_map_app. Qed.
Lemma signals_app es1 es2 : signals (es1 ++ es2) = signals es1 ++ signals es2.
Proof. apply flat_map_app. Qed.

Lemma reported_app_l b es1 es2 : reported b es1 -> reported b (es1 ++ es2).
Proof. intros (fr & Hin & Hb). exists fr. split; [apply in_or_app; by left|done]. Qed.
Lemma reported_app_r b es1 es2 : reported b es2 -> reported b (es1 ++ es2).
Proof. intros (fr & Hin & Hb). exists fr. split; [apply in_or_app; by right|done]. Qed.

#[export] Hint Resolve reported_app_l reported_app_r : tcs.

(** ** What the driver does *)

Section DriverLemmas.
Context {D : Type} (reg_read : D -> Z -> D * Z) (reg_write : D -> Z -> Z -> D).
#[local] Abbreviation world := (uart_world D).
Implicit Types (st : pd tcs_serial_rx world) (rx : tcs_serial_rx) (q : byte_queue).

(** From [st] to [st'] the driver did [es] and left the ring [rx]. *)
Record ran st (es : list effect) rx st' : Prop := {
  ran_self : self st' = rx;
  ran_trace : trace (peers st') = trace (peers st) ++ es;
  ran_mr : mr st' = mr st }.

Lemma ran_trans st es rx st1 es' rx' st' :
  ran st es rx st1 -> ran st1 es' rx' st' -> ran st (es ++ es') rx' st'.
Proof.
  intros [_ Ht Hm] [Hs' Ht' Hm']. split; [done| |congruence]. by rewrite Ht', Ht, app_assoc.
Qed.

#[local] Ltac ran_chain :=
  repeat match goal with
  | H : ran ?a _ _ ?b, H' : ran ?b _ _ ?c |- _ =>
      rewrite ?(ran_self _ _ _ _ H) in H'; apply (ran_trans _ _ _ _ _ _ _ H) in H'; clear H
  end.

Lemma ran_nil st : ran st [] (self st) st.
Proof. split; [done|by rewrite app_nil_r|done]. Qed.

Lemma ran_put st es rx rx' st' :
  ran st es rx st' -> ran st es rx' {| self := rx'; peers := peers st'; mr := mr st' |}.
Proof. by intros []. Qed.

Lemma wp_reg_get st offset Q :
  (forall v st', ran st [Read offset v] (self st) st' -> Q v st') ->
  wp (reg_get reg_read offset) st Q.
Proof. intros HQ. unfold wp, reg_get. destruct (reg_read _ offset). by apply HQ. Qed.

Lemma wp_reg_set st offset v (Q : unit -> pd tcs_serial_rx world -> Prop) :
  (forall st', ran st [Write offset v] (self st) st' -> Q tt st') ->
  wp (reg_set reg_write offset v) st Q.
Proof. intros HQ. by apply HQ. Qed.

Lemma wp_notify st ch (Q : unit -> pd tcs_serial_rx world -> Prop) :
  (forall st', ran st [Notify ch] (self st) st' -> Q tt st') -> wp (microkit_notify ch) st Q.
Proof. intros HQ. by apply HQ. Qed.

Lemma wp_irq_ack st ch (Q : unit -> pd tcs_serial_rx world -> Prop) :
  (forall st', ran st [IrqAck ch] (self st) st' -> Q tt st') -> wp (microkit_irq_ack ch) st Q.
Proof. intros HQ. by apply HQ. Qed.

(** The ring stands for a queue. *)
Definition holds rx q : Prop := rx_wf rx /\ queue_of rx = q.

Definition lossy : byte_queue := {| waiting := []; gap := true |}.

Lemma holds_loss rx q : holds rx q -> holds (tcs_serial_loss rx) lossy.
Proof. intros [Hwf _]. by apply loss_refines. Qed.

Lemma holds_receive rx q b : holds rx q -> holds (tcs_serial_receive rx b) (queue_receive q b).
Proof. intros [Hwf <-]. by apply receive_refines. Qed.

(** A loss noted and the error register cleared. *)
Lemma note_loss st q :
  holds (self st) q ->
  wp (do* put (tcs_serial_loss (self st)) in reg_set reg_write ECR 0) st
    (fun _ st' => exists rx, ran st [Write ECR 0] rx st' /\ holds rx lossy).
Proof.
  intros Hq. repeat (wp_step; cbn [self]). apply wp_reg_set. intros st' Hst'.
  exists (tcs_serial_loss (self st)). split; [|by eapply holds_loss]. by destruct Hst'.
Qed.

(** What the receive loop may leave after [n] rounds. *)
Definition drained (n : nat) q st st' : Prop :=
  exists rx es, ran st es rx st' /\ holds rx (queue_data q (dr_reads es)) /\
    (length (dr_reads es) <= n)%nat /\ (length es <= 3 * n + 1)%nat /\
    signals es = [] /\ dr_writes es = [] /\
    (length (dr_reads es) = n \/ reported RX_EMPTY es).

(** One round before the others. *)
Lemma drained_round n q q1 st st1 st' es rx data :
  ran st es rx st1 -> dr_reads es = [data] -> signals es = [] -> dr_writes es = [] ->
  (length es <= 3)%nat -> queue_data q [data] = q1 ->
  drained n q1 st1 st' -> drained (S n) q st st'.
Proof.
  intros Hran Hd Hs Hw Hes Hq (rx' & es' & Hran' & Hrx & Hn & Hlen & Hs' & Hw' & Hend).
  exists rx', (es ++ es'). rewrite dr_reads_app, signals_app, writes_app, Hd, Hs, Hw.
  split; [by eapply ran_trans|]. split; [|rewrite ?length_app; cbn [app length]; split_and!; try done; try lia].
  - rewrite <- Hq in Hrx. exact Hrx.
  - destruct Hend as [<-|Hend]; [left; lia|right; by apply reported_app_r].
Qed.

Lemma receive_loop_run n : forall st q,
  holds (self st) q ->
  wp (receive_loop reg_read reg_write n) st (fun _ st' => drained n q st st').
Proof.
  induction n as [|n IH]; intros st q Hq; cbn [receive_loop].
  { apply wp_ret. exists (self st), []. split; [apply ran_nil|]. split; [exact Hq|].
    split_and!; cbn; try done; [lia|by left]. }
  wp_step. apply wp_reg_get. intros fr st1 H1. wp_step.
  { wp_step. exists (self st), [Read FR fr]. split; [done|]. split; [exact Hq|].
    split_and!; cbn; try done; [lia|lia|right]. exists fr. split; [by left|done]. }
  wp_step. apply wp_reg_get. intros data st2 H2.
  pose proof (ran_trans _ _ _ _ _ _ _ H1 H2) as H12. rewrite (ran_self _ _ _ _ H1) in H12.
  assert (Hq2 : holds (self st2) q) by (by rewrite (ran_self _ _ _ _ H12)).
  wp_step. wp_step. wp_step. wp_step.
  - eapply wp_mono.
    + exact (note_loss st2 q Hq2).
    + intros [] st3 (rx & H3 & Hrx).
      assert (Hq3 : holds (self st3) lossy) by (by rewrite (ran_self _ _ _ _ H3)).
      eapply wp_mono; [exact (IH st3 lossy Hq3)|]. intros [] st' Hst'.
      eapply (drained_round n q lossy _ st3); [by eapply ran_trans| | | | | |exact Hst'];
        try done; try (cbn; lia). unfold queue_data. cbn [foldl]. by rewrite H0.
  - wp_step. set (st3 := {| self := _ |}).
    assert (Hq3 : holds (self st3) (queue_receive q (wrap8 data))) by by apply holds_receive.
    eapply wp_mono; [exact (IH st3 _ Hq3)|]. intros [] st' Hst'.
    eapply (drained_round n q _ _ st3); [by eapply ran_put| | | | | |exact Hst']; try done;
      try (cbn; lia). unfold queue_data. cbn [foldl]. by rewrite H0.
Qed.

(** A conditional effect. *)
Definition one (b : bool) (e : effect) : list effect := if b then [e] else [].

Lemma wp_when_one (b : bool) (m : prog tcs_serial_rx world unit) st e :
  wp m st (fun _ => ran st [e] (self st)) ->
  wp (when b m) st (fun _ => ran st (one b e) (self st)).
Proof. destruct b; [done|]. intros _. apply ran_nil. Qed.

Lemma note_error (err : bool) st q :
  holds (self st) q ->
  wp (when err (let* rx := get in do* put (tcs_serial_loss rx) in reg_set reg_write ECR 0)) st
    (fun _ st' => exists rx, ran st (one err (Write ECR 0)) rx st' /\
                             holds rx (if err then lossy else q)).
Proof.
  intros Hq. apply wp_when; intros ->; [wp_step; wp_step; exact (note_loss st q Hq)|].
  exists (self st). split; [apply ran_nil|done].
Qed.

(** ** Interrupts *)

(** What the effects around the receive loop tell. *)
Lemma interrupt_effects (err tx more : bool) icr es :
  let all := one err (Write ECR 0) ++ es ++ [Write ICR icr] ++ one tx (Write IMSC RECEIVE_IRQS) ++
             one more (Notify TERMINAL_CHANNEL) ++ [IrqAck UART_IRQ_CHANNEL] in
  dr_reads all = dr_reads es /\ dr_writes all = dr_writes es /\
  signals all = signals es ++ one more (Notify TERMINAL_CHANNEL) ++ [IrqAck UART_IRQ_CHANNEL] /\
  (length all <= length es + 5)%nat.
Proof.
  cbv zeta. rewrite !dr_reads_app, !writes_app, !signals_app, !length_app.
  destruct err, tx, more; cbn [one app dr_reads writes signals flat_map Z.eqb length
    DR ECR ICR IMSC]; rewrite ?app_nil_r; split_and!; lia || done.
Qed.

(** What one UART interrupt does, whatever the device answers: [st] before,
    [st'] after. *)
Definition interrupt_handled st st' : Prop :=
  exists pending es rx,
    ran st (Read MIS pending :: es) rx st' /\
    holds rx (queue_data (if truthy (Z.land pending ERROR_IRQ) then lossy
                          else queue_of (self st)) (dr_reads es)) /\
    (length (dr_reads es) = 64%nat \/ (length (dr_reads es) < 64)%nat /\ reported RX_EMPTY es) /\
    (length es <= 198)%nat /\ dr_writes es = [] /\
    signals es = (if negb (count rx =? 0)%nat || lost rx || truthy (Z.land pending TX_IRQ)
                  then [Notify TERMINAL_CHANNEL] else []) ++ [IrqAck UART_IRQ_CHANNEL].

Lemma interrupt_run st :
  rx_wf (self st) ->
  wp (serial_notified reg_read reg_write UART_IRQ_CHANNEL) st (fun _ => interrupt_handled st).
Proof.
  intros Hwf. unfold serial_notified. rewrite Z.eqb_refl. cbn [negb].
  wp_step. apply wp_reg_get. intros pending st1 H1.
  pose (err := truthy (Z.land pending ERROR_IRQ)). pose (tx := truthy (Z.land pending TX_IRQ)).
  wp_step. eapply wp_mono.
  { apply (note_error err st1 (queue_of (self st))). by rewrite (ran_self _ _ _ _ H1). }
  intros [] st2 (rx2 & H2 & Hrx2). wp_step.
  eapply wp_mono; [apply (receive_loop_run 64); by rewrite (ran_self _ _ _ _ H2)|].
  intros [] st3 (rx & es & H3 & Hrx & Hn & Hlen & Hs & Hw & Hend).
  wp_step. apply wp_reg_set. intros st4 H4. wp_step.
  eapply wp_mono; [apply (wp_when_one tx _ _ (Write IMSC RECEIVE_IRQS)); apply wp_reg_set; auto|].
  intros [] st5 H5. wp_step. wp_step. wp_step.
  eapply wp_mono; [apply (wp_when_one _ _ _ (Notify TERMINAL_CHANNEL)); apply wp_notify; auto|].
  intros [] st6 H6. apply wp_irq_ack. intros st' H7.
  ran_chain. fold tx in H7.
  destruct (interrupt_effects err tx (negb (count rx =? 0)%nat || lost rx || tx)
              (Z.lor (Z.lor RT_IRQ ERROR_IRQ) (Z.land pending TX_IRQ)) es) as (Ed & Ew & Es & El).
  eexists _, _, rx. split; [exact H7|]. rewrite Ed, Ew, Es, Hs, Hw. split; [exact Hrx|].
  split; [|split_and!; [lia|done|done]].
  destruct Hend as [Hend|Hend]; [by left|].
  destruct (decide (length (dr_reads es) = 64%nat)) as [|Hne]; [by left|right].
  split; [lia|]. apply reported_app_r. by apply reported_app_l.
Qed.

(** ** Calls *)

(** A request to send 1 to 32 bytes, one per word. *)
Definition writable (m : message) : bool :=
  (m_label m =? TCS_LABEL TCS_SERIAL_WRITE) && negb (length (m_words m) =? 0)%nat &&
  (length (m_words m) <=? TCS_SERIAL_CHUNK)%nat && forallb (fun w => w <=? UINT8_MAX) (m_words m).

(** What the driver promises a caller on channel [ch]: from a queue [q], the
    message [m] is answered [reply], leaves [q'] and has the effects [es]. *)
Definition serial_answer q (ch : Z) (m : message) q' (es : list effect) (reply : message) : Prop :=
  if negb (ch =? TERMINAL_CHANNEL) then
    q' = q /\ es = [] /\ reply = reply_message (result TCS_DENIED 0)
  else if (m_label m =? TCS_LABEL TCS_SERIAL_READ) && (length (m_words m) =? 0)%nat then
    exists flags byte,
      queue_take q = (q', (flags, byte)) /\
      es = one (negb (length (waiting q') =? 0)%nat) (Notify TERMINAL_CHANNEL) /\
      reply = {| m_label := TCS_SERIAL_DATA; m_words := [flags; byte] |}
  else if writable m then
    exists sent,
      (sent <= length (m_words m))%nat /\ q' = q /\
      reply = reply_message (result TCS_OK (Z.of_nat sent)) /\
      dr_writes es = take sent (m_words m) /\ dr_reads es = [] /\
      (sent = length (m_words m) \/ (sent < length (m_words m))%nat /\ reported TX_FULL es) /\
      writes IMSC es = (if (sent <? length (m_words m))%nat then [Z.lor RECEIVE_IRQS TX_IRQ] else []) /\
      signals es = one (negb (sent =? 0)%nat) (Notify TERMINAL_CHANNEL)
  else q' = q /\ es = [] /\ reply = reply_message (result TCS_BAD_MESSAGE 0).

Lemma chunk_writable m :
  m_label m = TCS_LABEL TCS_SERIAL_WRITE -> (1 <= length (m_words m) <= TCS_SERIAL_CHUNK)%nat ->
  Forall u8 (m_words m) -> writable m = true.
Proof.
  intros Hl Hlen Hb. unfold writable. rewrite Hl, Z.eqb_refl. cbn [andb].
  rewrite (proj2 (Nat.eqb_neq _ _)), (proj2 (Nat.leb_le _ _)) by lia. cbn [negb andb].
  apply forallb_forall. rewrite List.Forall_forall in Hb. intros w Hin. apply Z.leb_le, Hb, Hin.
Qed.

Lemma oversize_run words rest st n i :
  mr st = load words rest -> (i + n = length words)%nat ->
  oversize i n st = (st, negb (forallb (fun w => w <=? UINT8_MAX) (drop i words))).
Proof.
  intros Hr. revert i. induction n as [|n IH]; intros i Hi; cbn [oversize].
  - rewrite drop_ge by lia. done.
  - unfold bind, microkit_mr_get. rewrite Hr. unfold load.
    destruct (lookup_lt_is_Some_2 words i) as [w Hw]; [lia|]. rewrite Hw.
    rewrite (drop_S words w i Hw). cbn [forallb]. rewrite Z.leb_antisym.
    destruct (UINT8_MAX <? w); [done|]. cbn [negb andb]. apply IH. lia.
Qed.

Lemma transmit_run n : forall st sent words rest,
  mr st = load words rest -> Forall u8 words -> (sent + n = length words)%nat ->
  wp (transmit reg_read reg_write sent n) st (fun k st' => exists es,
    ran st es (self st) st' /\ (sent <= k <= length words)%nat /\
    dr_writes es = take (k - sent) (drop sent words) /\ dr_reads es = [] /\ signals es = [] /\
    writes IMSC es = [] /\ (k = length words \/ (k < length words)%nat /\ reported TX_FULL es)).
Proof.
  induction n as [|n IH]; intros st sent words rest Hr Hw Hn; cbn [transmit].
  { apply wp_ret. exists []. split; [apply ran_nil|]. rewrite Nat.sub_diag. split_and!; lia || done || auto. }
  wp_step. apply wp_reg_get. intros fr st1 H1. wp_step.
  { wp_step. exists [Read FR fr]. split; [done|]. rewrite Nat.sub_diag.
    split_and!; try done; try lia. right. split; [lia|]. exists fr. split; [by left|done]. }
  wp_step. wp_step. wp_step. apply wp_reg_set. intros st2 H2.
  destruct (lookup_lt_is_Some_2 words sent) as [w Hword]; [lia|].
  assert (Hv : wrap32 (mr st1 sent) = w).
  { rewrite (ran_mr _ _ _ _ H1), Hr. unfold load. rewrite Hword.
    rewrite List.Forall_forall in Hw. pose proof (Hw w (proj1 (list_elem_of_In _ _) (list_elem_of_lookup_2 _ _ _ Hword))) as Hb.
    apply Z.mod_small. word_lia. }
  rewrite Hv in H2. ran_chain. eapply wp_mono.
  { apply (IH st2 (S sent) words rest); [by rewrite (ran_mr _ _ _ _ H2)|done|lia]. }
  intros k st' (es & H3 & Hk & Hdw & Hdr & Hs & Hm & Hend).
  ran_chain. exists ([Read FR fr; Write DR w] ++ es).
  rewrite dr_reads_app, !writes_app, signals_app, Hdr, Hs, Hm, Hdw.
  split; [by rewrite <- app_assoc in *|]. split; [lia|]. split_and!; try done.
  - rewrite (drop_S words w sent Hword). by replace (k - sent)%nat with (S (k - S sent)) by lia.
  - destruct Hend as [Hend|[? ?]]; [by left|right]. split; [done|]. by apply (reported_app_r _ [_; _] es).
Qed.

Lemma writable_eq m :
  writable m =
  negb ((negb (m_label m =? TCS_LABEL TCS_SERIAL_WRITE) || (length (m_words m) =? 0)%nat ||
         (TCS_SERIAL_CHUNK <? length (m_words m))%nat) ||
        negb (forallb (fun w => w <=? UINT8_MAX) (m_words m))).
Proof.
  unfold writable. rewrite !negb_orb, !negb_involutive. f_equal. f_equal.
  by rewrite Nat.leb_antisym.
Qed.

(** What the effects after the transmit loop tell. *)
Lemma transmit_effects (short some : bool) mask es :
  let all := es ++ one short (Write IMSC mask) ++ one some (Notify TERMINAL_CHANNEL) in
  dr_reads all = dr_reads es /\ dr_writes all = dr_writes es /\
  writes IMSC all = writes IMSC es ++ (if short then [mask] else []) /\
  signals all = signals es ++ one some (Notify TERMINAL_CHANNEL).
Proof.
  cbv zeta. rewrite !dr_reads_app, !writes_app, !signals_app.
  destruct short, some; cbn [one app dr_reads writes signals flat_map Z.eqb DR IMSC Pos.eqb];
    rewrite ?app_nil_r; done.
Qed.

Lemma serial_call_run st ch m rest :
  rx_wf (self st) -> Forall u64 (m_words m) -> mr st = load (m_words m) rest ->
  wp (serial_protected reg_read reg_write ch (info (m_label m) (length (m_words m)))) st
    (fun i st' => rx_wf (self st') /\ exists es,
       trace (peers st') = trace (peers st) ++ es /\
       serial_answer (queue_of (self st)) ch m (queue_of (self st')) es
         {| m_label := i_label i; m_words := store (mr st') (i_count i) |}).
Proof.
  intros Hwf Hu Hr. unfold serial_protected, serial_answer, tcs_message.
  cbn [info i_label i_count].
  destruct (negb (ch =? TERMINAL_CHANNEL)).
  { split; [done|]. exists []. by rewrite app_nil_r. }
  destruct (_ && _).
  { wp_step. wp_step. destruct (tcs_serial_take (self st)) as [rx [flags byte]] eqn:Ht.
    pose proof (take_refines (self st) Hwf) as Href. rewrite Ht in Href.
    destruct Href as [Hwf' Hq].
    wp_step. wp_step. wp_step.
    eapply wp_mono; [apply (wp_when_one _ _ _ (Notify TERMINAL_CHANNEL)); apply wp_notify; auto|].
    intros [] st1 H1. split; [by rewrite (ran_self _ _ _ _ H1)|].
    exists (one (negb (count rx =? 0)%nat) (Notify TERMINAL_CHANNEL)).
    split; [apply (ran_trace _ _ _ _ H1)|]. rewrite (ran_self _ _ _ _ H1).
    exists flags, byte. split; [done|]. split; [|done].
    unfold queue_of. cbn [waiting]. by rewrite length_map, length_seq. }
  rewrite writable_eq. destruct (negb (_ =? _) || _ || _); cbn [orb negb].
  { split; [done|]. exists []. by rewrite app_nil_r. }
  wp_step. unfold wp at 1. rewrite (oversize_run (m_words m) rest) by done. rewrite drop_0.
  destruct (forallb _ _) eqn:Hsize; cbn [negb].
  2:{ split; [done|]. exists []. by rewrite app_nil_r. }
  assert (Hw : Forall u8 (m_words m)).
  { rewrite forallb_forall in Hsize. rewrite List.Forall_forall in Hu |- *.
    intros w Hin. specialize (Hu w Hin). specialize (Hsize w Hin). word_lia. }
  wp_step. eapply wp_mono; [by apply (transmit_run _ st 0 (m_words m) rest)|].
  intros sent st1 (es & H1 & Hsent & Hdw & Hdr & Hs & Hm & Hend).
  rewrite Nat.sub_0_r, drop_0 in Hdw.
  set (short := (sent <? length (m_words m))%nat). set (some := negb (sent =? 0)%nat).
  wp_step. eapply wp_mono.
  { apply (wp_when_one short _ _ (Write IMSC (Z.lor RECEIVE_IRQS TX_IRQ))). apply wp_reg_set. auto. }
  intros [] st2 H2. wp_step.
  eapply wp_mono; [apply (wp_when_one some _ _ (Notify TERMINAL_CHANNEL)); apply wp_notify; auto|].
  intros [] st3 H3. ran_chain.
  destruct (transmit_effects short some (Z.lor RECEIVE_IRQS TX_IRQ) es) as (Er & Ew & Em & Es).
  unfold wp. cbn [tcs_reply bind microkit_mr_set ret self peers mr].
  rewrite (ran_self _ _ _ _ H3). split; [done|].
  eexists; split; [apply (ran_trace _ _ _ _ H3)|].
  exists sent. rewrite Er, Ew, Em, Es, Hdw, Hdr, Hs, Hm.
  split_and!; try done; [lia|]. destruct Hend as [|[Hlt Hfull]]; [by left|right].
  split; [done|]. by apply reported_app_l.
Qed.
End DriverLemmas.

(** ** Runs of the driver *)

Section Runs.
Context {D : Type} (reg_read : D -> Z -> D * Z) (reg_write : D -> Z -> Z -> D)
  (residue : message -> regs).
#[local] Abbreviation state := (tcs_serial_rx * uart_world D * list message)%type.

(** A notification, or a protected call with the message received. *)
Inductive driver_event := Notified (ch : Z) (rest : regs) | Protected (ch : Z) (m : message).

(** The ring, the world and the replies given so far. *)
Definition driver_step (s : state) (e : driver_event) : state :=
  let '(rx, w, replies) := s in
  match e with
  | Notified ch rest =>
      let st := fst (serial_notified reg_read reg_write ch {| self := rx; peers := w; mr := rest |}) in
      (self st, peers st, replies)
  | Protected ch m =>
      let '(rx', w', reply) := serve residue (serial_protected reg_read reg_write) rx w ch m in
      (rx', w', replies ++ [reply])
  end.

Definition driver_boot (d : D) (rest : regs) : state :=
  let st := fst (serial_init reg_write
                   {| self := serial_zero; peers := {| device := d; trace := [] |}; mr := rest |}) in
  (self st, peers st, []).

Definition event_u64 (e : driver_event) : Prop :=
  match e with Notified _ _ => True | Protected _ m => Forall u64 (m_words m) end.

(** The flags and bytes of the replies that carry input. *)
Definition data_replies (replies : list message) : list (Z * Z) :=
  flat_map (fun m => if m_label m =? TCS_SERIAL_DATA
                     then match m_words m with [flags; byte] => [(flags, byte)] | _ => [] end
                     else []) replies.

Lemma data_replies_snoc replies m :
  data_replies (replies ++ [m]) = data_replies replies ++ data_replies [m].
Proof. unfold data_replies. by rewrite flat_map_app. Qed.

(** A queue that saw no gap holds everything. *)
Lemma queue_data_intact data q :
  gap (queue_data q data) = false ->
  gap q = false /\ waiting (queue_data q data) = waiting q ++ map wrap8 data.
Proof.
  revert q. induction data as [|v data IH]; intros q Hg; [by rewrite app_nil_r|].
  set (q1 := if truthy (Z.land v 0xf00) then lossy else queue_receive q (wrap8 v)).
  change (queue_data q (v :: data)) with (queue_data q1 data) in *.
  destruct (IH q1 Hg) as [Hg1 ->]. unfold q1 in *.
  destruct (truthy (Z.land v 0xf00)); [done|]. unfold queue_receive in *.
  destruct (_ =? _)%nat; [done|]. cbn [waiting gap map] in *. by rewrite <- app_assoc.
Qed.

Lemma queue_take_intact q q' o :
  queue_take q = (q', o) -> flagged o = false ->
  gap q = false /\ waiting q = given [o] ++ waiting q'.
Proof.
  unfold queue_take. destruct q as [ws g]; cbn [gap waiting].
  destruct ws, g; intros [= <- <-]; done.
Qed.

Lemma given_app o1 o2 : given (o1 ++ o2) = given o1 ++ given o2.
Proof. apply flat_map_app. Qed.

(** Bytes stay bytes. *)
Lemma queue_data_bytes data q : Forall u8 (waiting q) -> Forall u8 (waiting (queue_data q data)).
Proof.
  revert q. induction data as [|v data IH]; intros q Hq; [done|]. apply IH.
  destruct (truthy (Z.land v 0xf00)); [constructor|]. unfold queue_receive.
  destruct (_ =? _)%nat; [by repeat constructor; apply wrap8_range|].
  apply Forall_app_2; [done|]. apply Forall_singleton, wrap8_range.
Qed.

(** What a run keeps: unless a loss was or is still to be reported, every byte
    read from the device was given to the reader or is waiting. *)
Definition intact (s : state) : Prop :=
  let '(rx, w, replies) := s in
  rx_wf rx /\
  (forallb (fun o => negb (flagged o)) (data_replies replies) = true -> lost rx = false ->
   map wrap8 (dr_reads (trace w)) = given (data_replies replies) ++ waiting (queue_of rx)).

Lemma intact_quiet rx w w' replies reply es rx' :
  intact (rx, w, replies) -> rx_wf rx' -> trace w' = trace w ++ es -> dr_reads es = [] ->
  queue_of rx' = queue_of rx -> data_replies [reply] = [] -> intact (rx', w', replies ++ [reply]).
Proof.
  intros [_ Hin] Hwf' Ht Hes Hq Hr. split; [done|].
  rewrite data_replies_snoc, Hr, app_nil_r, Ht, dr_reads_app, Hes, app_nil_r, Hq.
  intros Hf Hl. apply Hin; [done|]. by apply (f_equal gap) in Hq; cbn in Hq; rewrite <- Hq.
Qed.

Lemma intact_step s e :
  event_u64 e -> intact s -> intact (driver_step s e).
Proof.
  destruct s as [[rx w] replies]. intros Hu Hi. pose proof Hi as [Hwf Hin].
  destruct e as [ch rest|ch m]; cbn [driver_step].
  - destruct (ch =? UART_IRQ_CHANNEL) eqn:Hch.
    2:{ unfold serial_notified. rewrite Hch. cbn [negb fst ret self peers]. by split. }
    apply Z.eqb_eq in Hch as ->.
    pose proof (interrupt_run reg_read reg_write {| self := rx; peers := w; mr := rest |} Hwf) as H.
    apply wp_run in H. set (st' := fst _) in *.
    destruct H as (pending & es & rx' & [-> Ht _] & [Hwf' Hq] & _). cbn [peers] in Ht.
    split; [done|]. intros Hf Hl. rewrite Ht, dr_reads_app, map_app.
    cbn [dr_reads flat_map MIS DR Z.eqb app]. cbn [self] in Hq.
    set (q := if truthy (Z.land pending ERROR_IRQ) then lossy else queue_of rx) in *.
    destruct (queue_data_intact (dr_reads es) q) as [Hgap Hwait].
    { rewrite <- Hq. exact Hl. }
    rewrite Hq, Hwait. subst q. destruct (truthy (Z.land pending ERROR_IRQ)); [done|].
    rewrite app_assoc. f_equal. by apply Hin.
  - pose proof (serial_call_run reg_read reg_write
      {| self := rx; peers := w; mr := load (m_words m) (residue m) |} ch m (residue m) Hwf Hu eq_refl) as H.
    apply wp_run in H. unfold serve.
    destruct (serial_protected _ _ _ _ _) as [st' i]. cbn [fst snd] in H.
    destruct H as (Hwf' & es & Ht & Ha). cbn [peers self] in *.
    unfold serial_answer in Ha. destruct (negb (ch =? TERMINAL_CHANNEL)).
    { destruct Ha as (Hq & -> & ->). eapply intact_quiet; eauto. }
    destruct (_ && _).
    { destruct Ha as (flags & byte & Hq & -> & ->).
      split; [done|]. rewrite data_replies_snoc, Ht, dr_reads_app.
      cbn [data_replies flat_map m_label m_words app]. rewrite Z.eqb_refl. cbn [app].
      intros Hf Hl. rewrite forallb_app in Hf. apply andb_true_iff in Hf as [Hf Ho].
      cbn [forallb] in Ho. rewrite andb_true_r in Ho. apply negb_true_iff in Ho.
      destruct (queue_take_intact _ _ _ Hq Ho) as [Hgap Hw]. rewrite given_app, <- app_assoc, <- Hw.
      rewrite (Hin Hf Hgap) || rewrite <- (Hin Hf Hgap). destruct (negb _); by rewrite app_nil_r. }
    destruct (writable m).
    + destruct Ha as (sent & _ & Hq & -> & _ & Hr & _). eapply intact_quiet; eauto.
    + destruct Ha as (Hq & -> & ->). eapply intact_quiet; eauto.
Qed.

Lemma driver_boot_intact d rest : intact (driver_boot d rest).
Proof. split; [split_and!; cbn; unfold TCS_SERIAL_CAPACITY; lia || done|done]. Qed.

Lemma driver_run_intact d rest es :
  Forall event_u64 es -> intact (exec driver_step (driver_boot d rest) es).
Proof.
  intros Hes. apply (exec_invariant _ event_u64); [|done|apply driver_boot_intact].
  intros s e. apply intact_step.
Qed.
End Runs.

(** ** What a caller relies on *)

(** A peer that serves the serial protocol on its channel [ch], as long as the
    system is [ok]. *)
Class serial_channel {W} (call : W -> Z -> message -> W * message) (ch : Z) (ok : W -> Prop) := {
  serial_reads w :
    ok w ->
    exists w' flags byte,
      call w ch {| m_label := TCS_LABEL TCS_SERIAL_READ; m_words := [] |} =
        (w', {| m_label := TCS_SERIAL_DATA; m_words := [flags; byte] |}) /\
      ok w' /\ 0 <= flags <= 3 /\ u8 byte /\ (Z.testbit flags 0 = false -> byte = 0);
  serial_writes w bytes :
    ok w -> Forall u8 bytes -> (1 <= length bytes <= TCS_SERIAL_CHUNK)%nat ->
    exists w' sent,
      call w ch {| m_label := TCS_LABEL TCS_SERIAL_WRITE; m_words := bytes |} =
        (w', reply_message (result TCS_OK (Z.of_nat sent))) /\
      ok w' /\ (sent <= length bytes)%nat }.

Section Channel.
Context {D : Type} (reg_read : D -> Z -> D * Z) (reg_write : D -> Z -> Z -> D)
  (residue : message -> regs).

(** The driver as its terminal sees it. *)
Definition serial_call (s : tcs_serial_rx * uart_world D) (ch : Z) (m : message)
    : tcs_serial_rx * uart_world D * message :=
  let '(rx, w) := s in serve residue (serial_protected reg_read reg_write) rx w ch m.

(** The bytes that wait are bytes. *)
Definition serial_ok (s : tcs_serial_rx * uart_world D) : Prop :=
  rx_wf (fst s) /\ Forall u8 (waiting (queue_of (fst s))).

Lemma serial_call_answer s ch m :
  rx_wf (fst s) -> Forall u64 (m_words m) ->
  let '(s', reply) := serial_call s ch m in
  rx_wf (fst s') /\ exists es,
    trace (snd s') = trace (snd s) ++ es /\
    serial_answer (queue_of (fst s)) ch m (queue_of (fst s')) es reply.
Proof.
  destruct s as [rx w]. intros Hwf Hu. unfold serial_call, serve.
  pose proof (serial_call_run reg_read reg_write
    {| self := rx; peers := w; mr := load (m_words m) (residue m) |} ch m (residue m) Hwf Hu eq_refl) as H.
  unfold wp in H. unfold info in H. by destruct (serial_protected _ _ _ _ _) as [st' i].
Qed.

Lemma queue_take_bytes q q' flags byte :
  queue_take q = (q', (flags, byte)) -> Forall u8 (waiting q) ->
  Forall u8 (waiting q') /\ 0 <= flags <= 3 /\ u8 byte /\ (Z.testbit flags 0 = false -> byte = 0).
Proof.
  unfold queue_take. destruct q as [[|b ws] g]; intros [= <- <- <-] Hb; cbn [waiting gap] in *.
  - destruct g; unfold TCS_SERIAL_LOSS, u8, UINT8_MAX; split_and!; lia || done.
  - apply List.Forall_cons_iff in Hb as [Hb Hws]. destruct g; split_and!; done.
Qed.

#[export] Instance serial_call_channel : serial_channel serial_call TERMINAL_CHANNEL serial_ok.
Proof.
  split.
  - intros s [Hwf Hb].
    pose proof (serial_call_answer s TERMINAL_CHANNEL
      {| m_label := TCS_LABEL TCS_SERIAL_READ; m_words := [] |} Hwf (List.Forall_nil _)) as H.
    destruct (serial_call _ _ _) as [s' reply]. destruct H as (Hwf' & es & _ & Ha).
    destruct Ha as (flags & byte & Hq & _ & ->).
    destruct (queue_take_bytes _ _ _ _ Hq Hb) as (Hb' & Hrest).
    by exists s', flags, byte.
  - intros s bytes [Hwf Hb] Hbytes Hlen.
    pose proof (serial_call_answer s TERMINAL_CHANNEL
      {| m_label := TCS_LABEL TCS_SERIAL_WRITE; m_words := bytes |} Hwf) as H.
    assert (Hu : Forall u64 bytes).
    { eapply List.Forall_impl; [|exact Hbytes]. intros. word_lia. }
    specialize (H Hu). destruct (serial_call _ _ _) as [s' reply].
    destruct H as (Hwf' & es & _ & Ha).
    assert (Hw : writable {| m_label := TCS_LABEL TCS_SERIAL_WRITE; m_words := bytes |} = true)
      by by apply chunk_writable.
    unfold serial_answer in Ha. rewrite Hw in Ha. cbn [TERMINAL_CHANNEL Z.eqb negb] in Ha.
    replace ((_ =? _) && _) with false in Ha by done.
    destruct Ha as (sent & Hsent & Hq & -> & _). exists s', sent. split; [done|].
    split; [|exact Hsent]. split; [done|]. by rewrite Hq.
Qed.
End Channel.

(** ** Properties *)

(** C38. An interrupt is served in bounded work and loses nothing silently: for
    every device, the driver reads data bytes until the receiver reports empty
    or 64 were read, does at most 199 register accesses and signals in all, and
    leaves in its ring exactly those bytes, after those that waited, with a gap
    marked for every error the hardware flagged; it tells the terminal whenever
    there is something to fetch or space to send again, and always acknowledges
    the interrupt, last. *)
Theorem interrupt_drains {D} (reg_read : D -> Z -> D * Z) (reg_write : D -> Z -> Z -> D) st :
  rx_wf (self st) ->
  interrupt_handled st (fst (serial_notified reg_read reg_write UART_IRQ_CHANNEL st)).
Proof.
  intros Hwf. pose proof (interrupt_run reg_read reg_write st Hwf) as H. by apply wp_run in H.
Qed.

(** Every protected call of the driver is answered as promised: only the
    terminal's channel is served; a READ hands over the oldest waiting byte with
    the loss mark; a WRITE of 1 to 32 bytes sends exactly a prefix of them in
    order, stopping early only when the transmitter reports full, answers how
    many, and asks for the transmit interrupt exactly when it stopped early; any
    other message touches neither the device nor the ring. *)
Theorem serial_serves {D} (reg_read : D -> Z -> D * Z) (reg_write : D -> Z -> Z -> D) residue s ch m :
  rx_wf (fst s) -> Forall u64 (m_words m) ->
  let '(s', reply) := serial_call reg_read reg_write residue s ch m in
  rx_wf (fst s') /\ exists es,
    trace (snd s') = trace (snd s) ++ es /\
    serial_answer (queue_of (fst s)) ch m (queue_of (fst s')) es reply.
Proof. apply serial_call_answer. Qed.

(** No byte is lost silently between the wire and the terminal: from boot,
    over any interrupts, notifications and calls in any order and for every
    device, if no reply carried the LOSS mark and none is left to report, the
    bytes read from the device are exactly those handed to the terminal, in
    order, followed by those that still wait in the ring. *)
Theorem input_reaches_terminal {D} (reg_read : D -> Z -> D * Z) (reg_write : D -> Z -> Z -> D)
    residue d rest es :
  Forall event_u64 es ->
  let '(rx, w, replies) := exec (driver_step reg_read reg_write residue) (driver_boot reg_write d rest) es in
  forallb (fun o => negb (flagged o)) (data_replies replies) = true -> lost rx = false ->
  map wrap8 (dr_reads (trace w)) = given (data_replies replies) ++ waiting (queue_of rx).
Proof.
  intros Hes. pose proof (driver_run_intact reg_read reg_write residue d rest es Hes) as H.
  destruct (exec _ _ es) as [[rx w] replies]. apply H.
Qed.

(** ** Witnesses *)

(** A device with input to deliver, whose transmitter is full after [n] words. *)
Definition example_read (d : list Z * nat) (offset : Z) : list Z * nat * Z :=
  let '(input, room) := d in
  if offset =? DR then (tail input, room, hd 0 input)
  else if offset =? FR then
    (input, room, Z.lor (if decide (input = []) then RX_EMPTY else 0) (if (room =? 0)%nat then TX_FULL else 0))
  else (input, room, 0).
Definition example_write (d : list Z * nat) (offset v : Z) : list Z * nat :=
  if offset =? DR then (fst d, pred (snd d)) else d.

Definition example_rest : regs := fun _ => 0.
Definition example_boot : tcs_serial_rx * uart_world (list Z * nat) * list message :=
  driver_boot example_write ([104; 105], 2%nat) example_rest.

Lemma interrupt_drains_witness :
  interrupt_handled
    {| self := serial_zero; peers := snd (fst example_boot); mr := example_rest |}
    (fst (serial_notified example_read example_write UART_IRQ_CHANNEL
            {| self := serial_zero; peers := snd (fst example_boot); mr := example_rest |})).
Proof.
  apply (interrupt_drains example_read example_write).
  split_and!; cbn; unfold TCS_SERIAL_CAPACITY; lia || done.
Defined.

Definition example_send : message :=
  {| m_label := TCS_LABEL TCS_SERIAL_WRITE; m_words := [111; 107; 33] |}.

Lemma serial_serves_witness :
  let '(s', reply) := serial_call example_read example_write (fun _ => example_rest)
                        (fst example_boot) TERMINAL_CHANNEL example_send in
  rx_wf (fst s') /\ exists es,
    trace (snd s') = trace (snd (fst example_boot)) ++ es /\
    serial_answer (queue_of (fst (fst example_boot))) TERMINAL_CHANNEL example_send
      (queue_of (fst s')) es reply.
Proof.
  apply (serial_serves example_read example_write).
  - split_and!; cbn; unfold TCS_SERIAL_CAPACITY; lia || done.
  - repeat constructor; done.
Defined.

Definition example_events : list driver_event :=
  [Notified UART_IRQ_CHANNEL example_rest;
   Protected TERMINAL_CHANNEL {| m_label := TCS_LABEL TCS_SERIAL_READ; m_words := [] |}].

Definition example_run : tcs_serial_rx * uart_world (list Z * nat) * list message :=
  exec (driver_step example_read example_write (fun _ => example_rest))
    (driver_boot example_write ([104; 105], 2%nat) example_rest) example_events.

Lemma input_reaches_terminal_witness :
  given (data_replies (snd example_run)) = [104] /\
  let '(rx, w, replies) := example_run in
  map wrap8 (dr_reads (trace w)) = given (data_replies replies) ++ waiting (queue_of rx).
Proof.
  split; [vm_compute; reflexivity|].
  assert (Hes : Forall event_u64 example_events) by (repeat constructor).
  assert (Hf : forallb (fun o => negb (flagged o)) (data_replies (snd example_run)) = true)
    by (vm_compute; reflexivity).
  assert (Hl : lost (fst (fst example_run)) = false) by (vm_compute; reflexivity).
  assert (H : let '(rx, w, replies) := example_run in
    forallb (fun o => negb (flagged o)) (data_replies replies) = true -> lost rx = false ->
    map wrap8 (dr_reads (trace w)) = given (data_replies replies) ++ waiting (queue_of rx))
    by exact (input_reaches_terminal example_read example_write (fun _ => example_rest)
                ([104; 105], 2%nat) example_rest example_events Hes).
  revert H Hf Hl. generalize example_run. intros [[rx w] replies] H Hf Hl. by apply H.
Defined.
