(* ===== verification/TerminalServer.v ===== *)
(** The terminal domain: [servers/terminal.c], with the names of its build
    ([include/tcs/build_profile.h], [include/tcs/launch_profile.h]).

    One activation alternates between sending what is displayed, handling the
    event of the last byte typed and fetching the next byte. The domain is a
    program over its static variables; its peers (the serial driver on channel 0,
    the client on channel 1, the administrator on channel 2) are parameters. *)

From S2P Require Import Prelude Bytes Policy Admin Receipt Terminal SignedInput Serial Ipc Wp AdminIpc SerialServer.
Import String.StringSyntax.
#[local] Open Scope string_scope.
#[local] Open Scope Z_scope.

(** ** The build *)

Inductive build_profile := HOST_TEST | RELEASE_PROFILE | DEBUG_PROFILE.

Definition TCS_PROFILE_NAME (p : build_profile) : list Z :=
  codes match p with
        | HOST_TEST => "host-test"
        | RELEASE_PROFILE => "release-kernel"
        | DEBUG_PROFILE => "debug-kernel"
        end.

(** The launch mode is 0 or 1 in every build. *)
Definition TCS_LAUNCH_NAME (mode : bool) : list Z :=
  codes (if mode then "PUBLIC-FIXTURE-ONLY" else "experimental-operator").

(** [TCS_SIGNED_INPUT] with its launch mode, or the read-only build. *)
Record build := { profile : build_profile; signed_input_mode : option bool }.
Definition TCS_SIGNED_INPUT (b : build) : bool :=
  match signed_input_mode b with Some _ => true | None => false end.

(** ** State *)

Definition SERIAL_CHANNEL : Z := 0.
Definition CLIENT_CHANNEL : Z := 1.
Definition ADMIN_CHANNEL : Z := 2.
Definition OUTPUT_SIZE : nat := 256.

Record terminal := {
  line : tcs_line;
  pending_event : tcs_line_event;
  output : list Z;
  output_length : nat;
  output_sent : nat;
  failed : bool;
  signed_input : tcs_signed_input;
  packet_mode : bool
}.

Definition terminal_start : terminal :=
  {| line := line_zero; pending_event := TCS_LINE_NONE; output := replicate OUTPUT_SIZE 0;
     output_length := 0; output_sent := 0; failed := false; signed_input := signed_zero;
     packet_mode := false |}.

Definition set_line (l : tcs_line) (s : terminal) : terminal :=
  {| line := l; pending_event := pending_event s; output := output s;
     output_length := output_length s; output_sent := output_sent s; failed := failed s;
     signed_input := signed_input s; packet_mode := packet_mode s |}.
Definition set_event (e : tcs_line_event) (s : terminal) : terminal :=
  {| line := line s; pending_event := e; output := output s;
     output_length := output_length s; output_sent := output_sent s; failed := failed s;
     signed_input := signed_input s; packet_mode := packet_mode s |}.
Definition set_output (out : list Z) (n sent : nat) (s : terminal) : terminal :=
  {| line := line s; pending_event := pending_event s; output := out;
     output_length := n; output_sent := sent; failed := failed s;
     signed_input := signed_input s; packet_mode := packet_mode s |}.
Definition set_failed (s : terminal) : terminal :=
  {| line := line s; pending_event := pending_event s; output := output s;
     output_length := output_length s; output_sent := output_sent s; failed := true;
     signed_input := signed_input s; packet_mode := packet_mode s |}.
Definition set_packet (i : tcs_signed_input) (mode : bool) (s : terminal) : terminal :=
  {| line := line s; pending_event := pending_event s; output := output s;
     output_length := output_length s; output_sent := output_sent s; failed := failed s;
     signed_input := i; packet_mode := mode |}.

(** ** Output *)

(** The characters up to the terminator that still fit: the buffer, its length
    and the text left. The end of the list stands for the terminator too. *)
Fixpoint append_loop (text : list Z) (out : list Z) (n : nat) : list Z * nat * list Z :=
  match text with
  | [] => (out, n, [])
  | c :: rest =>
      if truthy c && (n <? OUTPUT_SIZE)%nat then append_loop rest (<[n := c]> out) (S n)
      else (out, n, text)
  end.

Definition append (text : list Z) (s : terminal) : terminal :=
  let '(out, n, rest) := append_loop text (output s) (output_length s) in
  let s := set_output out n (output_sent s) s in
  match rest with
  | c :: _ => if truthy c then set_failed s else s
  | [] => s
  end.

(** [do { digits[length++] = '0' + value % 10; value /= 10; } while (value)]:
    least significant first; [fuel] is the size of [digits]. *)
Fixpoint digit_loop (fuel : nat) (value : Z) : list Z :=
  match fuel with
  | O => []
  | S fuel =>
      let rest := value / 10 in
      (48 + value mod 10) :: (if truthy rest then digit_loop fuel rest else [])
  end.

(** [while (length) append(digits[--length])]. *)
Fixpoint emit_digits (digits : list Z) (length : nat) (s : terminal) : terminal :=
  match length with
  | O => s
  | S length => emit_digits digits length (append [digits !!! length; 0] s)
  end.

Definition decimal (value : Z) (s : terminal) : terminal :=
  let digits := digit_loop 21 value in emit_digits digits (length digits) s.

Definition crlf : list Z := [13; 10].

Definition append_string (text : String.string) : terminal -> terminal :=
  append (codes text ++ [0]).

(** ** Programs *)

Section Programs.
Context {W : Type} (call : W -> Z -> message -> W * message) (residue : message -> regs)
  (config : build).
#[local] Abbreviation prog := (prog terminal W).
#[local] Abbreviation microkit_ppcall := (microkit_ppcall call residue).

Definition modify (f : terminal -> terminal) : prog unit := let* s := get in put (f s).

Definition flush : prog bool :=
  let* s := get in
  if (output_sent s =? output_length s)%nat then ret true
  else
  let count := (output_length s - output_sent s)%nat in
  let count := if (TCS_SERIAL_CHUNK <? count)%nat then TCS_SERIAL_CHUNK else count in
  do* loop 0 count (fun i => microkit_mr_set i (output s !!! (output_sent s + i)%nat)) in
  let* msg := microkit_ppcall SERIAL_CHANNEL (info (TCS_LABEL TCS_SERIAL_WRITE) count) in
  let* reply := tcs_response msg in
  if negb (status reply =? TCS_OK) || (Z.of_nat count <? value reply) then
    do* modify set_failed in ret false
  else
  let sent := (output_sent s + Z.to_nat (value reply))%nat in
  if (sent =? output_length s)%nat then
    do* modify (set_output (output s) 0 0) in ret true
  else do* modify (set_output (output s) (output_length s) sent) in ret false.

(** [line.bytes] spells [submit]. *)
Definition submit_match (l : tcs_line) : bool :=
  (line_length l =? 6)%nat &&
  forallb (fun i => bytes l !!! i =? codes "submit" !!! i) (seq 0 6).

Definition help_text : list Z :=
  codes (if TCS_SIGNED_INPUT config
         then "help | version | status | read <generation> | submit"
         else "help | version | status | read <generation>") ++ crlf ++
  codes (if TCS_SIGNED_INPUT config
         then "Signed packets only; no plaintext administration."
         else "No administration commands.") ++ crlf.

Definition version_text : list Z :=
  codes "TCS 0.2-dev / " ++ TCS_PROFILE_NAME (profile config) ++
  match signed_input_mode config with
  | Some mode => codes " / " ++ TCS_LAUNCH_NAME mode ++ codes " signed terminal"
  | None => codes " / read-only terminal"
  end ++ crlf.

Definition state_name (state : Z) : list Z :=
  codes (if state =? tcs_state_val TCS_ACTIVE then "active" else if state =? tcs_state_val TCS_QUARANTINED then "quarantined" else "restricted").

Definition execute : prog unit :=
  let* s := get in
  if TCS_SIGNED_INPUT config && submit_match (line s) then
    do* modify (set_packet (tcs_signed_begin (signed_input s) (previous_cr (line s))) true) in
    modify (append (codes "Enter exactly 384 lowercase hex digits; Enter submits, Ctrl-C cancels." ++
                    crlf ++ codes "packet> " ++ [0]))
  else
  let cmd := tcs_command_parse (Some (bytes (line s))) (line_length (line s)) in
  do* match c_kind cmd with
      | TCS_CMD_EMPTY => ret tt
      | TCS_CMD_HELP => modify (append (help_text ++ [0]))
      | TCS_CMD_VERSION => modify (append (version_text ++ [0]))
      | TCS_CMD_STATUS =>
          let* msg := microkit_ppcall CLIENT_CHANNEL (info (TCS_LABEL TCS_CLIENT_STATUS) 0) in
          let* n := tcs_snapshot_response msg in
          do* (if n_status n =? TCS_OK then
                 do* modify (append_string "SELF state=") in
                 do* modify (append (state_name (n_state n) ++ [0])) in
                 do* modify (append_string " generation=") in
                 do* modify (decimal (n_generation n)) in
                 do* modify (append_string " object=") in
                 do* modify (decimal (n_object n)) in
                 do* modify (append_string " rights=") in
                 modify (decimal (n_rights n))
               else
                 do* modify (append_string "STATUS UNAVAILABLE status=") in
                 modify (decimal (n_status n))) in
          modify (append (crlf ++ [0]))
      | TCS_CMD_READ =>
          do* microkit_mr_set 0 TCS_OBJECT in
          do* microkit_mr_set 1 TCS_READ in
          do* microkit_mr_set 2 (c_generation cmd) in
          let* msg := microkit_ppcall CLIENT_CHANNEL (info (TCS_LABEL TCS_CLIENT_READ) 3) in
          let* r := tcs_response msg in
          do* (if status r =? TCS_OK then
                 do* modify (append_string "READ OK value=") in
                 modify (decimal (value r))
               else
                 do* modify (append_string "READ DENIED status=") in
                 modify (decimal (status r))) in
          modify (append (crlf ++ [0]))
      | TCS_CMD_INVALID =>
          modify (append (codes "ERROR unknown or malformed command" ++ crlf ++ [0]))
      end in
  modify (append_string "tcs> ").

(** The signed build only. *)
Definition finish_packet (ev : tcs_line_event) : prog unit :=
  let* s := get in
  do* match ev with
      | TCS_LINE_READY =>
          let packet := s_packet (signed_input s) in
          let command := tcs_signed_command packet in
          do* tcs_words_from_bytes packet PACKET_BYTES in
          let* reply := microkit_ppcall ADMIN_CHANNEL (info TCS_ADMIN_SUBMIT 24) in
          let* decoded := tcs_admin_receipt_decode reply in
          let '(ok, receipt) := decoded in
          if ok && tcs_admin_receipt_valid command receipt then
            do* modify (append_string "ADMIN seq=") in
            do* modify (decimal (c_sequence (rc_command receipt))) in
            do* modify (append_string " decision=") in
            do* modify (decimal (rc_decision receipt)) in
            do* modify (append_string " audit=") in
            do* modify (decimal (rc_audit_ok receipt)) in
            do* modify (append_string " applied=") in
            do* modify (decimal (rc_applied receipt)) in
            do* modify (append_string " state=") in
            do* modify (decimal (n_state (rc_post receipt))) in
            do* modify (append_string " generation=") in
            do* modify (decimal (n_generation (rc_post receipt))) in
            modify (append (crlf ++ [0]))
          else
          let* w := microkit_mr_get 0 in
          if (i_label reply =? TCS_ADMIN_ADMISSION) && (i_count reply =? 1)%nat &&
             (tcs_admin_status_val TCS_ADMIN_ACCEPTED <? w) &&
             (w <=? tcs_admin_status_val TCS_ADMIN_BAD_COMPLETION)
          then
            if w =? tcs_admin_status_val TCS_ADMIN_BAD_COMPLETION then
              modify (append (codes "ADMIN UNCERTAIN; do not retry or advance sequence" ++ crlf ++ [0]))
            else
              do* modify (append_string "ADMIN REJECTED status=") in
              do* modify (decimal w) in
              modify (append (crlf ++ [0]))
          else
            modify (append (codes "ADMIN UNAVAILABLE; do not retry an uncertain request" ++ crlf ++ [0]))
      | TCS_LINE_CANCELLED => modify (append (codes "CANCELLED" ++ crlf ++ [0]))
      | _ => modify (append (codes "ERROR discarded signed packet" ++ crlf ++ [0]))
      end in
  do* modify (fun s => set_line (set_cr line_zero (s_previous_cr (signed_input s))) s) in
  do* modify (fun s => set_packet (tcs_signed_discard (signed_input s)) false s) in
  modify (append_string "tcs> ").

(** The body of the loop for the event of the last byte. *)
Definition handle_event (ev : tcs_line_event) : prog unit :=
  let* s := get in
  if TCS_SIGNED_INPUT config && packet_mode s then finish_packet ev
  else
    match ev with
    | TCS_LINE_READY => execute
    | TCS_LINE_REJECTED =>
        modify (append (codes "ERROR discarded input line" ++ crlf ++ codes "tcs> " ++ [0]))
    | TCS_LINE_CANCELLED => modify (append (codes "CANCELLED" ++ crlf ++ codes "tcs> " ++ [0]))
    | TCS_LINE_NONE => ret tt
    end.

(** Bytes were lost before this one. *)
Definition input_lost (s : terminal) : terminal :=
  let s := if TCS_SIGNED_INPUT config && packet_mode s
           then set_packet (tcs_signed_discard (signed_input s)) (packet_mode s) s else s in
  let s := set_line (tcs_line_discard (line s)) s in
  append (crlf ++ codes "INPUT LOST; discard until Enter or Ctrl-C" ++ crlf ++ [0]) s.

(** One byte typed: its echo is displayed and its event remembered. *)
Definition input_byte (byte : Z) (s : terminal) : terminal :=
  let '(s, feedback) :=
    if TCS_SIGNED_INPUT config && packet_mode s then
      let '(i, feedback) := tcs_signed_feed (signed_input s) byte in
      (set_packet i (packet_mode s) s, feedback)
    else
      let '(l, feedback) := tcs_terminal_input (line s) byte in (set_line l s, feedback) in
  set_event (event feedback) (append (echo feedback) s).

(** The loop of [service], [n] steps left: whether it fell through to the code
    after the loop, or returned. *)
Fixpoint service_loop (n : nat) : prog bool :=
  match n with
  | O => ret true
  | S n =>
      let* s := get in
      if failed s then ret true
      else
      let* flushed := flush in
      if negb flushed then ret false
      else
      let* s := get in
      if negb (bool_decide (pending_event s = TCS_LINE_NONE)) then
        do* modify (set_event TCS_LINE_NONE) in
        do* handle_event (pending_event s) in
        service_loop n
      else
      let* msg := microkit_ppcall SERIAL_CHANNEL (info (TCS_LABEL TCS_SERIAL_READ) 0) in
      if negb (i_label msg =? TCS_SERIAL_DATA) || negb (i_count msg =? 2)%nat then
        do* modify set_failed in ret true
      else
      let* flags := microkit_mr_get 0 in
      let* byte := microkit_mr_get 1 in
      if (Z.lor TCS_SERIAL_BYTE TCS_SERIAL_LOSS <? flags) || (UINT8_MAX <? byte) ||
         (negb (truthy (Z.land flags TCS_SERIAL_BYTE)) && truthy byte)
      then do* modify set_failed in ret true
      else
      do* when (truthy (Z.land flags TCS_SERIAL_LOSS)) (modify input_lost) in
      if negb (truthy (Z.land flags TCS_SERIAL_BYTE)) then
        do* flush in ret false
      else
        do* modify (input_byte byte) in
        service_loop n
  end.

Definition service : prog unit :=
  let* fell := service_loop 32 in
  if fell then
    let* s := get in
    if negb (failed s) then do* flush in ret tt else ret tt
  else ret tt.

Definition banner : list Z :=
  match signed_input_mode config with
  | Some mode =>
      codes "TCS SIGNED TERMINAL READY (" ++ TCS_PROFILE_NAME (profile config) ++ codes ", " ++
      TCS_LAUNCH_NAME mode ++ codes ")"
  | None => codes "TCS TERMINAL READY (" ++ TCS_PROFILE_NAME (profile config) ++ codes ", read-only)"
  end ++ crlf ++ codes "tcs> ".

Definition terminal_init : prog unit := do* modify (append (banner ++ [0])) in service.

Definition terminal_notified (ch : Z) : prog unit :=
  if ch =? SERIAL_CHANNEL then service else ret tt.

Definition terminal_protected (ch : Z) (msg : msginfo) : prog msginfo :=
  tcs_reply (result TCS_DENIED 0).
End Programs.
