(* ===== verification/TerminalSession.v ===== *)
(** What the terminal domain does for its user: an abstract session, driven by
    the bytes typed and the answers received, and the proof that
    [servers/terminal.c] implements it over any peers. *)

From S2P Require Import Prelude Bytes Policy Admin Receipt Terminal SignedInput Serial Ipc Wp AdminIpc SerialServer TerminalServer.
Import String.StringSyntax.
#[local] Open Scope string_scope.
#[local] Open Scope Z_scope.

(** ** The output buffer *)

(** Characters of a string: bytes other than the terminator. *)
Definition no_nul (text : list Z) : Prop := Forall (fun c => 1 <= c <= UINT8_MAX) text.

Lemma no_nul_app t1 t2 : no_nul (t1 ++ t2) <-> no_nul t1 /\ no_nul t2.
Proof. apply List.Forall_app. Qed.

Lemma append_loop_app t1 t2 out n :
  no_nul t1 ->
  append_loop (t1 ++ t2) out n =
  let '(out1, n1, rest) := append_loop t1 out n in
  match rest with [] => append_loop t2 out1 n1 | _ => (out1, n1, rest ++ t2) end.
Proof.
  revert out n. induction t1 as [|c t1 IH]; intros out n Ht; cbn [append_loop app]; [done|].
  apply List.Forall_cons_iff in Ht as [Hc Ht]. destruct (_ && _); [by apply IH|done].
Qed.

(** Text that does not fit leaves the buffer full. *)
Lemma append_loop_full t out n :
  no_nul t ->
  let '(_, n', rest) := append_loop t out n in rest <> [] -> (OUTPUT_SIZE <= n')%nat.
Proof.
  revert out n. induction t as [|c t IH]; intros out n Ht; cbn [append_loop]; [done|].
  apply List.Forall_cons_iff in Ht as [Hc Ht].
  replace (truthy c) with true by (symmetry; unfold truthy; lia).
  destruct (n <? OUTPUT_SIZE)%nat eqn:Hn; cbn [andb]; [by apply IH|]. intros _. by apply Nat.ltb_ge.
Qed.

Lemma append_norm t more s :
  no_nul t ->
  append (t ++ 0 :: more) s =
  let '(out, n, rest) := append_loop t (output s) (output_length s) in
  (if rest is [] then fun s => s else set_failed) (set_output out n (output_sent s) s).
Proof.
  intros Ht. unfold append. rewrite append_loop_app by done.
  destruct (append_loop t _ _) as [[out n] rest] eqn:E.
  destruct rest as [|c rest]; [done|]. cbn [app].
  enough (Hc : 1 <= c) by by replace (truthy c) with true by (symmetry; unfold truthy; lia).
  revert E. generalize (output s) (output_length s). induction t as [|c' t IH]; intros o m; [done|].
  apply List.Forall_cons_iff in Ht as [Hc' Ht]. cbn [append_loop].
  destruct (_ && _); [by apply IH|]. intros [= _ _ -> _]. lia.
Qed.

(** Appending twice appends the whole, whatever fits. *)
Lemma append_append t1 t2 s :
  no_nul t1 -> no_nul t2 ->
  append (t2 ++ [0]) (append (t1 ++ [0]) s) = append ((t1 ++ t2) ++ [0]) s.
Proof.
  intros H1 H2. rewrite !append_norm by (try apply no_nul_app; done).
  rewrite append_loop_app by done.
  pose proof (append_loop_full t1 (output s) (output_length s) H1) as Hfull.
  destruct (append_loop t1 _ _) as [[out n] [|c rest]] eqn:E1; [done|].
  cbn [output output_length set_output set_failed]. specialize (Hfull ltac:(done)).
  destruct t2 as [|c2 t2]; [done|]. cbn [append_loop].
  rewrite (proj2 (Nat.ltb_ge _ _)), andb_false_r by done. done.
Qed.

Lemma append_nil s : append [0] s = s.
Proof. by destruct s. Qed.

(** What an append that fits does. *)
Lemma append_loop_fits t out n :
  no_nul t -> length out = OUTPUT_SIZE -> (n + length t <= OUTPUT_SIZE)%nat ->
  append_loop t out n = (take n out ++ t ++ drop (n + length t) out, (n + length t)%nat, []).
Proof.
  revert out n. induction t as [|c t IH]; intros out n Ht Hlen Hn; cbn [append_loop length] in *.
  - rewrite Nat.add_0_r, app_nil_l, take_drop. done.
  - apply List.Forall_cons_iff in Ht as [Hc Ht].
    replace (truthy c) with true by (symmetry; unfold truthy; lia).
    rewrite (proj2 (Nat.ltb_lt _ _)) by lia. cbn [andb].
    rewrite IH by (rewrite ?length_insert; done || lia).
    assert (Htake : take (S n) (<[n := c]> out) = take n out ++ [c]).
    { rewrite (take_S_r _ _ c) by (apply list_lookup_insert_eq; lia). by rewrite take_insert_ge. }
    rewrite Htake, drop_insert_lt by lia. rewrite <- app_assoc. cbn [app].
    by replace (n + S (length t))%nat with (S n + length t)%nat by lia.
Qed.

(** Text waiting to be sent. *)
Definition buffered (s : terminal) : list Z :=
  take (output_length s - output_sent s) (drop (output_sent s) (output s)).

(** ** Numbers *)

(** A number as it is displayed. *)
Definition decimal_text (value : Z) : list Z := rev (digit_loop 21 value).

Lemma digit_range v : is_digit (48 + v mod 10).
Proof. unfold is_digit. pose proof (Z.mod_pos_bound v 10). lia. Qed.

Lemma digit_loop_digits fuel v : Forall is_digit (digit_loop fuel v).
Proof.
  revert v. induction fuel as [|fuel IH]; intros v; cbn [digit_loop]; constructor;
    [apply digit_range|]. by destruct (truthy _).
Qed.

Lemma digit_loop_length fuel v : (length (digit_loop fuel v) <= fuel)%nat.
Proof.
  revert v. induction fuel as [|fuel IH]; intros v; cbn [digit_loop length]; [lia|].
  specialize (IH (v / 10)). destruct (truthy _); cbn [length]; lia.
Qed.

Lemma digits_no_nul l : Forall is_digit l -> no_nul l.
Proof. apply List.Forall_impl. unfold is_digit, UINT8_MAX. lia. Qed.

Lemma emit_digits_append digits k s :
  Forall is_digit digits -> (k <= length digits)%nat ->
  emit_digits digits k s = append (rev (take k digits) ++ [0]) s.
Proof.
  intros Hd. revert s. induction k as [|k IH]; intros s Hk; cbn [emit_digits].
  - by rewrite append_nil.
  - destruct (lookup_lt_is_Some_2 digits k) as [c Hc]; [lia|].
    rewrite (take_S_r _ _ c) by done. rewrite rev_app_distr. cbn [rev app].
    rewrite (list_lookup_total_correct _ _ _ Hc).
    rewrite IH by lia. change [c; 0] with ([c] ++ [0]).
    assert (Hdc : is_digit c).
    { eapply Forall_lookup_1; [exact Hd|done]. }
    rewrite append_append; [done| |].
    + apply digits_no_nul. by apply List.Forall_cons.
    + apply digits_no_nul, List.Forall_rev. by apply Forall_take.
Qed.

Lemma decimal_append v s : decimal v s = append (decimal_text v ++ [0]) s.
Proof.
  unfold TerminalServer.decimal. rewrite emit_digits_append by (apply digit_loop_digits || lia).
  by rewrite firstn_all.
Qed.

Lemma decimal_text_digits v : Forall is_digit (decimal_text v).
Proof. apply List.Forall_rev, digit_loop_digits. Qed.

Lemma decimal_text_length v : (length (decimal_text v) <= 21)%nat.
Proof. unfold decimal_text. rewrite length_rev. apply digit_loop_length. Qed.

(** The digits spell the number, when there are enough of them. *)
Lemma digit_loop_value fuel v :
  0 <= v < 10 ^ Z.of_nat fuel -> Terminal.decimal (rev (digit_loop fuel v)) = v.
Proof.
  unfold Terminal.decimal. revert v. induction fuel as [|fuel IH]; intros v Hv.
  { cbn in *. lia. }
  rewrite Nat2Z.inj_succ, Z.pow_succ_r in Hv by lia. cbn [digit_loop rev].
  pose proof (Z.div_mod v 10 ltac:(lia)) as Hdm. rewrite foldl_app. cbn [foldl].
  destruct (truthy (v / 10)) eqn:Hq.
  - rewrite IH; [lia|]. split; [apply Z.div_pos; lia|]. apply Z.div_lt_upper_bound; lia.
  - unfold truthy in Hq. apply negb_false_iff, Z.eqb_eq in Hq. cbn [rev foldl]. lia.
Qed.

(** ** Texts *)

Create HintDb no_nul discriminated.

Lemma no_nul_check t : forallb (fun c => (1 <=? c) && (c <=? UINT8_MAX)) t = true -> no_nul t.
Proof.
  intros Ht. apply List.Forall_forall. intros c Hc. rewrite forallb_forall in Ht.
  specialize (Ht c Hc). lia.
Qed.

Lemma no_nul_join t1 t2 : no_nul t1 -> no_nul t2 -> no_nul (t1 ++ t2).
Proof. intros. by apply no_nul_app. Qed.

Lemma no_nul_decimal v : no_nul (decimal_text v).
Proof. apply digits_no_nul, decimal_text_digits. Qed.

#[export] Hint Resolve no_nul_join no_nul_decimal : no_nul.
#[export] Hint Extern 1 (no_nul (codes _)) => apply no_nul_check; vm_compute; reflexivity : no_nul.
#[export] Hint Extern 1 (no_nul crlf) => apply no_nul_check; vm_compute; reflexivity : no_nul.

Definition prompt : list Z := codes "tcs> ".

Lemma no_nul_prompt : no_nul prompt.
Proof. unfold prompt. auto with no_nul. Qed.

Lemma no_nul_state_name v : no_nul (state_name v).
Proof. unfold state_name. repeat case_match; auto with no_nul. Qed.

Lemma no_nul_help config : no_nul (help_text config).
Proof. unfold help_text. destruct (TCS_SIGNED_INPUT config); auto 10 with no_nul. Qed.

Lemma no_nul_version config : no_nul (version_text config).
Proof.
  unfold version_text, TCS_PROFILE_NAME, TCS_LAUNCH_NAME.
  destruct (profile config), (signed_input_mode config) as [[]|]; auto 12 with no_nul.
Qed.

Lemma no_nul_banner config : no_nul (banner config).
Proof.
  unfold banner, TCS_PROFILE_NAME, TCS_LAUNCH_NAME.
  destruct (profile config), (signed_input_mode config) as [[]|]; auto 12 with no_nul.
Qed.

#[export] Hint Resolve no_nul_prompt no_nul_state_name no_nul_help no_nul_version no_nul_banner : no_nul.

(** ** The session *)

(** What the domain knows of its user. *)
Record core := { k_line : tcs_line; k_input : tcs_signed_input; k_packet : bool }.

Definition core_of (s : terminal) : core :=
  {| k_line := line s; k_input := signed_input s; k_packet := packet_mode s |}.

Definition set_core (k : core) (s : terminal) : terminal :=
  set_line (k_line k) (set_packet (k_input k) (k_packet k) s).

Lemma append_set_core t k s : append t (set_core k s) = set_core k (append t s).
Proof. unfold append. cbn. destruct (append_loop _ _ _) as [[out n] [|c rest]]; [done|by destruct (truthy c)]. Qed.

Lemma append_core t s :
  signed_input (append t s) = signed_input s /\ line (append t s) = line s /\
  packet_mode (append t s) = packet_mode s /\ pending_event (append t s) = pending_event s /\
  output_sent (append t s) = output_sent s.
Proof. unfold append. destruct (append_loop _ _ _) as [[out n] [|c rest]]; [done|by destruct (truthy c)]. Qed.

(** A request sent, and what its answer is for. *)
Inductive wait := AwaitStatus | AwaitRead | AwaitReceipt (c : tcs_admin_command).

(** The reaction to the event of a byte: a text at once, or a request whose
    answer is displayed. *)
Inductive reaction :=
| Say (k : core) (text : list Z)
| Ask (k : core) (ch : Z) (m : message) (w : wait).

Definition status_text (m : message) : list Z :=
  let n := snapshot_response m in
  if n_status n =? TCS_OK then
    codes "SELF state=" ++ state_name (n_state n) ++
    codes " generation=" ++ decimal_text (n_generation n) ++
    codes " object=" ++ decimal_text (n_object n) ++
    codes " rights=" ++ decimal_text (n_rights n) ++ crlf
  else codes "STATUS UNAVAILABLE status=" ++ decimal_text (n_status n) ++ crlf.

Definition read_text (m : message) : list Z :=
  let r := response m in
  if status r =? TCS_OK then codes "READ OK value=" ++ decimal_text (value r) ++ crlf
  else codes "READ DENIED status=" ++ decimal_text (status r) ++ crlf.

Definition receipt_text (r : tcs_admin_receipt) : list Z :=
  codes "ADMIN seq=" ++ decimal_text (c_sequence (rc_command r)) ++
  codes " decision=" ++ decimal_text (rc_decision r) ++
  codes " audit=" ++ decimal_text (rc_audit_ok r) ++
  codes " applied=" ++ decimal_text (rc_applied r) ++
  codes " state=" ++ decimal_text (n_state (rc_post r)) ++
  codes " generation=" ++ decimal_text (n_generation (rc_post r)) ++ crlf.

(** The refusal a message carries, if it is one. *)
Definition refusal_word (m : message) : option Z :=
  if m_label m =? TCS_ADMIN_ADMISSION then
    match m_words m with
    | [w] => if (tcs_admin_status_val TCS_ADMIN_ACCEPTED <? w) &&
                (w <=? tcs_admin_status_val TCS_ADMIN_BAD_COMPLETION) then Some w else None
    | _ => None
    end
  else None.

Lemma refusal_word_eq m rest :
  let w := load (m_words m) rest 0%nat in
  refusal_word m =
  if (m_label m =? TCS_ADMIN_ADMISSION) && (length (m_words m) =? 1)%nat &&
     (tcs_admin_status_val TCS_ADMIN_ACCEPTED <? w) &&
     (w <=? tcs_admin_status_val TCS_ADMIN_BAD_COMPLETION)
  then Some w else None.
Proof.
  unfold refusal_word. destruct (m_label m =? TCS_ADMIN_ADMISSION); [|done].
  by destruct (m_words m) as [|w [|]].
Qed.

Definition submission_text (c : tcs_admin_command) (m : message) : list Z :=
  let '(ok, r) := message_receipt m in
  if ok && tcs_admin_receipt_valid c r then receipt_text r
  else
    match refusal_word m with
    | Some w =>
        if w =? tcs_admin_status_val TCS_ADMIN_BAD_COMPLETION then
          codes "ADMIN UNCERTAIN; do not retry or advance sequence" ++ crlf
        else codes "ADMIN REJECTED status=" ++ decimal_text w ++ crlf
    | None => codes "ADMIN UNAVAILABLE; do not retry an uncertain request" ++ crlf
    end.

Definition answer_text (w : wait) (m : message) : list Z :=
  match w with
  | AwaitStatus => status_text m
  | AwaitRead => read_text m
  | AwaitReceipt c => submission_text c m
  end ++ prompt.

Section Session.
Context (config : build).

Definition status_message : message :=
  {| m_label := TCS_LABEL TCS_CLIENT_STATUS; m_words := [] |}.
Definition read_message (generation : Z) : message :=
  {| m_label := TCS_LABEL TCS_CLIENT_READ; m_words := [TCS_OBJECT; TCS_READ; generation] |}.

(** A line was entered. *)
Definition line_reaction (k : core) : reaction :=
  let l := k_line k in
  if TCS_SIGNED_INPUT config && submit_match l then
    Say {| k_line := l; k_input := tcs_signed_begin (k_input k) (previous_cr l); k_packet := true |}
      (codes "Enter exactly 384 lowercase hex digits; Enter submits, Ctrl-C cancels." ++ crlf ++
       codes "packet> ")
  else
    let cmd := tcs_command_parse (Some (bytes l)) (line_length l) in
    match c_kind cmd with
    | TCS_CMD_EMPTY => Say k prompt
    | TCS_CMD_HELP => Say k (help_text config ++ prompt)
    | TCS_CMD_VERSION => Say k (version_text config ++ prompt)
    | TCS_CMD_STATUS => Ask k CLIENT_CHANNEL status_message AwaitStatus
    | TCS_CMD_READ => Ask k CLIENT_CHANNEL (read_message (c_generation cmd)) AwaitRead
    | TCS_CMD_INVALID => Say k (codes "ERROR unknown or malformed command" ++ crlf ++ prompt)
    end.

(** The line editor again, after a packet. *)
Definition leave_packet (k : core) : core :=
  {| k_line := set_cr line_zero (s_previous_cr (k_input k));
     k_input := tcs_signed_discard (k_input k); k_packet := false |}.

Definition packet_reaction (ev : tcs_line_event) (k : core) : reaction :=
  match ev with
  | TCS_LINE_READY =>
      let packet := s_packet (k_input k) in
      Ask (leave_packet k) ADMIN_CHANNEL (submit_message packet) (AwaitReceipt (tcs_signed_command packet))
  | TCS_LINE_CANCELLED => Say (leave_packet k) (codes "CANCELLED" ++ crlf ++ prompt)
  | _ => Say (leave_packet k) (codes "ERROR discarded signed packet" ++ crlf ++ prompt)
  end.

Definition react (ev : tcs_line_event) (k : core) : reaction :=
  if TCS_SIGNED_INPUT config && k_packet k then packet_reaction ev k
  else
    match ev with
    | TCS_LINE_READY => line_reaction k
    | TCS_LINE_REJECTED => Say k (codes "ERROR discarded input line" ++ crlf ++ prompt)
    | TCS_LINE_CANCELLED => Say k (codes "CANCELLED" ++ crlf ++ prompt)
    | TCS_LINE_NONE => Say k []
    end.
End Session.

(** ** The handlers *)

Section Handlers.
Context {W : Type} (call : W -> Z -> message -> W * message) (residue : message -> regs)
  (config : build).
Implicit Types st : pd terminal W.

Lemma wp_modify f st (Q : unit -> pd terminal W -> Prop) :
  Q tt {| self := f (self st); peers := peers st; mr := mr st |} -> wp (modify f) st Q.
Proof. done. Qed.

(** A program that only displays [text]. *)
Definition displays (m : prog terminal W unit) (text : list Z) : Prop :=
  no_nul text /\
  forall st, m st = ({| self := append (text ++ [0]) (self st); peers := peers st; mr := mr st |}, tt).

Lemma displays_append text : no_nul text -> displays (modify (append (text ++ [0]))) text.
Proof. done. Qed.

Lemma displays_string text : no_nul (codes text) -> displays (modify (append_string text)) (codes text).
Proof. done. Qed.

Lemma displays_decimal v : displays (modify (decimal v)) (decimal_text v).
Proof. split; [apply no_nul_decimal|]. intros st. unfold modify. by run_prog; rewrite decimal_append. Qed.

Lemma displays_bind m n t1 t2 :
  displays m t1 -> displays n t2 -> displays (do* m in n) (t1 ++ t2).
Proof.
  intros [H1 Hm] [H2 Hn]. split; [by apply no_nul_join|]. intros st. unfold bind.
  rewrite Hm, Hn. cbn [self peers mr]. by rewrite append_append.
Qed.

Lemma displays_assoc (m n k : prog terminal W unit) t :
  displays (do* m in do* n in k) t -> displays (do* (do* m in n) in k) t.
Proof. intros [Ht Hm]. split; [done|]. intros st. rewrite bind_assoc. apply Hm. Qed.

Lemma wp_displays m text st (Q : unit -> pd terminal W -> Prop) :
  displays m text ->
  Q tt {| self := append (text ++ [0]) (self st); peers := peers st; mr := mr st |} -> wp m st Q.
Proof. intros [_ Hm] HQ. unfold wp. by rewrite Hm. Qed.

(** Something displayed, then the prompt. *)
Lemma wp_prompt m text st (Q : unit -> pd terminal W -> Prop) :
  displays m text ->
  Q tt {| self := append ((text ++ prompt) ++ [0]) (self st); peers := peers st; mr := mr st |} ->
  wp m st (fun _ st' => wp (modify (append_string "tcs> ")) st' Q).
Proof.
  intros Hd HQ. eapply wp_displays; [exact Hd|]. apply wp_modify. cbn [self peers mr].
  unfold append_string. fold prompt. rewrite append_append; [done|apply Hd|auto with no_nul].
Qed.

Lemma wp_response m rest st Q :
  mr st = load (m_words m) rest -> Q (response m) st ->
  wp (tcs_response {| i_label := m_label m; i_count := length (m_words m) |}) st Q.
Proof. intros Hr HQ. unfold wp. by rewrite (tcs_response_run st m rest Hr). Qed.

Lemma wp_snapshot m rest st Q :
  mr st = load (m_words m) rest -> Q (snapshot_response m) st ->
  wp (tcs_snapshot_response {| i_label := m_label m; i_count := length (m_words m) |}) st Q.
Proof. intros Hr HQ. unfold wp. by rewrite (tcs_snapshot_response_run st m rest Hr). Qed.

Lemma set_core_of s : set_core (core_of s) s = s.
Proof. by destruct s. Qed.

#[local] Ltac show := first [apply displays_append | apply displays_string | apply displays_decimal];
  auto with no_nul.
#[local] Ltac shows :=
  repeat lazymatch goal with
  | |- displays (bind (bind _ _) _) _ => apply displays_assoc
  | |- displays (bind _ _) _ => apply displays_bind; [show|]
  | |- displays _ _ => show
  end.

(** A request and its answer, [k] being the state they leave. *)
Definition reacted st (r : reaction) st' : Prop :=
  match r with
  | Say k text => self st' = append (text ++ [0]) (set_core k (self st)) /\ peers st' = peers st
  | Ask k ch m w =>
      let '(w', reply) := call (peers st) ch m in
      self st' = append (answer_text w reply ++ [0]) (set_core k (self st)) /\ peers st' = w'
  end.

Lemma execute_run st :
  wp (execute call residue config) st (fun _ st' => reacted st (line_reaction config (core_of (self st))) st').
Proof.
  unfold execute, line_reaction. wp_step. wp_step. cbn [core_of k_line k_input k_packet].
  destruct (_ && _).
  { wp_step. apply wp_modify. apply wp_modify. cbn [self peers mr reacted].
    rewrite <- !app_assoc. done. }
  wp_step. set (cmd := tcs_command_parse _ _). destruct (c_kind cmd).
  - apply wp_ret, (wp_displays _ prompt); [show|]. cbn [reacted]. by rewrite set_core_of.
  - apply (wp_prompt _ (help_text config)); [show|]. cbn [reacted]. by rewrite set_core_of.
  - apply (wp_prompt _ (version_text config)); [show|]. cbn [reacted]. by rewrite set_core_of.
  - wp_step. apply wp_ppcall. cbn [info i_count store seq map i_label reacted].
    fold status_message. destruct (call (peers st) _ _) as [w' reply].
    wp_step. eapply (wp_snapshot reply); [reflexivity|].
    apply (wp_prompt _ (status_text reply)); [|by rewrite set_core_of].
    unfold status_text. destruct (_ =? _); shows.
  - wp_step. wp_step. wp_step. wp_step. wp_step. wp_step. wp_step.
    apply wp_ppcall. cbn [info i_count i_label reacted peers mr self].
    change (store _ 3) with [TCS_OBJECT; TCS_READ; c_generation cmd].
    fold (read_message (c_generation cmd)). destruct (call (peers st) _ _) as [w' reply].
    wp_step. eapply (wp_response reply); [reflexivity|].
    apply (wp_prompt _ (read_text reply)); [|by rewrite set_core_of].
    unfold read_text. destruct (_ =? _); shows.
  - rewrite app_assoc. apply (wp_prompt _ (codes "ERROR unknown or malformed command" ++ crlf)); [show|].
    cbn [reacted]. by rewrite set_core_of, <- !app_assoc.
Qed.

(** Something displayed, then the line editor again. *)
Lemma wp_leave m text st (Q : unit -> pd terminal W -> Prop) :
  displays m text ->
  Q tt {| self := append ((text ++ prompt) ++ [0]) (set_core (leave_packet (core_of (self st))) (self st));
          peers := peers st; mr := mr st |} ->
  wp m st (fun _ st' =>
    wp (do* modify (fun s => set_line (set_cr line_zero (s_previous_cr (signed_input s))) s) in
        do* modify (fun s => set_packet (tcs_signed_discard (signed_input s)) false s) in
        modify (append_string "tcs> ")) st' Q).
Proof.
  intros Hd HQ. eapply wp_displays; [exact Hd|]. wp_step. apply wp_modify. wp_step.
  apply wp_modify, wp_modify. cbn [self peers mr].
  rewrite <- append_append in HQ; [|apply Hd|auto with no_nul].
  rewrite append_set_core in HQ. destruct (append_core (text ++ [0]) (self st)) as [Hi _].
  unfold append_string. fold prompt. cbn [signed_input set_line]. rewrite Hi.
  unfold set_core, leave_packet, core_of in HQ. cbn in HQ. exact HQ.
Qed.

Lemma finish_packet_run st ev :
  length (s_packet (signed_input (self st))) = PACKET_BYTES ->
  wp (finish_packet call residue ev) st (fun _ st' => reacted st (packet_reaction ev (core_of (self st))) st').
Proof.
  intros Hp. unfold finish_packet. wp_step. wp_step. wp_step.
  destruct ev; cbn [packet_reaction core_of k_input reacted].
  1,3,4: rewrite app_assoc; eapply wp_leave; [show|]; cbn [self peers]; by rewrite <- app_assoc.
  wp_step. destruct (words_from_bytes_run st (s_packet (signed_input (self st)))) as (r & Hrun & Hr).
  rewrite Hp in Hrun. unfold wp at 1. rewrite Hrun. wp_step. apply wp_ppcall.
  cbn [info i_count i_label peers mr with_mr]. rewrite Hp in Hr. change (PACKET_BYTES / 8)%nat with 24%nat in Hr.
  rewrite Hr. fold (submit_message (s_packet (signed_input (self st)))).
  destruct (call (peers st) _ _) as [w' reply]. wp_step.
  unfold wp at 1. erewrite (receipt_decode_run _ reply); [|reflexivity].
  unfold answer_text, submission_text.
  pose proof (refusal_word_eq reply (residue reply)) as Href. cbv zeta in Href.
  destruct (message_receipt reply) as [ok receipt]. destruct (ok && _).
  { apply (wp_leave _ (receipt_text receipt)); [unfold receipt_text; shows|].
    cbn [self peers with_mr]. split; reflexivity. }
  wp_step. wp_step. cbn [mr]. rewrite Href. set (w := load _ _ 0%nat).
  destruct (_ && _ && _ && _); [destruct (_ =? _)|].
  1,3: rewrite (app_assoc _ crlf [0]).
  all: eapply wp_leave; [shows|]; cbn [self peers with_mr]; split; reflexivity.
Qed.

Lemma handle_event_run st ev :
  length (s_packet (signed_input (self st))) = PACKET_BYTES ->
  wp (handle_event call residue config ev) st
    (fun _ st' => reacted st (react config ev (core_of (self st))) st').
Proof.
  intros Hp. unfold handle_event, react. wp_step. wp_step. cbn [core_of k_packet].
  destruct (_ && _); [by apply finish_packet_run|].
  destruct ev; cbn [reacted].
  - apply wp_ret. by rewrite set_core_of, append_nil.
  - apply execute_run.
  - apply (wp_displays _ (codes "ERROR discarded input line" ++ crlf ++ prompt));
      [apply displays_append; auto with no_nul|]. by rewrite set_core_of.
  - apply (wp_displays _ (codes "CANCELLED" ++ crlf ++ prompt));
      [apply displays_append; auto with no_nul|]. by rewrite set_core_of.
Qed.
End Handlers.
