(* ===== verification/TerminalRun.v ===== *)
(** Runs of the terminal domain: over any peers, what it sends to the serial
    driver, asks of the client and the administrator and displays is what the
    abstract session of [TerminalSession] makes of the bytes typed and the
    answers received. *)

From S2P Require Import Prelude Bytes Policy Admin Receipt Terminal SignedInput Serial Ipc Wp AdminIpc SerialServer TerminalServer TerminalSession.
Import String.StringSyntax.
#[local] Open Scope string_scope.
#[local] Open Scope Z_scope.

(** ** What the domain exchanged *)

Record exchange := { x_channel : Z; x_request : message; x_reply : message }.

(** Peers that remember the calls of the domain. *)
Definition logged {W} (call : W -> Z -> message -> W * message)
    (w : W * list exchange) (ch : Z) (m : message) : W * list exchange * message :=
  let '(w', reply) := call (fst w) ch m in
  (w', snd w ++ [{| x_channel := ch; x_request := m; x_reply := reply |}], reply).

Definition is_write (x : exchange) : bool :=
  (x_channel x =? SERIAL_CHANNEL) && (m_label (x_request x) =? TCS_LABEL TCS_SERIAL_WRITE).
Definition is_read (x : exchange) : bool :=
  (x_channel x =? SERIAL_CHANNEL) && (m_label (x_request x) =? TCS_LABEL TCS_SERIAL_READ).

(** The driver took [value] of the bytes offered. *)
Definition taken_ok (x : exchange) : bool :=
  let r := response (x_reply x) in
  (status r =? TCS_OK) && (value r <=? Z.of_nat (length (m_words (x_request x)))).

(** The bytes the driver took for the wire. *)
Definition taken (x : exchange) : list Z :=
  if is_write x && taken_ok x
  then take (Z.to_nat (value (response (x_reply x)))) (m_words (x_request x)) else [].

(** The input a reply carries: whether bytes were lost, and the next byte. *)
Definition typed_of (m : message) : option (bool * option Z) :=
  if m_label m =? TCS_SERIAL_DATA then
    match m_words m with
    | [flags; byte] =>
        if (3 <? flags) || (UINT8_MAX <? byte) || (negb (truthy (Z.land flags TCS_SERIAL_BYTE)) && truthy byte)
        then None
        else Some (truthy (Z.land flags TCS_SERIAL_LOSS),
                   if truthy (Z.land flags TCS_SERIAL_BYTE) then Some byte else None)
    | _ => None
    end
  else None.

(** The driver broke its protocol. *)
Definition malformed (x : exchange) : bool :=
  is_write x && negb (taken_ok x) ||
  is_read x && match typed_of (x_reply x) with Some _ => false | None => true end.

(** What was asked of the other domains. *)
Definition asked (x : exchange) : list (Z * message) :=
  if x_channel x =? SERIAL_CHANNEL then [] else [(x_channel x, x_request x)].

(** ** The session over exchanges *)

Definition lost_text : list Z :=
  crlf ++ codes "INPUT LOST; discard until Enter or Ctrl-C" ++ crlf.

Section Session.
Context (config : build).

Definition lose (k : core) : core :=
  {| k_line := tcs_line_discard (k_line k);
     k_input := if TCS_SIGNED_INPUT config && k_packet k then tcs_signed_discard (k_input k)
                else k_input k;
     k_packet := k_packet k |}.

Definition type_byte (byte : Z) (k : core) : core * tcs_line_feedback :=
  if TCS_SIGNED_INPUT config && k_packet k then
    let '(i, fb) := tcs_signed_feed (k_input k) byte in
    ({| k_line := k_line k; k_input := i; k_packet := k_packet k |}, fb)
  else
    let '(l, fb) := tcs_terminal_input (k_line k) byte in
    ({| k_line := l; k_input := k_input k; k_packet := k_packet k |}, fb).

(** What the user typed at, what was asked on their behalf, what they were
    shown, and the answer still awaited. *)
Record session := {
  v_core : core; v_asked : list (Z * message); v_text : list Z; v_waiting : option wait }.

Definition start_core : core :=
  {| k_line := line_zero; k_input := signed_zero; k_packet := false |}.
Definition session_start : session :=
  {| v_core := start_core; v_asked := []; v_text := banner config; v_waiting := None |}.

Definition v_react (ev : tcs_line_event) (v : session) : session :=
  match react config ev (v_core v) with
  | Say k text => {| v_core := k; v_asked := v_asked v; v_text := v_text v ++ text; v_waiting := None |}
  | Ask k ch m w =>
      {| v_core := k; v_asked := v_asked v ++ [(ch, m)]; v_text := v_text v; v_waiting := Some w |}
  end.

(** The event of a byte takes effect at once. *)
Definition settle (ev : tcs_line_event) (v : session) : session :=
  if bool_decide (ev = TCS_LINE_NONE) then v else v_react ev v.

Definition v_typed (loss : bool) (byte : option Z) (v : session) : session :=
  let k := if loss then lose (v_core v) else v_core v in
  let text := v_text v ++ (if loss then lost_text else []) in
  match byte with
  | None => {| v_core := k; v_asked := v_asked v; v_text := text; v_waiting := v_waiting v |}
  | Some b =>
      let '(k, fb) := type_byte b k in
      settle (event fb)
        {| v_core := k; v_asked := v_asked v; v_text := text ++ c_string (echo fb);
           v_waiting := v_waiting v |}
  end.

Definition v_answer (m : message) (v : session) : session :=
  match v_waiting v with
  | Some w =>
      {| v_core := v_core v; v_asked := v_asked v; v_text := v_text v ++ answer_text w m;
         v_waiting := None |}
  | None => v
  end.

Definition v_step (v : session) (x : exchange) : session :=
  if x_channel x =? SERIAL_CHANNEL then
    if is_read x then
      match typed_of (x_reply x) with Some (loss, byte) => v_typed loss byte v | None => v end
    else v
  else v_answer (x_reply x) v.

(** The session after the exchanges of the domain. *)
Definition session_of (log : list exchange) : session := foldl v_step session_start log.
End Session.

(** ** Bounds *)

(** Constant texts and numbers, added up. *)
Ltac text_bound :=
  rewrite ?length_app;
  repeat match goal with
  | |- context [length (decimal_text ?v)] =>
      let H := fresh in pose proof (decimal_text_length v) as H;
      generalize dependent (length (decimal_text v)); intros
  end;
  repeat match goal with
  | |- context [length (codes ?t)] =>
      let n := eval vm_compute in (length (codes t)) in change (length (codes t)) with n
  | |- context [length crlf] => change (length crlf) with 2%nat
  | |- context [length prompt] => change (length prompt) with 5%nat
  end; lia.

Lemma state_name_length v : (length (state_name v) <= 11)%nat.
Proof. unfold state_name. repeat case_match; vm_compute; lia. Qed.

Lemma status_text_ok m : no_nul (status_text m) /\ (length (status_text m) <= 200)%nat.
Proof.
  unfold status_text. pose proof (state_name_length (n_state (snapshot_response m))).
  destruct (_ =? _); split; auto 10 with no_nul; text_bound.
Qed.

Lemma read_text_ok m : no_nul (read_text m) /\ (length (read_text m) <= 200)%nat.
Proof. unfold read_text. destruct (_ =? _); split; auto 10 with no_nul; text_bound. Qed.

Lemma submission_text_ok c m : no_nul (submission_text c m) /\ (length (submission_text c m) <= 200)%nat.
Proof.
  unfold submission_text, receipt_text. destruct (message_receipt m) as [ok r].
  repeat case_match; split; auto 20 with no_nul; text_bound.
Qed.

Lemma answer_text_ok w m : no_nul (answer_text w m) /\ (length (answer_text w m) <= OUTPUT_SIZE)%nat.
Proof.
  unfold answer_text.
  destruct w as [| |c]; [destruct (status_text_ok m)|destruct (read_text_ok m)|
    destruct (submission_text_ok c m)]; (split; [auto with no_nul|]);
    rewrite length_app; change (length prompt) with 5%nat; unfold OUTPUT_SIZE; lia.
Qed.

(** ** Well-formed cores *)

Definition core_wf (k : core) : Prop :=
  line_wf (k_line k) /\ length (s_packet (k_input k)) = PACKET_BYTES /\ byte_list (s_packet (k_input k)).

Lemma zero_packet_ok : length (replicate PACKET_BYTES 0) = PACKET_BYTES /\ byte_list (replicate PACKET_BYTES 0).
Proof. split; [apply length_replicate|]. apply Forall_replicate. word_lia. Qed.

Lemma start_core_wf : core_wf start_core.
Proof. split; [apply line_zero_wf|apply zero_packet_ok]. Qed.

Lemma leave_packet_wf k : core_wf k -> core_wf (leave_packet k).
Proof. intros _. split; [apply line_zero_wf|apply zero_packet_ok]. Qed.

Lemma lose_wf config k : core_wf k -> core_wf (lose config k).
Proof.
  intros (Hl & Hp & Hb). split; [by apply (reset_line_wf (k_line k))|]. cbn [lose k_input].
  destruct (_ && _); [apply zero_packet_ok|done].
Qed.

(** The C string in an array that holds a terminator. *)
Lemma c_string_split l :
  In 0 l -> Forall u8 l ->
  exists more, l = c_string l ++ 0 :: more /\ no_nul (c_string l) /\ (length (c_string l) <= length l)%nat.
Proof.
  induction l as [|c l IH]; intros Hin Hl; [done|]. apply List.Forall_cons_iff in Hl as [Hc Hl].
  cbn [c_string]. destruct (c =? 0) eqn:H0.
  - apply Z.eqb_eq in H0 as ->. exists l. split_and!; [done|constructor|cbn; lia].
  - destruct Hin as [->|Hin]; [done|]. destruct (IH Hin Hl) as (more & E & Hn & Hlen).
    exists more. cbn [app length]. rewrite <- E. split_and!; [done| |lia].
    apply List.Forall_cons; [word_lia|done].
Qed.

(** What a byte displays. *)
Definition echo_ok (fb : tcs_line_feedback) : Prop :=
  exists more, echo fb = c_string (echo fb) ++ 0 :: more /\ no_nul (c_string (echo fb)) /\
    (length (c_string (echo fb)) <= 5)%nat.

Lemma echo_of_ok ev stored :
  Forall u8 stored -> (length stored <= 4)%nat -> echo_ok {| event := ev; echo := echo_of stored |}.
Proof.
  intros Hs Hl. unfold echo_ok. cbn [echo].
  assert (Hlen : length (echo_of stored) = 5%nat).
  { unfold echo_of. rewrite length_app, length_replicate. lia. }
  rewrite <- Hlen. apply c_string_split.
  - unfold echo_of. apply in_or_app. right. destruct (5 - length stored)%nat eqn:E; [lia|by left].
  - apply Forall_app_2; [done|]. apply Forall_replicate. word_lia.
Qed.

Lemma terminal_input_ok l byte :
  line_wf l -> u8 byte ->
  line_wf (fst (tcs_terminal_input l byte)) /\ echo_ok (snd (tcs_terminal_input l byte)).
Proof.
  intros Hl Hb. unfold tcs_terminal_input.
  pose proof (proj1 (line_feed_refines l byte Hl Hb)) as Hwf.
  destruct (tcs_line_feed l byte) as [l' ev]. cbn [fst snd] in *. split; [done|].
  repeat case_match; apply echo_of_ok; cbn [length]; try lia; repeat constructor; done || word_lia.
Qed.

Lemma signed_feed_ok i byte :
  length (s_packet i) = PACKET_BYTES -> byte_list (s_packet i) -> u8 byte ->
  let '(i', fb) := tcs_signed_feed i byte in
  length (s_packet i') = PACKET_BYTES /\ byte_list (s_packet i') /\ echo_ok fb.
Proof.
  intros Hp Hbl Hb. destruct zero_packet_ok as [Hz Hzb]. unfold tcs_signed_feed.
  repeat case_match; inv_pair; cbn [s_packet s_complete s_set_cr tcs_signed_discard signed_zero];
    rewrite ?length_insert; (split; [done|split]);
    try (apply echo_of_ok; cbn [length]; [repeat constructor; done || word_lia|lia]); try done.
  all: apply Forall_insert; [done|]; apply wrap8_range.
Qed.

Lemma type_byte_ok config byte k :
  core_wf k -> u8 byte ->
  core_wf (fst (type_byte config byte k)) /\ echo_ok (snd (type_byte config byte k)).
Proof.
  intros (Hl & Hp & Hbl) Hb. unfold type_byte. destruct (_ && _).
  - pose proof (signed_feed_ok _ _ Hp Hbl Hb) as H. destruct (tcs_signed_feed _ _) as [i fb].
    cbn [fst snd]. destruct H as (? & ? & ?). done.
  - pose proof (terminal_input_ok _ _ Hl Hb) as [H1 H2]. by destruct (tcs_terminal_input _ _) as [l fb].
Qed.

(** ** Requests *)

(** Everything the domain may ever say to another one. *)
Definition terminal_request (config : build) (ch : Z) (m : message) : Prop :=
  (ch = SERIAL_CHANNEL /\ m = {| m_label := TCS_LABEL TCS_SERIAL_READ; m_words := [] |}) \/
  (ch = SERIAL_CHANNEL /\ m_label m = TCS_LABEL TCS_SERIAL_WRITE /\
   (1 <= length (m_words m) <= TCS_SERIAL_CHUNK)%nat /\ Forall u8 (m_words m)) \/
  (ch = CLIENT_CHANNEL /\ m = status_message) \/
  (ch = CLIENT_CHANNEL /\ exists g, u64 g /\ m = read_message g) \/
  (ch = ADMIN_CHANNEL /\ TCS_SIGNED_INPUT config = true /\
   exists packet, byte_list packet /\ length packet = PACKET_BYTES /\ m = submit_message packet).

Lemma decimal_loop_u64 ds g v : u64 g -> decimal_loop ds g = Some v -> u64 v.
Proof.
  revert g. induction ds as [|b ds IH]; intros g Hg; cbn [decimal_loop]; [by intros [= <-]|].
  destruct (_ || _); [done|]. destruct (_ <? _); [done|]. apply IH, wrap64_range.
Qed.

Lemma parse_generation_u64 text n : u64 (c_generation (tcs_command_parse text n)).
Proof.
  assert (H0 : u64 0) by word_lia.
  assert (Hif : forall (b : bool) x y, u64 (c_generation x) -> u64 (c_generation y) ->
    u64 (c_generation (if b then x else y))) by by intros [].
  unfold tcs_command_parse. cbv zeta. repeat (apply Hif; try exact H0).
  destruct (decimal_loop _ 0) as [g|] eqn:Hg; [|exact H0]. apply Hif; [exact H0|].
  by apply decimal_loop_u64 in Hg.
Qed.

Lemma config_texts config :
  (length (help_text config) <= 150)%nat /\ (length (version_text config) <= 150)%nat /\
  (length (banner config) <= 150)%nat.
Proof.
  unfold help_text, version_text, banner, TCS_PROFILE_NAME, TCS_LAUNCH_NAME, TCS_SIGNED_INPUT.
  destruct (profile config), (signed_input_mode config) as [[]|]; vm_compute; lia.
Qed.

Lemma react_ok config ev k :
  core_wf k ->
  match react config ev k with
  | Say k' text => core_wf k' /\ no_nul text /\ (length text <= OUTPUT_SIZE)%nat
  | Ask k' ch m w => core_wf k' /\ ch <> SERIAL_CHANNEL /\ terminal_request config ch m
  end.
Proof.
  intros Hk. pose proof Hk as (Hl & Hp & Hb). unfold react.
  assert (Hsay : forall k' text, core_wf k' -> no_nul text -> (length text <= 200)%nat ->
    core_wf k' /\ no_nul text /\ (length text <= OUTPUT_SIZE)%nat).
  { intros. split_and!; [done|done|]. unfold OUTPUT_SIZE. lia. }
  destruct (_ && _) eqn:Hmode.
  - apply andb_true_iff in Hmode as [Hsigned _].
    destruct ev; cbn [packet_reaction]; try (apply Hsay; [by apply leave_packet_wf|auto with no_nul|text_bound]).
    split; [by apply leave_packet_wf|]. split; [done|]. do 4 right. eauto 6.
  - destruct ev; try (apply Hsay; [done|auto with no_nul|text_bound]).
    { apply Hsay; [done|constructor|cbn; lia]. }
    clear Hmode. unfold line_reaction. destruct (_ && _).
    { apply Hsay; [|auto with no_nul|text_bound]. split; [done|apply zero_packet_ok]. }
    set (cmd := tcs_command_parse _ _).
    destruct (config_texts config) as (Hh & Hv & _).
    destruct (c_kind cmd);
      try (apply Hsay; [done|auto with no_nul|rewrite ?length_app in *; text_bound]).
    + split; [done|]. split; [done|]. right. right. by left.
    + split; [done|]. split; [done|]. right. right. right. left. split; [done|].
      eexists. split; [apply parse_generation_u64|done].
Qed.

(** ** The output buffer, emptied and filled *)

Definition output_wf (s : terminal) : Prop :=
  length (output s) = OUTPUT_SIZE /\ Forall u8 (output s) /\ (output_length s <= OUTPUT_SIZE)%nat /\
  ((output_sent s < output_length s)%nat \/ (output_sent s = 0%nat /\ output_length s = 0%nat)).

Lemma no_nul_u8 t : no_nul t -> Forall u8 t.
Proof. apply List.Forall_impl. intros. word_lia. Qed.

(** Text put in the empty buffer is what is waiting to be sent. *)
Lemma append_empty t more s :
  output_wf s -> output_length s = 0%nat -> no_nul t -> (length t <= OUTPUT_SIZE)%nat ->
  let s' := append (t ++ 0 :: more) s in
  output_wf s' /\ buffered s' = t /\ failed s' = failed s /\ core_of s' = core_of s /\
  pending_event s' = pending_event s.
Proof.
  intros (Hlen & Hu & _ & Hsent) Hn Ht Hfit s'. subst s'.
  assert (Hs : output_sent s = 0%nat) by lia.
  rewrite append_norm by done. rewrite Hn, append_loop_fits by (done || lia).
  cbn [plus take app]. unfold output_wf, buffered, core_of.
  cbn [output output_length output_sent failed line signed_input packet_mode pending_event set_output].
  rewrite take_0, app_nil_l, Hs, Nat.sub_0_r, drop_0, take_app_length. split_and!; try done.
  - rewrite length_app, length_drop. lia.
  - apply Forall_app_2; [by apply no_nul_u8|by apply Forall_drop].
  - destruct t; [right; done|left; cbn; lia].
Qed.

(** ** Input, on the session's core *)

Lemma append_more t more s : no_nul t -> append (t ++ 0 :: more) s = append (t ++ [0]) s.
Proof. intros Ht. by rewrite !append_norm. Qed.

Lemma set_core_set_core k k' s : set_core k' (set_core k s) = set_core k' s.
Proof. done. Qed.

Lemma core_of_set_core k s : core_of (set_core k s) = k.
Proof. by destruct k. Qed.

Lemma lost_text_ok : no_nul lost_text /\ (length lost_text <= 50)%nat.
Proof. unfold lost_text. split; [auto with no_nul|text_bound]. Qed.

Lemma input_lost_eq config s :
  input_lost config s = append (lost_text ++ [0]) (set_core (lose config (core_of s)) s).
Proof.
  unfold input_lost, lost_text. rewrite <- !app_assoc. unfold lose, core_of. cbn [k_packet k_input k_line].
  by destruct s; destruct (_ && _).
Qed.

Lemma input_byte_eq config b s :
  let '(k, fb) := type_byte config b (core_of s) in
  input_byte config b s = set_event (event fb) (append (echo fb) (set_core k s)).
Proof.
  unfold input_byte, type_byte, core_of. cbn [k_packet k_input k_line].
  destruct (_ && _).
  - destruct (tcs_signed_feed _ _) as [i fb]. done.
  - destruct (tcs_terminal_input _ _) as [l fb]. done.
Qed.

(** The state after an input: the bytes lost before it, and the byte. *)
Definition take_input (config : build) (loss : bool) (byte : option Z) (s : terminal) : terminal :=
  let s := if loss then input_lost config s else s in
  match byte with Some b => input_byte config b s | None => s end.

Definition loss_text (loss : bool) : list Z := if loss then lost_text else [].
Definition loss_core (config : build) (loss : bool) (k : core) : core :=
  if loss then lose config k else k.

Lemma loss_text_ok loss : no_nul (loss_text loss) /\ (length (loss_text loss) <= 50)%nat.
Proof. destruct loss; [apply lost_text_ok|]. split; [constructor|cbn; lia]. Qed.

Lemma loss_eq config (loss : bool) s :
  (if loss then input_lost config s else s) =
  append (loss_text loss ++ [0]) (set_core (loss_core config loss (core_of s)) s).
Proof.
  destruct loss; [apply input_lost_eq|]. cbn [loss_text loss_core app].
  by rewrite append_nil, set_core_of.
Qed.

Lemma take_input_eq config loss byte s :
  core_wf (core_of s) -> pending_event s = TCS_LINE_NONE -> (forall b, byte = Some b -> u8 b) ->
  exists k ev text,
    take_input config loss byte s = set_event ev (append (text ++ [0]) (set_core k s)) /\
    core_wf k /\ no_nul text /\ (length text <= OUTPUT_SIZE)%nat /\
    forall v, v_core v = core_of s -> v_waiting v = None ->
      v_typed config loss byte v =
      settle config ev {| v_core := k; v_asked := v_asked v; v_text := v_text v ++ text; v_waiting := None |}.
Proof.
  intros Hk Hp Hb. destruct (loss_text_ok loss) as [Ht Hlen].
  assert (Hk1 : core_wf (loss_core config loss (core_of s))) by (destruct loss; [by apply lose_wf|done]).
  unfold take_input. rewrite loss_eq. destruct byte as [b|].
  - pose proof (type_byte_ok config b _ Hk1 (Hb b eq_refl)) as [Hk2 Hecho].
    pose proof (input_byte_eq config b (append (loss_text loss ++ [0])
      (set_core (loss_core config loss (core_of s)) s))) as Hin.
    rewrite append_set_core, core_of_set_core in Hin.
    destruct (type_byte config b _) as [k fb] eqn:Htype. cbn [fst snd] in *.
    destruct Hecho as (more & Hmore & Hn & Hl).
    exists k, (event fb), (loss_text loss ++ c_string (echo fb)).
    rewrite append_set_core, Hin, set_core_set_core. split_and!; [|done|by apply no_nul_join| |].
    + set (c := c_string (echo fb)) in *. rewrite Hmore, append_more by done.
      by rewrite <- append_set_core, append_append.
    + rewrite length_app. unfold OUTPUT_SIZE. lia.
    + intros v Hv Hw. unfold v_typed. rewrite Hv. fold (loss_core config loss (core_of s)).
      rewrite Htype, Hw, <- app_assoc. by destruct loss.
  - exists (loss_core config loss (core_of s)), TCS_LINE_NONE, (loss_text loss).
    split_and!; [|done|done|unfold OUTPUT_SIZE; lia|].
    + set (s' := append _ _). assert (Hp' : pending_event s' = TCS_LINE_NONE).
      { subst s'. destruct (append_core (loss_text loss ++ [0]) (set_core (loss_core config loss (core_of s)) s))
          as (_ & _ & _ & -> & _). done. }
      destruct s'. cbn in *. by subst.
    + intros v Hv Hw. unfold v_typed. rewrite Hv, Hw. by destruct loss.
Qed.

(** ** The invariant *)

Section Invariant.
Context {W : Type} (call : W -> Z -> message -> W * message) (residue : message -> regs)
  (config : build).

(** What is assumed of the peers and of what was exchanged with them, and what
    it gives of each exchange. *)
Context (ok : W * list exchange -> Prop) (good : exchange -> Prop)
  (calls_good : forall w log ch m, ok (w, log) -> terminal_request config ch m ->
     let '(w', reply) := call w ch m in
     let x := {| x_channel := ch; x_request := m; x_reply := reply |} in
     ok (w', log ++ [x]) /\ good x)
  (good_u64 : forall x, good x -> Forall u64 (m_words (x_reply x))).
Implicit Types (s : terminal) (log : list exchange) (x : exchange)
  (st : pd terminal (W * list exchange)).

Lemma peer_call w ch m :
  ok w -> terminal_request config ch m ->
  let '(w', reply) := call (fst w) ch m in
  let x := {| x_channel := ch; x_request := m; x_reply := reply |} in
  ok (w', snd w ++ [x]) /\ good x.
Proof. destruct w. apply calls_good. Qed.

(** The session the state stands for, but for a pending event. *)
Definition base s log : session :=
  {| v_core := core_of s; v_asked := flat_map asked log;
     v_text := flat_map taken log ++ buffered s; v_waiting := None |}.

Record inv s log : Prop := {
  inv_output : output_wf s;
  inv_core : core_wf (core_of s);
  inv_failed : failed s = existsb malformed log;
  inv_log : Forall (fun x => terminal_request config (x_channel x) (x_request x) /\ good x) log;
  inv_session : session_of config log = settle config (pending_event s) (base s log) }.

Definition inv_st st : Prop := ok (peers st) /\ inv (self st) (snd (peers st)).

Lemma session_snoc log x : session_of config (log ++ [x]) = v_step config (session_of config log) x.
Proof. unfold session_of. by rewrite foldl_app. Qed.

Lemma flat_map_snoc {A B} (f : A -> list B) l a : flat_map f (l ++ [a]) = flat_map f l ++ f a.
Proof. rewrite flat_map_app. cbn. by rewrite app_nil_r. Qed.

Lemma is_read_write x : is_write x = true -> is_read x = false.
Proof. unfold is_write, is_read. destruct (_ =? SERIAL_CHANNEL); [|done]. cbn. intros ->%Z.eqb_eq. done. Qed.

(** An exchange that offered bytes. *)
Lemma inv_write s log x s' :
  inv s log -> is_write x = true -> terminal_request config (x_channel x) (x_request x) -> good x ->
  output_wf s' -> core_of s' = core_of s -> pending_event s' = pending_event s ->
  failed s' = failed s || negb (taken_ok x) -> taken x ++ buffered s' = buffered s ->
  inv s' (log ++ [x]).
Proof.
  intros [Ho Hc Hf Hl Hs] Hw Hreq Hg Ho' Hc' Hp' Hf' Ht'.
  pose proof (is_read_write x Hw) as Hr.
  assert (Hch : (x_channel x =? SERIAL_CHANNEL) = true) by by apply andb_true_iff in Hw as [? _].
  split; [done|by rewrite Hc'| | |].
  - rewrite existsb_app, <- Hf, Hf'. cbn [existsb]. unfold malformed. rewrite Hw, Hr.
    cbn [andb]. by rewrite !orb_false_r.
  - apply Forall_app_2; [done|]. by apply Forall_singleton.
  - rewrite session_snoc, Hs, Hp'. unfold v_step. rewrite Hch, Hr. f_equal.
    assert (Ha : asked x = []) by (unfold asked; by rewrite Hch).
    unfold base. by rewrite Hc', !flat_map_snoc, <- app_assoc, Ht', Ha, app_nil_r.
Qed.

Lemma buffered_length s : output_wf s -> length (buffered s) = (output_length s - output_sent s)%nat.
Proof.
  intros (Hlen & _ & Hn & _). unfold buffered. rewrite length_take, length_drop. lia.
Qed.

Lemma response_u64 m : Forall u64 (m_words m) -> u64 (value (response m)).
Proof.
  intros Hm. unfold response. destruct (_ =? _); [|cbn; word_lia].
  destruct (m_words m) as [|a [|b [|]]]; cbn [value]; try (cbn; word_lia).
  apply List.Forall_cons_iff in Hm as [_ Hm]. by apply List.Forall_cons_iff in Hm as [Hb _].
Qed.

Lemma map_lookup_seq (l : list Z) o n :
  (o + n <= length l)%nat -> map (fun i => l !!! (o + i)%nat) (seq 0 n) = take n (drop o l).
Proof.
  induction n as [|n IH]; intros Hn; [done|]. rewrite seq_S, map_app, IH by lia. cbn [map plus].
  symmetry. apply take_S_r. rewrite lookup_drop. apply list_lookup_lookup_total_lt. lia.
Qed.

Lemma store_chunk s count :
  output_wf s -> (count <= output_length s - output_sent s)%nat ->
  map (fun i => output s !!! (output_sent s + i)%nat) (seq 0 count) = take count (buffered s).
Proof.
  intros (Hlen & _ & Hn & Hs) Hc. unfold buffered. rewrite take_take, Nat.min_l by lia.
  apply map_lookup_seq. lia.
Qed.

(** One attempt to send. *)
Definition flushed st (b : bool) st' : Prop :=
  inv_st st' /\ core_of (self st') = core_of (self st) /\
  pending_event (self st') = pending_event (self st) /\
  (length (snd (peers st')) <= length (snd (peers st)) + 1)%nat /\
  (b = true -> output_length (self st') = 0%nat /\ failed (self st') = failed (self st)).

Lemma write_chunk st count :
  output_wf (self st) -> (count <= output_length (self st) - output_sent (self st))%nat ->
  exists r, loop 0 count (fun i => microkit_mr_set i (output (self st) !!! (output_sent (self st) + i)%nat)) st =
      (with_mr st r, tt) /\ store r count = take count (buffered (self st)).
Proof.
  intros Ho Hc. destruct (loop_mr_set (fun i => output (self st) !!! (output_sent (self st) + i)%nat) count 0 st)
    as (r & Hrun & Hr). exists r. split; [done|].
  rewrite <- (store_chunk (self st) count) by (done || lia). unfold store. apply map_ext_in.
  intros i Hi%in_seq. rewrite Hr. by rewrite (proj2 (Nat.leb_le _ _)), (proj2 (Nat.ltb_lt _ _)) by lia.
Qed.

Lemma taken_refused x count :
  length (m_words (x_request x)) = count ->
  taken_ok x = negb (negb (status (response (x_reply x)) =? TCS_OK) ||
                     (Z.of_nat count <? value (response (x_reply x)))).
Proof. intros <-. unfold taken_ok. rewrite negb_orb, negb_involutive. f_equal. by rewrite Z.leb_antisym. Qed.

(** What is left after [k] more bytes were sent. *)
Lemma buffered_advance s k sent :
  sent = (output_sent s + k)%nat ->
  take k (buffered s) ++ buffered (set_output (output s) (output_length s) sent s) = buffered s.
Proof.
  intros ->. unfold buffered at 2. cbn [set_output output_length output_sent output].
  rewrite <- (take_drop k (buffered s)) at 2. f_equal. unfold buffered.
  rewrite skipn_firstn_comm, drop_drop. f_equal. lia.
Qed.

Lemma flush_run st : inv_st st -> wp (flush (logged call) residue) st (flushed st).
Proof.
  intros [Hok Hinv]. pose proof (inv_output _ _ Hinv) as Ho. pose proof Ho as (Hlen & Hu & Hn & Hsent).
  unfold flush. wp_step. wp_step. wp_step.
  { wp_step. apply Nat.eqb_eq in H. split; [by split|]. split_and!; try done; [lia|].
    intros _. split; [lia|done]. }
  apply Nat.eqb_neq in H. pose proof (buffered_length _ Ho) as Hbl.
  set (s := self st) in *.
  set (count := if (TCS_SERIAL_CHUNK <? _)%nat then _ else _).
  assert (Hcount : (1 <= count <= TCS_SERIAL_CHUNK)%nat /\ (count <= output_length s - output_sent s)%nat).
  { subst count. destruct (Nat.ltb_spec TCS_SERIAL_CHUNK (output_length s - output_sent s));
      unfold TCS_SERIAL_CHUNK in *; lia. }
  destruct (write_chunk st count Ho (proj2 Hcount)) as (r & Hrun & Hstore). fold s in Hrun, Hstore.
  wp_step. unfold wp at 1. rewrite Hrun. wp_step. apply wp_ppcall.
  cbn [info i_count i_label peers mr with_mr].
  rewrite Hstore. set (m := {| m_label := _; m_words := _ |}).
  assert (Hmlen : length (m_words m) = count) by (cbn; rewrite length_take; lia).
  assert (Hreq : terminal_request config SERIAL_CHANNEL m).
  { right. left. split_and!; [done|done|lia|lia|]. apply Forall_take. by apply Forall_take, Forall_drop. }
  pose proof (peer_call (peers st) SERIAL_CHANNEL m Hok Hreq) as Hcall. unfold logged.
  destruct (call (fst (peers st)) SERIAL_CHANNEL m) as [w' reply]. destruct Hcall as [Hok' Hgood].
  set (x := {| x_channel := _; x_request := _; x_reply := _ |}) in *.
  pose proof (response_u64 _ (good_u64 _ Hgood)) as Hv. cbn [x_reply x] in Hv.
  wp_step. eapply (wp_response reply); [reflexivity|].
  pose proof (taken_refused x count Hmlen) as Htaken. cbn [x_reply x] in Htaken.
  assert (Hwrite : is_write x = true) by done. clearbody count.
  assert (Hafter : forall s' b rg,
    output_wf s' -> core_of s' = core_of s -> pending_event s' = pending_event s ->
    failed s' = failed s || negb (taken_ok x) -> taken x ++ buffered s' = buffered s ->
    (b = true -> output_length s' = 0%nat /\ failed s' = failed s) ->
    flushed st b {| self := s'; peers := (w', snd (peers st) ++ [x]); mr := rg |}).
  { intros s' b rg Ho' Hc' Hp' Hf' Ht' Hb. split; [split; [done|by eapply inv_write]|].
    split_and!; try done. cbn [peers snd]. rewrite length_app. cbn [length]. lia. }
  destruct (negb _ || _) eqn:Hbad; cbn [negb] in Htaken.
  { wp_step. apply wp_modify, wp_ret. cbn [self peers mr with_mr].
    apply Hafter; rewrite ?Htaken; try done; [by rewrite orb_true_r|].
    unfold taken. by rewrite Hwrite, Htaken. }
  apply orb_false_iff in Hbad as [_ Hle]. apply Z.ltb_ge in Hle.
  set (k := Z.to_nat (value (response reply))).
  assert (Hk : (k <= count)%nat) by (subst k; word_lia).
  assert (Htake : taken x = take k (buffered s)).
  { unfold taken. rewrite Hwrite, Htaken. cbn [andb x_reply x_request x m m_words]. fold k.
    by rewrite take_take, Nat.min_l. }
  destruct (_ =? _)%nat eqn:Hall; [apply Nat.eqb_eq in Hall|apply Nat.eqb_neq in Hall];
    wp_step; apply wp_modify, wp_ret; cbn [self peers mr with_mr]; fold s; apply Hafter;
    rewrite ?Htaken, ?Htake; cbn [set_output failed negb]; rewrite ?orb_false_r; try done.
  - split_and!; try done; cbn; [lia|by right].
  - rewrite take_ge by lia. unfold buffered. cbn. by rewrite app_nil_r.
  - split_and!; try done; cbn. left. lia.
  - by apply buffered_advance.
Qed.

(** An exchange with another domain, and the state its answer leaves. *)
Lemma inv_ask s log x k w text s' :
  inv s log -> pending_event s <> TCS_LINE_NONE -> buffered s = [] ->
  react config (pending_event s) (core_of s) = Ask k (x_channel x) (x_request x) w ->
  x_channel x <> SERIAL_CHANNEL -> good x ->
  core_wf k -> terminal_request config (x_channel x) (x_request x) ->
  text = answer_text w (x_reply x) -> output_wf s' -> buffered s' = text -> core_of s' = k ->
  failed s' = failed s -> pending_event s' = TCS_LINE_NONE ->
  inv s' (log ++ [x]).
Proof.
  intros [Ho Hc Hf Hl Hs] Hp Hb Hreact Hch Hg Hk Hreq -> Ho' Hb' Hc' Hf' Hp'.
  assert (Hch' : (x_channel x =? SERIAL_CHANNEL) = false) by lia.
  assert (Hw : is_write x = false /\ is_read x = false) by (unfold is_write, is_read; by rewrite Hch').
  destruct Hw as [Hw Hr].
  split; [done|by rewrite Hc'| | |].
  - rewrite existsb_app, <- Hf, Hf'. cbn [existsb]. unfold malformed. rewrite Hw, Hr.
    cbn [andb orb]. by rewrite orb_false_r.
  - apply Forall_app_2; [done|]. by apply Forall_singleton.
  - rewrite session_snoc, Hs, Hp'. unfold v_step, settle. rewrite Hch'.
    rewrite bool_decide_eq_false_2, bool_decide_eq_true_2 by done.
    unfold v_react. cbn [v_core base]. rewrite Hreact. unfold v_answer. cbn [v_waiting v_core v_asked v_text].
    assert (Ha : asked x = [(x_channel x, x_request x)]) by (unfold asked; by rewrite Hch').
    assert (Ht : taken x = []) by (unfold taken; by rewrite Hw).
    unfold base. by rewrite !flat_map_snoc, Hb, Hb', Hc', Ha, Ht, !app_nil_r.
Qed.

(** A reaction that only displays. *)
Lemma inv_say s log k text s' :
  inv s log -> pending_event s <> TCS_LINE_NONE -> buffered s = [] ->
  react config (pending_event s) (core_of s) = Say k text ->
  core_wf k -> output_wf s' -> buffered s' = text -> core_of s' = k ->
  failed s' = failed s -> pending_event s' = TCS_LINE_NONE ->
  inv s' log.
Proof.
  intros [Ho Hc Hf Hl Hs] Hp Hb Hreact Hk Ho' Hb' Hc' Hf' Hp'.
  split; [done|by rewrite Hc'|congruence|done|].
  rewrite Hs, Hp'. unfold settle.
  rewrite bool_decide_eq_false_2, bool_decide_eq_true_2 by done.
  unfold v_react. cbn [v_core base]. rewrite Hreact. unfold base. cbn [v_asked v_text].
  by rewrite Hb, Hb', Hc', app_nil_r.
Qed.

(** What one step of the service loop leaves, at most [n] calls later. *)
Definition stepped (n : nat) st st' : Prop :=
  inv_st st' /\ (length (snd (peers st')) <= length (snd (peers st)) + n)%nat.

Lemma buffered_empty s : output_wf s -> output_length s = 0%nat -> buffered s = [].
Proof. intros Ho Hn. apply length_zero_iff_nil. rewrite buffered_length by done. lia. Qed.

Lemma handled_run st :
  inv_st st -> pending_event (self st) <> TCS_LINE_NONE -> output_length (self st) = 0%nat ->
  wp (handle_event (logged call) residue config (pending_event (self st)))
    {| self := set_event TCS_LINE_NONE (self st); peers := peers st; mr := mr st |}
    (fun _ => stepped 1 st).
Proof.
  intros [Hok Hinv] Hp Hn. pose proof (inv_output _ _ Hinv) as Ho. pose proof (inv_core _ _ Hinv) as Hc.
  pose proof (buffered_empty _ Ho Hn) as Hb. set (s := self st) in *.
  eapply wp_mono; [apply handle_event_run; cbn [self]; apply Hc|]. intros [] st' Hst'.
  cbn [self] in Hst'. change (core_of (set_event TCS_LINE_NONE s)) with (core_of s) in Hst'.
  pose proof (react_ok config (pending_event s) (core_of s) Hc) as Hr.
  assert (Hset : forall k, output_wf (set_core k (set_event TCS_LINE_NONE s))) by done.
  destruct (react config _ _) as [k text|k ch m w] eqn:Hreact; cbn [reacted self peers] in Hst'.
  - destruct Hr as (Hk & Ht & Hlen). destruct Hst' as [Hself Hpeers].
    destruct (append_empty text [] _ (Hset k) Hn Ht Hlen) as (Ho' & Hb' & Hf' & Hc' & Hp').
    rewrite <- Hself in *. rewrite core_of_set_core in Hc'. unfold stepped, inv_st. rewrite Hpeers. split; [split; [done|]|lia].
    by apply (inv_say s (snd (peers st)) k text).
  - destruct Hr as (Hk & Hch & Hreq). unfold logged in Hst'.
    pose proof (peer_call (peers st) ch m Hok Hreq) as Hcall.
    destruct (call (fst (peers st)) ch m) as [w' reply]. destruct Hcall as [Hok' Hgood].
    destruct Hst' as [Hself Hpeers]. destruct (answer_text_ok w reply) as [Ht Hlen].
    destruct (append_empty (answer_text w reply) [] _ (Hset k) Hn Ht Hlen) as (Ho' & Hb' & Hf' & Hc' & Hp').
    rewrite <- Hself in *. rewrite core_of_set_core in Hc'. unfold stepped, inv_st. rewrite Hpeers. cbn [fst snd].
    split; [split; [done|]|rewrite length_app; cbn [length]; lia].
    by apply (inv_ask s _ _ k w (answer_text w reply)).
Qed.

Lemma typed_of_u8 m loss byte b :
  Forall u64 (m_words m) -> typed_of m = Some (loss, byte) -> byte = Some b -> u8 b.
Proof.
  unfold typed_of. intros Hu. destruct (_ =? TCS_SERIAL_DATA); [|done].
  destruct (m_words m) as [|flags [|v [|]]]; try done.
  apply List.Forall_cons_iff in Hu as [_ Hu]. apply List.Forall_cons_iff in Hu as [Hv _].
  destruct (_ || _) eqn:Hbad; [done|]. destruct (truthy (Z.land flags TCS_SERIAL_BYTE)); [|by intros [= _ <-]].
  intros [= _ <-] [= <-]. bools. word_lia.
Qed.

(** A byte fetched. *)
Lemma inv_typed s log x loss byte :
  inv s log -> pending_event s = TCS_LINE_NONE -> output_length s = 0%nat ->
  is_read x = true -> terminal_request config (x_channel x) (x_request x) -> good x ->
  typed_of (x_reply x) = Some (loss, byte) ->
  inv (take_input config loss byte s) (log ++ [x]).
Proof.
  intros Hinv Hp Hn Hread Hreq Hg Hin. pose proof Hinv as [Ho Hc Hf Hl Hs].
  pose proof (buffered_empty _ Ho Hn) as Hb.
  assert (Hch : (x_channel x =? SERIAL_CHANNEL) = true) by by apply andb_true_iff in Hread as [? _].
  assert (Hw : is_write x = false).
  { destruct (is_write x) eqn:E; [|done]. apply is_read_write in E. congruence. }
  assert (Hbyte : forall b, byte = Some b -> u8 b).
  { intros b. apply (typed_of_u8 _ _ _ _ (good_u64 _ Hg) Hin). }
  destruct (take_input_eq config loss byte s Hc Hp Hbyte) as (k & ev & text & -> & Hk & Ht & Hlen & Hv).
  destruct (append_empty text [] (set_core k s) Ho Hn Ht Hlen) as (Ho' & Hb' & Hf' & Hc' & Hp').
  rewrite core_of_set_core in Hc'.
  split; [done|by change (core_wf (core_of (append (text ++ [0]) (set_core k s)))); rewrite Hc'| | |].
  - rewrite existsb_app, <- Hf. cbn [existsb failed set_event]. rewrite Hf'. unfold malformed.
    rewrite Hw, Hread, Hin. cbn [andb orb]. by rewrite orb_false_r.
  - apply Forall_app_2; [done|]. by apply Forall_singleton.
  - rewrite session_snoc, Hs, Hp. unfold v_step. rewrite Hch, Hread, Hin.
    unfold settle at 1. cbn [bool_decide]. rewrite bool_decide_eq_true_2 by done.
    rewrite (Hv (base s log)) by done. cbn [pending_event set_event]. f_equal.
    assert (Ha : asked x = []) by (unfold asked; by rewrite Hch).
    assert (Htk : taken x = []) by (unfold taken; by rewrite Hw).
    set (s' := append (text ++ [0]) (set_core k s)) in *.
    change (base (set_event ev s')) with (base s'). unfold base.
    rewrite !flat_map_snoc, Ha, Htk, Hb, Hb', Hc', !app_nil_r. done.
Qed.

(** The driver's reply was not one. *)
Lemma inv_read_bad s log x :
  inv s log -> is_read x = true -> terminal_request config (x_channel x) (x_request x) -> good x ->
  typed_of (x_reply x) = None -> inv (set_failed s) (log ++ [x]).
Proof.
  intros [Ho Hc Hf Hl Hs] Hread Hreq Hg Hin.
  assert (Hch : (x_channel x =? SERIAL_CHANNEL) = true) by by apply andb_true_iff in Hread as [? _].
  assert (Hw : is_write x = false).
  { destruct (is_write x) eqn:E; [|done]. apply is_read_write in E. congruence. }
  split; [done|done| | |].
  - rewrite existsb_app. cbn [existsb failed set_failed]. unfold malformed. rewrite Hw, Hread, Hin.
    cbn [andb orb]. by rewrite orb_true_r.
  - apply Forall_app_2; [done|]. by apply Forall_singleton.
  - rewrite session_snoc, Hs. unfold v_step. rewrite Hch, Hread, Hin.
    assert (Ha : asked x = []) by (unfold asked; by rewrite Hch).
    assert (Ht : taken x = []) by (unfold taken; by rewrite Hw).
    unfold base. by rewrite !flat_map_snoc, Ha, Ht, !app_nil_r.
Qed.

Lemma stepped_trans n1 n2 n st st1 st' :
  stepped n1 st st1 -> stepped n2 st1 st' -> (n1 + n2 <= n)%nat -> stepped n st st'.
Proof. intros [_ H1] [Hinv H2] Hn. split; [done|lia]. Qed.

Lemma flushed_stepped st b st' : flushed st b st' -> stepped 1 st st'.
Proof. by intros (Hinv & _ & _ & Hlen & _). Qed.

(** What the loop makes of the driver's reply [m]. *)
Lemma wp_fetched m rest st (stop more : prog terminal (W * list exchange) bool) Q :
  mr st = load (m_words m) rest ->
  (typed_of m = None -> wp (do* modify set_failed in ret true) st Q) ->
  (forall loss byte, typed_of m = Some (loss, byte) ->
     wp (match byte with Some _ => more | None => stop end)
       {| self := take_input config loss byte (self st); peers := peers st; mr := mr st |} Q) ->
  wp (if negb (m_label m =? TCS_SERIAL_DATA) || negb (length (m_words m) =? 2)%nat then
        do* modify set_failed in ret true
      else
      let* flags := microkit_mr_get 0 in
      let* byte := microkit_mr_get 1 in
      if (Z.lor TCS_SERIAL_BYTE TCS_SERIAL_LOSS <? flags) || (UINT8_MAX <? byte) ||
         (negb (truthy (Z.land flags TCS_SERIAL_BYTE)) && truthy byte)
      then do* modify set_failed in ret true
      else
      do* when (truthy (Z.land flags TCS_SERIAL_LOSS)) (modify (input_lost config)) in
      if negb (truthy (Z.land flags TCS_SERIAL_BYTE)) then stop
      else do* modify (input_byte config byte) in more) st Q.
Proof.
  intros Hr Hbad Hgood. unfold typed_of in *. destruct (m_label m =? TCS_SERIAL_DATA); [|by apply Hbad].
  cbn [negb orb]. destruct (m_words m) as [|flags [|v [|]]]; try (by apply Hbad). cbn [length Nat.eqb negb].
  wp_step. wp_step. wp_step. wp_step. rewrite Hr. cbn [load lookup list_lookup].
  change (Z.lor TCS_SERIAL_BYTE TCS_SERIAL_LOSS) with 3.
  destruct (_ || _); [by apply Hbad|].
  specialize (Hgood _ _ eq_refl). unfold take_input in Hgood. wp_step.
  apply wp_when; intros Hloss; rewrite Hloss in Hgood; [apply wp_modify|];
    (destruct (truthy (Z.land flags TCS_SERIAL_BYTE)); cbn [negb];
      [wp_step; by apply wp_modify|by destruct st]).
Qed.

Lemma service_loop_run n : forall st,
  inv_st st -> wp (service_loop (logged call) residue config n) st (fun _ => stepped (2 * n + 1) st).
Proof.
  induction n as [|n IH]; intros st Hst; cbn [service_loop].
  { apply wp_ret. split; [done|lia]. }
  wp_step. wp_step. wp_step; [apply wp_ret; split; [done|lia]|].
  wp_step. eapply wp_mono; [by apply flush_run|]. intros flushed_all st1 Hfl.
  pose proof (flushed_stepped _ _ _ Hfl) as Hstep.
  destruct Hfl as (Hst1 & Hc1 & Hp1 & Hlen1 & Hempty).
  wp_step; [apply wp_ret; eapply stepped_trans; [exact Hstep|by split; [|exact (Nat.le_add_r _ 0)]|lia]|].
  apply negb_false_iff in H0. destruct (Hempty H0) as [Hn1 Hf1].
  wp_step. wp_step. wp_step.
  - wp_step. apply wp_modify. wp_step. apply negb_true_iff, bool_decide_eq_false_1 in H1.
    eapply wp_mono; [by apply handled_run|]. intros [] st2 Hst2. 
    eapply wp_mono; [apply IH; apply Hst2|]. intros b st3 Hst3.
    eapply stepped_trans; [exact Hstep|eapply stepped_trans; [exact Hst2|exact Hst3|reflexivity]|lia].
  - apply negb_false_iff, bool_decide_eq_true_1 in H1.
    wp_step. apply wp_ppcall. cbn [info i_count i_label store seq map].
    set (m := {| m_label := _; m_words := _ |}).
    assert (Hreq : terminal_request config SERIAL_CHANNEL m) by by left.
    destruct Hst1 as [Hok1 Hinv1].
    pose proof (peer_call (peers st1) SERIAL_CHANNEL m Hok1 Hreq) as Hcall. unfold logged at 1.
    destruct (call (fst (peers st1)) SERIAL_CHANNEL m) as [w' reply]. destruct Hcall as [Hok' Hgood].
    set (x := {| x_channel := _; x_request := _; x_reply := _ |}) in *.
    assert (Hstep1 : forall s, inv s (snd (peers st1) ++ [x]) -> forall rg, stepped 1 st1
      {| self := s; peers := (w', snd (peers st1) ++ [x]); mr := rg |}).
    { intros s Hs rg. split; [by split|]. cbn [peers snd]. rewrite length_app. cbn [length]. lia. }
    eapply (wp_fetched reply); [reflexivity| |]; cbn [self peers mr].
    + intros Hin. wp_step. apply wp_modify, wp_ret. cbn [self peers mr].
      eapply stepped_trans; [exact Hstep|apply Hstep1|lia]. by apply inv_read_bad.
    + intros loss byte Hin.
      pose proof (Hstep1 _ (inv_typed _ _ x loss byte Hinv1 H1 Hn1 eq_refl Hreq Hgood Hin)
                    (load (m_words reply) (residue reply))) as Hst2.
      destruct byte as [b|].
      * eapply wp_mono; [apply IH; apply Hst2|]. intros r st3 Hst3.
        eapply stepped_trans; [exact Hstep|eapply stepped_trans; [exact Hst2|exact Hst3|reflexivity]|lia].
      * wp_step. eapply wp_mono; [apply flush_run; apply Hst2|]. intros r st3 Hst3.
        apply flushed_stepped in Hst3. apply wp_ret.
        eapply stepped_trans; [exact Hstep|eapply stepped_trans; [exact Hst2|exact Hst3|reflexivity]|lia].
Qed.

(** One activation makes at most 66 calls. *)
Lemma service_run st :
  inv_st st -> wp (service (logged call) residue config) st (fun _ => stepped 66 st).
Proof.
  intros Hst. unfold service. wp_step. eapply wp_mono; [by apply service_loop_run|].
  intros fell st1 Hst1. wp_step; [|apply wp_ret; eapply stepped_trans; [exact Hst1|by split; [apply Hst1|exact (Nat.le_add_r _ 0)]|lia]].
  wp_step. wp_step. wp_step; [|apply wp_ret; eapply stepped_trans; [exact Hst1|by split; [apply Hst1|exact (Nat.le_add_r _ 0)]|lia]].
  wp_step. eapply wp_mono; [apply flush_run; apply Hst1|]. intros b st2 Hst2.
  apply flushed_stepped in Hst2. apply wp_ret. eapply stepped_trans; [exact Hst1|exact Hst2|lia].
Qed.

(** ** Runs *)

(** A notification, a protected call, or anything the other domains did. *)
Inductive terminal_event :=
| TNotified (ch : Z) (rest : regs)
| TProtected (ch : Z) (m : message)
| TOthers (w : W).

Definition terminal_step st (e : terminal_event) : pd terminal (W * list exchange) :=
  match e with
  | TNotified ch rest =>
      fst (terminal_notified (logged call) residue config ch
             {| self := self st; peers := peers st; mr := rest |})
  | TProtected ch m =>
      fst (terminal_protected ch (info (m_label m) (length (m_words m)))
             {| self := self st; peers := peers st; mr := load (m_words m) (residue m) |})
  | TOthers w => {| self := self st; peers := (w, snd (peers st)); mr := mr st |}
  end.

Definition terminal_boot (w : W) (rest : regs) : pd terminal (W * list exchange) :=
  fst (terminal_init (logged call) residue config
         {| self := terminal_start; peers := (w, []); mr := rest |}).

Lemma start_wf : output_wf terminal_start.
Proof.
  split_and!; [done| |cbn; lia|by right]. apply Forall_replicate. word_lia.
Qed.

Lemma banner_inv :
  let s := append (banner config ++ [0]) terminal_start in inv s [].
Proof.
  destruct (config_texts config) as (_ & _ & Hlen).
  destruct (append_empty (banner config) [] terminal_start start_wf eq_refl (no_nul_banner config))
    as (Ho & Hb & Hf & Hc & Hp); [unfold OUTPUT_SIZE; lia|].
  intros s. fold s in Ho, Hb, Hf, Hc, Hp.
  split; [done|rewrite Hc; apply start_core_wf|done|constructor|].
  rewrite Hp. unfold base. rewrite Hb, Hc. done.
Qed.

Lemma terminal_boot_inv w rest : ok (w, []) -> inv_st (terminal_boot w rest).
Proof.
  intros Hok. assert (H : wp (terminal_init (logged call) residue config)
    {| self := terminal_start; peers := (w, []); mr := rest |} (fun _ => inv_st)).
  { unfold terminal_init. wp_step. apply wp_modify. eapply wp_mono.
    - apply service_run. split; [done|apply banner_inv].
    - intros [] st' Hst'. apply Hst'. }
  by apply wp_run in H.
Qed.

Lemma activation_run ch st :
  inv_st st -> wp (terminal_notified (logged call) residue config ch) st (fun _ => stepped 66 st).
Proof.
  intros Hst. unfold terminal_notified. wp_step; [by apply service_run|]. apply wp_ret. split; [done|lia].
Qed.

Definition event_ok st (e : terminal_event) : Prop :=
  match e with TOthers w => ok (w, snd (peers st)) | _ => True end.

Lemma terminal_step_inv st e : inv_st st -> event_ok st e -> inv_st (terminal_step st e).
Proof.
  intros Hst He. destruct e as [ch rest|ch m|w]; cbn [terminal_step].
  - pose proof (activation_run ch {| self := self st; peers := peers st; mr := rest |} Hst) as H.
    apply wp_run in H. apply H.
  - exact Hst.
  - split; [done|apply Hst].
Qed.

(** What the domain reaches with peers as assumed. *)
Inductive reached (w0 : W) (rest : regs) : pd terminal (W * list exchange) -> Prop :=
| reached_boot : reached w0 rest (terminal_boot w0 rest)
| reached_step st e : reached w0 rest st -> event_ok st e -> reached w0 rest (terminal_step st e).

Lemma reached_inv w0 rest st : ok (w0, []) -> reached w0 rest st -> inv_st st.
Proof.
  intros Hok. induction 1; [by apply terminal_boot_inv|by apply terminal_step_inv].
Qed.

(** The session and the state agree, up to the event still to be handled. *)
Lemma inv_transcript s log :
  inv s log ->
  let v := session_of config log in
  flat_map asked log `prefix_of` v_asked v /\ (length (v_asked v) <= length (flat_map asked log) + 1)%nat /\
  (flat_map taken log ++ buffered s) `prefix_of` v_text v /\
  (pending_event s = TCS_LINE_NONE ->
     v_asked v = flat_map asked log /\ v_text v = flat_map taken log ++ buffered s /\
     v_core v = core_of s /\ v_waiting v = None).
Proof.
  intros [Ho Hc Hf Hl Hs] v. subst v. rewrite Hs. unfold settle.
  destruct (bool_decide _) eqn:Hp.
  { cbn [base v_asked v_text v_core v_waiting]. split_and!; try done. lia. }
  apply bool_decide_eq_false_1 in Hp. unfold v_react. cbn [base v_core].
  destruct (react _ _ _) as [k text|k ch m w]; cbn [v_asked v_text base];
    (split; [|split; [|split; [|done]]]); try done; try lia.
  - by apply prefix_app_r.
  - by apply prefix_app_r.
  - rewrite length_app. cbn. lia.
Qed.
End Invariant.
