(* ===== verification/TerminalSystem.v ===== *)
(** The terminal over its driver: the properties of [servers/terminal.c] over
    any peers, over any driver that keeps the serial protocol, and wired to
    [servers/serial.c] over any UART ([system/terminal.system]). *)

From S2P Require Import Prelude Bytes Policy Admin Receipt Terminal SignedInput Serial Ipc Wp AdminIpc SerialServer TerminalServer TerminalSession TerminalRun.
Import String.StringSyntax.
#[local] Open Scope string_scope.
#[local] Open Scope Z_scope.

(** ** Peers that answer with machine words *)

Definition words_u64 {W} (call : W -> Z -> message -> W * message) : Prop :=
  forall w ch m, Forall u64 (m_words (snd (call w ch m))).

Definition reply_u64 (x : exchange) : Prop := Forall u64 (m_words (x_reply x)).

Lemma any_peers {W} (call : W -> Z -> message -> W * message) config :
  words_u64 call ->
  forall w (log : list exchange) ch m, True -> terminal_request config ch m ->
  let '(w', reply) := call w ch m in
  let x := {| x_channel := ch; x_request := m; x_reply := reply |} in
  True /\ reply_u64 x.
Proof. intros Hw w log ch m _ _. specialize (Hw w ch m). by destruct (call w ch m). Qed.

(** ** Peers that keep the serial protocol *)

(** The exchange followed the protocol. *)
Definition served (x : exchange) : Prop := reply_u64 x /\ malformed x = false.

Lemma u64_two a b : u64 a -> u64 b -> Forall u64 [a; b].
Proof. intros. by repeat apply List.Forall_cons. Qed.

Section Served.
Context {W : Type} (call : W -> Z -> message -> W * message) (okw : W -> Prop)
  {Hserial : serial_channel call SERIAL_CHANNEL okw}
  (others : forall w ch m, okw w -> ch <> SERIAL_CHANNEL ->
     let '(w', reply) := call w ch m in okw w' /\ Forall u64 (m_words reply)).

Lemma typed_of_flags flags byte :
  0 <= flags <= 3 -> u8 byte -> (Z.testbit flags 0 = false -> byte = 0) ->
  typed_of {| m_label := TCS_SERIAL_DATA; m_words := [flags; byte] |} =
    Some (Z.testbit flags 1, if Z.testbit flags 0 then Some byte else None).
Proof.
  intros Hf Hb Hz. unfold typed_of. cbn [m_label m_words]. rewrite Z.eqb_refl.
  change TCS_SERIAL_BYTE with (bit 0). change TCS_SERIAL_LOSS with (bit 1). rewrite !land_bit by lia.
  replace (3 <? flags) with false by lia. replace (UINT8_MAX <? byte) with false by word_lia.
  destruct (Z.testbit flags 0); [done|]. rewrite Hz by done. done.
Qed.

Lemma serial_served w config m :
  okw w -> terminal_request config SERIAL_CHANNEL m ->
  let '(w', reply) := call w SERIAL_CHANNEL m in
  okw w' /\ served {| x_channel := SERIAL_CHANNEL; x_request := m; x_reply := reply |}.
Proof.
  intros Hok [[_ ->]|[(_ & Hl & Hlen & Hb)|[[Hch _]|[[Hch _]|[Hch _]]]]]; try done.
  - destruct (serial_reads w Hok) as (w' & flags & byte & -> & Hok' & Hf & Hb & Hz).
    split; [done|]. split.
    + apply u64_two; word_lia.
    + unfold malformed. cbn [x_reply]. by rewrite typed_of_flags.
  - destruct m as [l bytes]. cbn [m_label m_words] in *. subst l.
    destruct (serial_writes w bytes Hok Hb Hlen) as (w' & sent & -> & Hok' & Hs).
    split; [done|]. split.
    + apply u64_two; [done|]. unfold TCS_SERIAL_CHUNK in *. cbn [value result]. word_lia.
    + unfold malformed, taken_ok. cbn [x_reply x_request m_words].
      rewrite response_reply. cbn [status value result].
      by rewrite Z.eqb_refl, (proj2 (Z.leb_le _ _)) by lia.
Qed.

Lemma served_peers config w (log : list exchange) ch m :
  okw w -> terminal_request config ch m ->
  let '(w', reply) := call w ch m in
  let x := {| x_channel := ch; x_request := m; x_reply := reply |} in
  okw w' /\ served x.
Proof.
  intros Hok Hreq. destruct (decide (ch = SERIAL_CHANNEL)) as [->|Hch].
  - apply (serial_served w config m Hok Hreq).
  - pose proof (others w ch m Hok Hch) as Ho. destruct (call _ _ _) as [w' reply].
    destruct Ho as [Hok' Hu]. split; [done|]. split; [done|].
    unfold malformed, is_write, is_read. cbn [x_channel]. by rewrite (proj2 (Z.eqb_neq _ _)).
Qed.
End Served.

(** ** Wired to the driver *)

Section Wired.
Context {D V : Type} (reg_read : D -> Z -> D * Z) (reg_write : D -> Z -> Z -> D)
  (residue : message -> regs) (client : V -> Z -> message -> V * message).
#[local] Abbreviation world := (tcs_serial_rx * uart_world D * V)%type.

(** Channel 0 of the terminal is channel 1 of the driver. *)
Definition direct_call (w : world) (ch : Z) (m : message) : world * message :=
  let '(s, v) := w in
  if ch =? SERIAL_CHANNEL then
    let '(s', reply) := serial_call reg_read reg_write residue s TERMINAL_CHANNEL m in ((s', v), reply)
  else
    let '(v', reply) := client v ch m in ((s, v'), reply).

Definition wired_ok (w : world) : Prop := serial_ok (fst w).

#[export] Instance wired_channel : serial_channel direct_call SERIAL_CHANNEL wired_ok.
Proof.
  split.
  - intros [s v] Hok.
    destruct (serial_reads (serial_channel := serial_call_channel reg_read reg_write residue) s Hok)
      as (s' & flags & byte & Hcall & Hok' & Hrest).
    exists (s', v), flags, byte. unfold direct_call. rewrite Hcall. done.
  - intros [s v] bytes Hok Hb Hlen.
    destruct (serial_writes (serial_channel := serial_call_channel reg_read reg_write residue) s bytes Hok Hb Hlen)
      as (s' & sent & Hcall & Hok' & Hs).
    exists (s', v), sent. unfold direct_call. rewrite Hcall. done.
Qed.

(** *** What the wire and the session have in common *)

(** The bytes the terminal was given. *)
Definition typed_bytes (log : list exchange) : list Z :=
  flat_map (fun x => if is_read x then match typed_of (x_reply x) with Some (_, Some b) => [b] | _ => [] end
                     else []) log.

(** No reply reported a loss. *)
Definition lossless (log : list exchange) : bool :=
  forallb (fun x => negb (is_read x && match typed_of (x_reply x) with Some (loss, _) => loss | None => false end)) log.

Definition wired_inv (wl : world * list exchange) : Prop :=
  let '((s, v), log) := wl in
  serial_ok s /\
  writes DR (trace (snd s)) = flat_map taken log /\
  (lossless log = true -> lost (fst s) = false ->
   map wrap8 (dr_reads (trace (snd s))) = typed_bytes log ++ waiting (queue_of (fst s))).

Lemma typed_bytes_snoc log x : typed_bytes (log ++ [x]) = typed_bytes log ++ typed_bytes [x].
Proof. unfold typed_bytes. by rewrite flat_map_app. Qed.

Lemma lossless_snoc log x : lossless (log ++ [x]) = lossless log && lossless [x].
Proof. unfold lossless. by rewrite forallb_app. Qed.

(** An exchange that is not a READ of the driver moves no input. *)
Lemma not_read x : is_read x = false -> typed_bytes [x] = [] /\ lossless [x] = true.
Proof. unfold typed_bytes, lossless. cbn. by intros ->. Qed.

Context (client_words : words_u64 client) (config : build).

Lemma wired_others w ch m :
  wired_ok w -> ch <> SERIAL_CHANNEL ->
  let '(w', reply) := direct_call w ch m in wired_ok w' /\ Forall u64 (m_words reply).
Proof.
  destruct w as [s v]. intros Hok Hch. unfold direct_call. rewrite (proj2 (Z.eqb_neq _ _)) by done.
  specialize (client_words v ch m). by destruct (client v ch m).
Qed.

Lemma wired_read s v log :
  wired_inv ((s, v), log) ->
  let '(w', reply) := direct_call (s, v) SERIAL_CHANNEL {| m_label := TCS_LABEL TCS_SERIAL_READ; m_words := [] |} in
  wired_inv (w', log ++ [{| x_channel := SERIAL_CHANNEL;
                            x_request := {| m_label := TCS_LABEL TCS_SERIAL_READ; m_words := [] |};
                            x_reply := reply |}]).
Proof.
  intros ([Hwf Hb] & Hout & Hin). unfold direct_call. rewrite Z.eqb_refl.
  set (m := {| m_label := _; m_words := [] |}).
  pose proof (serial_call_answer reg_read reg_write residue s TERMINAL_CHANNEL m Hwf (List.Forall_nil _)) as H.
  destruct (serial_call _ _ _ _ _ _) as [s' reply]. destruct H as (Hwf' & es & Ht & flags & byte & Hq & -> & ->).
  destruct (queue_take_bytes _ _ _ _ Hq Hb) as (Hb' & Hf & Hbyte & Hz).
  set (x := {| x_channel := _; x_request := _; x_reply := _ |}).
  assert (Htb : typed_bytes [x] = given [(flags, byte)] /\ lossless [x] = negb (flagged (flags, byte))).
  { unfold typed_bytes, lossless, given, flagged. cbn [flat_map forallb x_reply x fst snd].
    rewrite typed_of_flags by done. cbn [is_read]. by destruct (Z.testbit flags 0), (Z.testbit flags 1). }
  destruct Htb as [Htb Hll].
  split; [by split|]. split.
  - rewrite Ht, writes_app, flat_map_app, Hout. f_equal. by destruct (negb _).
  - rewrite lossless_snoc, typed_bytes_snoc, Htb, Hll, Ht, dr_reads_app, map_app.
    intros [Hl Hfl%negb_true_iff]%andb_true_iff _.
    destruct (queue_take_intact _ _ _ Hq Hfl) as [Hgap Hw].
    rewrite (Hin Hl Hgap), Hw, <- !app_assoc. destruct (negb _); by rewrite app_nil_r.
Qed.

Lemma wired_write s v log m :
  wired_inv ((s, v), log) -> m_label m = TCS_LABEL TCS_SERIAL_WRITE ->
  (1 <= length (m_words m) <= TCS_SERIAL_CHUNK)%nat -> Forall u8 (m_words m) ->
  let '(w', reply) := direct_call (s, v) SERIAL_CHANNEL m in
  wired_inv (w', log ++ [{| x_channel := SERIAL_CHANNEL; x_request := m; x_reply := reply |}]).
Proof.
  intros ([Hwf Hb] & Hout & Hin) Hl Hlen Hbytes. unfold direct_call. rewrite Z.eqb_refl.
  assert (Hu : Forall u64 (m_words m)).
  { eapply List.Forall_impl; [|exact Hbytes]. intros. word_lia. }
  pose proof (serial_call_answer reg_read reg_write residue s TERMINAL_CHANNEL m Hwf Hu) as H.
  destruct (serial_call _ _ _ _ _ _) as [s' reply]. destruct H as (Hwf' & es & Ht & Ha).
  unfold serial_answer in Ha. rewrite (chunk_writable m Hl Hlen Hbytes), Hl in Ha.
  cbn [TERMINAL_CHANNEL Z.eqb negb] in Ha. replace (_ && _) with false in Ha by done.
  destruct Ha as (sent & Hsent & Hq & -> & Hw & Hr & _).
  set (x := {| x_channel := _; x_request := _; x_reply := _ |}).
  assert (Hx : is_read x = false /\ taken x = take sent (m_words m)).
  { assert (Hwx : is_write x = true) by (unfold is_write; cbn [x x_request x_channel]; by rewrite Hl).
    split; [by apply is_read_write|]. unfold taken, taken_ok. rewrite Hwx. cbn [x x_reply x_request].
    rewrite response_reply. cbn [status value result].
    rewrite Z.eqb_refl, (proj2 (Z.leb_le _ _)) by lia. cbn [andb]. by rewrite Nat2Z.id. }
  destruct Hx as [Hx Htk]. destruct (not_read x Hx) as [Htb Hll].
  split; [split; [done|by rewrite Hq]|]. split.
  - rewrite Ht, writes_app, flat_map_snoc, Hout, Htk, Hw. done.
  - rewrite lossless_snoc, typed_bytes_snoc, Htb, Hll, Ht, dr_reads_app, Hr, !app_nil_r, andb_true_r, Hq.
    intros Hlo Hlost. apply Hin; [done|]. apply (f_equal gap) in Hq. cbn in Hq. congruence.
Qed.

Lemma wired_other w log ch m :
  wired_inv (w, log) -> ch <> SERIAL_CHANNEL ->
  let '(w', reply) := direct_call w ch m in
  wired_inv (w', log ++ [{| x_channel := ch; x_request := m; x_reply := reply |}]).
Proof.
  destruct w as [s v]. intros (Hok & Hout & Hin) Hch. unfold direct_call.
  assert (Hch' : (ch =? SERIAL_CHANNEL) = false) by by apply Z.eqb_neq. rewrite Hch'.
  destruct (client v ch m) as [v' reply]. set (x := {| x_channel := _; x_request := _; x_reply := _ |}).
  assert (Hx : is_read x = false /\ taken x = []).
  { unfold is_read, taken, is_write. cbn [x x_channel]. by rewrite Hch'. }
  destruct Hx as [Hx Htk]. destruct (not_read x Hx) as [Htb Hll].
  split; [done|]. split; [by rewrite flat_map_snoc, Htk, app_nil_r|].
  by rewrite lossless_snoc, typed_bytes_snoc, Htb, Hll, app_nil_r, andb_true_r.
Qed.

Lemma wired_peers w log ch m :
  wired_inv (w, log) -> terminal_request config ch m ->
  let '(w', reply) := direct_call w ch m in
  let x := {| x_channel := ch; x_request := m; x_reply := reply |} in
  wired_inv (w', log ++ [x]) /\ served x.
Proof.
  intros Hinv Hreq. destruct w as [s v].
  assert (Hok : wired_ok (s, v)) by apply Hinv.
  pose proof (served_peers direct_call wired_ok wired_others config (s, v) log ch m Hok Hreq) as Hserved.
  assert (Hnext : let '(w', reply) := direct_call (s, v) ch m in
    wired_inv (w', log ++ [{| x_channel := ch; x_request := m; x_reply := reply |}])).
  { destruct (decide (ch = SERIAL_CHANNEL)) as [->|Hch]; [|by apply wired_other].
    destruct Hreq as [[_ ->]|[(_ & Hl & Hlen & Hb)|[[? _]|[[? _]|[? _]]]]]; try done;
      [by apply wired_read|by apply wired_write]. }
  destruct (direct_call (s, v) ch m) as [w' reply]. split; [done|apply Hserved].
Qed.

(** *** Interrupts, at any time *)

(** The driver notified on each of these channels. *)
Definition interrupt (s : tcs_serial_rx * uart_world D) (e : Z * regs) : tcs_serial_rx * uart_world D :=
  let st := fst (serial_notified reg_read reg_write (fst e) {| self := fst s; peers := snd s; mr := snd e |}) in
  (self st, peers st).

(** The driver has the higher priority: before each call of the terminal it may
    be interrupted any number of times, as a schedule says. *)
Abbreviation schedule := (list (list (Z * regs))).

Definition wired_call (w : world * schedule) (ch : Z) (m : message) : (world * schedule) * message :=
  let '((s, v), sched) := w in
  let '(w', reply) := direct_call (foldl interrupt s (hd [] sched), v) ch m in
  ((w', tail sched), reply).

(** Unless bytes were lost, an interrupt appends what it read. *)
Lemma interrupt_wired s v log e :
  wired_inv ((s, v), log) -> wired_inv ((interrupt s e, v), log).
Proof.
  intros ([Hwf Hb] & Hout & Hin). destruct s as [rx w], e as [ch rest]. unfold interrupt. cbn [fst snd] in *.
  destruct (ch =? UART_IRQ_CHANNEL) eqn:Hch.
  2:{ unfold serial_notified. rewrite Hch. cbn [negb fst ret self peers]. by split. }
  apply Z.eqb_eq in Hch as ->.
  pose proof (interrupt_run reg_read reg_write {| self := rx; peers := w; mr := rest |} Hwf) as H.
  apply wp_run in H. set (st' := fst _) in *.
  destruct H as (pending & es & rx' & [-> Ht _] & [Hwf' Hq] & _ & _ & Hw & _). cbn [peers self] in Ht, Hq.
  set (q := if truthy (Z.land pending ERROR_IRQ) then lossy else queue_of rx) in *.
  split; [split; [done|]|split]; cbn [fst snd].
  - rewrite Hq. apply queue_data_bytes. subst q. by destruct (truthy _).
  - rewrite Ht, writes_app, Hout. cbn [writes flat_map]. fold (writes DR es).
    by rewrite Hw, app_nil_r.
  - intros Hl Hlost. rewrite Ht, dr_reads_app, map_app. cbn [dr_reads flat_map MIS DR Z.eqb app].
    fold (dr_reads es). destruct (queue_data_intact (dr_reads es) q) as [Hgap Hwait].
    { rewrite <- Hq. exact Hlost. }
    rewrite Hq, Hwait. subst q. destruct (truthy (Z.land pending ERROR_IRQ)); [done|].
    rewrite app_assoc. f_equal. by apply Hin.
Qed.

Lemma interrupts_wired evs s v log :
  wired_inv ((s, v), log) -> wired_inv ((foldl interrupt s evs, v), log).
Proof. revert s. induction evs as [|e evs IH]; intros s Hs; [done|]. by apply IH, interrupt_wired. Qed.

Definition scheduled_inv (wl : (world * schedule) * list exchange) : Prop :=
  wired_inv (fst (fst wl), snd wl).

Lemma scheduled_peers w log ch m :
  scheduled_inv (w, log) -> terminal_request config ch m ->
  let '(w', reply) := wired_call w ch m in
  let x := {| x_channel := ch; x_request := m; x_reply := reply |} in
  scheduled_inv (w', log ++ [x]) /\ served x.
Proof.
  destruct w as [[s v] sched]. intros Hinv Hreq. unfold wired_call.
  pose proof (wired_peers (foldl interrupt s (hd [] sched), v) log ch m
    (interrupts_wired _ _ _ _ Hinv) Hreq) as H.
  by destruct (direct_call _ _ _).
Qed.

(** *** Runs *)

(** An interrupt while the terminal waits, an activation of the terminal (with
    the interrupts that preempt it), or anything the other domains did. *)
Inductive console_event :=
| CIrq (ch : Z) (rest : regs)
| CTerminal (ch : Z) (rest : regs) (sched : schedule)
| COthers (v : V).

Definition console_step (st : pd terminal ((world * schedule) * list exchange)) (e : console_event)
    : pd terminal ((world * schedule) * list exchange) :=
  let '((s, v), sched) := fst (peers st) in
  let step := terminal_step wired_call residue config in
  match e with
  | CIrq ch rest => step st (TOthers ((interrupt s (ch, rest), v), sched))
  | CTerminal ch rest sched => step (step st (TOthers ((s, v), sched))) (TNotified ch rest)
  | COthers v => step st (TOthers ((s, v), sched))
  end.

Definition console_boot (d : D) (v : V) (rest : regs) (sched : schedule)
    : pd terminal ((world * schedule) * list exchange) :=
  let '(s, _) := driver_boot reg_write d rest in
  terminal_boot wired_call residue config ((s, v), sched) rest.

Lemma console_invariant d v rest sched es :
  inv_st config scheduled_inv served
    (exec console_step (console_boot d v rest sched) es).
Proof.
  apply (exec_invariant _ (fun _ => True)); [| |].
  - intros st e _ Hst. unfold console_step. destruct (fst (peers st)) as [[s v'] sc] eqn:Hw.
    assert (Hok : wired_inv ((s, v'), snd (peers st))).
    { destruct Hst as [Hok _]. unfold scheduled_inv in Hok. by rewrite Hw in Hok. }
    assert (Hu : forall x, served x -> Forall u64 (m_words (x_reply x))) by by intros x [? _].
    pose proof (terminal_step_inv _ residue config _ _ scheduled_peers Hu) as Hstep.
    destruct e as [ch rest'|ch rest' sc'|v''].
    + apply Hstep; [done|]. by apply interrupt_wired.
    + apply Hstep; [|done]. by apply Hstep.
    + by apply Hstep.
  - apply List.Forall_forall. done.
  - eapply (terminal_boot_inv _ _ _ _ _ scheduled_peers); [by intros x [? _]|].
    split; [split; [split_and!; cbn; unfold TCS_SERIAL_CAPACITY; lia || done|constructor]|done].
Qed.
End Wired.

(** ** Numbers shown and typed *)

Lemma decimal_text_value v : u64 v -> Terminal.decimal (decimal_text v) = v.
Proof.
  intros Hv. apply digit_loop_value.
  assert (E : UINT64_MAX < 10 ^ Z.of_nat 21) by reflexivity. unfold u64 in Hv. lia.
Qed.

(** No more digits than needed. *)
Lemma digit_loop_short k fuel v :
  0 <= v < 10 ^ Z.of_nat (S k) -> (length (digit_loop fuel v) <= S k)%nat.
Proof.
  revert fuel v. induction k as [|k IH]; intros [|fuel] v Hv; cbn [digit_loop length]; try lia.
  - change (10 ^ Z.of_nat 1) with 10 in Hv. rewrite Z.div_small by lia. cbn. lia.
  - destruct (truthy (v / 10)); [|cbn; lia]. apply le_n_S, IH.
    rewrite (Nat2Z.inj_succ (S k)), Z.pow_succ_r in Hv by lia.
    split; [apply Z.div_pos; lia|apply Z.div_lt_upper_bound; lia].
Qed.

(** A line that asks for a generation as it is displayed. *)
Definition read_line (g : Z) : list Z := codes "read " ++ decimal_text g.

Lemma read_line_command g : 1 <= g <= UINT64_MAX -> command_text (read_line g) (command TCS_CMD_READ g).
Proof.
  intros Hg. pose proof (decimal_text_value g ltac:(word_lia)) as Hv.
  rewrite <- Hv at 2.
  change (read_line g) with ([] ++ codes "read" ++ [32] ++ decimal_text g). rewrite <- (app_nil_r (decimal_text g)) at 1.
  apply text_read; rewrite ?Hv; try done; try constructor; try constructor.
  - intros Hnil. rewrite Hnil in Hv. cbn in Hv. lia.
  - apply decimal_text_digits.
Qed.

(** ** A failed terminal *)

Lemma failed_loop {W} (call : W -> Z -> message -> W * message) residue config n st :
  failed (self st) = true -> service_loop call residue config n st = (st, true).
Proof.
  intros Hf. destruct n as [|n]; [done|]. cbn [service_loop]. unfold bind at 1, get at 1. cbv beta iota.
  by rewrite Hf.
Qed.

Lemma failed_silent {W} (call : W -> Z -> message -> W * message) residue config ch st :
  failed (self st) = true -> fst (terminal_notified call residue config ch st) = st.
Proof.
  intros Hf. unfold terminal_notified. destruct (_ =? _); [|done].
  unfold service. generalize 32%nat. intros n. unfold bind at 1. rewrite failed_loop by done.
  unfold bind, get. by rewrite Hf.
Qed.

(** ** Properties *)

(** C4. The terminal and its driver are a faithful console: for every UART,
    every behaviour of the other domains and every interleaving of interrupts
    with the terminal's calls, the terminal never fails; the bytes written to
    the UART followed by those still buffered are a prefix of the text of the
    abstract session, and the requests made of the client and the administrator
    a prefix, at most one short, of those the session makes, both complete when
    no event is pending; and unless a loss was or is to be reported, the bytes
    the session was typed are, in order, those read from the UART, the ones in
    the driver's ring still to come. *)
Theorem console_faithful {D V} (reg_read : D -> Z -> D * Z) (reg_write : D -> Z -> Z -> D) residue
    (client : V -> Z -> message -> V * message) config d v rest sched es :
  words_u64 client ->
  let st := exec (console_step reg_read reg_write residue client config)
              (console_boot reg_read reg_write residue client config d v rest sched) es in
  let log := snd (peers st) in
  let serial := fst (fst (fst (peers st))) in
  let session := session_of config log in
  failed (self st) = false /\
  (writes DR (trace (snd serial)) ++ buffered (self st)) `prefix_of` v_text session /\
  flat_map asked log `prefix_of` v_asked session /\
  (length (v_asked session) <= length (flat_map asked log) + 1)%nat /\
  (pending_event (self st) = TCS_LINE_NONE ->
     v_asked session = flat_map asked log /\
     v_text session = writes DR (trace (snd serial)) ++ buffered (self st)) /\
  (lossless log = true -> lost (fst serial) = false ->
   map wrap8 (dr_reads (trace (snd serial))) = typed_bytes log ++ waiting (queue_of (fst serial))).
Proof.
  intros Hw st log serial session.
  destruct (console_invariant reg_read reg_write residue client Hw config d v rest sched es) as [Hok Hinv].
  fold st in Hok, Hinv. fold log in Hinv.
  assert (Hwired : wired_inv ((serial, snd (fst (fst (peers st)))), log)).
  { unfold serial, log. unfold scheduled_inv in Hok. by destruct (fst (fst (peers st))). }
  destruct Hwired as (_ & Hout & Hin). rewrite Hout.
  destruct (inv_transcript config served (self st) log Hinv) as (Ha & Hlen & Ht & Hdone).
  split_and!; try done; [|by intros Hp; destruct (Hdone Hp) as (? & ? & _)].
  rewrite (inv_failed _ _ _ _ Hinv). apply not_true_is_false. intros (x & Hx & Hm)%existsb_exists.
  pose proof (inv_log _ _ _ _ Hinv) as Hl. rewrite List.Forall_forall in Hl.
  destruct (Hl x Hx) as [_ [_ Hgood]]. congruence.
Qed.

(** C11. The terminal over any peers: whatever they answer, what it asks of the
    other domains and shows its user is what the abstract session makes of the
    bytes it fetched and the answers it got, up to the one event still to be
    handled: nothing is asked that was not typed, nothing typed is forgotten or
    asked twice, and every text is shown whole and in order. *)
Theorem terminal_refines_session {W} (call : W -> Z -> message -> W * message) residue config w0 rest st :
  words_u64 call -> reached call residue config (fun _ => True) w0 rest st ->
  let log := snd (peers st) in
  let session := session_of config log in
  flat_map asked log `prefix_of` v_asked session /\
  (length (v_asked session) <= length (flat_map asked log) + 1)%nat /\
  (flat_map taken log ++ buffered (self st)) `prefix_of` v_text session /\
  (pending_event (self st) = TCS_LINE_NONE ->
     v_asked session = flat_map asked log /\ v_text session = flat_map taken log ++ buffered (self st) /\
     v_core session = core_of (self st) /\ v_waiting session = None).
Proof.
  intros Hw Hst.
  destruct (reached_inv call residue config (fun _ => True) reply_u64 (any_peers call config Hw)
              (fun x H => H) w0 rest st I Hst) as [_ Hinv].
  by apply (inv_transcript config reply_u64).
Qed.

(** C13. The terminal has no other authority: whatever is typed and whatever its
    peers answer, every call it ever makes is a READ or a WRITE of 1 to 32 bytes
    to its driver, a status request or a read of the one object to its client,
    or, in the signed build only, the submission of a 192-byte packet to the
    administrator. *)
Theorem terminal_confined {W} (call : W -> Z -> message -> W * message) residue config w0 rest st :
  words_u64 call -> reached call residue config (fun _ => True) w0 rest st ->
  Forall (fun x => terminal_request config (x_channel x) (x_request x)) (snd (peers st)).
Proof.
  intros Hw Hst.
  destruct (reached_inv call residue config (fun _ => True) reply_u64 (any_peers call config Hw)
              (fun x H => H) w0 rest st I Hst) as [_ Hinv].
  eapply List.Forall_impl; [|exact (inv_log _ _ _ _ Hinv)]. by intros x [Hx _].
Qed.

(** C39. An activation ends: in any state the terminal reaches, whatever its peers
    answer, one notification makes at most 66 calls, and none at all once the
    terminal has failed. *)
Theorem activation_bounded {W} (call : W -> Z -> message -> W * message) residue config w0 rest st ch :
  words_u64 call -> reached call residue config (fun _ => True) w0 rest st ->
  let st' := fst (terminal_notified (logged call) residue config ch st) in
  (length (snd (peers st')) <= length (snd (peers st)) + (if failed (self st) then 0 else 66))%nat.
Proof.
  intros Hw Hst st'.
  pose proof (reached_inv call residue config (fun _ => True) reply_u64 (any_peers call config Hw)
                (fun x H => H) w0 rest st I Hst) as Hinv.
  destruct (failed (self st)) eqn:Hf.
  - subst st'. rewrite failed_silent by done. lia.
  - pose proof (activation_run call residue config (fun _ => True) reply_u64 (any_peers call config Hw)
                  (fun x H => H) ch st Hinv) as H.
    apply wp_run in H. apply H.
Qed.

(** A driver that keeps the serial protocol never stops the terminal: no
    text overflows its buffer, and it fails only when a reply of the driver
    breaks the protocol, which such a driver never sends. *)
Theorem terminal_never_fails {W} (call : W -> Z -> message -> W * message) residue config okw
    {Hserial : serial_channel call SERIAL_CHANNEL okw} w0 rest st :
  (forall w ch m, okw w -> ch <> SERIAL_CHANNEL ->
     let '(w', reply) := call w ch m in okw w' /\ Forall u64 (m_words reply)) ->
  okw w0 -> reached call residue config (fun w => okw (fst w)) w0 rest st ->
  failed (self st) = false.
Proof.
  intros Hothers Hok Hst.
  assert (Hpeers : forall w (log : list exchange) ch m, okw (fst (w, log)) -> terminal_request config ch m ->
    let '(w', reply) := call w ch m in
    let x := {| x_channel := ch; x_request := m; x_reply := reply |} in
    okw (fst (w', log ++ [x])) /\ served x).
  { intros w log ch m Hw Hreq. exact (served_peers call okw Hothers config w log ch m Hw Hreq). }
  destruct (reached_inv call residue config (fun w => okw (fst w)) served Hpeers
              (fun x H => proj1 H) w0 rest st Hok Hst) as [_ Hinv].
  rewrite (inv_failed _ _ _ _ Hinv). apply not_true_is_false. intros (x & Hx & Hm)%existsb_exists.
  pose proof (inv_log _ _ _ _ Hinv) as Hl. rewrite List.Forall_forall in Hl.
  destruct (Hl x Hx) as [_ [_ Hgood]]. congruence.
Qed.

(** What is shown can be typed back: a 64-bit number is displayed in at most
    20 digits, within the 21 of the code's buffer, and [read] followed by a
    generation as it is displayed is the command that reads it. *)
Theorem shown_generation_typed_back g :
  1 <= g <= UINT64_MAX ->
  (length (decimal_text g) <= 20)%nat /\
  tcs_command_parse (Some (read_line g)) (length (read_line g)) = command TCS_CMD_READ g.
Proof.
  intros Hg. assert (Hlen : (length (decimal_text g) <= 20)%nat).
  { unfold decimal_text. rewrite length_rev. apply digit_loop_short.
    assert (E : UINT64_MAX < 10 ^ Z.of_nat 20) by reflexivity. lia. }
  split; [done|].
  pose proof (read_line_command g Hg) as Hc.
  rewrite <- (app_nil_r (read_line g)) at 1. apply parse_iff; [| |done|done].
  - eapply List.Forall_impl; [|exact (command_text_printable _ _ Hc)]. unfold printable. intros. word_lia.
  - split; [|by eapply command_text_printable]. unfold read_line, TCS_LINE_CAPACITY.
    rewrite length_app. change (length (codes "read ")) with 5%nat. lia.
Qed.

(** ** Witnesses *)

Definition example_config : build := {| profile := RELEASE_PROFILE; signed_input_mode := None |}.

(** A client that reads 42 whatever it is asked. *)
Definition example_client (v : unit) (ch : Z) (m : message) : unit * message :=
  (v, reply_message (result TCS_OK 42)).

Lemma example_client_words : words_u64 example_client.
Proof. intros v ch m. by apply u64_two. Qed.

Definition example_typing : list Z * nat := (codes "read 7" ++ [13], 500%nat).
Definition example_console : list (@console_event unit) :=
  [CIrq UART_IRQ_CHANNEL example_rest; CTerminal SERIAL_CHANNEL example_rest []].
Definition example_screen : list Z :=
  banner example_config ++ codes "read 7" ++ crlf ++ codes "READ OK value=42" ++ crlf ++ prompt.

Definition example_end :=
  exec (console_step example_read example_write (fun _ => example_rest) example_client example_config)
    (console_boot example_read example_write (fun _ => example_rest) example_client example_config
       example_typing tt example_rest []) example_console.

Lemma console_faithful_witness :
  flat_map asked (snd (peers example_end)) = [(CLIENT_CHANNEL, read_message 7)] /\
  writes DR (trace (snd (fst (fst (fst (peers example_end)))))) = example_screen /\
  failed (self example_end) = false.
Proof.
  split; [vm_compute; reflexivity|]. split; [vm_compute; reflexivity|].
  exact (proj1 (console_faithful example_read example_write (fun _ => example_rest) example_client
    example_config example_typing tt example_rest [] example_console example_client_words)).
Defined.

(** A driver with input to give that sends whatever it is offered. *)
Definition example_peers (input : list Z) (ch : Z) (m : message) : list Z * message :=
  if ch =? SERIAL_CHANNEL then
    if m_label m =? TCS_LABEL TCS_SERIAL_READ then
      match input with
      | [] => ([], {| m_label := TCS_SERIAL_DATA; m_words := [0; 0] |})
      | b :: rest => (rest, {| m_label := TCS_SERIAL_DATA; m_words := [1; wrap8 b] |})
      end
    else (input, reply_message (result TCS_OK (wrap64 (Z.of_nat (length (m_words m))))))
  else (input, reply_message (result TCS_OK 42)).

Lemma example_peers_words : words_u64 example_peers.
Proof.
  intros input ch m. unfold example_peers. pose proof (wrap64_range (Z.of_nat (length (m_words m)))).
  destruct (_ =? _); [destruct (_ =? _); [destruct input as [|b rest]|]|]; cbn [snd]; apply u64_two;
    try done. pose proof (wrap8_range b). word_lia.
Qed.

#[export] Instance example_peers_channel : serial_channel example_peers SERIAL_CHANNEL (fun _ => True).
Proof.
  split.
  - intros input _. destruct input as [|b rest]; cbn [example_peers SERIAL_CHANNEL Z.eqb].
    + exists [], 0, 0. split_and!; done || lia || word_lia.
    + exists rest, 1, (wrap8 b). pose proof (wrap8_range b). split_and!; done || lia || word_lia.
  - intros input bytes _ _ Hlen. exists input, (length bytes). split_and!; [|done|lia].
    unfold example_peers. cbn [m_label m_words SERIAL_CHANNEL Z.eqb].
    replace (TCS_LABEL TCS_SERIAL_WRITE =? TCS_LABEL TCS_SERIAL_READ) with false by done.
    rewrite wrap64_small by (unfold TCS_SERIAL_CHUNK in Hlen; word_lia). done.
Qed.

(** The terminal after its boot and [n] notifications of its driver. *)
Fixpoint notified_times (n : nat) : pd terminal (list Z * list exchange) :=
  match n with
  | O => terminal_boot example_peers (fun _ => example_rest) example_config
           (codes "status" ++ [13]) example_rest
  | S n => terminal_step example_peers (fun _ => example_rest) example_config (notified_times n)
             (TNotified SERIAL_CHANNEL example_rest)
  end.

Lemma notified_reached ok n :
  reached example_peers (fun _ => example_rest) example_config ok (codes "status" ++ [13]) example_rest
    (notified_times n).
Proof.
  induction n as [|n IH]; cbn [notified_times]; [apply reached_boot|].
  apply reached_step; [exact IH|exact I].
Qed.

Definition example_terminal : pd terminal (list Z * list exchange) := notified_times 4.

Lemma example_reached ok :
  reached example_peers (fun _ => example_rest) example_config ok (codes "status" ++ [13]) example_rest
    example_terminal.
Proof. apply notified_reached. Qed.

Lemma terminal_refines_session_witness :
  flat_map asked (snd (peers example_terminal)) = [(CLIENT_CHANNEL, status_message)] /\
  flat_map asked (snd (peers example_terminal)) `prefix_of`
    v_asked (session_of example_config (snd (peers example_terminal))).
Proof.
  split; [vm_compute; reflexivity|].
  exact (proj1 (terminal_refines_session example_peers (fun _ => example_rest) example_config
    (codes "status" ++ [13]) example_rest example_terminal example_peers_words (example_reached _))).
Defined.

Lemma terminal_confined_witness :
  Forall (fun x => terminal_request example_config (x_channel x) (x_request x))
    (snd (peers example_terminal)).
Proof.
  exact (terminal_confined example_peers (fun _ => example_rest) example_config
    (codes "status" ++ [13]) example_rest example_terminal example_peers_words (example_reached _)).
Defined.

Lemma activation_bounded_witness :
  let st' := fst (terminal_notified (logged example_peers) (fun _ => example_rest) example_config
                    SERIAL_CHANNEL example_terminal) in
  (length (snd (peers st')) <= length (snd (peers example_terminal)) +
     (if failed (self example_terminal) then 0 else 66))%nat.
Proof.
  exact (activation_bounded example_peers (fun _ => example_rest) example_config
    (codes "status" ++ [13]) example_rest example_terminal SERIAL_CHANNEL example_peers_words
    (example_reached _)).
Defined.

Lemma terminal_never_fails_witness : failed (self example_terminal) = false.
Proof.
  apply (terminal_never_fails example_peers (fun _ => example_rest) example_config (fun _ => True)
    (codes "status" ++ [13]) example_rest example_terminal).
  - intros w ch m _ _. pose proof (example_peers_words w ch m) as H.
    by destruct (example_peers w ch m).
  - done.
  - apply example_reached.
Defined.

Lemma shown_generation_typed_back_witness :
  tcs_command_parse (Some (read_line 18446744073709551615)) (length (read_line 18446744073709551615)) =
  command TCS_CMD_READ 18446744073709551615.
Proof.
  refine (proj2 (shown_generation_typed_back 18446744073709551615 _)). unfold UINT64_MAX. lia.
Defined.
