(* ===== verification/Posix.v ===== *)
(** The host side: a process and the system calls it makes.

    [tools/operator.c] runs on a POSIX host. A process is a tree of system
    calls ([io]); what the host answers is not part of the sources, so every
    theorem speaks of all runs ([run]) in which the host keeps to its
    documentation ([documented]), and a run may end at any call, because the
    process is killed or replaced there. What a process has done so far is
    read off the trace by [observe]: its open files, the files it is done with
    and the bytes that went through them. *)

From stdpp Require Export gmap.
From S2P Require Import Prelude Bytes Terminal.
Import String.StringSyntax.
#[local] Open Scope string_scope.
#[local] Open Scope Z_scope.

(** ** Calls and replies *)

Inductive errno := E0 | EINTR | ENOENT | ENODATA | ENOTSUP | EBADF | EINVAL | EOTHER.
Inductive flag :=
| O_RDONLY | O_WRONLY | O_CREAT | O_EXCL | O_DIRECTORY | O_NOFOLLOW | O_CLOEXEC | O_NONBLOCK.

#[export] Instance errno_eq_dec : EqDecision errno.
Proof. solve_decision. Defined.
#[export] Instance flag_eq_dec : EqDecision flag.
Proof. solve_decision. Defined.

(** The fields of [struct stat] the sources use. *)
Record stat := { st_mode : Z; st_uid : Z; st_nlink : Z; st_size : Z }.

Definition S_ISREG (mode : Z) : bool := Z.land mode 61440 =? 32768.
Definition S_ISDIR (mode : Z) : bool := Z.land mode 61440 =? 16384.

Inductive call :=
| Open (path : list Z) (flags : list flag)
| Openat (dir : Z) (name : list Z) (flags : list flag) (mode : Z)
| Mkdirat (dir : Z) (name : list Z) (mode : Z)
| Fstat (fd : Z)
| Fstatat (dir : Z) (name : list Z)
| Fgetxattr (fd : Z) (name : list Z)
| Acl_get_fd_np (fd : Z) | Acl_valid (acl : Z) | Acl_get_entry (acl : Z) | Acl_free (acl : Z)
| Read (fd : Z) (count : nat)
| Lseek (fd : Z)
| Write (fd : Z) (bytes : list Z)
| Fsync (fd : Z)
| Close (fd : Z)
| Getuid | Geteuid | Getgid | Getegid
| Setrlimit | Fcntl_getfd (fd : Z) | Umask (mode : Z)
| Entropy (count : nat)
| Malloc (size : nat) | Free (pointer : Z)
| Printf (text : list Z) | Perror (text : list Z) | Fflush
| Opendir (path : list Z) | Dirfd (stream : Z) | Readdir (stream : Z) | Closedir (stream : Z)
| Fchdir (fd : Z)
| Execv (path : list Z) (arguments : list (list Z)).

(** A returned value (of whatever type the call has), [errno] after the call,
    the bytes it stored through a pointer, and the [stat] buffer. *)
Record reply := { returned : Z; error : errno; bytes_of_reply : list Z; status_of_reply : stat }.

Definition event : Type := call * reply.

(** ** Programs *)

Inductive io (A : Type) :=
| Return (a : A)
| Call (c : call) (k : reply -> io A)
| Out_of_fuel.
Arguments Return {A} a.
Arguments Call {A} c k.
Arguments Out_of_fuel {A}.

#[export] Instance io_ret : MRet io := @Return.
#[export] Instance io_bind : MBind io := fun A B f =>
  fix bind (m : io A) : io B :=
    match m with
    | Return a => f a
    | Call c k => Call c (fun r => bind (k r))
    | Out_of_fuel => Out_of_fuel
    end.

(** A call and its whole reply, its value, or neither. *)
Definition sys (c : call) : io reply := Call c Return.
Definition value (c : call) : io Z := Call c (fun r => Return (returned r)).
Definition perform (c : call) : io unit := Call c (fun _ => Return tt).

(** [a && b] where [b] makes calls. *)
Definition andthen (a : bool) (b : io bool) : io bool := if a then b else Return false.

(** ** Path components *)

(** [strtok_r] with the delimiter '/', to the end of the string. *)
Definition slash : Z := 47.

Fixpoint tokens_from (part path : list Z) : list (list Z) :=
  match path with
  | [] => if bool_decide (part = []) then [] else [part]
  | c :: rest =>
      if c =? slash then (if bool_decide (part = []) then [] else [part]) ++ tokens_from [] rest
      else tokens_from (part ++ [c]) rest
  end.
Definition tokens (path : list Z) : list (list Z) := tokens_from [] path.

(** ** What a process has done *)

(** A file the process opened: its path, whether it was opened as a directory or
    exclusively created (so that it did not exist before), the bytes that were read from it or written to it, and whether
    they were synced (of a directory this is not recorded). *)
Record file := {
  f_path : list (list Z);
  f_dir : bool;
  f_new : bool;
  f_bytes : list Z;
  f_synced : bool
}.

#[export] Instance file_eq_dec : EqDecision file.
Proof. solve_decision. Defined.

(** Open files by descriptor, files (not directories) that were closed,
    directories made, what was printed, and the number of replies that only
    made the process go round a loop again. *)
Record view := {
  live : gmap Z file;
  past : list file;
  made : list (list (list Z));
  printed : list Z;
  delays : nat
}.

Definition view_start : view := {| live := ∅; past := []; made := []; printed := []; delays := 0 |}.

Definition set_live (g : view) (l : gmap Z file) : view :=
  {| live := l; past := past g; made := made g; printed := printed g; delays := delays g |}.

(** The path of an entry of an open directory. *)
Definition path_at (g : view) (dir : Z) (name : list Z) : list (list Z) :=
  from_option f_path [] (live g !! dir) ++ [name].

Definition opened (path : list (list Z)) (flags : list flag) : file :=
  {| f_path := path; f_dir := bool_decide (O_DIRECTORY ∈ flags);
     f_new := bool_decide (O_CREAT ∈ flags) && bool_decide (O_EXCL ∈ flags); f_bytes := []; f_synced := false |}.

Definition moved (bytes : list Z) (f : file) : file :=
  {| f_path := f_path f; f_dir := f_dir f; f_new := f_new f; f_bytes := f_bytes f ++ bytes;
     f_synced := false |}.
Definition synced (f : file) : file :=
  {| f_path := f_path f; f_dir := f_dir f; f_new := f_new f; f_bytes := f_bytes f;
     f_synced := negb (f_dir f) |}.
Definition transfer (g : view) (fd : Z) (bytes : list Z) : view :=
  set_live g (alter (moved bytes) fd (live g)).
Definition closed (f : option file) : list file :=
  match f with Some f => if f_dir f then [] else [f] | None => [] end.

Definition delayed (g : view) : view :=
  {| live := live g; past := past g; made := made g; printed := printed g; delays := S (delays g) |}.

Definition interrupted (r : reply) : bool := (returned r <? 0) && bool_decide (error r = EINTR).

Definition observe (g : view) (c : call) (r : reply) : view :=
  match c with
  | Open path flags =>
      if 0 <=? returned r
      then set_live g (<[returned r := opened (tokens path) flags]> (live g)) else g
  | Openat dir name flags _ =>
      if 0 <=? returned r
      then set_live g (<[returned r := opened (path_at g dir name) flags]> (live g)) else g
  | Mkdirat dir name _ =>
      if returned r =? 0
      then {| live := live g; past := past g; made := made g ++ [path_at g dir name];
              printed := printed g; delays := delays g |} else g
  | Read fd _ =>
      if interrupted r then delayed g
      else if 0 <=? returned r then transfer g fd (bytes_of_reply r) else g
  | Write fd bytes =>
      if interrupted r then delayed g
      else if 0 <=? returned r then transfer g fd (take (Z.to_nat (returned r)) bytes) else g
  | Fsync fd => if returned r =? 0 then set_live g (alter synced fd (live g)) else g
  | Close fd =>
      {| live := delete fd (live g); past := past g ++ closed (live g !! fd); made := made g;
         printed := printed g; delays := delays g |}
  | Printf text =>
      {| live := live g; past := past g; made := made g; printed := printed g ++ text;
         delays := delays g |}
  | Readdir _ => if negb (returned r =? 0) then delayed g else g
  | _ => g
  end.

(** What the host documents of the calls: a new descriptor is not one that is
    open, a transfer moves no more than it was asked to, [getentropy] fills its
    buffer when it succeeds, and buffers hold bytes. *)
Definition is_byte (b : Z) : bool := (0 <=? b) && (b <=? UINT8_MAX).

Definition documented (g : view) (c : call) (r : reply) : bool :=
  match c with
  | Open _ _ | Openat _ _ _ _ => (returned r <? 0) || bool_decide (live g !! returned r = None)
  | Read _ count =>
      (returned r <? 0) ||
      ((returned r <=? Z.of_nat count) && (Z.of_nat (length (bytes_of_reply r)) =? returned r) &&
       forallb is_byte (bytes_of_reply r))
  | Write _ bytes => returned r <=? Z.of_nat (length bytes)
  | Entropy count =>
      negb (returned r =? 0) ||
      ((length (bytes_of_reply r) =? count)%nat && forallb is_byte (bytes_of_reply r))
  | _ => true
  end.

(** ** Runs *)

Inductive outcome (A : Type) :=
| Returned (a : A)
| Stopped (c : call)
| Exhausted.
Arguments Returned {A} a.
Arguments Stopped {A} c.
Arguments Exhausted {A}.

(** Every execution: the events in order, and how it ended. *)
Inductive run {A} : view -> io A -> list event -> outcome A -> Prop :=
| run_return g a : run g (Return a) [] (Returned a)
| run_call g c k r t o :
    documented g c r = true -> run (observe g c r) (k r) t o -> run g (Call c k) ((c, r) :: t) o
| run_stop g c k : run g (Call c k) [] (Stopped c)
| run_out g : run g Out_of_fuel [] Exhausted.

Definition observe_event (g : view) (e : event) : view := observe g (fst e) (snd e).

(** What has been done after a trace. *)
Definition seen (t : list event) : view := exec observe_event view_start t.

(** [c] is called in this execution, after the events [t1]. *)
Definition called {A} (t : list event) (o : outcome A) (t1 : list event) (c : call) : Prop :=
  (exists r t2, t = t1 ++ (c, r) :: t2) \/ (t1 = t /\ o = Stopped c).

(** A run against an executable host; [None] replaces the process. *)
Fixpoint simulate {W A} (host : W -> call -> option (W * reply)) (w : W) (m : io A)
    : W * list event * outcome A :=
  match m with
  | Return a => (w, [], Returned a)
  | Out_of_fuel => (w, [], Exhausted)
  | Call c k =>
      match host w c with
      | None => (w, [], Stopped c)
      | Some (w', r) =>
          let '(w'', t, o) := simulate host w' (k r) in (w'', (c, r) :: t, o)
      end
  end.

Fixpoint documented_trace (g : view) (t : list event) : bool :=
  match t with
  | [] => true
  | (c, r) :: t => documented g c r && documented_trace (observe g c r) t
  end.

Lemma simulate_run {W A} host (m : io A) : forall (w : W) g,
  let '(_, t, o) := simulate host w m in
  documented_trace g t = true -> run g m t o.
Proof.
  induction m as [a|c k IH|]; intros w g; cbn [simulate]; [by constructor| |by constructor].
  destruct (host w c) as [[w' r]|]; [|intros _; constructor].
  specialize (IH r w' (observe g c r)). destruct (simulate host w' (k r)) as [[w'' t] o].
  cbn [documented_trace]. intros [Hd Ht]%andb_true_iff. by constructor; [|apply IH].
Qed.

(** ** A program logic *)

Section Logic.
(** The calls a process may make where it stands, and, when termination is
    claimed, the number of delays it may meet. *)
Context (allowed : view -> call -> Prop) (budget : option nat).

Definition within (g : view) : Prop :=
  match budget with Some k => (delays g <= k)%nat | None => True end.
Definition stuck : Prop := match budget with Some _ => False | None => True end.

Fixpoint sat {A} (m : io A) (g : view) (Q : A -> view -> Prop) : Prop :=
  match m with
  | Return a => Q a g
  | Call c k =>
      allowed g c /\
      forall r, documented g c r = true -> within (observe g c r) -> sat (k r) (observe g c r) Q
  | Out_of_fuel => stuck
  end.

Lemma sat_mono {A} (m : io A) : forall g (Q R : A -> view -> Prop),
  sat m g Q -> (forall a g', Q a g' -> R a g') -> sat m g R.
Proof.
  induction m as [a|c k IH|]; intros g Q R Hm HQR; cbn [sat] in *; [by auto| |done].
  destruct Hm as [Hc Hk]. split; [done|]. intros r Hd Hw. eapply IH; eauto.
Qed.

Lemma sat_ret {A} (a : A) g (Q : A -> view -> Prop) : Q a g -> sat (mret a) g Q.
Proof. done. Qed.

Lemma sat_bind {A B} (m : io A) (f : A -> io B) : forall g Q,
  sat m g (fun a g' => sat (f a) g' Q) -> sat (m ≫= f) g Q.
Proof.
  induction m as [a|c k IH|]; intros g Q Hm; [done| |done].
  destruct Hm as [Hc Hk]. split; [done|]. intros r Hd Hw. apply IH. by apply Hk.
Qed.

Lemma sat_sys c g Q :
  allowed g c ->
  (forall r, documented g c r = true -> within (observe g c r) -> Q r (observe g c r)) ->
  sat (sys c) g Q.
Proof. by split. Qed.

Lemma sat_value c g Q :
  allowed g c ->
  (forall r, documented g c r = true -> within (observe g c r) -> Q (returned r) (observe g c r)) ->
  sat (value c) g Q.
Proof. by split. Qed.

Lemma sat_perform c g (Q : unit -> view -> Prop) :
  allowed g c ->
  (forall r, documented g c r = true -> within (observe g c r) -> Q tt (observe g c r)) ->
  sat (perform c) g Q.
Proof. by split. Qed.

Lemma sat_andthen a (b : io bool) g (Q : bool -> view -> Prop) :
  (a = true -> sat b g Q) -> (a = false -> Q false g) -> sat (andthen a b) g Q.
Proof. destruct a; cbn; auto. Qed.

Lemma sat_if {A} (b : bool) (m n : io A) g Q :
  (b = true -> sat m g Q) -> (b = false -> sat n g Q) -> sat (if b then m else n) g Q.
Proof. destruct b; auto. Qed.

(** ** What the logic says of runs *)

Lemma observe_delays g c r : (delays g <= delays (observe g c r))%nat.
Proof.
  destruct c; cbn [observe]; repeat case_match; cbn; lia.
Qed.

Lemma exec_delays t g : (delays g <= delays (exec observe_event g t))%nat.
Proof.
  revert g. induction t as [|[c r] t IH]; intros g; [done|]. rewrite exec_cons.
  etrans; [apply (observe_delays g c r)|apply IH].
Qed.

Lemma within_mono g g' : (delays g <= delays g')%nat -> within g' -> within g.
Proof. unfold within. destruct budget; lia. Qed.

Lemma sat_run_from {A} (m : io A) g Q t o :
  run g m t o -> sat m g Q -> within (exec observe_event g t) ->
  (forall t1 c, called t o t1 c -> allowed (exec observe_event g t1) c) /\
  match o with
  | Returned a => Q a (exec observe_event g t)
  | Stopped _ => True
  | Exhausted => stuck
  end.
Proof.
  induction 1 as [g a|g c k r t o Hd Hr IH|g c k|g]; intros Hs Hw; cbn [sat] in Hs.
  - split; [|done]. intros t1 c [(r & t2 & Ht)|[_ Ho]]; [|done]. by destruct t1.
  - destruct Hs as [Hc Hk]. rewrite exec_cons in Hw |- *. change (observe_event g (c, r)) with (observe g c r) in *.
    destruct (IH (Hk r Hd (within_mono _ _ (exec_delays t _) Hw)) Hw) as [Hcalls Ho].
    split; [|done]. intros t1 c' [(r' & t2 & Ht)|[-> ->]].
    + destruct t1 as [|e t1]; injection Ht as <- ?; [by subst|].
      rewrite exec_cons. apply Hcalls. left. eauto.
    + rewrite exec_cons. apply Hcalls. by right.
  - destruct Hs as [Hc _]. split; [|done]. intros t1 c' [(r & t2 & Ht)|[-> [= ->]]]; [by destruct t1|done].
  - split; [|done]. intros t1 c [(r & t2 & Ht)|[_ Ho]]; [by destruct t1|done].
Qed.

(** From the start of the process. *)
Lemma sat_run {A} (m : io A) Q t o :
  run view_start m t o -> sat m view_start Q -> within (seen t) ->
  (forall t1 c, called t o t1 c -> allowed (seen t1) c) /\
  match o with
  | Returned a => Q a (seen t)
  | Stopped _ => True
  | Exhausted => stuck
  end.
Proof. apply sat_run_from. Qed.
End Logic.
