(* ===== verification/Operator.v ===== *)
(** The operator's host tool: [tools/operator.c].

    Creates an identity, prepares a launch, reviews and signs a command, and
    launches the guest. Every function that makes system calls is a program of
    [Posix]; the build's mode, the platform's access-control interface and the
    Monocypher functions are parameters. Loops that may repeat take [fuel]. *)

From S2P Require Import Prelude Bytes Policy Admin Terminal SignedInput Launch Posix.
Import String.StringSyntax.
#[local] Open Scope string_scope.
#[local] Open Scope Z_scope.

(** ** Constants and text *)

Definition key_prefix : list Z := [84; 67; 83; 45; 75; 69; 89; 1] ++ replicate 8 0.
Definition dir_flags : list flag := [O_RDONLY; O_DIRECTORY; O_NOFOLLOW; O_CLOEXEC].
Definition read_flags : list flag := [O_RDONLY; O_NOFOLLOW; O_CLOEXEC; O_NONBLOCK].
Definition write_flags : list flag := [O_WRONLY; O_CREAT; O_EXCL; O_NOFOLLOW; O_CLOEXEC].
Definition mode_0600 : Z := 384.
Definition mode_0700 : Z := 448.
Definition mode_07777 : Z := 4095.
Definition INT32_MAX : Z := 2147483647.

(** C strings are compared and printed without their terminator. *)
Definition strcmp_equal (a b : list Z) : bool := bool_decide (a = b).

(** [%] [PRIu64]: the digits of a number, most significant first. *)
Fixpoint numeral_digits (fuel : nat) (v : Z) : list Z :=
  match fuel with
  | O => []
  | S fuel => (if v / 10 =? 0 then [] else numeral_digits fuel (v / 10)) ++ [48 + v mod 10]
  end.
Definition numeral (v : Z) : list Z := numeral_digits 20 v.

(** [hex] writes the digits; the terminator is the end of the list. *)
Definition digits : list Z := codes "0123456789abcdef".
Definition hex (bytes : list Z) : list Z :=
  flat_map (fun b => [digits !!! Z.to_nat (Z.shiftr b 4); digits !!! Z.to_nat (Z.land b 15)]) bytes.

(** [for (i = 0; text[i]; ++i)]. *)
Fixpoint number_loop (text : list Z) (i : nat) (value : Z) : bool * Z :=
  match text with
  | [] => (true, value)
  | c :: rest =>
      if (i =? 20)%nat || (c <? 48) || (57 <? c) then (false, value)
      else
        let digit := c - 48 in
        if (UINT64_MAX - digit) / 10 <? value then (false, value)
        else number_loop rest (S i) (wrap64 (value * 10 + digit))
  end.

Definition number (text : list Z) : bool * Z :=
  match text with
  | [] => (false, 0)
  | c :: rest =>
      if (c =? 48) && negb (bool_decide (rest = [])) then (false, 0) else number_loop text 0 0
  end.

(** [operation], [subject], [sequence] and [expected_generation], in order. *)
Definition operation_request (operation : list Z) : option tcs_request :=
  let request op object rights :=
    {| r_op := op; r_subject := 0; r_object := object; r_rights := rights; r_generation := 0 |} in
  if strcmp_equal operation (codes "grant") then Some (request TCS_GRANT TCS_OBJECT TCS_READ)
  else if strcmp_equal operation (codes "revoke") then Some (request TCS_REVOKE 0 0)
  else if strcmp_equal operation (codes "quarantine") then Some (request TCS_QUARANTINE 0 0)
  else if strcmp_equal operation (codes "restore") then Some (request TCS_RESTORE 0 0)
  else None.

Definition command_parse (args : list (list Z)) : option tcs_admin_command :=
  match operation_request (args !!! 0%nat) with
  | None => None
  | Some r =>
      let '(ok, subject) := number (args !!! 1%nat) in
      if negb ok || negb (subject <? TCS_SUBJECTS) then None
      else
        let '(ok, sequence) := number (args !!! 2%nat) in
        if negb ok || negb (truthy sequence) then None
        else
          let '(ok, generation) := number (args !!! 3%nat) in
          if negb ok then None
          else
            Some {| c_sequence := sequence; c_expected_generation := generation;
                    c_request := {| r_op := r_op r; r_subject := subject; r_object := r_object r;
                                    r_rights := r_rights r; r_generation := r_generation r |} |}
  end.

Definition absolute_argument (path : list Z) : bool :=
  if negb (path !!! 0%nat =? slash) then false
  else (length path <=? 4095)%nat &&
       forallb (fun c => negb ((c <? 32) || (c =? 44) || (c =? 127))) path.

(** [strstr(path, "//")]. *)
Fixpoint double_slash (path : list Z) : bool :=
  match path with
  | a :: (b :: _) as rest => ((a =? slash) && (b =? slash)) || double_slash rest
  | _ => false
  end.

(** ** Files and directories *)

Section Operator.
(** The build's mode, the platform ([__APPLE__]), and the fuel of the loops. *)
Context (MODE : Z) (apple : bool) (fuel : nat).

(** Monocypher: a hash of a given size, key pairs (secret and public halves)
    from a seed, signatures, and their check (0 when valid). *)
Context (crypto_blake2b : nat -> list Z -> list Z)
        (crypto_ed25519_key_pair : list Z -> list Z * list Z)
        (crypto_ed25519_sign : list Z -> list Z -> list Z)
        (crypto_ed25519_check : list Z -> list Z -> list Z -> Z).

Fixpoint no_xattr (fd : Z) (names : list (list Z)) : io bool :=
  match names with
  | [] => mret true
  | name :: names =>
      r ← sys (Fgetxattr fd name);
      if (0 <=? returned r) ||
         (negb (bool_decide (error r = ENODATA)) && negb (bool_decide (error r = ENOTSUP)))
      then mret false else no_xattr fd names
  end.

Definition no_acl (fd : Z) : io bool :=
  if apple then
    r ← sys (Acl_get_fd_np fd);
    if returned r =? 0 then mret (bool_decide (error r = ENOENT))
    else
      let acl := returned r in
      v ← value (Acl_valid acl);
      ok ← andthen (v =? 0)
             (e ← sys (Acl_get_entry acl);
              mret ((returned e =? -1) && bool_decide (error e = EINVAL)));
      _ ← perform (Acl_free acl);
      mret ok
  else no_xattr fd [codes "system.posix_acl_access"; codes "system.posix_acl_default"].

Definition private_dir (fd : Z) : io bool :=
  r ← sys (Fstat fd);
  let s := status_of_reply r in
  andthen ((returned r =? 0) && S_ISDIR (st_mode s))
    (uid ← value Getuid;
     andthen ((st_uid s =? uid) && (Z.land (st_mode s) mode_07777 =? mode_0700)) (no_acl fd)).

Definition outside_repository (fd : Z) : io bool :=
  r ← sys (Fstatat fd (codes ".git"));
  mret ((returned r =? -1) && bool_decide (error r = ENOENT)).

(** The components still to walk, from the directory [fd]. *)
Fixpoint walk (create : bool) (fd : Z) (parts : list (list Z)) : io Z :=
  match parts with
  | [] =>
      private ← private_dir fd;
      ok ← andthen private (outside_repository fd);
      if negb ok then _ ← perform (Close fd); mret (-1) else mret fd
  | part :: next =>
      ok ← andthen (negb (strcmp_equal part (codes ".") || strcmp_equal part (codes "..")))
             (outside_repository fd);
      if negb ok then _ ← perform (Close fd); mret (-1)
      else
        failed ← andthen (bool_decide (next = []) && create)
                   (m ← value (Mkdirat fd part mode_0700);
                    if negb (m =? 0) then mret true
                    else s ← value (Fsync fd); mret (negb (s =? 0)));
        if (failed : bool) then _ ← perform (Close fd); mret (-1)
        else
          child ← value (Openat fd part dir_flags 0);
          _ ← perform (Close fd);
          if child <? 0 then mret (-1) else walk create child next
  end.

Definition directory (path : list Z) (create : bool) : io Z :=
  let n := Nat.min (length path) 4096 in
  if (n =? 0)%nat || (4096 <=? n)%nat || negb (path !!! 0%nat =? slash) ||
     (path !!! (n - 1)%nat =? slash) || double_slash path
  then mret (-1)
  else
    fd ← value (Open (codes "/") dir_flags);
    if fd <? 0 then mret (-1) else walk create fd (tokens path).

(** [while (ok && done < length) read(...)], where [ok] starts true. *)
Fixpoint read_loop (n : nat) (fd : Z) (bytes : list Z) (done length : nat) : io (bool * list Z) :=
  match n with
  | O => Out_of_fuel
  | S n =>
      if (length <=? done)%nat then mret (true, bytes)
      else
        r ← sys (Read fd (length - done));
        if interrupted r then read_loop n fd bytes done length
        else if returned r <=? 0 then mret (false, bytes)
        else read_loop n fd (blit bytes done (bytes_of_reply r))
               (done + Z.to_nat (returned r)) length
  end.

(** [do { n = read(fd, &extra, 1); } while (n < 0 && errno == EINTR)]. *)
Fixpoint read_extra (n : nat) (fd : Z) : io Z :=
  match n with
  | O => Out_of_fuel
  | S n => r ← sys (Read fd 1); if interrupted r then read_extra n fd else mret (returned r)
  end.

(** The descriptor (or -1) and the caller's buffer, wiped on failure. *)
Definition read_file_open (dir : Z) (name bytes : list Z) (length : nat) : io (Z * list Z) :=
  fd ← value (Openat dir name read_flags 0);
  if fd <? 0 then mret (-1, bytes)
  else
    r ← sys (Fstat fd);
    let s := status_of_reply r in
    ok ← andthen ((returned r =? 0) && S_ISREG (st_mode s))
           (uid ← value Getuid;
            andthen ((st_uid s =? uid) && (st_nlink s =? 1) &&
                     (Z.land (st_mode s) mode_07777 =? mode_0600) &&
                     (st_size s =? Z.of_nat length)) (no_acl fd));
    read ← (if (ok : bool) then read_loop fuel fd bytes 0 length else mret (false, bytes));
    let '(ok, bytes) := read in
    ok ← andthen ok (n ← read_extra fuel fd; mret (n =? 0));
    ok ← andthen ok (n ← value (Lseek fd); mret (n =? 0));
    if negb ok then _ ← perform (Close fd); mret (-1, replicate length 0)
    else mret (fd, bytes).

Definition read_file (dir : Z) (name bytes : list Z) (length : nat) : io (bool * list Z) :=
  read ← read_file_open dir name bytes length;
  let '(fd, bytes) := read in
  if fd <? 0 then mret (false, bytes)
  else
    c ← value (Close fd);
    if negb (c =? 0) then mret (false, replicate length 0) else mret (true, bytes).

Fixpoint write_loop (n : nat) (fd : Z) (bytes : list Z) (done : nat) : io bool :=
  match n with
  | O => Out_of_fuel
  | S n =>
      if (length bytes <=? done)%nat then mret true
      else
        r ← sys (Write fd (drop done bytes));
        if interrupted r then write_loop n fd bytes done
        else if returned r <=? 0 then mret false
        else write_loop n fd bytes (done + Z.to_nat (returned r))
  end.

Definition write_new (dir : Z) (name bytes : list Z) : io bool :=
  fd ← value (Openat dir name write_flags mode_0600);
  if fd <? 0 then mret false
  else
    ok ← no_acl fd;
    ok ← andthen ok (write_loop fuel fd bytes 0);
    s ← value (Fsync fd);
    c ← value (Close fd);
    d ← value (Fsync dir);
    mret (ok && (s =? 0) && (c =? 0) && (d =? 0)).

Definition puts (text : list Z) : io unit := perform (Printf (text ++ [10])).
Definition display (name bytes : list Z) : io unit :=
  perform (Printf (name ++ codes "=" ++ hex bytes ++ [10])).

(** ** Identities and launch contexts *)

(** A local buffer; the sources never read one before it is filled. *)
Definition buffer (n : nat) : list Z := replicate n 0.

Definition identity_read (fd : Z) : io (bool * tcs_identity) :=
  read ← read_file fd (codes "identity.pub") (buffer 80) 80;
  let '(ok, bytes) := read in
  if negb ok then mret (false, identity_zero)
  else
    let '(ok, id) := tcs_public_decode (Some bytes) 80 MODE (Some identity_zero) in
    mret (ok, default identity_zero id).

(** The record's seed, if it is one for this mode and identity. Only the seed
    is stored; the public half is derived from it. *)
Definition key_of (record : list Z) (identity : tcs_identity) : bool * list Z :=
  if negb (record !!! 15%nat =? MODE) || negb (equal record key_prefix 15) ||
     negb (equal (drop 16 record) (realm identity) 32)
  then (false, buffer 64)
  else
    let '(secret, key) := crypto_ed25519_key_pair (slice record 48 32) in
    let ok := equal key (public_key identity) 32 in
    (ok, if ok then secret else buffer 64).

(** The answer and the caller's secret, wiped unless it is the identity's. *)
Definition key_read (fd : Z) (identity : tcs_identity) : io (bool * list Z) :=
  read ← read_file fd (codes "identity.key") (buffer 80) 80;
  let '(ok, record) := read in
  if negb ok then mret (false, buffer 64) else mret (key_of record identity).

(** The private record of a seed. *)
Definition key_record (realm seed : list Z) : list Z :=
  let record := blit (buffer 80) 0 key_prefix in
  let record := <[15%nat := MODE]> record in
  let record := blit record 16 realm in
  blit record 48 seed.

Definition create_identity (path : list Z) : io bool :=
  r ← sys (Entropy 64);
  if negb (returned r =? 0) then mret false
  else
    let random := bytes_of_reply r in
    let realm := slice random 32 32 in
    let record := key_record realm (take 32 random) in
    let '(secret, key) := crypto_ed25519_key_pair (take 32 random) in
    let identity := {| realm := realm; public_key := key |} in
    let '(ok, public) := tcs_public_encode (Some (buffer 80)) identity MODE in
    if negb ok then mret false
    else
      fd ← directory path true;
      if fd <? 0 then mret false
      else
        ok ← write_new fd (codes "identity.key") record;
        ok ← andthen ok (write_new fd (codes "identity.pub") (default [] public));
        _ ← (if (ok : bool) then puts (codes "Identity created; private seed is unencrypted. No guest was provisioned.")
             else mret tt);
        _ ← perform (Close fd);
        mret ok.

Definition context_create (identity_fd : Z) (path : list Z) : io bool :=
  read ← identity_read identity_fd;
  let '(ok, identity) := read in
  if negb ok then mret false
  else
    r ← sys (Entropy 32);
    if negb (returned r =? 0) then mret false
    else
      let launch := {| identity := identity; boot := bytes_of_reply r |} in
      let '(ok, bytes) := tcs_launch_encode (Some (buffer 112)) launch MODE in
      if negb ok then mret false
      else
        fd ← directory path true;
        if fd <? 0 then mret false
        else
          ok ← write_new fd (codes "launch.context") (default [] bytes);
          _ ← perform (Close fd);
          _ ← (if (ok : bool) then puts (codes "Single-launch context prepared. No guest was started; never reuse this context.")
               else mret tt);
          mret ok.

(** The identity and the launch it selects, when they agree. *)
Definition same_identity (identity : tcs_identity) (launch : tcs_launch) : bool :=
  equal (realm identity) (realm (Launch.identity launch)) 32 &&
  equal (public_key identity) (public_key (Launch.identity launch)) 32.

(** ** Reviewing and signing *)

Definition review_header : list Z := [84; 67; 83; 45; 82; 69; 86; 73; 69; 87; 1].

(** The public record an approval is a digest of. *)
Definition review_record (public_key packet : list Z) : list Z :=
  let review := blit (buffer 176) 0 review_header in
  let review := <[15%nat := MODE]> review in
  let review := blit review 16 (take 32 public_key) in
  blit review 48 (take 128 packet).

Definition approval_of (public_key packet : list Z) : list Z :=
  hex (crypto_blake2b 32 (review_record public_key packet)).

(** The launch, the unsigned packet and the approval it needs. *)
Definition prepare (identity_fd session_fd : Z) (c : tcs_admin_command)
    : io (option (tcs_launch * list Z * list Z)) :=
  read ← identity_read identity_fd;
  let '(ok, identity) := read in
  if negb ok then mret None
  else
    read ← read_file session_fd (codes "launch.context") (buffer 112) 112;
    let '(ok, context) := read in
    if negb ok then mret None
    else
      let '(ok, launch) := tcs_launch_decode (Some context) 112 MODE (Some launch_zero) in
      let launch := default launch_zero launch in
      if negb ok || negb (same_identity identity launch) then mret None
      else
        let '(ok, packet) :=
          tcs_admin_encode (Some (buffer 192)) (Some (realm identity)) (Some (boot launch)) c in
        let packet := default [] packet in
        if negb ok then mret None
        else mret (Some (launch, packet, approval_of (public_key identity) packet)).

Definition show_review (operation : list Z) (launch : tcs_launch) (c : tcs_admin_command)
    (wanted : list Z) : io unit :=
  _ ← perform (Printf (codes "mode=" ++
        (if MODE =? TCS_FIXTURE_MODE then codes "PUBLIC TEST FIXTURE" else codes "EXPERIMENTAL OPERATOR")
        ++ [10]));
  _ ← display (codes "realm") (realm (identity launch));
  _ ← display (codes "public_key") (public_key (identity launch));
  _ ← display (codes "boot") (boot launch);
  _ ← perform (Printf (codes "operation=" ++ operation ++
        codes " subject=" ++ numeral (r_subject (c_request c)) ++
        codes " sequence=" ++ numeral (c_sequence c) ++
        codes " expected_generation=" ++ numeral (c_expected_generation c) ++
        codes " object=" ++ numeral (r_object (c_request c)) ++
        codes " rights=" ++ numeral (r_rights (c_request c)) ++ [10]));
  perform (Printf (codes "approval=" ++ wanted ++ [10])).

Definition request_name (sequence : Z) : list Z :=
  codes "request-" ++ numeral sequence ++ codes ".bin".

(** [crypto_ed25519_sign(packet + 128, secret, packet, 128)]. *)
Definition sign_packet (secret packet : list Z) : list Z :=
  blit packet 128 (crypto_ed25519_sign secret (take 128 packet)).

Definition sign_request (identity_fd session_fd : Z) (launch : tcs_launch) (c : tcs_admin_command)
    (packet : list Z) : io bool :=
  read ← key_read identity_fd (identity launch);
  let '(ok, secret) := read in
  if negb ok then mret false
  else
    let packet := sign_packet secret packet in
    if truthy (crypto_ed25519_check (slice packet 128 64) (public_key (identity launch)) (take 128 packet))
    then mret false
    else
      let name := request_name (c_sequence c) in
      if (64 <=? length name)%nat then mret false
      else
        ok ← write_new session_fd name packet;
        _ ← (if (ok : bool)
             then perform (Printf (codes "Signed " ++ name ++
                    codes "; not submitted or executed. No automatic retry." ++ [10]))
             else mret tt);
        mret ok.

Definition review_or_sign (identity_fd : Z) (path : list Z) (args : list (list Z))
    (approval : ptr (list Z)) : io bool :=
  match command_parse args with
  | None => mret false
  | Some c =>
      session_fd ← directory path false;
      if session_fd <? 0 then mret false
      else
        prepared ← prepare identity_fd session_fd c;
        ok ← match prepared with
             | None => mret false
             | Some (launch, packet, wanted) =>
                 match approval with
                 | NULL => _ ← show_review (args !!! 0%nat) launch c wanted; mret true
                 | Some approval =>
                     if negb (strcmp_equal approval wanted) then mret false
                     else sign_request identity_fd session_fd launch c packet
                 end
             end;
        _ ← perform (Close session_fd);
        mret (ok : bool)
  end.

(** ** Launching *)

(** One entry of the descriptor directory. *)
Definition close_entry (scanner : Z) (name : list Z) (ok : bool) : io bool :=
  let '(is_number, fd) := number name in
  if is_number && (fd <=? INT32_MAX) && (2 <? fd) && negb (fd =? scanner) then
    r ← sys (Close fd);
    mret (if negb (returned r =? 0) && negb (bool_decide (error r = EBADF)) then false else ok)
  else mret ok.

(** [while ((entry = readdir(directory)))], with [errno] cleared before each. *)
Fixpoint close_loop (n : nat) (stream scanner : Z) (ok : bool) : io bool :=
  match n with
  | O => Out_of_fuel
  | S n =>
      r ← sys (Readdir stream);
      if returned r =? 0 then mret (ok && bool_decide (error r = E0))
      else ok ← close_entry scanner (bytes_of_reply r) ok; close_loop n stream scanner ok
  end.

Definition close_other_descriptors : io bool :=
  stream ← value (Opendir (codes "/dev/fd"));
  if stream =? 0 then mret false
  else
    scanner ← value (Dirfd stream);
    ok ← close_loop fuel stream scanner true;
    c ← value (Closedir stream);
    mret (ok && (c =? 0)).

Definition loader : list Z := codes "loader,file=launch.img,addr=0x70000000,cpu-num=0,force-raw=on".
Definition firmware : list Z := codes "name=opt/tcs/launch-context,file=launch.used".
Definition arguments (qemu : list Z) : list (list Z) :=
  qemu :: map codes
    ["-machine"; "virt,virtualization=on"; "-cpu"; "cortex-a53"; "-m"; "2G"; "-smp"; "1";
     "-display"; "none"; "-no-reboot"; "-chardev"; "stdio,id=uart,signal=off"; "-serial";
     "chardev:uart"; "-monitor"; "none"; "-nic"; "none"; "-accel"; "tcg"; "-global";
     "fw_cfg_mem.dma_enabled=off"; "-device"] ++ [loader; codes "-fw_cfg"; firmware].

Definition MAX_IMAGE : Z := 64 * 1024 * 1024.

(** From the mapped buffer to [execv]; every way out but that is a failure. *)
Definition copy_and_exec (dir image_fd pointer : Z) (size : nat) (qemu : list Z) : io unit :=
  read ← read_loop fuel image_fd (buffer size) 0 size;
  let '(ok, image_bytes) := read in
  if negb ok then perform (Free pointer)
  else
    n ← read_extra fuel image_fd;
    ok ← andthen (n =? 0) (write_new dir (codes "launch.img") image_bytes);
    _ ← perform (Free pointer);
    if negb ok then mret tt
    else
      f ← value (Fchdir dir);
      if negb (f =? 0) then mret tt
      else
        ok ← close_other_descriptors;
        if negb ok then mret tt else perform (Execv qemu (arguments qemu)).

(** From the image to the copied session, with the image file still open. *)
Definition launch_image (dir image_fd : Z) (context qemu : list Z) : io unit :=
  if image_fd <? 0 then mret tt
  else
    r ← sys (Fstat image_fd);
    let s := status_of_reply r in
    if negb (returned r =? 0) || negb (S_ISREG (st_mode s)) || (st_size s <=? 0) ||
       (MAX_IMAGE <? st_size s)
    then mret tt
    else
      used ← write_new dir (codes "launch.used") context;
      if negb used then mret tt
      else
        let size := Z.to_nat (st_size s) in
        pointer ← value (Malloc size);
        if pointer =? 0 then mret tt else copy_and_exec dir image_fd pointer size qemu.

Definition launch_guest (identity_fd : Z) (session image qemu : list Z) : io bool :=
  if negb (absolute_argument image) || negb (absolute_argument qemu) then mret false
  else
    dir ← directory session false;
    if dir <? 0 then mret false
    else
      read ← identity_read identity_fd;
      let '(ok, identity) := read in
      read ← (if (ok : bool) then read_file dir (codes "launch.context") (buffer 112) 112
              else mret (false, buffer 112));
      let '(ok, context) := read in
      let '(decoded, launch) := tcs_launch_decode (Some context) 112 MODE (Some launch_zero) in
      let valid := ok && decoded && same_identity identity (default launch_zero launch) in
      _ ← (if (valid : bool) then
             image_fd ← value (Open image read_flags);
             _ ← launch_image dir image_fd context qemu;
             if 0 <=? image_fd then perform (Close image_fd) else mret tt
           else mret tt);
      _ ← perform (Close dir);
      mret false.

(** ** The command line *)

Definition lines (text : list String.string) : list Z := flat_map (fun l => codes l ++ [10]) text.

Definition usage_text : list Z := lines
  ["Experimental TCS host tool (no automatic request submission):";
   "  tcs-operator create NEW_IDENTITY_DIR --acknowledge-experimental";
   "  tcs-operator show IDENTITY_DIR";
   "  tcs-operator context IDENTITY_DIR NEW_SESSION_DIR --acknowledge-experimental";
   "  tcs-operator review IDENTITY_DIR SESSION_DIR OP SUBJECT SEQUENCE GENERATION";
   "  tcs-operator sign IDENTITY_DIR SESSION_DIR OP SUBJECT SEQUENCE GENERATION APPROVAL";
   "  tcs-operator launch IDENTITY_DIR SESSION_DIR IMAGE QEMU --acknowledge-experimental";
   "OP: grant | revoke | quarantine | restore. Use canonical decimal numbers.";
   "Use absolute real paths outside Git checkouts; no symlink components.";
   "Launch consumes the session even if exec fails. No key import, overwrite, retry, or receipt recovery."].
Definition refused_text : list Z := lines
  ["Refused: invalid input, unsafe file, mismatched context/approval/key, or I/O failure. Existing/partial files were preserved."].
Definition acknowledge : list Z := codes "--acknowledge-experimental".

Definition usage : io Z := _ ← perform (Perror usage_text); mret 2.

(** The commands, chosen by [argv[1]]. *)
Inductive verb := CREATE | SHOW | CONTEXT | REVIEW | SIGN | LAUNCH.

Definition verb_of (name : list Z) : option verb :=
  if strcmp_equal name (codes "create") then Some CREATE
  else if strcmp_equal name (codes "show") then Some SHOW
  else if strcmp_equal name (codes "context") then Some CONTEXT
  else if strcmp_equal name (codes "review") then Some REVIEW
  else if strcmp_equal name (codes "sign") then Some SIGN
  else if strcmp_equal name (codes "launch") then Some LAUNCH
  else None.

(** The number of arguments each needs, and its acknowledgement. *)
Definition well_formed (v : verb) (argv : list (list Z)) : bool :=
  match v with
  | CREATE => (length argv =? 4)%nat && strcmp_equal (argv !!! 3%nat) acknowledge
  | CONTEXT => (length argv =? 5)%nat && strcmp_equal (argv !!! 4%nat) acknowledge
  | SHOW => (length argv =? 3)%nat
  | REVIEW => (length argv =? 8)%nat
  | SIGN => (length argv =? 9)%nat
  | LAUNCH => (length argv =? 7)%nat && strcmp_equal (argv !!! 6%nat) acknowledge
  end.

Definition show_identity (fd : Z) : io bool :=
  read ← identity_read fd;
  let '(ok, identity) := read in
  _ ← (if (ok : bool) then
         _ ← display (codes "realm") (realm identity);
         display (codes "public_key") (public_key identity)
       else mret tt);
  mret ok.

Definition command (v : verb) (argv : list (list Z)) : io bool :=
  match v with
  | CREATE => create_identity (argv !!! 2%nat)
  | _ =>
      fd ← directory (argv !!! 2%nat) false;
      if fd <? 0 then mret false
      else
        ok ← match v with
             | SHOW => show_identity fd
             | CONTEXT => context_create fd (argv !!! 3%nat)
             | LAUNCH => launch_guest fd (argv !!! 3%nat) (argv !!! 4%nat) (argv !!! 5%nat)
             | SIGN => review_or_sign fd (argv !!! 3%nat) (drop 4 argv) (Some (argv !!! 8%nat))
             | _ => review_or_sign fd (argv !!! 3%nat) (drop 4 argv) NULL
             end;
        _ ← perform (Close fd);
        mret (ok : bool)
  end.

(** The process runs with its own user's rights, without core dumps, and with
    the three standard descriptors open. *)
Fixpoint standard_open (fds : list Z) : io bool :=
  match fds with
  | [] => mret true
  | fd :: fds => r ← value (Fcntl_getfd fd); if r <? 0 then mret false else standard_open fds
  end.

Definition unprivileged : io bool :=
  uid ← value Getuid; euid ← value Geteuid;
  andthen (uid =? euid)
    (gid ← value Getgid; egid ← value Getegid;
     andthen (gid =? egid) (l ← value Setrlimit; mret (l =? 0))).

Definition main (argv : list (list Z)) : io Z :=
  plain ← unprivileged;
  if negb plain then mret 1
  else
    std ← standard_open [0; 1; 2];
    if negb std then mret 1
    else
      _ ← perform (Umask 63);
      if (length argv <? 2)%nat then usage
      else
        match verb_of (argv !!! 1%nat) with
        | None => usage
        | Some v =>
            if negb (well_formed v argv) then usage
            else
              ok ← command v argv;
              f ← value Fflush;
              let ok := ok && (f =? 0) in
              _ ← (if (ok : bool) then mret tt else perform (Perror refused_text));
              mret (if ok then 0 else 1)
        end.
End Operator.
