(* ===== verification/OperatorArgs.v ===== *)
(** The operator's arguments and records: the pure parts of
    [tools/operator.c]. Numbers and commands have exactly one spelling, and the
    private record, the review and the packet have the layouts the formats
    document. *)

From S2P Require Import Prelude Bytes Policy Admin Terminal SignedInput Launch Posix Operator.
Import String.StringSyntax.
#[local] Open Scope string_scope.
#[local] Open Scope Z_scope.

(** ** Numbers *)

(** The loop is the terminal's, with a limit on the number of digits. *)
Lemma number_loop_iff text : forall i v0 v,
  (i <= 20)%nat ->
  number_loop text i v0 = (true, v) <->
  decimal_loop text v0 = Some v /\ (i + length text <= 20)%nat.
Proof.
  induction text as [|c text IH]; intros i v0 v Hi; cbn [number_loop decimal_loop length].
  - rewrite Nat.add_0_r. split; [by intros [= ->]|]. by intros [[= ->] _].
  - rewrite <- orb_assoc. destruct (Nat.eqb_spec i 20) as [->|Hne]; cbn [orb].
    { split; [done|]. intros [_ H]. lia. }
    destruct ((c <? 48) || (57 <? c)); [by split; [|intros [? _]]|].
    destruct ((UINT64_MAX - (c - 48)) / 10 <? v0); [by split; [|intros [? _]]|].
    rewrite IH by lia. by rewrite Nat.add_succ_comm.
Qed.

(** What a numeral is: some digits, not more than 20, the first not a zero
    unless it is alone. *)
Definition is_numeral (text : list Z) : Prop :=
  Forall is_digit text /\ text <> [] /\ (head text = Some 48 -> text = [48]).

Lemma number_iff text v :
  number text = (true, v) <->
  is_numeral text /\ (length text <= 20)%nat /\ v = Terminal.decimal text /\ v <= UINT64_MAX.
Proof.
  assert (Hloop : number_loop text 0 0 = (true, v) <->
    (Forall is_digit text /\ v = Terminal.decimal text /\ v <= UINT64_MAX) /\ (length text <= 20)%nat).
  { rewrite number_loop_iff, decimal_loop_iff by (lia || word_lia). done. }
  unfold number, is_numeral. destruct text as [|c rest]; [by split; [|intros [(_ & H & _) _]]|]. cbn [head].
  destruct ((c =? 48) && negb (bool_decide (rest = []))) eqn:Hc.
  - split; [done|]. intros [(_ & _ & H) _]. apply andb_true_iff in Hc as [->%Z.eqb_eq Hr].
    injection (H eq_refl) as ->. done.
  - rewrite Hloop. split; [intros ((? & ? & ?) & ?)|intros ((? & ? & ?) & ? & ? & ?); done].
    split_and!; try done. intros [= ->]. change (48 =? 48) with true in Hc.
    cbn [andb] in Hc. apply negb_false_iff, bool_decide_eq_true in Hc. by subst rest.
Qed.

Lemma numeral_digits_spec fuel : forall v,
  0 <= v < 10 ^ Z.of_nat (S fuel) ->
  is_numeral (numeral_digits (S fuel) v) /\ (length (numeral_digits (S fuel) v) <= S fuel)%nat /\
  Terminal.decimal (numeral_digits (S fuel) v) = v.
Proof.
  induction fuel as [|fuel IH]; intros v Hv; cbn [numeral_digits];
    pose proof (Z.div_mod v 10 ltac:(lia)) as Hdm; pose proof (Z.mod_pos_bound v 10 ltac:(lia)) as Hmb.
  - assert (E : v / 10 = 0) by (apply Z.div_small; cbn in Hv; lia). rewrite E. cbn [Z.eqb app].
    unfold is_numeral, Terminal.decimal. cbn. split_and!; [|done| |lia|lia].
    + repeat constructor; lia.
    + intros [= H]. by rewrite H.
  - destruct (v / 10 =? 0) eqn:Hq.
    + apply Z.eqb_eq in Hq. unfold is_numeral, Terminal.decimal. cbn. split_and!; [|done| |lia|lia].
      * repeat constructor; lia.
      * intros [= H]. by rewrite H.
    + apply Z.eqb_neq in Hq. change (numeral_digits (S fuel) (v / 10)) with (numeral_digits (S fuel) (v / 10)) in IH.
      destruct (IH (v / 10)) as ((Hd & Hne & Hz) & Hlen & Hval).
      { rewrite Nat2Z.inj_succ, Z.pow_succ_r in Hv by lia.
        split; [apply Z.div_pos; lia|apply Z.div_lt_upper_bound; lia]. }
      cbn [numeral_digits] in *. set (t := _ ++ [48 + v / 10 mod 10]) in *. clearbody t.
      unfold is_numeral. rewrite length_app. cbn [length]. split_and!; [| | |lia|].
      * apply Forall_app_2; [done|]. repeat constructor; lia.
      * by destruct t.
      * destruct t as [|x t]; [done|]. cbn [head app]. intros [= ->]. specialize (Hz eq_refl).
        injection Hz as ->. cbn in Hval. lia.
      * unfold Terminal.decimal in *. rewrite foldl_app. cbn [foldl]. rewrite Hval. lia.
Qed.

Lemma decimal_digits_nonneg t : Forall is_digit t -> 0 <= Terminal.decimal t.
Proof. intros H. unfold Terminal.decimal. by apply (decimal_from_mono t 0). Qed.

(** A numeral that starts with another digit than zero is positive. *)
Lemma decimal_positive c t : Forall is_digit (c :: t) -> c <> 48 -> 0 < Terminal.decimal (c :: t).
Proof.
  intros [Hc Ht]%Forall_cons_1 Hne. unfold Terminal.decimal. cbn [foldl]. unfold is_digit in Hc.
  pose proof (decimal_from_mono t (0 * 10 + (c - 48)) ltac:(lia) Ht). lia.
Qed.

Lemma numeral_unique fuel : forall text,
  is_numeral text -> (length text <= S fuel)%nat ->
  text = numeral_digits (S fuel) (Terminal.decimal text).
Proof.
  induction fuel as [|fuel IH]; intros text (Hd & Hne & Hz) Hlen;
    destruct (exists_last Hne) as (t & x & ->); apply Forall_app in Hd as [Ht Hx];
    apply Forall_cons_1 in Hx as [Hx _]; rewrite length_app in Hlen; cbn [length] in Hlen;
    pose proof (decimal_digits_nonneg t Ht) as Hpos;
    assert (Hval : Terminal.decimal (t ++ [x]) = Terminal.decimal t * 10 + (x - 48))
      by (unfold Terminal.decimal; by rewrite foldl_app);
    rewrite Hval; cbn [numeral_digits]; unfold is_digit in Hx;
    rewrite Z.div_add_l, (Z.div_small (x - 48)), Z.add_0_r by lia;
    rewrite (Z.add_comm (Terminal.decimal t * 10)), Z.mod_add, (Z.mod_small (x - 48)) by lia; replace (48 + (x - 48)) with x by lia.
  - destruct t as [|? ?]; [|cbn [length] in Hlen; lia]. done.
  - destruct t as [|c t]; [done|]. assert (Hc : c <> 48).
    { intros ->. specialize (Hz eq_refl). by destruct t. }
    pose proof (decimal_positive c t Ht Hc). rewrite (proj2 (Z.eqb_neq _ _)) by lia.
    f_equal. apply (IH (c :: t)); [|cbn [length] in *; lia]. split_and!; [done..|]. by intros [= ->].
Qed.

Lemma numeral_spec v :
  u64 v -> is_numeral (numeral v) /\ (length (numeral v) <= 20)%nat /\ Terminal.decimal (numeral v) = v.
Proof.
  intros Hv. apply (numeral_digits_spec 19 v). unfold u64, UINT64_MAX in Hv.
  change (Z.of_nat 20) with 20. change (10 ^ 20) with 100000000000000000000. lia.
Qed.

(** A number has exactly one spelling. *)
Lemma number_exact text v : number text = (true, v) <-> u64 v /\ text = numeral v.
Proof.
  rewrite number_iff. split.
  - intros (Hn & Hlen & -> & Hle). split; [|by apply (numeral_unique 19)].
    split; [|done]. by apply decimal_digits_nonneg, Hn.
  - intros [Hv ->]. destruct (numeral_spec v Hv) as (? & ? & ->). split_and!; try done. apply Hv.
Qed.

(** ** Commands *)

Definition operation_name (op : Z) : list Z :=
  if op =? TCS_GRANT then codes "grant" else if op =? TCS_REVOKE then codes "revoke"
  else if op =? TCS_QUARANTINE then codes "quarantine" else codes "restore".

(** The words of a command: an operation, a subject, a sequence number and the
    expected generation. *)
Definition command_words (c : tcs_admin_command) : list (list Z) :=
  [operation_name (r_op (c_request c)); numeral (r_subject (c_request c)); numeral (c_sequence c);
   numeral (c_expected_generation c)].

Lemma operation_request_iff name r :
  operation_request name = Some r <->
  name = operation_name (r_op r) /\ r_subject r = 0 /\ r_generation r = 0 /\
  ((r_op r = TCS_GRANT /\ r_object r = TCS_OBJECT /\ r_rights r = TCS_READ) \/
   ((r_op r = TCS_REVOKE \/ r_op r = TCS_QUARANTINE \/ r_op r = TCS_RESTORE) /\
    r_object r = 0 /\ r_rights r = 0)).
Proof.
  unfold operation_request, strcmp_equal. split.
  - repeat case_bool_decide; intros [= <-]; cbn; subst; tauto.
  - destruct r as [op s o rt g]; cbn. intros (-> & -> & -> & H).
    destruct H as [(-> & -> & ->)|([->|[->| ->]] & -> & ->)]; reflexivity.
Qed.

Lemma valid_iff c :
  valid c = true <->
  c_sequence c <> 0 /\ r_subject (c_request c) < TCS_SUBJECTS /\ r_generation (c_request c) = 0 /\
  let r := c_request c in
  ((r_op r = TCS_GRANT /\ r_object r = TCS_OBJECT /\ r_rights r = TCS_READ) \/
   ((r_op r = TCS_REVOKE \/ r_op r = TCS_QUARANTINE \/ r_op r = TCS_RESTORE) /\
    r_object r = 0 /\ r_rights r = 0)).
Proof.
  unfold valid, TCS_GRANT, TCS_REVOKE, TCS_QUARANTINE, TCS_RESTORE, TCS_SUBJECTS.
  cbv zeta. repeat split_if; lia.
Qed.

Lemma command_parse_exact args c :
  (4 <= length args)%nat ->
  command_parse args = Some c <-> valid c = true /\ command_u64 c /\ take 4 args = command_words c.
Proof.
  intros Hlen. do 4 (destruct args as [|? args]; [cbn in Hlen; lia|]). clear Hlen.
  unfold command_parse. cbn [lookup_total list_lookup_total take]. rewrite valid_iff.
  unfold command_u64, command_words. split.
  - intros H. destruct (operation_request l) as [r|] eqn:Hr; [|done].
    destruct (number l0) as [[|] subject] eqn:H0; [|done]. cbn [negb orb] in H.
    destruct (subject <? TCS_SUBJECTS) eqn:Hs; [|done].
    destruct (number l1) as [[|] sequence] eqn:H1; [|done]. cbn [negb orb] in H.
    destruct (truthy sequence) eqn:Hq; [|done].
    destruct (number l2) as [[|] generation] eqn:H2; [|done]. injection H as <-.
    apply number_exact in H0 as [? ->], H1 as [? ->], H2 as [? ->].
    apply operation_request_iff in Hr as (-> & _ & Hg & Hop).
    cbn [c_request c_sequence c_expected_generation r_op r_subject r_object r_rights r_generation].
    assert (u64 (r_op r) /\ u64 (r_object r) /\ u64 (r_rights r)) as (? & ? & ?)
      by (destruct Hop as [(-> & -> & ->)|([->|[->| ->]] & -> & ->)]; by vm_compute).
    unfold truthy in Hq. split_and!; try done; lia.
  - intros ((Hq & Hs & Hg & Hop) & (Hu1 & Hu2 & Hu3 & Hu4 & Hu5 & Hu6) & [= -> -> -> ->]).
    assert (Hr : operation_request (operation_name (r_op (c_request c))) =
      Some {| r_op := r_op (c_request c); r_subject := 0; r_object := r_object (c_request c);
              r_rights := r_rights (c_request c); r_generation := 0 |}).
    { apply operation_request_iff. by cbn. }
    assert (Hn : forall v, u64 v -> number (numeral v) = (true, v)) by (intros; by apply number_exact).
    rewrite Hr, !Hn by done. cbn [negb orb].
    rewrite (proj2 (Z.ltb_lt _ _)) by done. cbn [negb orb].
    replace (truthy (c_sequence c)) with true by (unfold truthy; lia). cbn [negb orb].
    cbn [r_op r_object r_rights r_generation]. rewrite <- Hg. by destruct c as [? ? []].
Qed.

(** ** Records *)

Section Records.
Context (MODE : Z) (crypto_ed25519_sign : list Z -> list Z -> list Z).

(** The formats, as concatenations of their fields. *)
Definition key_layout (realm seed : list Z) : list Z := head_of key_prefix MODE ++ realm ++ seed.
Definition review_layout (public_key message : list Z) : list Z :=
  (review_header ++ replicate 4 0 ++ [MODE]) ++ public_key ++ message.

Lemma key_record_layout realm seed :
  length realm = 32%nat -> length seed = 32%nat -> key_record MODE realm seed = key_layout realm seed.
Proof.
  intros Hr Hs. unfold key_record, key_layout, buffer.
  change (replicate 80 0) with (replicate 16 0 ++ replicate 32 0 ++ replicate 32 0).
  rewrite blit_here by done. rewrite insert_mode by done.
  pose proof (head_length key_prefix MODE eq_refl) as Hh. layout.
  by rewrite <- (app_nil_r (replicate 32 0)), blit_here, app_nil_r by (rewrite length_replicate; done).
Qed.

Lemma review_record_layout key packet :
  length key = 32%nat -> (128 <= length packet)%nat ->
  review_record MODE key packet = review_layout key (take 128 packet).
Proof.
  intros Hk Hp. unfold review_record, review_layout, buffer. rewrite (take_ge key) by lia.
  assert (Hm : length (take 128 packet) = 128%nat) by (rewrite length_take; lia).
  change (replicate 176 0) with (replicate 11 0 ++ replicate 4 0 ++ [0] ++ replicate 32 0 ++ replicate 128 0).
  rewrite blit_here by done.
  replace (review_header ++ replicate 4 0 ++ [0] ++ replicate 32 0 ++ replicate 128 0) with
    ((review_header ++ replicate 4 0 ++ [0]) ++ replicate 32 0 ++ replicate 128 0) by done.
  rewrite insert_app_l by (cbn; lia).
  change (<[15%nat := MODE]> (review_header ++ replicate 4 0 ++ [0])) with
    (review_header ++ replicate 4 0 ++ [MODE]).
  set (h := review_header ++ replicate 4 0 ++ [MODE]). assert (Hh : length h = 16%nat) by done.
  clearbody h. layout.
  by rewrite <- (app_nil_r (replicate 128 0)), blit_here, app_nil_r by (rewrite length_replicate; done).
Qed.

Lemma sign_packet_layout secret message rest :
  length message = 128%nat -> length rest = 64%nat ->
  length (crypto_ed25519_sign secret message) = 64%nat ->
  sign_packet crypto_ed25519_sign secret (message ++ rest) =
    message ++ crypto_ed25519_sign secret message.
Proof.
  intros Hm Hr Hs. unfold sign_packet. rewrite take_app_length' by done.
  rewrite (blit_skip 128) by (done || lia). cbn [Nat.sub].
  by rewrite <- (app_nil_r rest), blit_here, app_nil_r by (by rewrite Hr).
Qed.
End Records.

(** The file name fits the code's buffer of 64. *)
Lemma request_name_length sequence : u64 sequence -> (length (request_name sequence) < 64)%nat.
Proof.
  intros Hs. unfold request_name. rewrite !length_app. pose proof (numeral_spec sequence Hs) as (_ & Hl & _).
  change (length (codes "request-")) with 8%nat. change (length (codes ".bin")) with 4%nat. lia.
Qed.

(** An idle administrator of that realm and boot, at that sequence number,
    admits the command's message with a valid signature. *)
Lemma admits_signed check a c signature :
  admin_identity_ok a -> a_initialized a = true -> a_pending_sequence a = 0 -> a_exhausted a = false ->
  a_next_sequence a = c_sequence c -> valid c = true -> command_u64 c -> length signature = 64%nat ->
  check signature (a_public_key a) (message_of (a_realm a) (a_boot a) c) = 0 ->
  tcs_admin_admit check (Some a) (Some (message_of (a_realm a) (a_boot a) c ++ signature)) 192
    (Some command_zero) = (TCS_ADMIN_ACCEPTED, Some (consume a (c_sequence c)), Some c).
Proof.
  intros (Hr & Hb & _) Hi Hp He Hn Hv Hu Hs Hck. apply admit_accepted_iff.
  pose proof (message_of_length (a_realm a) (a_boot a) c Hr Hb) as Hlen. unfold TCS_ADMIN_MESSAGE_BYTES in Hlen.
  rewrite packet_command_message by auto using valid_generation.
  rewrite !equal_slice, equal_spec by (rewrite ?length_app, ?Hlen; cbn; lia).
  replace (slice (message_of (a_realm a) (a_boot a) c ++ signature) 128 64) with signature by
    (rewrite (slice_skip 128) by (done || lia); cbn [Nat.sub]; by rewrite slice_all).
  rewrite (take_app_length' _ _ 128) by done.
  split_and!; try done; unfold message_of; rewrite <- !app_assoc; by layout || done.
Qed.

(** Reading the private record back: the mode, realm and public half decide. *)
Lemma key_of_record MODE key_pair rl seed id :
  length rl = 32%nat -> length seed = 32%nat -> length (snd (key_pair seed)) = 32%nat -> identity_ok id ->
  key_of MODE key_pair (key_layout MODE rl seed) id =
    if bool_decide (rl = realm id) && bool_decide (snd (key_pair seed) = public_key id)
    then (true, fst (key_pair seed)) else (false, buffer 64).
Proof.
  intros Hr Hs Hk [Hir Hik]. unfold key_of.
  pose proof (head_length key_prefix MODE eq_refl) as Hh.
  assert (Hlen : length (key_layout MODE rl seed) = 80%nat) by (unfold key_layout; rewrite !length_app; lia).
  assert (H15 : key_layout MODE rl seed !!! 15%nat = MODE) by done.
  assert (Hp : equal (key_layout MODE rl seed) key_prefix 15 = true)
    by (apply equal_spec; [lia|cbn; lia|done]).
  rewrite H15, Z.eqb_refl, Hp. cbn [negb orb].
  assert (Hrealm : equal (drop 16 (key_layout MODE rl seed)) (realm id) 32 = bool_decide (rl = realm id)).
  { apply eq_true_iff_eq. rewrite bool_decide_eq_true, equal_slice by lia.
    unfold key_layout. by layout. }
  assert (Hseed : slice (key_layout MODE rl seed) 48 32 = seed) by (unfold key_layout; by layout).
  rewrite Hrealm, Hseed. destruct (bool_decide (rl = realm id)); cbn [negb andb]; [|done].
  destruct (key_pair seed) as [secret key]. cbn [fst snd] in *.
  assert (Hkey : equal key (public_key id) 32 = bool_decide (key = public_key id)).
  { apply eq_true_iff_eq. rewrite bool_decide_eq_true, equal_spec by lia. by rewrite !take_ge by lia. }
  rewrite Hkey. by destruct (bool_decide _).
Qed.
