(* ===== verification/OperatorFiles.v ===== *)
(** What the operator tool does to files: contracts of the descriptor helpers
    of [tools/operator.c], under an authority that says which files the process
    may touch, and with every loop's end proved from its fuel. *)

From S2P Require Import Prelude Bytes Terminal SignedInput Posix Operator.
Import String.StringSyntax.
#[local] Open Scope string_scope.
#[local] Open Scope Z_scope.

(** ** Authorities *)

Definition path : Type := list (list Z).

(** What a process may do to the file system where it stands. *)
Record authority := {
  may_read : view -> path -> Prop;
  may_create : view -> path -> Prop;
  may_make : view -> path -> Prop;
  may_exec : view -> list Z -> list (list Z) -> Prop
}.

(** How an open may be meant: to walk through a directory, to read a file, or to
    create one that must not exist; never through a symbolic link. *)
Definition has (f : flag) (flags : list flag) : bool := bool_decide (f ∈ flags).
Definition walks (flags : list flag) : bool :=
  has O_DIRECTORY flags && has O_NOFOLLOW flags && negb (has O_WRONLY flags) && negb (has O_CREAT flags).
Definition reads (flags : list flag) : bool :=
  negb (has O_DIRECTORY flags) && has O_NOFOLLOW flags && negb (has O_WRONLY flags) && negb (has O_CREAT flags).
Definition creates (flags : list flag) : bool :=
  has O_CREAT flags && has O_EXCL flags && has O_NOFOLLOW flags.

Lemma reads_only flags : reads flags = true -> walks flags = false /\ creates flags = false.
Proof. unfold reads, walks, creates. by destruct (has O_DIRECTORY _), (has O_CREAT _), (has O_WRONLY _), (has O_NOFOLLOW _). Qed.

(** A file is created with mode 0600 and a directory with 0700, for the owner
    alone; bytes go to files the process created. *)
Definition permits (a : authority) (g : view) (c : call) : Prop :=
  match c with
  | Open p flags =>
      (walks flags = true /\ p = codes "/") \/ (reads flags = true /\ may_read a g (tokens p))
  | Openat dir name flags mode =>
      walks flags = true \/
      (reads flags = true /\ may_read a g (path_at g dir name)) \/
      (creates flags = true /\ mode = 384 /\ may_create a g (path_at g dir name))
  | Mkdirat dir name mode => mode = 448 /\ may_make a g (path_at g dir name)
  | Write fd _ => from_option f_new false (live g !! fd) = true
  | Execv p args => may_exec a g p args
  | _ => True
  end.

(** A file the process is done with, and a directory it holds. *)
Definition held (p : path) (new : bool) (bytes : list Z) (synced : bool) : file :=
  {| f_path := p; f_dir := false; f_new := new; f_bytes := bytes; f_synced := synced |}.
Definition held_dir (p : path) : file :=
  {| f_path := p; f_dir := true; f_new := false; f_bytes := []; f_synced := false |}.

(** Between two points the process finished the files [l], made the
    directories [d], and holds what it held. *)
Definition kept (g g' : view) (l : list file) (d : list path) : Prop :=
  live g' = live g /\ past g' = past g ++ l /\ made g' = made g ++ d /\ printed g' = printed g.

Lemma kept_refl g : kept g g [] [].
Proof. unfold kept. by rewrite !app_nil_r. Qed.

(** No file was finished and nothing printed. *)
Definition idle (g g' : view) : Prop := past g' = past g /\ printed g' = printed g.

#[export] Instance idle_preorder : PreOrder idle.
Proof. split; [by intros g|]. intros g1 g2 g3 [Hp Hq] [Hp' Hq']. split; congruence. Qed.

Lemma kept_idle g g' d : kept g g' [] d -> live g' = live g /\ idle g g' /\ made g' = made g ++ d.
Proof. intros (? & Hp & ? & ?). rewrite app_nil_r in Hp. by split_and!. Qed.

Lemma idle_kept g g' d : live g' = live g -> idle g g' -> made g' = made g ++ d -> kept g g' [] d.
Proof. intros ? [Hp ?] ?. unfold kept. by rewrite app_nil_r. Qed.

Lemma kept_trans g1 g2 g3 l1 l2 d1 d2 :
  kept g1 g2 l1 d1 -> kept g2 g3 l2 d2 -> kept g1 g3 (l1 ++ l2) (d1 ++ d2).
Proof. unfold kept. intros (-> & -> & -> & ->) (-> & -> & -> & ->). by rewrite !app_assoc. Qed.

Definition some_kept (g g' : view) : Prop := exists l d, kept g g' l d.

Lemma some_kept_intro g g' l d : kept g g' l d -> some_kept g g'.
Proof. by exists l, d. Qed.

Lemma some_kept_trans g1 g2 g3 : some_kept g1 g2 -> some_kept g2 g3 -> some_kept g1 g3.
Proof. intros (l1 & d1 & H1) (l2 & d2 & H2). eexists _, _. by eapply kept_trans. Qed.

#[export] Instance some_kept_preorder : PreOrder some_kept.
Proof. split; [intros g; eapply some_kept_intro, kept_refl|intros g; apply some_kept_trans]. Qed.

#[export] Hint Resolve kept_refl some_kept_intro : tcs.

Section Contracts.
Context (apple : bool) (fuel : nat) (A : authority) (budget : option nat).

#[local] Abbreviation safe := (sat (permits A) budget).

(** Enough fuel for a loop over [n] bytes. *)
Definition enough (n : nat) : Prop :=
  match budget with Some k => (n + k < fuel)%nat | None => True end.

(** Enough fuel left in a loop that has [rest] bytes to go. *)
Definition fuelled (n rest : nat) (g : view) : Prop :=
  match budget with Some k => (rest + (k - delays g) < n)%nat | None => True end.

Lemma enough_fuelled n g : enough n -> fuelled fuel n g.
Proof. unfold enough, fuelled. destruct budget; lia. Qed.

Lemma fuelled_delay n rest g :
  fuelled (S n) rest g -> within budget (delayed g) -> fuelled n rest (delayed g).
Proof. unfold fuelled, within. destruct budget; cbn; lia. Qed.

Lemma fuelled_progress n rest rest' g g' :
  fuelled (S n) rest g -> delays g' = delays g -> (rest' < rest)%nat -> fuelled n rest' g'.
Proof. unfold fuelled. destruct budget; lia. Qed.

Lemma out_of_fuel rest g : fuelled 0 rest g -> stuck budget.
Proof. unfold fuelled, stuck. destruct budget; lia. Qed.

(** ** Checks that change nothing *)

(** A call the view does not record, in the three ways programs make one. *)
Definition quiet (g : view) (c : call) : Prop := permits A g c /\ forall r, observe g c r = g.

Lemma quiet_sys {B} c (f : reply -> io B) g Q :
  quiet g c -> (forall r, safe (f r) g Q) -> safe (sys c ≫= f) g Q.
Proof. intros [Hp Ho] Hf. split; [done|]. intros r _ _. rewrite Ho. apply Hf. Qed.

Lemma quiet_value {B} c (f : Z -> io B) g Q :
  quiet g c -> (forall v, safe (f v) g Q) -> safe (value c ≫= f) g Q.
Proof. intros [Hp Ho] Hf. split; [done|]. intros r _ _. rewrite Ho. apply Hf. Qed.

Lemma quiet_perform {B} c (f : unit -> io B) g Q :
  quiet g c -> safe (f tt) g Q -> safe (perform c ≫= f) g Q.
Proof. intros [Hp Ho] Hf. split; [done|]. intros r _ _. rewrite Ho. apply Hf. Qed.
End Contracts.

Ltac quiet_step :=
  lazymatch goal with
  | |- sat _ _ (mret _) _ _ => apply sat_ret
  | |- sat _ _ (sys _ ≫= _) _ _ => apply quiet_sys; [by split|intros ?]
  | |- sat _ _ (value _ ≫= _) _ _ => apply quiet_value; [by split|intros ?]
  | |- sat _ _ (perform _ ≫= _) _ _ => apply quiet_perform; [by split|]
  | |- sat _ _ (_ ≫= _) _ _ => apply sat_bind
  | |- sat _ _ (andthen _ _) _ _ => apply sat_andthen; intros ?
  | |- sat _ _ (if _ then _ else _) _ _ => apply sat_if; intros ?
  | |- sat _ _ (let _ := _ in _) _ _ => cbv zeta
  end.

(** ** Path components *)

(** The path with the given components. *)
Definition path_text (parts : list (list Z)) : list Z := flat_map (fun p => slash :: p) parts.

Lemma double_slash_cons c rest :
  double_slash (c :: rest) = false ->
  double_slash rest = false /\ (c = slash -> head rest <> Some slash).
Proof.
  destruct rest as [|c' rest]; [done|]. cbn [double_slash].
  intros [Hc Hr]%orb_false_iff. split; [done|]. intros -> [= ->]. by rewrite Z.eqb_refl in Hc.
Qed.

Lemma tokens_from_join rest : forall part,
  part <> [] \/ (rest <> [] /\ head rest <> Some slash) ->
  double_slash rest = false -> last rest <> Some slash ->
  path_text (tokens_from part rest) = slash :: part ++ rest.
Proof.
  unfold path_text. induction rest as [|c rest IH]; intros part Hpart Hd Hl; cbn [tokens_from].
  - destruct Hpart as [Hpart|[? _]]; [|done]. rewrite bool_decide_false by done. cbn. by rewrite !app_nil_r.
  - apply double_slash_cons in Hd as [Hd Hslash].
    assert (Hlast : rest <> [] -> last rest <> Some slash).
    { intros Hne. destruct rest as [|x rest]; [done|]. exact Hl. }
    destruct (c =? slash) eqn:Hc.
    + apply Z.eqb_eq in Hc as ->. destruct Hpart as [Hpart|[_ Hp]]; [|by destruct Hp].
      rewrite bool_decide_false by done.
      assert (Hne : rest <> []) by by intros ->.
      cbn [app flat_map]. f_equal. f_equal. rewrite IH; auto.
    + rewrite <- app_assoc in IH || idtac.
      destruct (decide (rest = [])) as [->|Hne].
      * cbn [tokens_from]. rewrite bool_decide_false by by destruct part. cbn. by rewrite app_nil_r.
      * rewrite IH; [by rewrite <- app_assoc|left; by destruct part|done|auto].
Qed.

(** A path [directory] walks is spelled by its components, of which there is
    at least one. *)
Lemma tokens_join name :
  name !!! 0%nat = slash -> name !!! (length name - 1)%nat <> slash -> double_slash name = false ->
  name <> [] -> path_text (tokens name) = name.
Proof.
  intros H0 Hl Hd Hne. destruct name as [|c name]; [done|]. cbn in H0. subst c.
  apply double_slash_cons in Hd as [Hd Hslash]. unfold tokens. cbn [tokens_from].
  rewrite Z.eqb_refl, bool_decide_true by done. cbn [app].
  destruct (decide (name = [])) as [->|Hn]; [done|].
  apply tokens_from_join; [right; auto|done|].
  intros Hlast. apply Hl. destruct (exists_last Hn) as (n' & x & ->).
  rewrite last_snoc in Hlast. injection Hlast as ->.
  cbn [length]. rewrite Nat.sub_succ, Nat.sub_0_r.
  apply list_lookup_total_correct. rewrite app_comm_cons, lookup_app_r; cbn [length]; rewrite length_app; cbn [length]; [|lia].
  by replace (length n' + 1 - S (length n'))%nat with 0%nat by lia.
Qed.

Lemma tokens_nonempty name :
  name !!! 0%nat = slash -> name !!! (length name - 1)%nat <> slash -> double_slash name = false ->
  name <> [] -> tokens name <> [].
Proof.
  intros H0 Hl Hd Hne Ht. pose proof (tokens_join name H0 Hl Hd Hne) as H. rewrite Ht in H. by destruct name.
Qed.

(** What the first test of [directory] lets through. *)
Lemma directory_guard (name : list Z) :
  (Nat.min (length name) 4096 =? 0)%nat || (4096 <=? Nat.min (length name) 4096)%nat ||
  negb (name !!! 0%nat =? slash) || (name !!! (Nat.min (length name) 4096 - 1)%nat =? slash) ||
  double_slash name = false ->
  name <> [] /\ (length name < 4096)%nat /\ name !!! 0%nat = slash /\
  name !!! (length name - 1)%nat <> slash /\ double_slash name = false.
Proof.
  generalize 4096%nat as limit. intros limit H.
  repeat (apply orb_false_iff in H as [H ?]). bools.
  apply Nat.eqb_neq in H. apply Nat.leb_gt in H3. rewrite Nat.min_l in * by lia.
  split_and!; try done; [by intros ->|by apply Z.eqb_neq].
Qed.

Section Helpers.
Context (apple : bool) (fuel : nat) (A : authority) (budget : option nat).

#[local] Abbreviation safe := (sat (permits A) budget).

Lemma no_acl_quiet fd g (Q : bool -> view -> Prop) : (forall b, Q b g) -> safe (no_acl apple fd) g Q.
Proof.
  intros HQ. unfold no_acl. destruct apple; [by repeat quiet_step|].
  generalize [codes "system.posix_acl_access"; codes "system.posix_acl_default"].
  intros names. induction names as [|name names IH]; [apply HQ|]. cbn [no_xattr].
  by repeat quiet_step.
Qed.

Lemma private_dir_quiet fd g (Q : bool -> view -> Prop) :
  (forall b, Q b g) -> safe (private_dir apple fd) g Q.
Proof. intros HQ. unfold private_dir. repeat quiet_step; try done. by apply no_acl_quiet. Qed.

Lemma outside_repository_quiet fd g (Q : bool -> view -> Prop) :
  (forall b, Q b g) -> safe (outside_repository fd) g Q.
Proof. intros HQ. unfold outside_repository. by repeat quiet_step. Qed.

(** ** Calls the view records *)

Lemma sat_sys_bind {B} c (f : reply -> io B) g Q :
  permits A g c ->
  (forall r, documented g c r = true -> within budget (observe g c r) -> safe (f r) (observe g c r) Q) ->
  safe (sys c ≫= f) g Q.
Proof. by split. Qed.

Lemma sat_value_bind {B} c (f : Z -> io B) g Q :
  permits A g c ->
  (forall r, documented g c r = true -> safe (f (returned r)) (observe g c r) Q) ->
  safe (value c ≫= f) g Q.
Proof. intros Hp Hf. split; [done|]. intros r Hd _. by apply Hf. Qed.

(** The view after a descriptor is closed. *)
Definition close_in (g : view) (fd : Z) : view :=
  {| live := delete fd (live g); past := past g ++ closed (live g !! fd);
     made := made g; printed := printed g; delays := delays g |}.

Lemma sat_close {B} fd (f : unit -> io B) g Q :
  safe (f tt) (close_in g fd) Q -> safe (perform (Close fd) ≫= f) g Q.
Proof. by split. Qed.

Lemma sat_close_value {B} fd (f : Z -> io B) g Q :
  (forall c, safe (f c) (close_in g fd) Q) -> safe (value (Close fd) ≫= f) g Q.
Proof. intros Hf. apply sat_value_bind; [done|]. intros r _. apply Hf. Qed.

(** A new descriptor is not one that is held. *)
Lemma sat_open {B} c (file : file) (f : Z -> io B) g Q :
  permits A g c ->
  (forall r, observe g c r =
     if 0 <=? returned r then set_live g (<[returned r := file]> (live g)) else g) ->
  (forall r, documented g c r = (returned r <? 0) || bool_decide (live g !! returned r = None)) ->
  (forall fd, fd < 0 -> safe (f fd) g Q) ->
  (forall fd, 0 <= fd -> live g !! fd = None ->
     safe (f fd) (set_live g (<[fd := file]> (live g))) Q) ->
  safe (value c ≫= f) g Q.
Proof.
  intros Hp Ho Hd Hneg Hpos. apply sat_value_bind; [done|]. intros r Hr. rewrite Ho.
  rewrite Hd in Hr. destruct (Z.leb_spec 0 (returned r)); [|by apply Hneg].
  apply Hpos; [done|]. apply orb_true_iff in Hr as [Hr|Hr]; [lia|].
  by apply bool_decide_eq_true in Hr.
Qed.

(** ** Walking to a directory *)

(** How a walk from the directory [p], held at [fd], may end. *)
Definition walked (create : bool) (fd : Z) (p parts : path) (g : view) (r : Z) (g' : view) : Prop :=
  idle g g' /\
  ((r = -1 /\ live g' = delete fd (live g) /\ exists d, made g' = made g ++ d) \/
   (0 <= r /\ delete fd (live g) !! r = None /\
    live g' = <[r := held_dir (p ++ parts)]> (delete fd (live g)) /\
    made g' = made g ++ (if create && negb (bool_decide (parts = [])) then [p ++ parts] else []))).

Lemma close_dir g fd p : live g !! fd = Some (held_dir p) -> idle g (close_in g fd).
Proof. intros H. unfold close_in, idle. rewrite H. cbn. by rewrite app_nil_r. Qed.

Lemma abandon create fd p parts g g1 d :
  live g !! fd = Some (held_dir p) -> kept g g1 [] d ->
  safe (_ ← perform (Close fd); mret (-1)) g1 (walked create fd p parts g).
Proof.
  intros Hg (Hl & Hp & Hm)%kept_idle. apply sat_close, sat_ret. split.
  - etrans; [exact Hp|]. eapply close_dir. by rewrite Hl.
  - left. cbn [close_in live made]. rewrite Hl. eauto.
Qed.

(** A directory that was made or is only walked through is not a finished file. *)
Lemma make_dir fd p name g (f : bool -> io Z) Q :
  live g !! fd = Some (held_dir p) -> (forall g', may_make A g' (p ++ [name])) ->
  (forall b g1 d, kept g g1 [] d -> (b = false -> d = [p ++ [name]]) -> safe (f b) g1 Q) ->
  safe ((m ← value (Mkdirat fd name mode_0700);
         if negb (m =? 0) then mret true
         else s ← value (Fsync fd); mret (negb (s =? 0))) ≫= f) g Q.
Proof.
  intros Hg Hmake Hf. apply sat_bind, sat_value_bind.
  { split; [done|]. unfold path_at. rewrite Hg. apply Hmake. }
  intros r _. cbn [observe]. unfold path_at. rewrite Hg. cbn [from_option held_dir f_path].
  destruct (returned r =? 0); cbn [negb].
  - apply sat_value_bind; [done|]. intros s _. cbn [observe]. destruct (returned s =? 0).
    + apply sat_ret, (Hf _ _ [p ++ [name]]); [|done]. apply idle_kept; [|done..].
      cbn [set_live live]. rewrite alter_id; [done|]. intros x Hx. cbn in Hx. by simplify_eq.
    + apply sat_ret, (Hf _ _ [p ++ [name]]); [|done]. by apply idle_kept.
  - apply sat_ret, (Hf _ _ []); [|done]. apply kept_refl.
Qed.

(** One step down: the child replaces its parent. *)
Lemma step_down create fd p part next g g1 d :
  live g !! fd = Some (held_dir p) -> kept g g1 [] d ->
  d = (if create && bool_decide (next = []) then [p ++ part :: next] else []) ->
  (forall child g2, 0 <= child -> live g2 !! child = Some (held_dir (p ++ [part])) ->
     safe (walk apple create child next) g2 (walked create child (p ++ [part]) next g2)) ->
  safe (child ← value (Openat fd part dir_flags 0); _ ← perform (Close fd);
        if child <? 0 then mret (-1) else walk apple create child next) g1
    (walked create fd p (part :: next) g).
Proof.
  intros Hg Hk Hd Hwalk. pose proof (kept_idle _ _ _ Hk) as (Hl & Hp & Hm).
  apply (sat_open _ (held_dir (p ++ [part]))); [by left| |done|..].
  - intros r. cbn [observe]. unfold path_at. by rewrite Hl, Hg.
  - intros child Hneg. rewrite (proj2 (Z.ltb_lt _ _)) by done. by apply (abandon _ _ _ _ _ _ d).
  - intros child Hpos Hfresh. apply sat_close. rewrite (proj2 (Z.ltb_ge _ _)) by done.
    rewrite Hl in Hfresh. assert (Hne : child <> fd) by congruence.
    set (g2 := set_live g1 _). assert (Hl2 : live (close_in g2 fd) = <[child := held_dir (p ++ [part])]> (delete fd (live g))).
    { cbn [close_in live set_live g2]. by rewrite Hl, delete_insert_ne by done. }
    assert (Hp2 : idle g (close_in g2 fd)).
    { etrans; [exact Hp|]. apply (close_dir g2 fd p). cbn [g2 set_live live].
      by rewrite lookup_insert_ne, Hl by done. }
    assert (Hdel : delete child (live (close_in g2 fd)) = delete fd (live g)).
    { rewrite Hl2, delete_insert_id; [done|]. by rewrite lookup_delete_ne by done. }
    eapply sat_mono; [apply Hwalk; [done|by rewrite Hl2, lookup_insert_eq]|].
    intros r g' (Hpa & Hr). unfold walked. rewrite Hdel in Hr. split; [by etrans|].
    cbn [close_in made g2 set_live] in Hr. rewrite Hm in Hr.
    destruct Hr as [(-> & Hlr & dr & Hmr)|(Hr & Hf & Hlr & Hmr)]; [left|right].
    + split_and!; [done..|]. rewrite Hmr, <- app_assoc. eauto.
    + rewrite <- app_assoc in Hlr, Hmr. split_and!; [done..|]. rewrite Hmr, Hd, <- app_assoc. f_equal.
      destruct create; [|done]. cbn [andb]. by destruct next.
Qed.

Lemma walk_run create parts : forall fd p g,
  0 <= fd -> live g !! fd = Some (held_dir p) ->
  (create = true -> forall g', may_make A g' (p ++ parts)) ->
  safe (walk apple create fd parts) g (walked create fd p parts g).
Proof.
  induction parts as [|part next IH]; intros fd p g Hfd Hg Hmake; cbn [walk].
  - apply sat_bind, private_dir_quiet. intros b. apply sat_bind.
    assert (Hend : forall ok, safe (if negb ok then _ ← perform (Close fd); mret (-1) else mret fd) g
                                (walked create fd p [] g)).
    { intros [|]; [|by eapply abandon, kept_refl]. apply sat_ret. split; [done|right].
      rewrite lookup_delete_eq, app_nil_r, insert_delete_eq, insert_id by done.
      by rewrite andb_false_r, app_nil_r. }
    apply sat_andthen; intros _; [apply outside_repository_quiet|]; intros; apply Hend.
  - assert (Hdown : forall child g2, 0 <= child -> live g2 !! child = Some (held_dir (p ++ [part])) ->
      safe (walk apple create child next) g2 (walked create child (p ++ [part]) next g2)).
    { intros child g2 Hc Hl. apply IH; [done..|]. rewrite <- app_assoc. exact Hmake. }
    apply sat_bind. apply sat_andthen; intros _; [apply outside_repository_quiet; intros [|]|];
      cbn [negb]; [|by eapply abandon, kept_refl..].
    destruct (bool_decide (next = []) && create) eqn:Hlast; cbn [andthen].
    + apply andb_true_iff in Hlast as [Hlast ->]. pose proof Hlast as ->%bool_decide_eq_true.
      apply make_dir with p; [done|by apply Hmake|]. intros [|] g1 d Hk Hd; [by eapply abandon|].
      eapply step_down; [done..| |done]. by apply Hd.
    + eapply step_down; [done|apply kept_refl| |done]. by rewrite andb_comm, Hlast.
Qed.

(** [directory]: nothing is held if it fails, and otherwise the directory of
    that path is, made if it was to be made. *)
Lemma directory_run create name g :
  (create = true -> forall g', may_make A g' (tokens name)) ->
  safe (directory apple name create) g (fun r g' =>
    idle g g' /\
    ((r = -1 /\ live g' = live g /\ exists d, made g' = made g ++ d) \/
     (0 <= r /\ live g !! r = None /\ live g' = <[r := held_dir (tokens name)]> (live g) /\
      made g' = made g ++ (if create then [tokens name] else [])))).
Proof.
  intros Hmake. unfold directory. apply sat_if; intros Hbad.
  { apply sat_ret. split; [done|left]. split_and!; [done..|]. exists []. by rewrite app_nil_r. }
  apply (sat_open _ (held_dir [])); [by left|done..| |].
  - intros fd Hfd. rewrite (proj2 (Z.ltb_lt _ _)) by done. apply sat_ret. split; [done|left].
    split_and!; [done..|]. exists []. by rewrite app_nil_r.
  - intros fd Hfd Hfresh. rewrite (proj2 (Z.ltb_ge _ _)) by done.
    eapply sat_mono; [apply walk_run; [done|apply lookup_insert_eq|exact Hmake]|].
    intros r g' (Hp & Hr). cbn [app set_live live made] in Hr.
    rewrite delete_insert_id in Hr by done. split; [done|].
    destruct Hr as [Hr|(Hr & Hf & Hl & Hm)]; [by left|right]. split_and!; [done..|].
    rewrite Hm. destruct create; [|done]. cbn [andb].
    apply directory_guard in Hbad as (Hne & _ & H0 & Hlast & Hd).
    by rewrite bool_decide_false by by apply tokens_nonempty.
Qed.

(** ** Reading *)

Lemma is_byte_list l : forallb is_byte l = true -> byte_list l.
Proof.
  intros H. rewrite forallb_forall in H. apply List.Forall_forall. intros b Hb.
  specialize (H b Hb). unfold is_byte, u8 in *. lia.
Qed.

Lemma alter_live {B} (f : B -> B) (m : gmap Z B) i x : m !! i = Some x -> alter f i m = <[i := f x]> m.
Proof. intros H. rewrite <- (insert_id m i x H) at 1. by rewrite alter_insert_eq. Qed.

(** Bytes read are added to what was read of the file. *)
Lemma moved_held p new b1 b2 : moved b2 (held p new b1 false) = held p new (b1 ++ b2) false.
Proof. done. Qed.

(** A reading loop and what it leaves: some bytes of the file were read, and
    if it succeeds they are the whole buffer. *)
Definition read_result (fd : Z) (p : path) (new : bool) (len : nat) (g : view)
    (r : bool * list Z) (g' : view) : Prop :=
  idle g g' /\ made g' = made g /\
  exists bytes, live g' = <[fd := held p new bytes false]> (live g) /\
    (fst r = true -> bytes = snd r /\ length (snd r) = len /\ byte_list (snd r)).

Lemma sat_read {B} fd count (f : reply -> io B) g file Q :
  live g !! fd = Some file ->
  (forall r, interrupted r = true -> within budget (delayed g) -> safe (f r) (delayed g) Q) ->
  (forall r, interrupted r = false -> returned r < 0 -> safe (f r) g Q) ->
  (forall r, interrupted r = false -> 0 <= returned r <= Z.of_nat count ->
     returned r = Z.of_nat (length (bytes_of_reply r)) -> byte_list (bytes_of_reply r) ->
     safe (f r) (set_live g (<[fd := moved (bytes_of_reply r) file]> (live g))) Q) ->
  safe (sys (Read fd count) ≫= f) g Q.
Proof.
  intros Hg Hi Hn Hp. apply sat_sys_bind; [done|]. intros r Hd Hw. cbn [observe documented] in *.
  destruct (interrupted r) eqn:Hint; [by apply Hi|].
  destruct (Z.leb_spec 0 (returned r)); [|by apply Hn]. unfold transfer. rewrite (alter_live _ _ _ file) by done.
  apply orb_true_iff in Hd as [Hd|Hd]; [lia|]. apply andb_true_iff in Hd as [Hd Hb].
  apply andb_true_iff in Hd as [Hle Hlen]. apply Hp; [done|lia|lia|by apply is_byte_list].
Qed.

Lemma take_blit (buf data : list Z) off :
  (off + length data <= length buf)%nat -> take (off + length data) (blit buf off data) = take off buf ++ data.
Proof.
  intros H. unfold blit. rewrite app_assoc, take_app_length' by
    (rewrite length_app, length_take; lia). done.
Qed.

Lemma read_loop_run fd p new len n : forall buf sofar g,
  live g !! fd = Some (held p new (take sofar buf) false) ->
  length buf = len -> byte_list buf -> (sofar <= len)%nat -> fuelled budget n (len - sofar) g ->
  safe (read_loop n fd buf sofar len) g (read_result fd p new len g).
Proof.
  induction n as [|n IH]; intros buf sofar g Hg Hlen Hb Hs Hf; cbn [read_loop].
  { by eapply out_of_fuel. }
  apply sat_if; intros Hend.
  - apply Nat.leb_le in Hend. rewrite take_ge in Hg by lia. apply sat_ret.
    split_and!; [done..|]. exists buf. by rewrite insert_id.
  - apply Nat.leb_gt in Hend. eapply sat_read; [done| | |].
    + intros r Hint Hw. rewrite Hint. eapply sat_mono; [apply (IH _ _ (delayed g)); [done..|]|done].
      by eapply fuelled_delay.
    + intros r Hint Hr. rewrite Hint, (proj2 (Z.leb_le _ _)) by lia. apply sat_ret.
      split_and!; [done..|]. eexists. by rewrite insert_id.
    + intros r Hint Hr Hlr Hbr. rewrite Hint, moved_held. destruct (Z.leb_spec (returned r) 0).
      { apply sat_ret. split_and!; [done..|]. by eexists. }
      replace (Z.to_nat (returned r)) with (length (bytes_of_reply r)) by lia.
      set (g1 := set_live g _). eapply sat_mono; [apply (IH _ _ g1)|].
      * cbn [g1 set_live live]. rewrite lookup_insert_eq, take_blit by lia. done.
      * by rewrite blit_length by lia.
      * unfold blit, byte_list. rewrite !Forall_app. split_and!; [by apply Forall_take|done|by apply Forall_drop].
      * lia.
      * eapply fuelled_progress; [exact Hf|done|lia].
      * intros a g' (Hp & Hm & bytes & Hl & Ha). split_and!; [done..|]. exists bytes. split; [|done].
        by rewrite Hl; cbn [g1 set_live live]; rewrite insert_insert_eq.
Qed.

Lemma read_extra_run fd p bytes n : forall g,
  live g !! fd = Some (held p false bytes false) -> fuelled budget n 1 g ->
  safe (read_extra n fd) g (fun r g' =>
    idle g g' /\ made g' = made g /\
    exists b, live g' = <[fd := held p false b false]> (live g) /\ (r = 0 -> b = bytes)).
Proof.
  induction n as [|n IH]; intros g Hg Hf; cbn [read_extra]; [by eapply out_of_fuel|].
  eapply sat_read; [done| | |].
  - intros r Hint Hw. rewrite Hint. eapply sat_mono; [apply (IH (delayed g)); [done|]|done].
    by eapply fuelled_delay.
  - intros r Hint Hr. rewrite Hint. apply sat_ret. split_and!; [done..|]. exists bytes.
    by rewrite insert_id.
  - intros r Hint Hr Hlr _. rewrite Hint. apply sat_ret. split_and!; [done..|].
    eexists. rewrite moved_held. split; [done|]. intros H0. rewrite H0 in Hlr.
    destruct (bytes_of_reply r); [by rewrite app_nil_r|done].
Qed.

(** [fd] is the only descriptor gained since [g0], with [bytes] read. *)
Definition reading (g0 g : view) (fd : Z) (p : path) (bytes : list Z) : Prop :=
  idle g0 g /\ made g = made g0 /\ live g = <[fd := held p false bytes false]> (live g0).

Lemma reading_closed g0 g fd p bytes :
  live g0 !! fd = None -> reading g0 g fd p bytes -> kept g0 (close_in g fd) [held p false bytes false] [].
Proof.
  intros Hg ([Hp Hq] & Hm & Hl). unfold kept, close_in. cbn [live past made printed].
  rewrite Hl, lookup_insert_eq, delete_insert_id by done. cbn. by rewrite Hp, Hm, Hq, app_nil_r.
Qed.

Lemma read_loop_reading g0 g fd p buf len :
  reading g0 g fd p [] -> length buf = len -> byte_list buf -> enough fuel budget len ->
  safe (read_loop fuel fd buf 0 len) g (fun r g' =>
    exists bytes, reading g0 g' fd p bytes /\
      (fst r = true -> bytes = snd r /\ length (snd r) = len /\ byte_list (snd r))).
Proof.
  intros (Hp & Hm & Hl) Hlen Hb Hf. eapply sat_mono.
  - apply read_loop_run; [by rewrite Hl, lookup_insert_eq|done..|lia|].
    rewrite Nat.sub_0_r. by apply enough_fuelled.
  - intros r g' (Hp' & Hm' & bytes & Hl' & Hr). exists bytes. split; [|done].
    unfold reading. rewrite Hm', Hl', Hl, insert_insert_eq. split_and!; [by etrans|done..].
Qed.

Lemma read_extra_reading g0 g fd p bytes :
  reading g0 g fd p bytes -> enough fuel budget 1 ->
  safe (read_extra fuel fd) g (fun r g' =>
    exists b, reading g0 g' fd p b /\ (r = 0 -> b = bytes)).
Proof.
  intros (Hp & Hm & Hl) Hf. eapply sat_mono.
  - apply (read_extra_run _ p bytes); [by rewrite Hl, lookup_insert_eq|]. by apply enough_fuelled.
  - intros r g' (Hp' & Hm' & b & Hl' & Hr). exists b. split; [|done].
    unfold reading. rewrite Hm', Hl', Hl, insert_insert_eq. split_and!; [by etrans|done..].
Qed.

(** A descriptor with the whole file in the buffer, or nothing gained. *)
Definition read_open (p : path) (len : nat) (g0 : view) (r : Z * list Z) (g' : view) : Prop :=
  (0 <= fst r /\ live g0 !! fst r = None /\ length (snd r) = len /\ byte_list (snd r) /\
   reading g0 g' (fst r) p (snd r)) \/
  (fst r = -1 /\ some_kept g0 g').

Lemma read_end g0 g fd p bytes (ok : bool) (buf : list Z) len :
  0 <= fd -> live g0 !! fd = None -> reading g0 g fd p bytes -> enough fuel budget 1 ->
  (ok = true -> bytes = buf /\ length buf = len /\ byte_list buf) ->
  safe (ok ← andthen ok (n ← read_extra fuel fd; mret (n =? 0));
        ok ← andthen ok (n ← value (Lseek fd); mret (n =? 0));
        if negb ok then _ ← perform (Close fd); mret (-1, replicate len 0) else mret (fd, buf)) g
    (read_open p len g0).
Proof.
  intros Hfd Hg Hr Hf Hok.
  assert (Hrest : forall (b : bool) g1 b1, reading g0 g1 fd p b1 -> (b = true -> ok = true /\ b1 = buf) ->
    safe (ok ← andthen b (n ← value (Lseek fd); mret (n =? 0));
          if negb ok then _ ← perform (Close fd); mret (-1, replicate len 0) else mret (fd, buf)) g1
      (read_open p len g0)).
  { intros b g1 b1 Hr1 Hb.
    assert (Hclose : safe (_ ← perform (Close fd); mret (-1, replicate len 0)) g1 (read_open p len g0)).
    { apply sat_close, sat_ret. right. split; [done|]. eapply some_kept_intro, reading_closed; eauto. }
    apply sat_bind, sat_andthen; intros Hbt; [|exact Hclose]. destruct (Hb Hbt) as [Ho ->].
    quiet_step. apply sat_ret, sat_if; intros _; [exact Hclose|].
    destruct (Hok Ho) as (_ & Hlen & Hbl). apply sat_ret. by left. }
  apply sat_bind, sat_andthen; intros Ho; [|by eapply Hrest].
  apply sat_bind. eapply sat_mono; [by apply read_extra_reading|].
  intros n g1 (b & Hr1 & Hn). apply sat_ret. eapply Hrest; [exact Hr1|].
  intros Hn0%Z.eqb_eq. split; [done|]. rewrite Hn by done. by apply Hok.
Qed.

Lemma read_held g0 g fd p (ok : bool) buf len :
  0 <= fd -> live g0 !! fd = None -> reading g0 g fd p [] -> length buf = len -> byte_list buf ->
  enough fuel budget len -> enough fuel budget 1 ->
  safe (read ← (if ok then read_loop fuel fd buf 0 len else mret (false, buf));
        let '(ok, bytes) := read in
        ok ← andthen ok (n ← read_extra fuel fd; mret (n =? 0));
        ok ← andthen ok (n ← value (Lseek fd); mret (n =? 0));
        if negb ok then _ ← perform (Close fd); mret (-1, replicate len 0) else mret (fd, bytes)) g
    (read_open p len g0).
Proof.
  intros Hfd Hg Hr Hlen Hb Hf Hf1. apply sat_bind, sat_if; intros _.
  - eapply sat_mono; [by apply read_loop_reading|]. intros [ok' bytes] g' (b & Hr' & Hok).
    by eapply read_end.
  - by eapply read_end.
Qed.

Lemma read_file_open_run dir name buf len dp g :
  live g !! dir = Some (held_dir dp) -> may_read A g (dp ++ [name]) ->
  length buf = len -> byte_list buf -> enough fuel budget len -> enough fuel budget 1 ->
  safe (read_file_open apple fuel dir name buf len) g (read_open (dp ++ [name]) len g).
Proof.
  intros Hdir Hmay Hlen Hbuf Hfuel Hfuel1. unfold read_file_open.
  apply (sat_open _ (held (dp ++ [name]) false [] false)).
  - right. left. unfold path_at. by rewrite Hdir.
  - intros r. cbn [observe]. unfold path_at. by rewrite Hdir.
  - done.
  - intros fd Hfd. rewrite (proj2 (Z.ltb_lt _ _)) by done. apply sat_ret. by right.
  - intros fd Hfd Hfresh. rewrite (proj2 (Z.ltb_ge _ _)) by done.
    assert (Hrest : forall ok, safe _ (set_live g (<[fd := held (dp ++ [name]) false [] false]> (live g)))
        (read_open (dp ++ [name]) len g)) by (intros ok; by apply (read_held _ _ fd _ ok)).
    quiet_step. cbv zeta. apply sat_bind, sat_andthen; intros _; [|exact (Hrest false)].
    quiet_step. apply sat_andthen; intros _; [|exact (Hrest false)].
    apply no_acl_quiet. intros b. exact (Hrest b).
Qed.

(** [read_file]: when it succeeds the buffer holds the whole file, which was
    read and closed. *)
Definition file_read (p : path) (len : nat) (g : view) (r : bool * list Z) (g' : view) : Prop :=
  (fst r = true /\ length (snd r) = len /\ byte_list (snd r) /\ kept g g' [held p false (snd r) false] []) \/
  (fst r = false /\ some_kept g g').

Lemma read_file_run dir name buf len dp g :
  live g !! dir = Some (held_dir dp) -> may_read A g (dp ++ [name]) ->
  length buf = len -> byte_list buf -> enough fuel budget len -> enough fuel budget 1 ->
  safe (read_file apple fuel dir name buf len) g (file_read (dp ++ [name]) len g).
Proof.
  intros Hdir Hmay Hlen Hbuf Hfuel Hfuel1. unfold read_file. apply sat_bind.
  eapply sat_mono; [by apply read_file_open_run|].
  intros [fd bytes] g' [(Hfd & Hfresh & Hl & Hb & Hr)|[Hn Hk]]; cbn [fst snd] in *;
    [|subst fd; apply sat_ret; by right]. rewrite (proj2 (Z.ltb_ge _ _)) by done.
  pose proof (reading_closed _ _ _ _ _ Hfresh Hr) as Hk.
  apply sat_close_value. intros c. apply sat_if; intros _; apply sat_ret; [right|by left].
  split; [done|]. by eapply some_kept_intro.
Qed.

(** ** Writing *)

Lemma write_loop_run fd p bytes n : forall sofar g,
  live g !! fd = Some (held p true (take sofar bytes) false) ->
  (sofar <= length bytes)%nat -> fuelled budget n (length bytes - sofar) g ->
  safe (write_loop n fd bytes sofar) g (fun ok g' =>
    idle g g' /\ made g' = made g /\
    exists b, live g' = <[fd := held p true b false]> (live g) /\ (ok = true -> b = bytes)).
Proof.
  induction n as [|n IH]; intros sofar g Hg Hs Hf; cbn [write_loop]; [by eapply out_of_fuel|].
  apply sat_if; intros Hend.
  { apply Nat.leb_le in Hend. apply sat_ret. split_and!; [done..|]. eexists. rewrite insert_id by done.
    split; [done|]. intros _. by rewrite take_ge by lia. }
  apply Nat.leb_gt in Hend. apply sat_sys_bind; [by unfold permits; rewrite Hg|].
  intros r Hd Hw. cbn [observe documented] in *. destruct (interrupted r).
  - eapply sat_mono; [apply (IH _ (delayed g)); [done..|]|done]. by eapply fuelled_delay.
  - apply sat_if; intros Hr.
    + apply sat_ret. destruct (Z.leb_spec 0 (returned r)).
      * replace (Z.to_nat (returned r)) with 0%nat by lia. unfold transfer.
        rewrite (alter_live _ _ _ _ Hg). split_and!; [done..|]. by eexists.
      * split_and!; [done..|]. exists (take sofar bytes). by rewrite insert_id.
    + apply Z.leb_gt in Hr. rewrite (proj2 (Z.leb_le _ _)) by lia.
      rewrite length_drop in Hd. apply Z.leb_le in Hd. unfold transfer. rewrite (alter_live _ _ _ _ Hg).
      unfold moved. cbn [held f_path f_dir f_new f_bytes].
      rewrite take_take_drop. set (g1 := set_live g _). eapply sat_mono; [apply (IH _ g1)|].
      * cbn [g1 set_live live]. by rewrite lookup_insert_eq.
      * lia.
      * eapply fuelled_progress; [exact Hf|done|lia].
      * intros a g' (Hp & Hm & b & Hl & Ha). split_and!; [done..|]. exists b. split; [|done].
        by rewrite Hl; cbn [g1 set_live live]; rewrite insert_insert_eq.
Qed.

(** [write_new]: when it succeeds a new file with exactly those bytes was
    created, synced and closed. *)
Definition file_written (p : path) (bytes : list Z) (g : view) (ok : bool) (g' : view) : Prop :=
  (ok = true /\ kept g g' [held p true bytes true] []) \/ (ok = false /\ some_kept g g').

(** [fd] is the only descriptor gained since [g0], a new file with [bytes]. *)
Definition writing (g0 g : view) (fd : Z) (p : path) (bytes : list Z) (synced : bool) : Prop :=
  idle g0 g /\ made g = made g0 /\ live g = <[fd := held p true bytes synced]> (live g0).

Lemma write_end g0 g dir dp fd p bytes b (ok : bool) :
  live g0 !! dir = Some (held_dir dp) -> live g0 !! fd = None -> writing g0 g fd p b false ->
  (ok = true -> b = bytes) ->
  safe (s ← value (Fsync fd); c ← value (Close fd); d ← value (Fsync dir);
        mret (ok && (s =? 0) && (c =? 0) && (d =? 0))) g (file_written p bytes g0).
Proof.
  intros Hdir Hfd (Hp & Hm & Hl) Hok. apply sat_value_bind; [done|]. intros s _.
  assert (Hw : writing g0 (observe g (Fsync fd) s) fd p b (returned s =? 0)).
  { cbn [observe]. destruct (returned s =? 0); [|done]. unfold writing. cbn [set_live live past made].
    rewrite Hl, (alter_live _ _ _ (held p true b false)) by by rewrite lookup_insert_eq.
    by rewrite insert_insert_eq. }
  revert Hw. generalize (observe g (Fsync fd) s). intros g1 (Hp1 & Hm1 & Hl1).
  apply sat_close_value. intros c. apply sat_value_bind; [done|]. intros d _. apply sat_ret.
  assert (Hk : kept g0 (close_in g1 fd) [held p true b (returned s =? 0)] []).
  { destruct Hp1 as [Hp1 Hq1]. unfold kept, close_in. cbn [live past made printed].
    rewrite Hl1, lookup_insert_eq, delete_insert_id by done. cbn. by rewrite Hp1, Hm1, Hq1, app_nil_r. }
  assert (Hobs : kept g0 (observe (close_in g1 fd) (Fsync dir) d) [held p true b (returned s =? 0)] []).
  { cbn [observe]. destruct (returned d =? 0); [|done]. destruct Hk as (Hkl & Hkp & Hkm & Hkq).
    split_and!; [|done..]. cbn [set_live live]. rewrite Hkl.
    rewrite (alter_live _ _ _ _ Hdir). by rewrite insert_id. }
  destruct ok; cbn [andb]; [|right; eauto using some_kept_intro].
  rewrite Hok in Hobs by done. destruct (returned s =? 0); cbn [andb]; [|right; eauto using some_kept_intro].
  destruct (_ && _); [by left|right; eauto using some_kept_intro].
Qed.

Lemma write_new_run dir name bytes dp g :
  live g !! dir = Some (held_dir dp) -> may_create A g (dp ++ [name]) ->
  enough fuel budget (length bytes) ->
  safe (write_new apple fuel dir name bytes) g (file_written (dp ++ [name]) bytes g).
Proof.
  intros Hdir Hmay Hfuel. unfold write_new.
  apply (sat_open _ (held (dp ++ [name]) true [] false)).
  - right. right. unfold path_at. by rewrite Hdir.
  - intros r. cbn [observe]. unfold path_at. by rewrite Hdir.
  - done.
  - intros fd Hfd. rewrite (proj2 (Z.ltb_lt _ _)) by done. apply sat_ret. by right.
  - intros fd Hfd Hfresh. rewrite (proj2 (Z.ltb_ge _ _)) by done.
    set (p := dp ++ [name]) in *. set (g1 := set_live g _).
    assert (Hw : writing g g1 fd p [] false) by done. clearbody g1.
    apply sat_bind, no_acl_quiet. intros [|]; cbn [andthen]; [|by eapply write_end].
    destruct Hw as (Hp & Hm & Hl). apply sat_bind. eapply sat_mono.
    + apply (write_loop_run _ p); [by rewrite Hl, lookup_insert_eq|lia|].
      rewrite Nat.sub_0_r. by apply enough_fuelled.
    + intros ok g' (Hp' & Hm' & b & Hl' & Hok). eapply write_end; [done..| |done].
      unfold writing. rewrite Hm', Hl', Hl, insert_insert_eq. split_and!; [by etrans|done..].
Qed.
End Helpers.
