(* ===== verification/OperatorRun.v ===== *)
(** What the operator tool's commands do: contracts of the identity, review,
    signing and launching functions of [tools/operator.c], in terms of the
    files they finish and of the launch they are about. *)

From S2P Require Import Prelude Bytes Policy Admin Terminal SignedInput Launch Posix Operator OperatorArgs OperatorFiles.
Import String.StringSyntax.
#[local] Open Scope string_scope.
#[local] Open Scope Z_scope.

(** ** Launches, messages and approvals *)

Section Launches.
Context (MODE : Z) (crypto_blake2b : nat -> list Z -> list Z).

(** The signed part of a command's packet, and the approval it needs. *)
Definition message (l : tcs_launch) (c : tcs_admin_command) : list Z :=
  message_of (realm (identity l)) (boot l) c.
Definition approval (l : tcs_launch) (c : tcs_admin_command) : list Z :=
  hex (crypto_blake2b 32 (review_layout MODE (public_key (identity l)) (message l c))).

(** The files of an identity and of a session, as they are read or written. *)
Definition file_named (dir : path) (name : String.string) (new : bool) (bytes : list Z) : file :=
  held (dir ++ [codes name]) new bytes new.
Definition public_file (dir : path) (id : tcs_identity) (new : bool) : file :=
  file_named dir "identity.pub" new (public_record id MODE).
Definition key_file (dir : path) (realm seed : list Z) (new : bool) : file :=
  file_named dir "identity.key" new (key_layout MODE realm seed).
Definition context_file (dir : path) (l : tcs_launch) (new : bool) : file :=
  file_named dir "launch.context" new (launch_record l MODE).
Definition used_file (dir : path) (l : tcs_launch) : file :=
  file_named dir "launch.used" true (launch_record l MODE).
Definition request_file (dir : path) (sequence : Z) (packet : list Z) : file :=
  held (dir ++ [request_name sequence]) true packet true.

(** What every command about a launch reads first. *)
Definition launch_files (id_dir session : path) (l : tcs_launch) : list file :=
  [public_file id_dir (identity l) false; context_file session l false].
End Launches.

(** ** How the state of a process may change *)

(** Files and directories, whatever was printed. *)
Definition filed (g g' : view) (l : list file) (d : list path) : Prop :=
  live g' = live g /\ past g' = past g ++ l /\ made g' = made g ++ d.

Lemma kept_filed g g' l d : kept g g' l d -> filed g g' l d.
Proof. by intros (? & ? & ? & ?). Qed.

Lemma filed_trans g1 g2 g3 l1 l2 d1 d2 :
  filed g1 g2 l1 d1 -> filed g2 g3 l2 d2 -> filed g1 g3 (l1 ++ l2) (d1 ++ d2).
Proof. unfold filed. intros (-> & -> & ->) (-> & -> & ->). by rewrite !app_assoc. Qed.

Definition some_filed (g g' : view) : Prop := exists l d, filed g g' l d.

#[export] Instance some_filed_preorder : PreOrder some_filed.
Proof.
  split.
  - intros g. exists [], []. unfold filed. by rewrite !app_nil_r.
  - intros g1 g2 g3 (l1 & d1 & H1) (l2 & d2 & H2). eexists _, _. by eapply filed_trans.
Qed.

Lemma some_kept_filed g g' : some_kept g g' -> some_filed g g'.
Proof. intros (l & d & Hk). exists l, d. by apply kept_filed. Qed.

(** Descriptors may have been closed and files finished, none opened. *)
Definition loses (g g' : view) : Prop :=
  dom (live g') ⊆ dom (live g) /\ (exists l, past g' = past g ++ l) /\ (exists d, made g' = made g ++ d).

#[export] Instance loses_preorder : PreOrder loses.
Proof.
  split.
  - intros g. split_and!; [done|exists []|exists []]; by rewrite app_nil_r.
  - intros g1 g2 g3 (H1 & [l1 Hl1] & [d1 Hd1]) (H2 & [l2 Hl2] & [d2 Hd2]). split_and!; [by etrans|..].
    + exists (l1 ++ l2). by rewrite Hl2, Hl1, app_assoc.
    + exists (d1 ++ d2). by rewrite Hd2, Hd1, app_assoc.
Qed.

Lemma some_filed_loses g g' : some_filed g g' -> loses g g'.
Proof. intros (l & d & Hl & Hp & Hm). split_and!; [by rewrite Hl|eauto..]. Qed.

Lemma close_loses g fd : loses g (close_in g fd).
Proof.
  split_and!; cbn [close_in live past made]; [rewrite dom_delete_L; apply subseteq_difference_l; done|eauto|].
  exists []. by rewrite app_nil_r.
Qed.

(** A file that was opened is still open or finished as it was. *)
Definition traced (g : view) (fd : Z) (f : file) : Prop := f ∈ past g \/ live g !! fd = Some f.

Lemma close_traced g fd fd' f : f_dir f = false -> traced g fd f -> traced (close_in g fd') fd f.
Proof.
  intros Hf [Hp|Hl]; [left; cbn; by apply elem_of_app; left|]. unfold traced, close_in. cbn [live past].
  destruct (decide (fd' = fd)) as [->|Hne]; [left|right; by rewrite lookup_delete_ne].
  rewrite Hl. cbn. rewrite Hf. apply elem_of_app. right. by apply list_elem_of_singleton.
Qed.

Lemma close_one_dom (L : gmap Z file) d (D : gset Z) :
  dom L ⊆ {[ d ]} ∪ D -> dom (delete d L) ⊆ D.
Proof.
  rewrite dom_delete_L. intros H x [Hx Hne]%elem_of_difference.
  apply H, elem_of_union in Hx as [?|?]; done.
Qed.

Lemma close_both_dom (L : gmap Z file) d i (D : gset Z) :
  dom L ⊆ {[ d; i ]} ∪ D -> dom (delete d (delete i L)) ⊆ D.
Proof.
  intros H. apply close_one_dom, close_one_dom. etrans; [exact H|].
  by rewrite (comm_L (∪) {[ d ]} {[ i ]}), assoc_L by apply _.
Qed.

Section Commands.
Context (MODE : Z) (apple : bool) (fuel : nat).
Context (crypto_blake2b : nat -> list Z -> list Z)
        (crypto_ed25519_key_pair : list Z -> list Z * list Z)
        (crypto_ed25519_sign : list Z -> list Z -> list Z)
        (crypto_ed25519_check : list Z -> list Z -> list Z -> Z).

(** Monocypher's documented sizes. *)
Context (key_sizes : forall seed, length (fst (crypto_ed25519_key_pair seed)) = 64%nat /\
                                  length (snd (crypto_ed25519_key_pair seed)) = 32%nat)
        (signature_size : forall secret m, length (crypto_ed25519_sign secret m) = 64%nat).

Context (A : authority) (budget : option nat).

#[local] Abbreviation safe := (sat (permits A) budget).

(** Fuel for the records (at most 192 bytes). *)
Context (records : enough fuel budget 192).

Lemma enough_less n m : (n <= m)%nat -> enough fuel budget m -> enough fuel budget n.
Proof. unfold enough. destruct budget; lia. Qed.

Lemma buffer_bytes n : byte_list (buffer n).
Proof. apply Forall_replicate. word_lia. Qed.

(** ** Identities *)

Lemma identity_read_run fd dp g :
  live g !! fd = Some (held_dir dp) -> may_read A g (dp ++ [codes "identity.pub"]) ->
  safe (identity_read MODE apple fuel fd) g (fun r g' =>
    (fst r = true /\ identity_ok (snd r) /\ identity_valid (snd r) MODE = true /\
       kept g g' [public_file MODE dp (snd r) false] []) \/
    (fst r = false /\ some_kept g g')).
Proof.
  intros Hg Hmay. unfold identity_read. apply sat_bind. eapply sat_mono.
  { apply (read_file_run _ _ _ _ _ _ _ 80 dp); [done..|apply buffer_bytes| |];
      (eapply enough_less; [|exact records]; lia). }
  intros [ok bytes] g' [(Hok & Hlen & Hb & Hk)|[Hok Hk]]; cbn [fst snd] in *; subst ok; cbn [negb];
    [|by right].
  destruct (tcs_public_decode _ _ _ _) as [ok id] eqn:Hd. apply sat_ret. destruct ok; [left|right].
  - assert (Hid : id = Some (default identity_zero id)).
    { revert Hd. unfold tcs_public_decode. repeat case_match; by intros [= <-]. }
    rewrite Hid in Hd. apply public_decode_iff in Hd as (Hi & Hv & ->); [|done].
    split_and!; [done|done|done|exact Hk].
  - split; [done|]. by eapply some_kept_intro.
Qed.

(** A record of a seed, for a mode and an identity. *)
Lemma key_of_layout record id secret :
  identity_ok id -> length record = 80%nat -> byte_list record ->
  key_of MODE crypto_ed25519_key_pair record id = (true, secret) ->
  exists seed, length seed = 32%nat /\ record = key_layout MODE (realm id) seed /\
    crypto_ed25519_key_pair seed = (secret, public_key id).
Proof.
  intros [Hr Hk] Hlen Hb H. unfold key_of in H.
  destruct (negb (record !!! 15%nat =? MODE)) eqn:H15; [done|].
  destruct (negb (equal record key_prefix 15)) eqn:Hp; [done|].
  destruct (negb (equal (drop 16 record) (realm id) 32)) eqn:Hre; [done|]. cbn [orb] in H. bools.
  apply equal_spec in Hp; [|cbn; lia..]. apply equal_slice in Hre; [|lia|done].
  pose proof (key_sizes (slice record 48 32)) as [Hs Hks].
  destruct (crypto_ed25519_key_pair _) as [secret' key] eqn:Hpair. cbn [fst snd] in *.
  injection H as He Hsec. rewrite He in Hsec. subst secret'.
  apply equal_spec in He; [|lia..]. rewrite !take_ge in He by lia. subst key.
  exists (slice record 48 32). split_and!; [by rewrite length_slice by lia| |done].
  rewrite (public_fields record Hlen) at 1. unfold key_layout. rewrite Hre. f_equal.
  destruct (lookup_lt_is_Some_2 record 15 ltac:(lia)) as [x Hx].
  rewrite (take_S_r record 15 x Hx), Hp. unfold head_of. do 2 f_equal.
  by rewrite <- H15, (list_lookup_total_correct _ _ _ Hx).
Qed.

Lemma key_read_run fd dp id g :
  identity_ok id ->
  live g !! fd = Some (held_dir dp) -> may_read A g (dp ++ [codes "identity.key"]) ->
  safe (key_read MODE apple fuel crypto_ed25519_key_pair fd id) g (fun r g' =>
    (fst r = true /\ exists seed, length seed = 32%nat /\
       crypto_ed25519_key_pair seed = (snd r, public_key id) /\
       kept g g' [key_file MODE dp (realm id) seed false] []) \/
    (fst r = false /\ some_kept g g')).
Proof.
  intros Hid Hg Hmay. unfold key_read. apply sat_bind. eapply sat_mono.
  { apply (read_file_run _ _ _ _ _ _ _ 80 dp); [done..|apply buffer_bytes| |];
      (eapply enough_less; [|exact records]; lia). }
  intros [ok record] g' [(Hok & Hlen & Hb & Hk)|[Hok Hk]]; cbn [fst snd] in *; subst ok; cbn [negb];
    [|by right].
  destruct (key_of _ _ _ _) as [[|] secret] eqn:Hof; apply sat_ret; [left|right].
  - apply key_of_layout in Hof as (seed & Hs & -> & Hpair); [|done..]. split; [done|]. by exists seed.
  - split; [done|]. by eapply some_kept_intro.
Qed.

(** ** Reviewing *)

Lemma same_identity_eq id l :
  identity_ok id -> identity_ok (identity l) -> same_identity id l = true -> id = identity l.
Proof.
  intros [Hr Hk] [Hr' Hk'] [He1 He2]%andb_true_iff.
  apply equal_spec in He1; [|lia..]. apply equal_spec in He2; [|lia..].
  rewrite !take_ge in He1, He2 by lia. destruct id, (identity l). cbn in *. by subst.
Qed.

(** The realm of a valid identity, as the packet encoder tests it. *)
Lemma nonzero_valid id mode : identity_valid id mode = true -> Admin.nonzero (Some (realm id)) = true.
Proof.
  unfold identity_valid, Admin.nonzero, Launch.nonzero. by destruct (any_bits (realm id) 32 =? 0).
Qed.

(** The unsigned packet of a command. *)
Definition unsigned (l : tcs_launch) (c : tcs_admin_command) : list Z := message l c ++ replicate 64 0.

Lemma prepare_run id_fd s_fd ip sp c g :
  valid c = true ->
  live g !! id_fd = Some (held_dir ip) -> live g !! s_fd = Some (held_dir sp) ->
  (forall g', may_read A g' (ip ++ [codes "identity.pub"])) ->
  (forall g', may_read A g' (sp ++ [codes "launch.context"])) ->
  safe (prepare MODE apple fuel crypto_blake2b id_fd s_fd c) g (fun r g' =>
    (exists l, launch_ok MODE l /\ kept g g' (launch_files MODE ip sp l) [] /\
       r = Some (l, unsigned l c, approval MODE crypto_blake2b l c)) \/
    (r = None /\ some_kept g g')).
Proof.
  intros Hv Hid Hs Hpub Hctx. unfold prepare. apply sat_bind.
  eapply sat_mono; [by apply identity_read_run|].
  intros [ok who] g1 [(Hok & Hi & Hiv & Hk1)|[Hok Hk1]]; cbn [fst snd] in *; subst ok; cbn [negb]; [|by right].
  apply sat_bind. eapply sat_mono.
  { apply (read_file_run _ _ _ _ _ _ _ 112 sp); [|done|done|apply buffer_bytes| |];
      [by destruct Hk1 as (-> & _)|..]; (eapply enough_less; [|exact records]; lia). }
  intros [ok bytes] g2 [(Hok & Hlen & Hb & Hk2)|[Hok Hk2]]; cbn [fst snd] in *; subst ok; cbn [negb];
    [|right; split; [done|]; etrans; [by eapply some_kept_intro|done]].
  pose proof (kept_trans _ _ _ _ _ _ _ Hk1 Hk2) as Hk. cbn [app] in Hk.
  destruct (tcs_launch_decode _ _ _ _) as [ok l] eqn:Hd.
  destruct ok; cbn [negb orb]; [|right; split; [done|by eapply some_kept_intro]].
  assert (exists l', l = Some l') as [l' ->].
  { revert Hd. unfold tcs_launch_decode. repeat case_match; intros [= <-]; eauto. }
  unfold id in *. cbn [from_option] in *. rename l' into l.
  apply launch_decode_iff in Hd as (Hli & Hlb & Hlv & Hln & ->); [|done].
  destruct (same_identity who l) eqn:Hsame; cbn [negb];
    [|right; split; [done|by eapply some_kept_intro]].
  apply same_identity_eq in Hsame as ->; [|done..].
  destruct Hli as [Hr Hkl]. rewrite encode_layout;
    [|unfold buffer, TCS_ADMIN_MESSAGE_BYTES; rewrite length_replicate; lia|done..|by eapply nonzero_valid|done|done].
  cbn [negb from_option]. apply sat_ret. left. exists l. split; [done|]. split; [exact Hk|].
  do 2 f_equal. unfold approval_of, approval.
  pose proof (message_of_length (realm (identity l)) (boot l) c Hr Hlb) as Hm.
  unfold TCS_ADMIN_MESSAGE_BYTES in *.
  unfold id.
  rewrite review_record_layout by (done || rewrite length_app; lia). by rewrite take_app_length' by done.
Qed.

(** ** Printing *)

Definition print_in (g : view) (text : list Z) : view :=
  {| live := live g; past := past g; made := made g; printed := printed g ++ text; delays := delays g |}.

Lemma sat_printf {B} text (f : unit -> io B) g Q :
  safe (f tt) (print_in g text) Q -> safe (perform (Printf text) ≫= f) g Q.
Proof. by split. Qed.

(** A message, or nothing, that a command ends with. *)
Lemma sat_message (b : bool) (m : list Z) (f : unit -> io bool) g Q :
  (forall g', filed g g' [] [] -> safe (f tt) g' Q) ->
  safe ((if b then perform (Printf m) else mret tt) ≫= f) g Q.
Proof.
  intros Hf. destruct b; [apply sat_printf|]; apply Hf; unfold filed; by rewrite !app_nil_r.
Qed.

(** ** Signing *)

Definition signature (l : tcs_launch) (c : tcs_admin_command) (seed : list Z) : list Z :=
  crypto_ed25519_sign (fst (crypto_ed25519_key_pair seed)) (message l c).

(** What a signature leaves: the private record was read, and the request it
    was written to holds the message and a signature that checks. *)
Definition signed (ip sp : path) (l : tcs_launch) (c : tcs_admin_command) (files : list file) : Prop :=
  exists seed, length seed = 32%nat /\ snd (crypto_ed25519_key_pair seed) = public_key (identity l) /\
    crypto_ed25519_check (signature l c seed) (public_key (identity l)) (message l c) = 0 /\
    files = [key_file MODE ip (realm (identity l)) seed false;
             request_file sp (c_sequence c) (message l c ++ signature l c seed)].

Lemma sign_request_run id_fd s_fd ip sp l c g :
  launch_ok MODE l -> u64 (c_sequence c) ->
  live g !! id_fd = Some (held_dir ip) -> live g !! s_fd = Some (held_dir sp) ->
  may_read A g (ip ++ [codes "identity.key"]) ->
  (forall g', may_create A g' (sp ++ [request_name (c_sequence c)])) ->
  safe (sign_request MODE apple fuel crypto_ed25519_key_pair crypto_ed25519_sign crypto_ed25519_check
          id_fd s_fd l c (unsigned l c)) g (fun ok g' =>
    (ok = true /\ exists files, signed ip sp l c files /\ filed g g' files []) \/
    (ok = false /\ some_filed g g')).
Proof.
  intros (Hli & Hlb & Hlv & Hln) Hseq Hid Hs Hkey Hreq. unfold sign_request. apply sat_bind.
  eapply sat_mono; [by apply key_read_run|].
  intros [ok secret] g1 [(Hok & seed & Hseed & Hpair & Hk)|[Hok Hk]]; cbn [fst snd] in *; subst ok; cbn [negb];
    [|right; split; [done|by apply some_kept_filed]].
  pose proof (message_of_length _ _ c (proj1 Hli) Hlb) as Hm. fold (message l c) in Hm.
  unfold unsigned. rewrite sign_packet_layout by done.
  assert (Hsig : crypto_ed25519_sign secret (message l c) = signature l c seed)
    by (unfold signature; by rewrite Hpair).
  rewrite Hsig. assert (Hsl : length (signature l c seed) = 64%nat) by apply signature_size.
  rewrite (slice_skip 128), take_app_length' by (done || lia). cbn [Nat.sub]. rewrite slice_all by done.
  apply sat_if; intros Hck; [right; split; [done|by eapply some_kept_filed, some_kept_intro]|].
  rewrite (proj2 (Nat.leb_gt _ _)) by by apply request_name_length.
  apply sat_bind. eapply sat_mono.
  { apply (write_new_run _ _ _ _ _ _ _ sp); [by destruct Hk as (-> & _)|by apply Hreq|].
    eapply enough_less; [|exact records]. rewrite length_app. lia. }
  intros ok g2 [(-> & Hk2)|[-> Hk2]];
    [eapply (sat_message true)|eapply (sat_message false [])]; intros g3 H3; apply sat_ret; [left|right].
  - split; [done|]. eexists. split; [exists seed; split_and!; [done|by rewrite Hpair| |reflexivity]|].
    + unfold truthy in Hck. lia.
    + pose proof (filed_trans _ _ _ _ _ _ _ (kept_filed _ _ _ _ (kept_trans _ _ _ _ _ _ _ Hk Hk2)) H3) as H.
      exact H.
  - split; [done|]. etrans; [by eapply some_kept_filed, some_kept_intro|].
    etrans; [by apply some_kept_filed|]. by exists [], [].
Qed.

(** What a review shows: everything the approval is bound to, and it. *)
Definition named_bytes (name : String.string) (bytes : list Z) : list Z :=
  codes name ++ codes "=" ++ hex bytes ++ [10].
Definition review_text (operation : list Z) (l : tcs_launch) (c : tcs_admin_command) : list Z :=
  codes "mode=" ++
    (if MODE =? TCS_FIXTURE_MODE then codes "PUBLIC TEST FIXTURE" else codes "EXPERIMENTAL OPERATOR") ++ [10] ++
  named_bytes "realm" (realm (identity l)) ++
  named_bytes "public_key" (public_key (identity l)) ++
  named_bytes "boot" (boot l) ++
  codes "operation=" ++ operation ++ codes " subject=" ++ numeral (r_subject (c_request c)) ++
    codes " sequence=" ++ numeral (c_sequence c) ++
    codes " expected_generation=" ++ numeral (c_expected_generation c) ++
    codes " object=" ++ numeral (r_object (c_request c)) ++
    codes " rights=" ++ numeral (r_rights (c_request c)) ++ [10] ++
  codes "approval=" ++ approval MODE crypto_blake2b l c ++ [10].

Lemma show_review_run operation l c g :
  safe (show_review MODE operation l c (approval MODE crypto_blake2b l c)) g (fun _ g' =>
    filed g g' [] [] /\ printed g' = printed g ++ review_text operation l c).
Proof.
  unfold show_review, display. repeat apply sat_printf.
  split; [unfold filed; cbn; by rewrite !app_nil_r|]. cbn [printed print_in]. unfold review_text, named_bytes.
  by rewrite <- !app_assoc.
Qed.

(** The process as it was at [g], with the directory [p] open at [fd]. *)
Definition entered (g g1 : view) (fd : Z) (p : path) (d : list path) : Prop :=
  live g !! fd = None /\ live g1 = <[fd := held_dir p]> (live g) /\ idle g g1 /\ made g1 = made g ++ d.

Lemma entered_live g g1 fd p d : entered g g1 fd p d -> live g1 !! fd = Some (held_dir p).
Proof. intros (_ & -> & _). apply lookup_insert_eq. Qed.

(** Leaving it again, after [l]. *)
Lemma entered_close g g1 g2 fd p d l d' :
  entered g g1 fd p d -> filed g1 g2 l d' -> filed g (close_in g2 fd) l (d ++ d').
Proof.
  intros (Hfd & Hl1 & [Hp1 _] & Hm1) (Hl & Hp & Hm). unfold filed, close_in. cbn [live past made].
  rewrite Hl, Hl1, lookup_insert_eq, delete_insert_id by done. cbn.
  by rewrite app_nil_r, Hp, Hm, Hp1, Hm1, app_assoc.
Qed.

(** A command that works in a directory: it succeeds with [R], or leaves
    nothing open. *)
Definition finishes (g : view) (R : view -> Prop) (ok : bool) (g' : view) : Prop :=
  (ok = true /\ R g') \/ (ok = false /\ some_filed g g').

Lemma finishes_false g R g' : some_filed g g' -> finishes g R false g'.
Proof. by right. Qed.

Lemma directory_entered create name g :
  (create = true -> forall g', may_make A g' (tokens name)) ->
  safe (directory apple name create) g (fun fd g' =>
    (fd = -1 /\ some_filed g g') \/
    (0 <= fd /\ entered g g' fd (tokens name) (if create then [tokens name] else []))).
Proof.
  intros Hmake. eapply sat_mono; [by apply directory_run|].
  intros fd g1 ([Hp1 Hq1] & [(-> & Hl1 & d & Hm1)|(Hfd & Hfresh & Hl1 & Hm1)]); [left|by right].
  split; [done|]. exists [], d. unfold filed. by rewrite app_nil_r.
Qed.

Lemma with_directory create name (k : Z -> io bool) g R :
  (create = true -> forall g', may_make A g' (tokens name)) ->
  (forall fd g1, entered g g1 fd (tokens name) (if create then [tokens name] else []) ->
     safe (k fd) g1 (finishes g R)) ->
  safe (fd ← directory apple name create; if fd <? 0 then mret false else k fd) g (finishes g R).
Proof.
  intros Hmake Hk. apply sat_bind. eapply sat_mono; [by apply directory_entered|].
  intros fd g1 [[-> Hf]|[Hfd Hin]]; [by apply sat_ret, finishes_false|].
  rewrite (proj2 (Z.ltb_ge _ _)) by done. by apply Hk.
Qed.

(** How a review ends, or a signature under an approval. *)
Definition review_or_signed (ip sp : path) (args : list (list Z)) (approved : option (list Z))
    (g g' : view) : Prop :=
  exists c l, command_parse args = Some c /\ launch_ok MODE l /\
    match approved with
    | None => filed g g' (launch_files MODE ip sp l) [] /\
              printed g' = printed g ++ review_text (args !!! 0%nat) l c
    | Some a => a = approval MODE crypto_blake2b l c /\
                exists files, signed ip sp l c files /\ filed g g' (launch_files MODE ip sp l ++ files) []
    end.

(** The decision, with the session open. *)
Lemma decide_run id_fd fd ip sp (args : list (list Z)) approved c l g :
  live g !! id_fd = Some (held_dir ip) -> live g !! fd = Some (held_dir sp) ->
  launch_ok MODE l -> u64 (c_sequence c) ->
  (forall a, approved = Some a ->
     (a = approval MODE crypto_blake2b l c -> may_read A g (ip ++ [codes "identity.key"])) /\
     forall g', may_create A g' (sp ++ [request_name (c_sequence c)])) ->
  safe (match approved with
        | None => _ ← show_review MODE (args !!! 0%nat) l c (approval MODE crypto_blake2b l c); mret true
        | Some a =>
            if negb (strcmp_equal a (approval MODE crypto_blake2b l c)) then mret false
            else sign_request MODE apple fuel crypto_ed25519_key_pair crypto_ed25519_sign crypto_ed25519_check
                   id_fd fd l c (unsigned l c)
        end) g (fun ok g' =>
    (ok = true /\ match approved with
       | None => filed g g' [] [] /\ printed g' = printed g ++ review_text (args !!! 0%nat) l c
       | Some a => a = approval MODE crypto_blake2b l c /\
                   exists files, signed ip sp l c files /\ filed g g' files []
       end) \/
    (ok = false /\ some_filed g g')).
Proof.
  intros Hid Hs Hl Hseq Hsign. destruct approved as [a|].
  - destruct (Hsign a eq_refl) as [Hkey Hreq]. unfold strcmp_equal.
    apply sat_if; intros Ha; [apply sat_ret; by right|].
    apply negb_false_iff, bool_decide_eq_true in Ha.
    eapply sat_mono; [by apply (sign_request_run id_fd fd ip sp); auto|].
    intros ok g' [(-> & files & Hf)|[-> Hf]]; [left; split; [done|]; eauto|by right].
  - apply sat_bind. eapply sat_mono; [apply show_review_run|]. intros _ g' [Hf Hp]. apply sat_ret. by left.
Qed.

Lemma review_or_sign_run id_fd ip session args approved g :
  (4 <= length args)%nat -> live g !! id_fd = Some (held_dir ip) ->
  (forall g', may_read A g' (ip ++ [codes "identity.pub"])) ->
  (forall g', may_read A g' (tokens session ++ [codes "launch.context"])) ->
  (forall a, approved = Some a ->
     (forall g' c l, command_parse args = Some c -> launch_ok MODE l -> a = approval MODE crypto_blake2b l c ->
        past g' = past g ++ launch_files MODE ip (tokens session) l ->
        may_read A g' (ip ++ [codes "identity.key"])) /\
     (forall g' c, command_parse args = Some c ->
        may_create A g' (tokens session ++ [request_name (c_sequence c)]))) ->
  safe (review_or_sign MODE apple fuel crypto_blake2b crypto_ed25519_key_pair crypto_ed25519_sign
          crypto_ed25519_check id_fd session args approved) g
    (finishes g (review_or_signed ip (tokens session) args approved g)).
Proof.
  intros Hargs Hid Hpub Hctx Hsign. unfold review_or_sign.
  destruct (command_parse args) as [c|] eqn:Hc; [|by apply sat_ret, finishes_false].
  pose proof (proj1 (command_parse_exact args c Hargs) Hc) as (Hv & Hu & _).
  apply with_directory; [done|]. intros fd g1 Hin. pose proof Hin as (Hfresh & Hl1 & [Hp1 Hq1] & _).
  assert (Hid1 : live g1 !! id_fd = Some (held_dir ip)).
  { rewrite Hl1, lookup_insert_ne; [done|]. congruence. }
  apply sat_bind. eapply sat_mono; [apply (prepare_run id_fd fd ip (tokens session)); [done|done|by eapply entered_live|done..]|].
  assert (Hfail : forall g2, some_filed g1 g2 ->
    safe (_ ← perform (Close fd); mret false) g2
      (finishes g (review_or_signed ip (tokens session) args approved g))).
  { intros g2 (l2 & d2 & H2). apply sat_close, sat_ret, finishes_false.
    eexists _, _. by eapply entered_close. }
  intros r g2 [(l & Hl & Hk2 & ->)|[-> Hk2]]; [|by apply Hfail, some_kept_filed].
  pose proof Hk2 as (Hl2 & Hp2 & Hm2 & Hq2). apply sat_bind. eapply sat_mono.
  { apply (decide_run id_fd fd ip (tokens session) args approved c l g2); rewrite ?Hl2;
      [done|by eapply entered_live|done|apply Hu|].
    intros a Ha. destruct (Hsign a Ha) as [Hkey Hreq]. split; [|intros g'; by apply Hreq].
    intros Happ. eapply Hkey; [done..|]. by rewrite Hp2, Hp1. }
  intros ok g3 [(-> & Hend)|[-> Hend]]; [|apply Hfail; etrans; [by eapply some_kept_filed, some_kept_intro|done]].
  apply sat_close, sat_ret. left. split; [done|]. exists c, l. split; [done|]. split; [done|].
  pose proof (kept_filed _ _ _ _ Hk2) as Hf2. destruct approved as [a|].
  - destruct Hend as (-> & files & Hsg & Hf3). split; [done|]. exists files. split; [done|].
    by apply (entered_close _ _ _ _ _ _ _ _ Hin (filed_trans _ _ _ _ _ _ _ Hf2 Hf3)).
  - destruct Hend as [Hf3 Hp3]. split.
    + rewrite <- (app_nil_r (launch_files _ _ _ _)).
      by apply (entered_close _ _ _ _ _ _ _ _ Hin (filed_trans _ _ _ _ _ _ _ Hf2 Hf3)).
    + cbn [close_in printed]. by rewrite Hp3, Hq2, Hq1.
Qed.

(** ** Creating *)

Lemma sat_entropy {B} n (f : reply -> io B) g Q :
  (forall r, returned r <> 0 -> safe (f r) g Q) ->
  (forall r, returned r = 0 -> length (bytes_of_reply r) = n -> byte_list (bytes_of_reply r) ->
     safe (f r) g Q) ->
  safe (sys (Entropy n) ≫= f) g Q.
Proof.
  intros Hn H0. apply sat_sys_bind; [done|]. intros r Hd _. cbn [observe documented] in *.
  destruct (Z.eqb_spec (returned r) 0); [|by apply Hn]. cbn [negb orb] in Hd.
  apply andb_true_iff in Hd as [Hl Hb]. apply H0; [done|by apply Nat.eqb_eq|by apply is_byte_list].
Qed.

(** A new private and public record of one seed. *)
Definition identity_created (dir : path) (g g' : view) : Prop :=
  exists realm seed, length realm = 32%nat /\ length seed = 32%nat /\
    let id := {| realm := realm; public_key := snd (crypto_ed25519_key_pair seed) |} in
    identity_valid id MODE = true /\
    filed g g' [key_file MODE dir realm seed true; public_file MODE dir id true] [dir].

Lemma encode_ok o id out :
  tcs_public_encode (Some o) id MODE = (true, out) -> identity_valid id MODE = true.
Proof. unfold tcs_public_encode. by destruct (identity_valid id MODE). Qed.

Lemma create_identity_run dir g :
  (forall g', may_make A g' (tokens dir)) ->
  (forall g' name, name = codes "identity.key" \/ name = codes "identity.pub" ->
     may_create A g' (tokens dir ++ [name])) ->
  safe (create_identity MODE apple fuel crypto_ed25519_key_pair dir) g
    (finishes g (identity_created (tokens dir) g)).
Proof.
  intros Hmake Hcreate. unfold create_identity.
  assert (Hnone : finishes g (identity_created (tokens dir) g) false g) by by apply finishes_false.
  apply sat_entropy; [intros r Hr; by rewrite (proj2 (Z.eqb_neq _ _))|].
  intros r -> Hlen Hb. cbv zeta. cbn [Z.eqb negb]. set (random := bytes_of_reply r) in *.
  set (seed := take 32 random). set (rl := slice random 32 32).
  assert (Hseed : length seed = 32%nat) by (unfold seed; rewrite length_take; lia).
  assert (Hrl : length rl = 32%nat) by (unfold rl; rewrite length_slice; lia).
  pose proof (key_sizes seed) as [_ Hkey].
  destruct (crypto_ed25519_key_pair seed) as [secret key] eqn:Hpair. cbn [snd] in Hkey.
  destruct (tcs_public_encode _ _ _) as [ok public] eqn:He. destruct ok; [|exact Hnone]. cbn [negb].
  pose proof (encode_ok _ _ _ He) as Hv. rewrite public_encode_layout in He by done.
  injection He as <-. cbn [from_option id]. rewrite key_record_layout by done.
  apply with_directory; [done|]. intros fd g1 Hin. pose proof (entered_live _ _ _ _ _ Hin) as Hd1.
  assert (Hsize : forall rest : list Z, length rest = 32%nat -> enough fuel budget (length (head_of key_prefix MODE ++ rl ++ rest))).
  { intros rest Hrest. eapply enough_less; [|exact records].
    rewrite !length_app, Hrl, Hrest, head_length by done. lia. }
  apply sat_bind. eapply sat_mono; [apply (write_new_run _ _ _ _ _ _ _ (tokens dir)); [done|by auto|by apply Hsize]|].
  intros ok g2 Hw2. apply sat_bind.
  assert (Hlast : forall (b : bool) g3, (b = true -> kept g1 g3 [key_file MODE (tokens dir) rl seed true;
        public_file MODE (tokens dir) {| realm := rl; public_key := key |} true] []) -> some_kept g1 g3 ->
    safe (_ ← (if b then puts (codes "Identity created; private seed is unencrypted. No guest was provisioned.") else mret tt);
          _ ← perform (Close fd); mret b) g3 (finishes g (identity_created (tokens dir) g))).
  { intros b g3 Hb3 Hk3. unfold puts. apply sat_message. intros g4 H4. apply sat_close, sat_ret. destruct b.
    - left. split; [done|]. exists rl, seed. rewrite Hpair. cbv zeta. cbn [snd]. split_and!; [done..|].
      pose proof (filed_trans _ _ _ _ _ _ _ (kept_filed _ _ _ _ (Hb3 eq_refl)) H4) as H.
      exact (entered_close _ _ _ _ _ _ _ _ Hin H).
    - apply finishes_false. destruct (some_kept_filed _ _ Hk3) as (l & d & Hf).
      eexists _, _. exact (entered_close _ _ _ _ _ _ _ _ Hin (filed_trans _ _ _ _ _ _ _ Hf H4)). }
  destruct Hw2 as [(-> & Hk2)|[-> Hk2]]; cbn [andthen]; [|by apply Hlast].
  eapply sat_mono; [apply (write_new_run _ _ _ _ _ _ _ (tokens dir)); [by destruct Hk2 as (-> & _)|by auto|]|].
  { by apply (Hsize key). }
  intros b g3 [(-> & Hk3)|[-> Hk3]]; apply Hlast; try done.
  - intros _. exact (kept_trans _ _ _ _ _ _ _ Hk2 Hk3).
  - etrans; by eapply some_kept_intro.
  - etrans; [by eapply some_kept_intro|done].
Qed.

(** A fresh launch of an identity. *)
Definition context_created (ip sp : path) (g g' : view) : Prop :=
  exists l, launch_ok MODE l /\
    filed g g' [public_file MODE ip (identity l) false; context_file MODE sp l true] [sp].

Lemma launch_encode_ok o l out :
  tcs_launch_encode (Some o) l MODE = (true, out) ->
  identity_valid (identity l) MODE = true /\ Launch.nonzero (boot l) = true.
Proof.
  unfold tcs_launch_encode. destruct (identity_valid _ _), (Launch.nonzero _); by cbn.
Qed.

Lemma context_create_run id_fd ip session g :
  live g !! id_fd = Some (held_dir ip) ->
  (forall g', may_read A g' (ip ++ [codes "identity.pub"])) ->
  (forall g', may_make A g' (tokens session)) ->
  (forall g', may_create A g' (tokens session ++ [codes "launch.context"])) ->
  safe (context_create MODE apple fuel id_fd session) g
    (finishes g (context_created ip (tokens session) g)).
Proof.
  intros Hid Hpub Hmake Hcreate. unfold context_create. apply sat_bind.
  eapply sat_mono; [by apply identity_read_run|].
  intros [ok who] g1 [(Hok & Hi & Hiv & Hk1)|[Hok Hk1]]; cbn [fst snd] in *; subst ok; cbn [negb];
    [|by apply finishes_false, some_kept_filed].
  assert (Hnone : finishes g (context_created ip (tokens session) g) false g1)
    by by eapply finishes_false, some_kept_filed, some_kept_intro.
  apply sat_entropy; [intros r Hr; by rewrite (proj2 (Z.eqb_neq _ _))|].
  intros r -> Hlen Hb. cbv zeta. cbn [Z.eqb negb]. set (l := {| identity := who; boot := bytes_of_reply r |}).
  destruct (tcs_launch_encode _ _ _) as [ok bytes] eqn:He. destruct ok; [|exact Hnone]. cbn [negb].
  pose proof (launch_encode_ok _ _ _ He) as [Hv Hn]. rewrite launch_encode_layout in He by done.
  injection He as <-. cbn [from_option id].
  assert (Hl : launch_ok MODE l) by (by split_and!).
  eapply sat_mono; [apply (with_directory true session _ g1
    (fun g' => filed g1 g' [context_file MODE (tokens session) l true] [tokens session])); [done|]|].
  - intros fd g2 Hin. apply sat_bind. eapply sat_mono.
    { apply (write_new_run _ _ _ _ _ _ _ (tokens session)); [by eapply entered_live|done|].
      eapply enough_less; [|exact records]. unfold launch_record.
      rewrite !length_app, head_length by done. destruct Hi. cbn. lia. }
    intros b g3 Hw. apply sat_close, sat_message. intros g4 H4. apply sat_ret.
    destruct Hw as [(-> & Hk3)|[-> Hk3]].
    + left. split; [done|]. pose proof (entered_close _ _ _ _ _ _ _ _ Hin (kept_filed _ _ _ _ Hk3)) as H.
      exact (filed_trans _ _ _ _ _ _ _ H H4).
    + apply finishes_false. destruct Hk3 as (lf & d & Hk3).
      pose proof (entered_close _ _ _ _ _ _ _ _ Hin (kept_filed _ _ _ _ Hk3)) as H.
      eexists _, _. exact (filed_trans _ _ _ _ _ _ _ H H4).
  - intros b g' [(-> & Hf)|[-> Hf]].
    + left. split; [done|]. exists l. split; [done|].
      exact (filed_trans _ _ _ _ _ _ _ (kept_filed _ _ _ _ Hk1) Hf).
    + apply finishes_false. etrans; [by eapply some_kept_filed, some_kept_intro|done].
Qed.

(** What [show] prints of the identity it read. *)
Definition identity_shown (ip : path) (g g' : view) : Prop :=
  exists who, identity_ok who /\ identity_valid who MODE = true /\
    filed g g' [public_file MODE ip who false] [] /\
    printed g' = printed g ++ named_bytes "realm" (realm who) ++ named_bytes "public_key" (public_key who).

Lemma show_identity_run id_fd ip g :
  live g !! id_fd = Some (held_dir ip) -> may_read A g (ip ++ [codes "identity.pub"]) ->
  safe (show_identity MODE apple fuel id_fd) g (finishes g (identity_shown ip g)).
Proof.
  intros Hid Hpub. unfold show_identity. apply sat_bind.
  eapply sat_mono; [by apply identity_read_run|].
  intros [ok who] g1 [(Hok & Hi & Hiv & Hk1)|[Hok Hk1]]; cbn [fst snd] in *; subst ok;
    [|by apply finishes_false, some_kept_filed].
  unfold display. apply sat_bind, sat_printf, sat_perform; [done|]. intros r _ _. apply sat_ret.
  left. split; [done|]. exists who. destruct (kept_filed _ _ _ _ Hk1) as (Hl & Hp & Hm).
  destruct Hk1 as (_ & _ & _ & Hq). split_and!; try done.
  cbn [observe printed print_in]. rewrite Hq. unfold named_bytes. by rewrite <- !app_assoc.
Qed.

(** ** Launching *)

(** Closing every other descriptor, whatever the directory of descriptors says. *)
Definition sheds (fd : Z) (f : file) (g g' : view) : Prop := loses g g' /\ traced g' fd f.

Lemma close_entry_run scanner name ok fd f g g0 :
  f_dir f = false -> sheds fd f g0 g ->
  safe (close_entry scanner name ok) g (fun _ g' => sheds fd f g0 g' /\ delays g' = delays g).
Proof.
  intros Hf [Hl Ht]. unfold close_entry. destruct (number name) as [is_number n]. apply sat_if; intros _;
    [|by apply sat_ret].
  apply sat_sys_bind; [done|]. intros r _ _. apply sat_ret. split; [|done]. split; [|by apply close_traced].
  etrans; [done|apply close_loses].
Qed.

Lemma close_loop_run stream scanner fd f g0 n : forall ok g,
  f_dir f = false -> sheds fd f g0 g -> fuelled budget n 0 g ->
  safe (close_loop n stream scanner ok) g (fun _ g' => sheds fd f g0 g').
Proof.
  induction n as [|n IH]; intros ok g Hf Hg Hfuel; cbn [close_loop]; [by eapply out_of_fuel|].
  apply sat_sys_bind; [done|]. intros r _ Hw. cbn [observe] in *.
  destruct (returned r =? 0); cbn [negb] in *; [by apply sat_ret|].
  apply sat_bind. eapply sat_mono; [by apply (close_entry_run _ _ _ fd f (delayed g) g0)|].
  intros ok' g' [Hg' Hd]. apply IH; [done..|]. pose proof (fuelled_delay _ _ _ _ Hfuel Hw) as Hn.
  revert Hn. unfold fuelled. rewrite Hd. by destruct budget.
Qed.

Lemma close_other_run fd f g g0 :
  f_dir f = false -> sheds fd f g0 g ->
  safe (close_other_descriptors fuel) g (fun _ g' => sheds fd f g0 g').
Proof.
  intros Hf Hg. unfold close_other_descriptors. quiet_step. apply sat_if; intros _; [by apply sat_ret|].
  quiet_step. apply sat_bind. eapply sat_mono.
  - apply (close_loop_run _ _ fd f g0); [done..|]. apply enough_fuelled.
    by eapply enough_less; [|exact records]; lia.
  - intros ok g' Hg'. quiet_step. by apply sat_ret.
Qed.

(** What has been done when the guest replaces the process: the session was
    reserved with the context it was read from, and the image file was copied. *)
Definition reserved (ip sp img : path) (image_fd : Z) (g0 g : view) : Prop :=
  exists l bytes rest, launch_ok MODE l /\
    past g = past g0 ++ launch_files MODE ip sp l ++
             [used_file MODE sp l; file_named sp "launch.img" true bytes] ++ rest /\
    traced g image_fd (held img false bytes false).

(** The end: with the image copied, [execv] is the last call that matters. *)
Lemma exec_run (ok : bool) pointer dir qemu fd f g0 g :
  f_dir f = false -> loses g0 g -> (ok = true -> traced g fd f) ->
  (ok = true -> forall g' l, past g' = past g ++ l -> traced g' fd f -> may_exec A g' qemu (arguments qemu)) ->
  safe (_ ← perform (Free pointer);
        if negb ok then mret tt
        else f ← value (Fchdir dir);
             if negb (f =? 0) then mret tt
             else ok ← close_other_descriptors fuel;
                  if negb ok then mret tt else perform (Execv qemu (arguments qemu))) g
    (fun _ g' => loses g0 g').
Proof.
  intros Hf Hl Ht Hexec. quiet_step. destruct ok; cbn [negb]; [|by apply sat_ret].
  quiet_step. apply sat_if; intros _; [by apply sat_ret|]. apply sat_bind.
  assert (Hs : sheds fd f g g) by (split; [done|by apply Ht]).
  eapply sat_mono; [by apply (close_other_run fd f _ g)|].
  intros ok g' [Hg' Htr]. assert (Hl' : loses g0 g') by by etrans.
  apply sat_if; intros _; [by apply sat_ret|]. pose proof Hg' as (_ & [l Hp] & _).
  apply sat_perform; [by eapply Hexec|]. by intros.
Qed.

Lemma copy_and_exec_run dir image_fd pointer size qemu ip sp img l g0 g :
  live g !! dir = Some (held_dir sp) -> live g !! image_fd = Some (held img false [] false) ->
  launch_ok MODE l -> past g = past g0 ++ launch_files MODE ip sp l ++ [used_file MODE sp l] ->
  (forall g', may_create A g' (sp ++ [codes "launch.img"])) ->
  (forall g', reserved ip sp img image_fd g0 g' -> may_exec A g' qemu (arguments qemu)) ->
  enough fuel budget size -> enough fuel budget 1 ->
  safe (copy_and_exec apple fuel dir image_fd pointer size qemu) g (fun _ g' => loses g g').
Proof.
  intros Hdir Himg Hl Hpast Himage Hexec Hfuel Hfuel1. unfold copy_and_exec. apply sat_bind.
  assert (Hne : image_fd <> dir) by (intros ->; rewrite Hdir in Himg; discriminate).
  assert (Hlose : forall g' b, live g' = <[image_fd := held img false b false]> (live g) ->
    idle g g' -> made g' = made g -> loses g g').
  { intros g' b Hl' [Hp' _] Hm'. split_and!; [by rewrite Hl', dom_insert_lookup_L|exists []|exists []];
      by rewrite app_nil_r. }
  eapply sat_mono.
  { apply (read_loop_run _ _ _ img false size); [exact Himg|by apply length_replicate|apply buffer_bytes|lia|].
    rewrite Nat.sub_0_r. by apply enough_fuelled. }
  intros [ok bytes] g1 (Hi1 & Hm1 & b & Hl1 & Hok). cbn [fst snd] in *.
  destruct ok; cbn [negb]; [|apply sat_perform; [done|]; intros; by eapply Hlose].
  destruct (Hok eq_refl) as (-> & Hlen & Hb). apply sat_bind.
  eapply sat_mono; [apply (read_extra_run _ _ _ img bytes); [by rewrite Hl1, lookup_insert_eq|by apply enough_fuelled]|].
  intros n g2 (Hi2 & Hm2 & b2 & Hl2 & Hn). rewrite Hl1, insert_insert_eq in Hl2.
  assert (Hlose2 : loses g g2) by (eapply Hlose; [exact Hl2|by etrans|congruence]).
  apply sat_bind. apply sat_andthen; intros Hn0; [|by eapply (exec_run false _ _ _ 0 (held [] false [] false))].
  rewrite Hn in Hl2 by lia. eapply sat_mono.
  { apply (write_new_run _ _ _ _ _ _ _ sp); [by rewrite Hl2, lookup_insert_ne|done|by rewrite Hlen]. }
  intros ok g3 [(-> & Hk)|[-> Hk]];
    [|eapply (exec_run false _ _ _ 0 (held [] false [] false)); try done; etrans; [done|];
      by apply some_filed_loses, some_kept_filed].
  pose proof Hk as (Hl3 & Hp3 & Hm3 & _).
  eapply (exec_run true _ _ _ image_fd (held img false bytes false)); [done| |intros _|intros _].
  - etrans; [done|]. by eapply some_filed_loses, some_kept_filed, some_kept_intro.
  - right. by rewrite Hl3, Hl2, lookup_insert_eq.
  - intros g' rest Hp' Ht. apply Hexec. exists l, bytes, rest. split; [done|]. split; [|done].
    rewrite Hp', Hp3, (proj1 Hi2), (proj1 Hi1), Hpast, <- !app_assoc. done.
Qed.

(** Images are bounded; the copying loops have the fuel for any of them. *)
Context (images : forall size, Z.of_nat size <= MAX_IMAGE -> enough fuel budget size).

Lemma launch_image_run dir image_fd qemu ip sp img l g0 g :
  live g !! dir = Some (held_dir sp) ->
  (0 <= image_fd -> live g !! image_fd = Some (held img false [] false)) ->
  launch_ok MODE l -> past g = past g0 ++ launch_files MODE ip sp l ->
  (forall g' name, name = codes "launch.used" \/ name = codes "launch.img" ->
     may_create A g' (sp ++ [name])) ->
  (forall g', reserved ip sp img image_fd g0 g' -> may_exec A g' qemu (arguments qemu)) ->
  safe (launch_image apple fuel dir image_fd (launch_record l MODE) qemu) g (fun _ g' => loses g g').
Proof.
  intros Hdir Himg Hl Hpast Hcreate Hexec. unfold launch_image.
  apply sat_if; intros Hfd; [by apply sat_ret|]. apply Z.ltb_ge in Hfd. specialize (Himg Hfd).
  quiet_step. cbv zeta. apply sat_if; intros Hst; [by apply sat_ret|].
  apply orb_false_iff in Hst as [Hst Hmax]. apply Z.ltb_ge in Hmax.
  apply orb_false_iff in Hst as [_ Hpos]. apply Z.leb_gt in Hpos.
  apply sat_bind. eapply sat_mono.
  { apply (write_new_run _ _ _ _ _ _ _ sp); [done|by auto|].
    eapply enough_less; [|exact records]. destruct Hl as ([Hr Hk] & Hb & _). unfold launch_record.
    rewrite !length_app, head_length, Hr, Hk, Hb by done. lia. }
  intros used g1 [(-> & Hk)|[-> Hk]]; cbn [negb];
    [|apply sat_ret; by apply some_filed_loses, some_kept_filed].
  pose proof Hk as (Hl1 & Hp1 & _).
  assert (Hlose : loses g g1) by by eapply some_filed_loses, some_kept_filed, some_kept_intro.
  quiet_step. apply sat_if; intros _; [by apply sat_ret|]. eapply sat_mono.
  - apply (copy_and_exec_run dir image_fd _ _ qemu ip sp img l g0); rewrite ?Hl1; try done; auto.
    + by rewrite Hp1, Hpast, <- app_assoc.
    + apply images. lia.
    + by eapply enough_less; [|exact records]; lia.
  - intros [] g' H. by etrans.
Qed.

(** After the image, whatever happened there, both descriptors are closed. *)
Lemma launch_end g g1 g2 dir (image_fd : Z) sp d :
  entered g g1 dir sp d -> (exists l, past g2 = past g ++ l) -> (exists d, made g2 = made g ++ d) ->
  dom (live g2) ⊆ {[ dir; image_fd ]} ∪ dom (live g) ->
  (image_fd < 0 -> dom (live g2) ⊆ {[ dir ]} ∪ dom (live g)) ->
  safe (if 0 <=? image_fd then perform (Close image_fd) else mret tt) g2 (fun _ g' =>
    safe (_ ← perform (Close dir); mret false) g' (fun ok g' => ok = false /\ loses g g')).
Proof.
  intros Hin [l Hp] [d' Hm] Hdom Hneg. apply sat_if; intros Hfd.
  - apply sat_perform; [done|]. intros r _ _. apply sat_close, sat_ret. split; [done|].
    change (observe g2 (Close image_fd) r) with (close_in g2 image_fd).
    split_and!; cbn [close_in live past made]; [by apply close_both_dom| |eauto].
    rewrite Hp. eexists. by rewrite <- !app_assoc.
  - apply Z.leb_gt in Hfd. apply sat_ret, sat_close, sat_ret. split; [done|].
    split_and!; cbn [close_in live past made]; [by apply close_one_dom, Hneg| |eauto].
    rewrite Hp. eexists. by rewrite <- !app_assoc.
Qed.

(** The identity and the launch a session directory names. *)
Lemma launch_valid_run id_fd ip dir sp g :
  live g !! id_fd = Some (held_dir ip) -> live g !! dir = Some (held_dir sp) ->
  (forall g', may_read A g' (ip ++ [codes "identity.pub"])) ->
  (forall g', may_read A g' (sp ++ [codes "launch.context"])) ->
  forall (k : bool -> list Z -> io bool) Q,
  (forall g' context, some_kept g g' -> safe (k false context) g' Q) ->
  (forall g' l, launch_ok MODE l -> kept g g' (launch_files MODE ip sp l) [] ->
     safe (k true (launch_record l MODE)) g' Q) ->
  safe (read ← identity_read MODE apple fuel id_fd;
        let '(ok, identity) := read in
        read ← (if (ok : bool) then read_file apple fuel dir (codes "launch.context") (buffer 112) 112
                else mret (false, buffer 112));
        let '(ok, context) := read in
        let '(decoded, launch) := tcs_launch_decode (Some context) 112 MODE (Some launch_zero) in
        k (ok && decoded && same_identity identity (default launch_zero launch)) context) g Q.
Proof.
  intros Hid Hdir Hpub Hctx k Q Hbad Hgood. apply sat_bind.
  eapply sat_mono; [by apply identity_read_run|].
  intros [ok who] g1 [(Hok & Hi & Hiv & Hk1)|[Hok Hk1]]; cbn [fst snd] in *; subst ok; cycle 1.
  { apply sat_bind, sat_ret. destruct (tcs_launch_decode _ _ _ _). by apply Hbad. }
  apply sat_bind. eapply sat_mono.
  { apply (read_file_run _ _ _ _ _ _ _ 112 sp); [|done|done|apply buffer_bytes| |];
      [by destruct Hk1 as (-> & _)|..]; (eapply enough_less; [|exact records]; lia). }
  intros [ok bytes] g2 [(Hok & Hlen & Hb & Hk2)|[Hok Hk2]]; cbn [fst snd] in *; subst ok; cycle 1.
  { destruct (tcs_launch_decode _ _ _ _). apply Hbad. etrans; [by eapply some_kept_intro|done]. }
  pose proof (kept_trans _ _ _ _ _ _ _ Hk1 Hk2) as Hk. cbn [app] in Hk.
  assert (Hbad' : forall context, safe (k false context) g2 Q) by (intros; by eapply Hbad, some_kept_intro).
  destruct (tcs_launch_decode _ _ _ _) as [ok l] eqn:Hd. destruct ok; cbn [andb]; [|done].
  assert (exists l', l = Some l') as [l' ->].
  { revert Hd. unfold tcs_launch_decode. repeat case_match; intros [= <-]; eauto. }
  unfold id. cbn [from_option]. apply launch_decode_iff in Hd as (Hli & Hlb & Hlv & Hln & ->); [|done].
  destruct (same_identity who l') eqn:Hsame; [|done].
  apply same_identity_eq in Hsame as ->; [|done..]. by apply Hgood.
Qed.

(** The image's part, whether it was opened or not, to the end of the session. *)
Lemma launch_image_end dir image_fd qemu ip sp img l g g1 g2 d :
  entered g g1 dir sp d -> launch_ok MODE l -> past g2 = past g ++ launch_files MODE ip sp l ->
  (exists d, made g2 = made g ++ d) -> live g2 !! dir = Some (held_dir sp) ->
  (0 <= image_fd -> live g2 !! image_fd = Some (held img false [] false)) ->
  dom (live g2) ⊆ {[ dir; image_fd ]} ∪ dom (live g) ->
  (image_fd < 0 -> dom (live g2) ⊆ {[ dir ]} ∪ dom (live g)) ->
  (forall g' name, name = codes "launch.used" \/ name = codes "launch.img" -> may_create A g' (sp ++ [name])) ->
  (forall g', reserved ip sp img image_fd g g' -> may_exec A g' qemu (arguments qemu)) ->
  safe (_ ← launch_image apple fuel dir image_fd (launch_record l MODE) qemu;
        if 0 <=? image_fd then perform (Close image_fd) else mret tt) g2
    (fun _ g' => safe (_ ← perform (Close dir); mret false) g' (fun ok g' => ok = false /\ loses g g')).
Proof.
  intros Hin Hl Hp2 [d2 Hm2] Hd2 Hi2 Hdom Hneg Hcreate Hexec. apply sat_bind. eapply sat_mono.
  { by apply (launch_image_run dir image_fd qemu ip sp img l g). }
  intros [] g3 (Hdom3 & [l3 Hp3] & [d3 Hm3]). eapply launch_end; [done|..].
  - rewrite Hp3, Hp2, <- app_assoc. eauto.
  - rewrite Hm3, Hm2, <- app_assoc. eauto.
  - by etrans.
  - intros Hfd. etrans; [done|by apply Hneg].
Qed.

(** [launch] never succeeds: either it becomes the guest, or it is refused. *)
Lemma launch_guest_run id_fd ip session image qemu g :
  live g !! id_fd = Some (held_dir ip) ->
  (forall g', may_read A g' (ip ++ [codes "identity.pub"])) ->
  (forall g', may_read A g' (tokens session ++ [codes "launch.context"])) ->
  (forall g', may_read A g' (tokens image)) ->
  (forall g' name, name = codes "launch.used" \/ name = codes "launch.img" ->
     may_create A g' (tokens session ++ [name])) ->
  (forall g' fd, reserved ip (tokens session) (tokens image) fd g g' -> may_exec A g' qemu (arguments qemu)) ->
  safe (launch_guest MODE apple fuel id_fd session image qemu) g (fun ok g' => ok = false /\ loses g g').
Proof.
  intros Hid Hpub Hctx Himage Hcreate Hexec. unfold launch_guest.
  apply sat_if; intros _; [by apply sat_ret|]. apply sat_bind. eapply sat_mono; [by apply directory_entered|].
  intros dir g1 [[-> Hf]|[Hd Hin]]; [apply sat_ret; split; [done|by apply some_filed_loses]|].
  rewrite (proj2 (Z.ltb_ge _ _)) by done. pose proof Hin as (Hfresh & Hl1 & [Hp1 _] & Hm1).
  apply (launch_valid_run id_fd ip dir (tokens session)) with (k := fun valid context =>
      _ ← (if (valid : bool) then
             image_fd ← value (Open image read_flags);
             _ ← launch_image apple fuel dir image_fd context qemu;
             if 0 <=? image_fd then perform (Close image_fd) else mret tt
           else mret tt);
      _ ← perform (Close dir); mret false); [|by eapply entered_live|done..| |].
  { rewrite Hl1, lookup_insert_ne; [done|]. congruence. }
  - intros g2 context (l & d & Hl2 & Hp2 & Hm2 & _). apply sat_close, sat_ret. split; [done|].
    apply some_filed_loses. exists l, ([] ++ d). by eapply entered_close.
  - intros g2 l Hl (Hl2 & Hp2 & Hm2 & _). apply sat_bind.
    assert (Hdom2 : dom (live g2) ⊆ {[ dir ]} ∪ dom (live g)) by (by rewrite Hl2, Hl1, dom_insert_L).
    assert (Hd2 : live g2 !! dir = Some (held_dir (tokens session))) by (by rewrite Hl2, Hl1, lookup_insert_eq).
    apply (sat_open _ _ (Open image read_flags) (held (tokens image) false [] false)); [by right|done..| |].
    + intros fd Hneg. eapply launch_image_end; try done; [by rewrite Hp2, Hp1|by rewrite Hm2, Hm1, <- app_assoc; eauto|lia| |].
      * etrans; [exact Hdom2|]. apply union_mono_r, union_subseteq_l.
      * intros g'. apply Hexec.
    + intros fd Hpos Hfd. eapply launch_image_end; cbn [set_live live past made]; try done;
        [by rewrite Hp2, Hp1|by rewrite Hm2, Hm1, <- app_assoc; eauto| | | |lia|].
      * rewrite lookup_insert_ne; [done|]. congruence.
      * intros _. apply lookup_insert_eq.
      * rewrite dom_insert_L. apply union_least; [apply union_subseteq_l', union_subseteq_r|].
        etrans; [exact Hdom2|]. apply union_mono_r, union_subseteq_l.
      * intros g'. apply Hexec.
Qed.
End Commands.
