(* ===== verification/OperatorHost.v ===== *)
(** A host in memory: a small file system with short transfers, one user and a
    counter for entropy. It is not part of the sources; it shows that the
    hypotheses the theorems make of a host can be met, and runs the tool. *)

From S2P Require Import Prelude Bytes Policy Admin Terminal SignedInput Launch Posix Operator.
Import String.StringSyntax.
#[local] Open Scope string_scope.
#[local] Open Scope Z_scope.

(** Directories and files by path, open descriptors with their offsets, the
    entries of the descriptor directory, and what was printed. *)
Record host := {
  h_dirs : list (list (list Z));
  h_files : list (list (list Z) * list Z);
  h_fds : gmap Z (list (list Z) * nat);
  h_next : Z;
  h_scan : list (list Z);
  h_entropy : Z;
  h_out : list Z
}.

Definition host_stat (mode size : Z) : stat :=
  {| st_mode := mode; st_uid := 1000; st_nlink := 1; st_size := size |}.
Definition answer (v : Z) : reply :=
  {| returned := v; error := E0; bytes_of_reply := []; status_of_reply := host_stat 0 0 |}.
Definition fails (e : errno) : reply :=
  {| returned := -1; error := e; bytes_of_reply := []; status_of_reply := host_stat 0 0 |}.
Definition gives (bytes : list Z) (v : Z) : reply :=
  {| returned := v; error := E0; bytes_of_reply := bytes; status_of_reply := host_stat 0 0 |}.
Definition stats (s : stat) : reply :=
  {| returned := 0; error := E0; bytes_of_reply := []; status_of_reply := s |}.

Definition content (h : host) (p : list (list Z)) : option (list Z) :=
  snd <$> head (filter (fun f => fst f = p) (h_files h)).
Definition is_dir (h : host) (p : list (list Z)) : bool := bool_decide (p ∈ h_dirs h).

Definition with_dirs h d : host := {| h_dirs := d; h_files := h_files h; h_fds := h_fds h;
  h_next := h_next h; h_scan := h_scan h; h_entropy := h_entropy h; h_out := h_out h |}.
Definition with_files h f : host := {| h_dirs := h_dirs h; h_files := f; h_fds := h_fds h;
  h_next := h_next h; h_scan := h_scan h; h_entropy := h_entropy h; h_out := h_out h |}.
Definition with_fds h f : host := {| h_dirs := h_dirs h; h_files := h_files h; h_fds := f;
  h_next := h_next h; h_scan := h_scan h; h_entropy := h_entropy h; h_out := h_out h |}.

Definition host_open (h : host) (p : list (list Z)) (new : bool) : host * reply :=
  let known := is_dir h p || match content h p with Some _ => true | None => false end in
  if Bool.eqb known new then (h, fails (if new then EOTHER else ENOENT))
  else
    ({| h_dirs := h_dirs h; h_files := if new then (p, []) :: h_files h else h_files h;
        h_fds := <[h_next h := (p, 0%nat)]> (h_fds h); h_next := h_next h + 1;
        h_scan := h_scan h; h_entropy := h_entropy h; h_out := h_out h |}, answer (h_next h)).

Definition at_dir (h : host) (dir : Z) (name : list Z) : list (list Z) :=
  from_option fst [] (h_fds h !! dir) ++ [name].

(** At most 50 bytes move in one transfer. *)
Definition chunk : nat := 50.

Definition host_call (h : host) (c : call) : option (host * reply) :=
  match c with
  | Open path _ => Some (host_open h (tokens path) false)
  | Openat dir name flags _ => Some (host_open h (at_dir h dir name) (bool_decide (O_CREAT ∈ flags)))
  | Mkdirat dir name _ =>
      Some (if is_dir h (at_dir h dir name) then (h, fails EOTHER)
            else (with_dirs h (at_dir h dir name :: h_dirs h), answer 0))
  | Fstat fd =>
      Some (h, match h_fds h !! fd with
               | None => fails EBADF
               | Some (p, _) =>
                   match content h p with
                   | Some b => stats (host_stat (32768 + 384) (Z.of_nat (length b)))
                   | None => stats (host_stat (16384 + 448) 0)
                   end
               end)
  | Fstatat _ _ => Some (h, fails ENOENT)
  | Fgetxattr _ _ => Some (h, fails ENODATA)
  | Read fd n =>
      Some match h_fds h !! fd with
           | None => (h, fails EBADF)
           | Some (p, off) =>
               let b := take (Nat.min n chunk) (drop off (default [] (content h p))) in
               (with_fds h (<[fd := (p, (off + length b)%nat)]> (h_fds h)), gives b (Z.of_nat (length b)))
           end
  | Write fd bytes =>
      Some match h_fds h !! fd with
           | None => (h, fails EBADF)
           | Some (p, _) =>
               let b := take chunk bytes in
               (with_files h ((p, default [] (content h p) ++ b) :: h_files h),
                answer (Z.of_nat (length b)))
           end
  | Close fd => Some (with_fds h (delete fd (h_fds h)), answer 0)
  | Getuid | Geteuid | Getgid | Getegid => Some (h, answer 1000)
  | Entropy n =>
      Some ({| h_dirs := h_dirs h; h_files := h_files h; h_fds := h_fds h; h_next := h_next h;
               h_scan := h_scan h; h_entropy := h_entropy h + 1; h_out := h_out h |},
            gives (map (fun i => (h_entropy h + 7 * Z.of_nat i) mod 256) (seq 0 n)) 0)
  | Malloc _ | Opendir _ => Some (h, answer 1)
  | Dirfd _ => Some (h, answer 99)
  | Readdir _ =>
      Some match h_scan h with
           | [] => (h, answer 0)
           | name :: rest =>
               ({| h_dirs := h_dirs h; h_files := h_files h; h_fds := h_fds h; h_next := h_next h;
                   h_scan := rest; h_entropy := h_entropy h; h_out := h_out h |}, gives name 1)
           end
  | Printf text | Perror text =>
      Some ({| h_dirs := h_dirs h; h_files := h_files h; h_fds := h_fds h; h_next := h_next h;
               h_scan := h_scan h; h_entropy := h_entropy h; h_out := h_out h ++ text |}, answer 0)
  | Execv _ _ => None
  | _ => Some (h, answer 0)
  end.

(** A toy cipher: it has the shape of the real one, not its strength. *)
Definition toy_hash (n : nat) (message : list Z) : list Z :=
  replicate n (foldl (fun a b => (31 * a + b) mod 256) 7 message).
Definition toy_pad (n : nat) (l : list Z) : list Z := map (fun i => l !!! i) (seq 0 n).
Definition toy_public (seed : list Z) : list Z := map (fun b => (b + 1) mod 256) (toy_pad 32 seed).
Definition toy_key_pair (seed : list Z) : list Z * list Z :=
  (toy_pad 32 seed ++ toy_public seed, toy_public seed).
Definition toy_sign (secret message : list Z) : list Z := toy_hash 64 (drop 32 secret ++ message).
Definition toy_check (signature key message : list Z) : Z :=
  if bool_decide (signature = toy_hash 64 (key ++ message)) then 0 else -1.

Definition host_fuel : nat := 256.
Definition tool (argv : list (list Z)) : io Z :=
  main TCS_OPERATOR_MODE false host_fuel toy_hash toy_key_pair toy_sign toy_check argv.

Definition host_start : host := {|
  h_dirs := [[]; [codes "home"]];
  h_files := [([codes "guest.img"], replicate 130 5)];
  h_fds := ∅; h_next := 3; h_scan := [codes "."; codes "0"; codes "1"; codes "2"; codes "99"; codes "77"];
  h_entropy := 1; h_out := [] |}.

(** ** A session: create, context, review, sign and launch, one after another *)

Definition host_after {B C} (x : host * B * C) : host := fst (fst x).
Definition trace_of {B C} (x : host * B * C) : B := snd (fst x).
Definition session (argv : list (list Z)) (h : host) : host * list event * outcome Z :=
  simulate host_call h (tool argv).

Definition create_argv : list (list Z) :=
  map codes ["tcs-operator"; "create"; "/home/id"; "--acknowledge-experimental"].
Definition context_argv : list (list Z) :=
  map codes ["tcs-operator"; "context"; "/home/id"; "/home/s1"; "--acknowledge-experimental"].
Definition review_argv : list (list Z) :=
  map codes ["tcs-operator"; "review"; "/home/id"; "/home/s1"; "grant"; "1"; "1"; "0"].
Definition launch_argv : list (list Z) :=
  map codes ["tcs-operator"; "launch"; "/home/id"; "/home/s1"; "/guest.img"; "/qemu"; "--acknowledge-experimental"].

Definition created := session create_argv host_start.
Definition prepared := session context_argv (host_after created).
Definition reviewed := session review_argv (host_after prepared).

(** The approval is what the review printed last. *)
Definition shown_approval : list Z :=
  let out := h_out (host_after reviewed) in take 64 (drop (length out - 65) out).
Definition sign_argv : list (list Z) :=
  map codes ["tcs-operator"; "sign"; "/home/id"; "/home/s1"; "grant"; "1"; "1"; "0"] ++ [shown_approval].

Definition signed_session := session sign_argv (host_after reviewed).
Definition launched := session launch_argv (host_after signed_session).
Definition relaunched := session launch_argv (host_after launched).

Lemma session_run argv h :
  documented_trace view_start (trace_of (session argv h)) = true ->
  run view_start (tool argv) (trace_of (session argv h)) (snd (session argv h)).
Proof.
  intros Hd. pose proof (simulate_run host_call (tool argv) h view_start) as H.
  unfold session, trace_of in *. destruct (simulate _ _ _) as [[w t] o]. by apply H.
Qed.

Lemma host_created_run : run view_start (tool create_argv) (trace_of created) (Returned 0).
Proof.
  pose proof (session_run create_argv host_start) as H.
  replace (Returned 0) with (snd created) by (vm_compute; reflexivity). apply H. vm_compute. reflexivity.
Qed.

Lemma host_signed_run : run view_start (tool sign_argv) (trace_of signed_session) (Returned 0).
Proof.
  pose proof (session_run sign_argv (host_after reviewed)) as H.
  replace (Returned 0) with (snd signed_session) by (vm_compute; reflexivity). apply H. vm_compute. reflexivity.
Qed.

Lemma host_launched_run :
  run view_start (tool launch_argv) (trace_of launched) (Stopped (Execv (codes "/qemu") (arguments (codes "/qemu")))).
Proof.
  pose proof (session_run launch_argv (host_after signed_session)) as H.
  replace (Stopped _) with (snd launched) by (vm_compute; reflexivity). apply H. vm_compute. reflexivity.
Qed.

(** The part of a trace before the first call of a kind, and that call. *)
Fixpoint before (kind : call -> bool) (t : list event) : list event :=
  match t with
  | [] => []
  | e :: t => if kind (fst e) then [] else e :: before kind t
  end.

Lemma before_called {A} kind t (o : outcome A) c :
  fst <$> t !! length (before kind t) = Some c -> called t o (before kind t) c.
Proof.
  intros H. left. destruct (t !! length (before kind t)) as [[c' r]|] eqn:Hl; [|done]. injection H as ->.
  assert (Hp : forall t, take (length (before kind t)) t = before kind t).
  { clear. induction t as [|e t IH]; cbn [before]; [done|]. destruct (kind (fst e)); [done|].
    cbn [length take]. by rewrite IH. }
  exists r, (drop (S (length (before kind t))) t). etrans; [symmetry; apply (take_drop_middle _ _ _ Hl)|]. by rewrite Hp.
Qed.

Definition opens (name : String.string) (c : call) : bool :=
  match c with Openat _ n _ _ => bool_decide (n = codes name) | _ => false end.

(** The session cannot be launched again: the reservation is there. *)
Example relaunch_refused : snd relaunched = Returned 1.
Proof. vm_compute. reflexivity. Qed.

(** [launch] does not look at what it is given as an image: named as the image,
    the private record is opened and copied into the session. *)
Definition careless_argv : list (list Z) :=
  map codes ["tcs-operator"; "launch"; "/home/id"; "/home/s1"; "/home/id/identity.key"; "/qemu";
             "--acknowledge-experimental"].
Definition careless := session careless_argv (host_after signed_session).

Theorem private_record_as_image :
  snd careless = Stopped (Execv (codes "/qemu") (arguments (codes "/qemu"))) /\
  content (host_after careless) [codes "home"; codes "s1"; codes "launch.img"] =
    content (host_after signed_session) [codes "home"; codes "id"; codes "identity.key"] /\
  content (host_after signed_session) [codes "home"; codes "id"; codes "identity.key"] <> None.
Proof. vm_compute. repeat split. discriminate. Qed.
