(* ===== verification/OperatorChecks.v ===== *)
(** The operator tool refuses on any failed check: a logic of refusals, and
    what every system call of a successful run of [tools/operator.c] answered. *)

From S2P Require Import Prelude Bytes Policy Admin Terminal SignedInput Launch Posix Operator.
Import String.StringSyntax.
#[local] Open Scope string_scope.
#[local] Open Scope Z_scope.

(** ** Calls that went well *)

Section Checks.
(** The user the process runs as. *)
Context (uid : Z).

Definition private_mode (s : stat) : bool :=
  (st_uid s =? uid) &&
  ((S_ISDIR (st_mode s) && (Z.land (st_mode s) mode_07777 =? mode_0700)) ||
   (S_ISREG (st_mode s) && (Z.land (st_mode s) mode_07777 =? mode_0600) && (st_nlink s =? 1))).

(** What a call must answer: what is examined is private, without access lists,
    and outside a repository; opens, syncs and the other requests succeed. *)
Definition good (c : call) (r : reply) : bool :=
  match c with
  | Fstat _ => (returned r =? 0) && private_mode (status_of_reply r)
  | Fstatat _ _ => (returned r =? -1) && bool_decide (error r = ENOENT)
  | Fgetxattr _ _ =>
      (returned r <? 0) && (bool_decide (error r = ENODATA) || bool_decide (error r = ENOTSUP))
  | Acl_get_fd_np _ => negb (returned r =? 0) || bool_decide (error r = ENOENT)
  | Acl_valid _ => returned r =? 0
  | Acl_get_entry _ => (returned r =? -1) && bool_decide (error r = EINVAL)
  | Open _ _ | Openat _ _ _ _ => 0 <=? returned r
  | Mkdirat _ _ _ | Fsync _ | Lseek _ | Entropy _ | Setrlimit | Fflush => returned r =? 0
  | Fcntl_getfd _ => 0 <=? returned r
  | _ => true
  end.

(** The user does not change. *)
Definition same_user (c : call) (r : reply) : bool :=
  match c with Getuid => returned r =? uid | _ => true end.

(** ** Refusals *)

(** Every result of [m] satisfies [Q]; and so does every result of a run with
    a call that did not go well. *)
Fixpoint always {A} (m : io A) (Q : A -> Prop) : Prop :=
  match m with
  | Return a => Q a
  | Call c k => forall r, same_user c r = true -> always (k r) Q
  | Out_of_fuel => True
  end.

Fixpoint refuses {A} (m : io A) (Q : A -> Prop) : Prop :=
  match m with
  | Return _ | Out_of_fuel => True
  | Call c k =>
      forall r, same_user c r = true -> if good c r then refuses (k r) Q else always (k r) Q
  end.

Lemma always_mono {A} (m : io A) (Q R : A -> Prop) : (forall a, Q a -> R a) -> always m Q -> always m R.
Proof. intros HQR. induction m as [a|c k IH|]; cbn; auto. Qed.

Lemma always_true {A} (m : io A) (Q : A -> Prop) : (forall a, Q a) -> always m Q.
Proof. intros HQ. by induction m; cbn. Qed.

Lemma always_bind {A B} (m : io A) (f : A -> io B) Q :
  always m (fun a => always (f a) Q) -> always (m ≫= f) Q.
Proof. induction m as [a|c k IH|]; cbn; auto. Qed.

Lemma refuses_bind {A B} (m : io A) (f : A -> io B) (R : A -> Prop) Q :
  refuses m R -> (forall a, R a -> always (f a) Q) -> (forall a, refuses (f a) Q) -> refuses (m ≫= f) Q.
Proof.
  intros Hm Hr Hf. induction m as [a|c k IH|]; cbn in *; [apply Hf| |done].
  intros r Hu. specialize (Hm r Hu). destruct (good c r); [by apply IH|].
  apply always_bind. by eapply always_mono.
Qed.

(** A call that goes well in every case, and one that is checked. *)
Lemma refuses_call {B} c (k : reply -> io B) Q :
  (forall r, same_user c r = true -> good c r = false -> always (k r) Q) ->
  (forall r, same_user c r = true -> good c r = true -> refuses (k r) Q) -> refuses (Call c k) Q.
Proof. intros Hbad Hok r Hu. destruct (good c r) eqn:Hg; auto. Qed.

(** The events of a run that returns, when it did not refuse. *)
Lemma refuses_run {A} (m : io A) g t (Q : A -> Prop) a :
  run g m t (Returned a) -> forallb (fun e => same_user (fst e) (snd e)) t = true ->
  refuses m Q -> ~ Q a -> forallb (fun e => good (fst e) (snd e)) t = true.
Proof.
  remember (Returned a) as o eqn:Ho. intros Hrun.
  assert (Halways : forall g (m : io A) t, run g m t o -> forallb (fun e => same_user (fst e) (snd e)) t = true ->
    always m Q -> Q a).
  { clear Hrun m g t. induction 1; subst; cbn; try done.
    - intros _. by injection Ho as ->.
    - intros [Hu Ht]%andb_true_iff Hm. by apply IHrun, Hm. }
  induction Hrun as [g b|g c k r t o Hd Hrun IH|g c k|g]; cbn; try done.
  intros [Hu Ht]%andb_true_iff Hm HQ. specialize (Hm r Hu). destruct (good c r); [by apply IH|].
  destruct HQ. by eapply Halways.
Qed.
End Checks.

Section Rules.
Context (uid : Z).

Lemma refuses_sys {B} c (f : reply -> io B) Q :
  (forall r, same_user uid c r = true -> good uid c r = false -> always uid (f r) Q) ->
  (forall r, refuses uid (f r) Q) -> refuses uid (sys c ≫= f) Q.
Proof. intros Hbad Hok. apply (refuses_call uid c); auto. Qed.

Lemma refuses_value {B} c (f : Z -> io B) Q :
  (forall r, same_user uid c r = true -> good uid c r = false -> always uid (f (returned r)) Q) ->
  (forall v, refuses uid (f v) Q) -> refuses uid (value c ≫= f) Q.
Proof. intros Hbad Hok. apply (refuses_call uid c); auto. Qed.

(** Calls without a check. *)
Definition unchecked (c : call) : Prop := forall r, good uid c r = true.

Lemma refuses_sys_free {B} c (f : reply -> io B) Q :
  unchecked c -> (forall r, refuses uid (f r) Q) -> refuses uid (sys c ≫= f) Q.
Proof. intros Hc Hf. apply refuses_sys; [|done]. intros r _. by rewrite Hc. Qed.

Lemma refuses_value_free {B} c (f : Z -> io B) Q :
  unchecked c -> (forall v, refuses uid (f v) Q) -> refuses uid (value c ≫= f) Q.
Proof. intros Hc Hf. apply refuses_value; [|done]. intros r _. by rewrite Hc. Qed.

Lemma refuses_perform {B} c (f : unit -> io B) Q :
  unchecked c -> refuses uid (f tt) Q -> refuses uid (perform c ≫= f) Q.
Proof. intros Hc Hf. apply (refuses_call uid c); [|auto]. intros r _. by rewrite Hc. Qed.

Lemma refuses_andthen a (b : io bool) Q : refuses uid b Q -> refuses uid (andthen a b) Q.
Proof. by destruct a. Qed.

Lemma refuses_if {A} (b : bool) (m n : io A) Q :
  (b = true -> refuses uid m Q) -> (b = false -> refuses uid n Q) -> refuses uid (if b then m else n) Q.
Proof. destruct b; auto. Qed.

Lemma always_if {A} (b : bool) (m n : io A) Q :
  (b = true -> always uid m Q) -> (b = false -> always uid n Q) -> always uid (if b then m else n) Q.
Proof. destruct b; auto. Qed.

Lemma always_call {B} c (f : reply -> io B) Q :
  (forall r, same_user uid c r = true -> always uid (f r) Q) -> always uid (sys c ≫= f) Q.
Proof. done. Qed.

Lemma always_value {B} c (f : Z -> io B) Q :
  (forall r, same_user uid c r = true -> always uid (f (returned r)) Q) -> always uid (value c ≫= f) Q.
Proof. done. Qed.

Lemma always_perform {B} c (f : unit -> io B) Q : always uid (f tt) Q -> always uid (perform c ≫= f) Q.
Proof. by intros Hf r _. Qed.
End Rules.

Ltac always_step :=
  lazymatch goal with
  | |- always _ (mret _) _ => cbn [always]
  | |- always _ (sys _ ≫= _) _ => apply always_call; intros ? ?
  | |- always _ (value _ ≫= _) _ => apply always_value; intros ? ?
  | |- always _ (perform _ ≫= _) _ => apply always_perform
  | |- always _ (andthen false _) _ => cbn [andthen]
  | |- always _ (_ ≫= _) _ => apply always_bind
  end.

(** ** Every function refuses *)

Section Functions.
Context (uid : Z) (MODE : Z) (apple : bool) (fuel : nat).
Context (crypto_blake2b : nat -> list Z -> list Z)
        (crypto_ed25519_key_pair : list Z -> list Z * list Z)
        (crypto_ed25519_sign : list Z -> list Z -> list Z)
        (crypto_ed25519_check : list Z -> list Z -> list Z -> Z).

#[local] Abbreviation refused m := (refuses uid m (fun ok : bool => ok = false)).

Lemma no_acl_refuses fd : refused (no_acl apple fd).
Proof.
  unfold no_acl. destruct apple.
  - apply refuses_sys.
    + intros r _ Hg. cbn in Hg. destruct (returned r =? 0); [|done]. exact Hg.
    + intros r. apply refuses_if; intros _; [done|]. apply refuses_value.
      * intros v _ Hg. cbn in Hg. rewrite Hg. by repeat always_step.
      * intros v. apply (refuses_bind _ _ _ (fun ok => ok = false)).
        -- apply refuses_andthen, refuses_sys; [|done]. intros e _ Hg. exact Hg.
        -- intros ok ->. by repeat always_step.
        -- intros ok. by apply refuses_perform.
  - generalize [codes "system.posix_acl_access"; codes "system.posix_acl_default"].
    intros names. induction names as [|name names IH]; [done|]. cbn [no_xattr]. apply refuses_sys.
    + intros r _ Hg. cbn in Hg.
      replace ((0 <=? returned r) || _) with true; [done|]. symmetry.
      rewrite <- negb_orb. apply andb_false_iff in Hg as [Hg|Hg]; [lia|]. rewrite Hg. by rewrite orb_true_r.
    + intros r. by apply refuses_if.
Qed.

Lemma private_dir_refuses fd : refused (private_dir apple fd).
Proof.
  apply refuses_sys.
  - intros r _ Hg. cbn in Hg. unfold andthen at 1. apply always_if; [|done].
    intros [H0 Hd]%andb_true_iff. rewrite H0 in Hg. cbn [andb] in Hg. apply always_value. intros u Hu.
    cbn in Hu. apply Z.eqb_eq in Hu. rewrite Hu. unfold private_mode in Hg. rewrite Hd in Hg. cbn [andb] in Hg.
    destruct (st_uid _ =? uid); [|done]. cbn [andb] in *. apply orb_false_iff in Hg as [Hg _]. by rewrite Hg.
  - intros r. apply refuses_andthen, refuses_value_free; [done|]. intros u. apply refuses_andthen, no_acl_refuses.
Qed.

Lemma outside_repository_refuses fd : refused (outside_repository fd).
Proof. apply refuses_sys; [|done]. intros r _ Hg. exact Hg. Qed.

(** A negative descriptor. *)
#[local] Abbreviation refused_fd m := (refuses uid m (fun fd : Z => fd < 0)).

Lemma abandon_always fd : always uid (_ ← perform (Close fd); mret (-1)) (fun r : Z => r < 0).
Proof. intros r _. cbn. lia. Qed.

Lemma abandon_refuses fd (Q : Z -> Prop) : refuses uid (_ ← perform (Close fd); mret (-1)) Q.
Proof. by apply refuses_perform. Qed.

Lemma walk_refuses create parts : forall fd, refused_fd (walk apple create fd parts).
Proof.
  induction parts as [|part next IH]; intros fd; cbn [walk].
  - apply (refuses_bind _ _ _ _ _ (private_dir_refuses fd)).
    + intros ok ->. cbn [andthen]. apply abandon_always.
    + intros p. apply (refuses_bind _ _ _ (fun ok => ok = false)).
      * apply refuses_andthen, outside_repository_refuses.
      * intros ok ->. apply abandon_always.
      * intros ok. apply refuses_if; intros _; [by apply abandon_refuses|done].
  - apply (refuses_bind _ _ _ (fun ok => ok = false)).
    + apply refuses_andthen, outside_repository_refuses.
    + intros ok ->. apply abandon_always.
    + intros ok. apply refuses_if; intros _; [by apply abandon_refuses|].
      apply (refuses_bind _ _ _ (fun failed => failed = true)).
      * apply refuses_andthen, refuses_value; [intros r _ Hg; cbn in Hg; by rewrite Hg|].
        intros m. apply refuses_if; intros _; [done|]. apply refuses_value; [|done].
        intros r _ Hg. cbn in *. by rewrite Hg.
      * intros failed ->. apply abandon_always.
      * intros failed. apply refuses_if; intros _; [by apply abandon_refuses|].
        apply refuses_value.
        -- intros r _ Hg. cbn in Hg. always_step. replace (returned r <? 0) with true by lia. cbn. lia.
        -- intros child. apply refuses_perform; [done|]. by apply refuses_if.
Qed.

Lemma directory_refuses name create : refused_fd (directory apple name create).
Proof.
  unfold directory. apply refuses_if; intros _; [done|]. apply refuses_value.
  - intros r _ Hg. cbn in Hg. replace (returned r <? 0) with true by lia. cbn. lia.
  - intros fd. apply refuses_if; intros _; [done|]. apply walk_refuses.
Qed.

(** ** Files *)

(** The loops make no checked call. *)
Lemma read_loop_free n : forall fd buf sofar len Q, refuses uid (read_loop n fd buf sofar len) Q.
Proof.
  induction n as [|n IH]; intros; cbn [read_loop]; [done|]. apply refuses_if; intros _; [done|].
  apply refuses_sys_free; [done|]. intros r. by repeat (apply refuses_if; intros _).
Qed.

Lemma read_extra_free n : forall fd Q, refuses uid (read_extra n fd) Q.
Proof.
  induction n as [|n IH]; intros; cbn [read_extra]; [done|].
  apply refuses_sys_free; [done|]. intros r. by apply refuses_if.
Qed.

Lemma write_loop_free n : forall fd bytes sofar Q, refuses uid (write_loop n fd bytes sofar) Q.
Proof.
  induction n as [|n IH]; intros; cbn [write_loop]; [done|]. apply refuses_if; intros _; [done|].
  apply refuses_sys_free; [done|]. intros r. by repeat (apply refuses_if; intros _).
Qed.

(** The part of [read_file_open] after the checks. *)
Definition read_rest (fd : Z) (buf : list Z) (len : nat) (ok : bool) : io (Z * list Z) :=
  read ← (if ok then read_loop fuel fd buf 0 len else mret (false, buf));
  let '(ok, bytes) := read in
  ok ← andthen ok (n ← read_extra fuel fd; mret (n =? 0));
  ok ← andthen ok (n ← value (Lseek fd); mret (n =? 0));
  if negb ok then _ ← perform (Close fd); mret (-1, replicate len 0) else mret (fd, bytes).

Lemma read_rest_false fd buf len : always uid (read_rest fd buf len false) (fun r => fst r < 0).
Proof. intros r _. cbn. lia. Qed.

Lemma read_rest_refuses fd buf len ok : refuses uid (read_rest fd buf len ok) (fun r => fst r < 0).
Proof.
  assert (Hend : forall b bytes, refuses uid
    (ok ← andthen b (n ← value (Lseek fd); mret (n =? 0));
     if negb ok then _ ← perform (Close fd); mret (-1, replicate len 0) else mret (fd, bytes))
    (fun r => fst r < 0)).
  { intros b bytes. apply (refuses_bind _ _ _ (fun ok => ok = false)).
    - apply refuses_andthen, refuses_value; [|done]. intros r _ Hg. exact Hg.
    - intros b' -> r _. cbn. lia.
    - intros b'. apply refuses_if; intros _; [by apply refuses_perform|done]. }
  unfold read_rest. apply (refuses_bind _ _ _ (fun _ => False)); [|done|].
  - apply refuses_if; intros _; [apply read_loop_free|done].
  - intros [b bytes]. apply (refuses_bind _ _ _ (fun _ => False)); [|done|intros; apply Hend].
    apply refuses_andthen, (refuses_bind _ _ _ (fun _ => False)); [apply read_extra_free|done..].
Qed.

Lemma read_file_open_refuses dir name buf len :
  refuses uid (read_file_open apple fuel dir name buf len) (fun r => fst r < 0).
Proof.
  unfold read_file_open. apply refuses_value.
  { intros r _ Hg. cbn in Hg. replace (returned r <? 0) with true by lia. cbn. lia. }
  intros fd. apply refuses_if; intros _; [done|]. apply refuses_sys.
  - intros r _ Hg. cbv zeta. apply always_bind.
    assert (Hfalse : forall ok, ok = false -> always uid (read_rest fd buf len ok) (fun r => fst r < 0))
      by (intros ? ->; apply read_rest_false).
    cbn in Hg. unfold andthen at 1. apply always_if; [|intros _; by apply Hfalse].
    intros [H0 Hd]%andb_true_iff. rewrite H0 in Hg. cbn [andb] in Hg. apply always_value. intros u Hu.
    cbn in Hu. apply Z.eqb_eq in Hu. rewrite Hu. unfold private_mode in Hg. rewrite Hd in Hg. cbn [andb] in Hg.
    destruct (st_uid _ =? uid); [|by apply Hfalse]. cbn [andb] in *. apply orb_false_iff in Hg as [_ Hg].
    rewrite andb_comm in Hg. rewrite Hg. by apply Hfalse.
  - intros r. cbv zeta. apply (refuses_bind _ _ _ (fun ok => ok = false)).
    + apply refuses_andthen, refuses_value_free; [done|]. intros u. apply refuses_andthen, no_acl_refuses.
    + intros ok ->. apply read_rest_false.
    + intros ok. apply read_rest_refuses.
Qed.

Lemma read_file_refuses dir name buf len :
  refuses uid (read_file apple fuel dir name buf len) (fun r => fst r = false).
Proof.
  unfold read_file. apply (refuses_bind _ _ _ _ _ (read_file_open_refuses dir name buf len)).
  - intros [fd bytes] Hfd. cbn [fst] in Hfd. by rewrite (proj2 (Z.ltb_lt _ _)).
  - intros [fd bytes]. apply refuses_if; intros _; [done|]. apply refuses_value_free; [done|].
    intros c. by apply refuses_if.
Qed.

Lemma write_new_refuses dir name bytes : refused (write_new apple fuel dir name bytes).
Proof.
  unfold write_new. apply refuses_value.
  { intros r _ Hg. cbn in Hg. by replace (returned r <? 0) with true by lia. }
  intros fd. apply refuses_if; intros _; [done|].
  assert (Hfalse : always uid
    (s ← value (Fsync fd); c ← value (Close fd); d ← value (Fsync dir);
     mret (false && (s =? 0) && (c =? 0) && (d =? 0))) (fun ok => ok = false)) by done.
  apply (refuses_bind _ _ _ _ _ (no_acl_refuses fd)); [by intros ok ->|]. intros ok.
  apply (refuses_bind _ _ _ (fun _ => False)); [|done|].
  - apply refuses_andthen, write_loop_free.
  - intros b. apply refuses_value.
    + intros r _ Hg c _ d _. cbn in Hg. rewrite Hg. by rewrite andb_false_r.
    + intros s. apply refuses_value_free; [done|]. intros c. apply refuses_value; [|done].
      intros d _ Hg. cbn in Hg. rewrite Hg. cbn. by rewrite andb_false_r.
Qed.

(** ** Commands *)

Lemma identity_read_refuses fd : refuses uid (identity_read MODE apple fuel fd) (fun r => fst r = false).
Proof.
  apply (refuses_bind _ _ _ _ _ (read_file_refuses _ _ _ _)).
  - by intros [ok bytes] [= ->].
  - intros [ok bytes]. apply refuses_if; intros _; [done|]. by destruct (tcs_public_decode _ _ _ _).
Qed.

Lemma key_read_refuses fd who :
  refuses uid (key_read MODE apple fuel crypto_ed25519_key_pair fd who) (fun r => fst r = false).
Proof.
  apply (refuses_bind _ _ _ _ _ (read_file_refuses _ _ _ _)).
  - by intros [ok bytes] [= ->].
  - intros [ok bytes]. by apply refuses_if.
Qed.

(** A directory is entered, or the command is refused. *)
Lemma entering name create (k : Z -> io bool) :
  (forall fd, refused (k fd)) -> refused (fd ← directory apple name create; if fd <? 0 then mret false else k fd).
Proof.
  intros Hk. apply (refuses_bind _ _ _ _ _ (directory_refuses name create)).
  - intros fd Hfd. by rewrite (proj2 (Z.ltb_lt _ _)).
  - intros fd. by apply refuses_if.
Qed.

(** What follows a decided command: closing and printing keep its answer. *)
Lemma refuses_result (m : io bool) (k : bool -> io bool) :
  refused m -> always uid (k false) (fun ok => ok = false) -> (forall ok, refused (k ok)) -> refused (m ≫= k).
Proof. intros Hm Hfalse Hk. apply (refuses_bind _ _ _ _ _ Hm); [by intros ok ->|done]. Qed.

Lemma create_identity_refuses dir : refused (create_identity MODE apple fuel crypto_ed25519_key_pair dir).
Proof.
  unfold create_identity. apply refuses_sys; [intros r _ Hg; cbn in Hg; by rewrite Hg|].
  intros r. apply refuses_if; intros _; [done|]. cbv zeta.
  destruct (crypto_ed25519_key_pair _) as [secret key]. destruct (tcs_public_encode _ _ _) as [ok public].
  apply refuses_if; intros _; [done|]. apply entering. intros fd.
  apply refuses_result; [apply write_new_refuses|done|]. intros b.
  apply refuses_result; [apply refuses_andthen, write_new_refuses|done|]. intros b'.
  by destruct b'; repeat (apply refuses_perform; [done|]).
Qed.

Lemma context_create_refuses id_fd session : refused (context_create MODE apple fuel id_fd session).
Proof.
  apply (refuses_bind _ _ _ _ _ (identity_read_refuses _)); [by intros [ok who] [= ->]|].
  intros [ok who]. apply refuses_if; intros _; [done|].
  apply refuses_sys; [intros r _ Hg; cbn in Hg; by rewrite Hg|].
  intros r. apply refuses_if; intros _; [done|]. cbv zeta. destruct (tcs_launch_encode _ _ _) as [ok' bytes].
  apply refuses_if; intros _; [done|]. apply entering. intros fd.
  apply refuses_result; [apply write_new_refuses|done|]. intros b.
  by destruct b; repeat (apply refuses_perform; [done|]).
Qed.

Lemma prepare_refuses id_fd s_fd c :
  refuses uid (prepare MODE apple fuel crypto_blake2b id_fd s_fd c) (fun r => r = None).
Proof.
  apply (refuses_bind _ _ _ _ _ (identity_read_refuses _)); [by intros [ok who] [= ->]|].
  intros [ok who]. apply refuses_if; intros _; [done|].
  apply (refuses_bind _ _ _ _ _ (read_file_refuses _ _ _ _)); [by intros [ok' bytes] [= ->]|].
  intros [ok' bytes]. apply refuses_if; intros _; [done|].
  destruct (tcs_launch_decode _ _ _ _) as [b l]. apply refuses_if; intros _; [done|].
  destruct (tcs_admin_encode _ _ _ _) as [b' packet]. by apply refuses_if.
Qed.

Lemma sign_request_refuses id_fd s_fd l c packet :
  refused (sign_request MODE apple fuel crypto_ed25519_key_pair crypto_ed25519_sign crypto_ed25519_check
             id_fd s_fd l c packet).
Proof.
  apply (refuses_bind _ _ _ _ _ (key_read_refuses _ _)); [by intros [ok secret] [= ->]|].
  intros [ok secret]. apply refuses_if; intros _; [done|]. cbv zeta.
  apply refuses_if; intros _; [done|]. apply refuses_if; intros _; [done|].
  apply refuses_result; [apply write_new_refuses|done|]. intros b.
  by destruct b; repeat (apply refuses_perform; [done|]).
Qed.

Lemma review_or_sign_refuses id_fd session args approved :
  refused (review_or_sign MODE apple fuel crypto_blake2b crypto_ed25519_key_pair crypto_ed25519_sign
             crypto_ed25519_check id_fd session args approved).
Proof.
  unfold review_or_sign. destruct (command_parse args) as [c|]; [|done]. apply entering. intros fd.
  apply (refuses_bind _ _ _ _ _ (prepare_refuses _ _ _)); [by intros r ->|].
  intros r. apply refuses_result; [|done|intros ok; by apply refuses_perform].
  destruct r as [[[l packet] wanted]|]; [|done]. destruct approved as [a|].
  - apply refuses_if; intros _; [done|apply sign_request_refuses].
  - unfold show_review, display. by repeat (apply refuses_perform; [done|]).
Qed.

Lemma show_identity_refuses fd : refused (show_identity MODE apple fuel fd).
Proof.
  apply (refuses_bind _ _ _ _ _ (identity_read_refuses _)); [by intros [ok who] [= ->]|].
  intros [ok who]. destruct ok; [|done]. unfold display. by repeat (apply refuses_perform; [done|]).
Qed.

Lemma always_refuses {B} (m : io B) Q : always uid m Q -> refuses uid m Q.
Proof. induction m as [a|c k IH|]; cbn; [done| |done]. intros Hm r Hu. destruct (good uid c r); auto. Qed.

Lemma launch_guest_refuses id_fd session image qemu :
  refused (launch_guest MODE apple fuel id_fd session image qemu).
Proof.
  apply always_refuses. unfold launch_guest. apply always_if; intros _; [done|].
  apply always_bind, always_true. intros fd. apply always_if; intros _; [done|].
  apply always_bind, always_true. intros [ok who]. apply always_bind, always_true. intros [ok' context].
  destruct (tcs_launch_decode _ _ _ _) as [b l]. cbv zeta. by apply always_bind, always_true.
Qed.

Lemma command_refuses v argv :
  refused (command MODE apple fuel crypto_blake2b crypto_ed25519_key_pair crypto_ed25519_sign
             crypto_ed25519_check v argv).
Proof.
  destruct v; [apply create_identity_refuses|..]; apply entering; intros fd;
    (apply refuses_result; [|done|intros ok; by apply refuses_perform]).
  - apply show_identity_refuses.
  - apply context_create_refuses.
  - apply review_or_sign_refuses.
  - apply review_or_sign_refuses.
  - apply launch_guest_refuses.
Qed.

Lemma unprivileged_refuses : refused unprivileged.
Proof.
  unfold unprivileged. do 2 (apply refuses_value_free; [done|]; intros ?). apply refuses_andthen.
  do 2 (apply refuses_value_free; [done|]; intros ?). apply refuses_andthen.
  apply refuses_value; [|done]. intros r _ Hg. exact Hg.
Qed.

Lemma standard_open_refuses fds : refused (standard_open fds).
Proof.
  induction fds as [|fd fds IH]; cbn [standard_open]; [done|]. apply refuses_value.
  - intros r _ Hg. cbn in Hg. by replace (returned r <? 0) with true by lia.
  - intros v. by apply refuses_if.
Qed.

Lemma main_refuses argv :
  refuses uid (main MODE apple fuel crypto_blake2b crypto_ed25519_key_pair crypto_ed25519_sign
                 crypto_ed25519_check argv) (fun code => code <> 0).
Proof.
  unfold main. apply (refuses_bind _ _ _ _ _ unprivileged_refuses); [by intros b ->|]. intros plain.
  apply refuses_if; intros _; [done|].
  apply (refuses_bind _ _ _ _ _ (standard_open_refuses _)); [by intros b ->|]. intros std.
  apply refuses_if; intros _; [done|]. apply refuses_perform; [done|].
  assert (Husage : refuses uid usage (fun code => code <> 0)) by by apply refuses_perform.
  apply refuses_if; intros _; [done|]. destruct (verb_of _) as [v|]; [|done].
  apply refuses_if; intros _; [done|].
  apply (refuses_bind _ _ _ _ _ (command_refuses v argv)).
  - intros ok -> r _. cbn. by intros.
  - intros ok. apply refuses_value.
    + intros r _ Hg. cbn in Hg. cbv zeta. rewrite Hg, andb_false_r. by intros r' _.
    + intros f. cbv zeta. by destruct (ok && (f =? 0)); [|apply refuses_perform].
Qed.
End Functions.
