(* ===== verification/OperatorVetting.v ===== *)
(** What the operator tool has verified before each call: a monitor of the facts
    the host's answers established about every open descriptor, the calls they
    clear, and a proof that [tools/operator.c] makes no call it has not earned.
    [OperatorChecks] is about the answers, this file about the questions. *)

From S2P Require Import Prelude Bytes Policy Admin Terminal SignedInput Launch Posix Operator OperatorFiles.
Import String.StringSyntax.
#[local] Open Scope string_scope.
#[local] Open Scope Z_scope.

(** ** The monitor *)

(** What was learned of a descriptor: its status, that it lacks an extended
    attribute or any access list, that the directory holds no [.git]. *)
Inductive fact := Status (s : stat) | Lacks (name : list Z) | Listless | No_git.

#[export] Instance stat_eq_dec : EqDecision stat.
Proof. solve_decision. Defined.
#[export] Instance fact_eq_dec : EqDecision fact.
Proof. solve_decision. Defined.

(** What was learned of the process. *)
Inductive setting := User (uid : Z) | Effective_user (uid : Z) | Group (gid : Z) | Effective_group (gid : Z)
  | No_core | Standard (fd : Z) | Mask (mode : Z).

#[export] Instance setting_eq_dec : EqDecision setting.
Proof. solve_decision. Defined.

(** An open descriptor: whether it was opened by a path of its own (not relative
    to a directory), and what was learned of it since. *)
Record descriptor := { d_named : bool; d_facts : list fact }.

(** An access list in memory belongs to a descriptor and may have been found
    valid; directory streams are open between [opendir] and [closedir]. *)
Record trust := {
  t_settings : list setting;
  t_fds : gmap Z descriptor;
  t_lists : gmap Z (Z * bool);
  t_streams : gset Z
}.

Definition trust_start : trust := {| t_settings := []; t_fds := ∅; t_lists := ∅; t_streams := ∅ |}.

Definition set_fds (s : trust) (fds : gmap Z descriptor) : trust :=
  {| t_settings := t_settings s; t_fds := fds; t_lists := t_lists s; t_streams := t_streams s |}.
Definition set_lists (s : trust) (lists : gmap Z (Z * bool)) : trust :=
  {| t_settings := t_settings s; t_fds := t_fds s; t_lists := lists; t_streams := t_streams s |}.
Definition set_streams (s : trust) (streams : gset Z) : trust :=
  {| t_settings := t_settings s; t_fds := t_fds s; t_lists := t_lists s; t_streams := streams |}.
Definition settled (s : trust) (x : setting) : trust :=
  {| t_settings := x :: t_settings s; t_fds := t_fds s; t_lists := t_lists s; t_streams := t_streams s |}.
Definition learn (s : trust) (fd : Z) (x : fact) : trust :=
  set_fds s (alter (fun d => {| d_named := d_named d; d_facts := x :: d_facts d |}) fd (t_fds s)).
Definition given (b : bool) (f : trust -> trust) (s : trust) : trust := if b then f s else s.

Definition vet (s : trust) (c : call) (r : reply) : trust :=
  let v := returned r in
  match c with
  | Getuid => settled s (User v)
  | Geteuid => settled s (Effective_user v)
  | Getgid => settled s (Group v)
  | Getegid => settled s (Effective_group v)
  | Setrlimit => given (v =? 0) (fun s => settled s No_core) s
  | Fcntl_getfd fd => given (0 <=? v) (fun s => settled s (Standard fd)) s
  | Umask mode => settled s (Mask mode)
  | Open _ _ => given (0 <=? v) (fun s => set_fds s (<[v := {| d_named := true; d_facts := [] |}]> (t_fds s))) s
  | Openat _ _ _ _ =>
      given (0 <=? v) (fun s => set_fds s (<[v := {| d_named := false; d_facts := [] |}]> (t_fds s))) s
  | Close fd => set_fds s (delete fd (t_fds s))
  | Fstat fd => given (v =? 0) (fun s => learn s fd (Status (status_of_reply r))) s
  | Fstatat dir name =>
      given (bool_decide (name = codes ".git") && (v =? -1) && bool_decide (error r = ENOENT))
        (fun s => learn s dir No_git) s
  | Fgetxattr fd name =>
      given ((v <? 0) && (bool_decide (error r = ENODATA) || bool_decide (error r = ENOTSUP)))
        (fun s => learn s fd (Lacks name)) s
  | Acl_get_fd_np fd =>
      if v =? 0 then given (bool_decide (error r = ENOENT)) (fun s => learn s fd Listless) s
      else set_lists s (<[v := (fd, false)]> (t_lists s))
  | Acl_valid acl => given (v =? 0) (fun s => set_lists s (alter (fun p => (fst p, true)) acl (t_lists s))) s
  | Acl_get_entry acl =>
      match t_lists s !! acl with
      | Some (fd, true) =>
          given ((v =? -1) && bool_decide (error r = EINVAL)) (fun s => learn s fd Listless) s
      | _ => s
      end
  | Acl_free acl => set_lists s (delete acl (t_lists s))
  | Opendir _ => given (negb (v =? 0)) (fun s => set_streams s ({[v]} ∪ t_streams s)) s
  | Closedir stream => set_streams s (t_streams s ∖ {[stream]})
  | _ => s
  end.

(** What a process has verified after a trace. *)
Definition vetted (t : list event) : trust := exec (fun s e => vet s (fst e) (snd e)) trust_start t.

(** ** What is cleared *)

Section Cleared.
Context (apple : bool).

(** The process runs as its user and group, without core dumps, with the three
    standard descriptors open and with a private mask. *)
Definition started (s : trust) : Prop :=
  (exists u, User u ∈ t_settings s /\ Effective_user u ∈ t_settings s) /\
  (exists g, Group g ∈ t_settings s /\ Effective_group g ∈ t_settings s) /\
  No_core ∈ t_settings s /\ Standard 0 ∈ t_settings s /\ Standard 1 ∈ t_settings s /\
  Standard 2 ∈ t_settings s /\ Mask 63 ∈ t_settings s.

Definition unlisted (d : descriptor) : Prop :=
  if apple then Listless ∈ d_facts d
  else Lacks (codes "system.posix_acl_access") ∈ d_facts d /\
       Lacks (codes "system.posix_acl_default") ∈ d_facts d.

(** Of the user: a directory with mode 0700, or a file with mode 0600 and one
    link. *)
Definition own_directory (s : trust) (d : descriptor) : Prop :=
  exists st, Status st ∈ d_facts d /\ S_ISDIR (st_mode st) = true /\ User (st_uid st) ∈ t_settings s /\
    Z.land (st_mode st) 4095 = 448.
Definition own_file (s : trust) (d : descriptor) : Prop :=
  exists st, Status st ∈ d_facts d /\ S_ISREG (st_mode st) = true /\ User (st_uid st) ∈ t_settings s /\
    st_nlink st = 1 /\ Z.land (st_mode st) 4095 = 384.
Definition regular (d : descriptor) : Prop :=
  exists st, Status st ∈ d_facts d /\ S_ISREG (st_mode st) = true.

Definition knows (s : trust) (fd : Z) (P : descriptor -> Prop) : Prop :=
  exists d, t_fds s !! fd = Some d /\ P d.

(** A directory files are opened in or created in. *)
Definition private (s : trust) (fd : Z) : Prop :=
  knows s fd (fun d => own_directory s d /\ unlisted d /\ No_git ∈ d_facts d).
(** A directory that is only walked through, by a name that stays below it. *)
Definition outside (s : trust) (fd : Z) (name : list Z) : Prop :=
  knows s fd (fun d => No_git ∈ d_facts d) /\ name <> codes "." /\ name <> codes "..".
(** A file that is read: the user's own if it was opened in a directory, at
    least a regular one if it was named on the command line. *)
Definition readable (s : trust) (fd : Z) : Prop :=
  knows s fd (fun d => if d_named d then regular d else own_file s d /\ unlisted d).
Definition writable (s : trust) (fd : Z) : Prop := knows s fd unlisted.

(** The calls the facts about descriptors clear. *)
Definition earned (s : trust) (c : call) : Prop :=
  match c with
  | Openat dir name flags _ => if walks flags then outside s dir name else private s dir
  | Mkdirat dir name _ => outside s dir name
  | Read fd _ => readable s fd
  | Write fd _ => writable s fd
  | Fchdir dir => private s dir
  | _ => True
  end.

Definition touches (c : call) : bool :=
  match c with Open _ _ | Openat _ _ _ _ | Mkdirat _ _ _ | Entropy _ => true | _ => false end.

Definition cleared (s : trust) (c : call) : Prop :=
  earned s c /\ (touches c = true -> started s).
End Cleared.

(** ** The logic *)

Section Logic.
Context (allowed : trust -> call -> Prop).

(** The host gives out descriptors that are not open. *)
Definition unopened (s : trust) (c : call) (r : reply) : Prop :=
  match c with
  | Open _ _ | Openat _ _ _ _ => 0 <= returned r -> t_fds s !! returned r = None
  | _ => True
  end.

Fixpoint guarded {A} (m : io A) (s : trust) (Q : A -> trust -> Prop) : Prop :=
  match m with
  | Return a => Q a s
  | Call c k => allowed s c /\ forall r, unopened s c r -> guarded (k r) (vet s c r) Q
  | Out_of_fuel => True
  end.

Lemma guarded_mono {A} (m : io A) : forall s (Q R : A -> trust -> Prop),
  guarded m s Q -> (forall a s', Q a s' -> R a s') -> guarded m s R.
Proof. induction m as [a|c k IH|]; cbn; [auto| |done]. intros s Q R [Hc Hk] HQR. split; [done|]. eauto. Qed.

Lemma guarded_bind {A B} (m : io A) (f : A -> io B) : forall s Q,
  guarded m s (fun a s' => guarded (f a) s' Q) -> guarded (m ≫= f) s Q.
Proof. induction m as [a|c k IH|]; [done| |done]. intros s Q [Hc Hk]. split; [done|]. intros r Hr. by apply IH, Hk. Qed.

Lemma guarded_sys {B} c (f : reply -> io B) s Q :
  allowed s c -> (forall r, unopened s c r -> guarded (f r) (vet s c r) Q) -> guarded (sys c ≫= f) s Q.
Proof. by split. Qed.

Lemma guarded_value {B} c (f : Z -> io B) s Q :
  allowed s c -> (forall r, unopened s c r -> guarded (f (returned r)) (vet s c r) Q) -> guarded (value c ≫= f) s Q.
Proof. by split. Qed.

Lemma guarded_perform {B} c (f : unit -> io B) s Q :
  allowed s c -> (forall r, guarded (f tt) (vet s c r) Q) -> guarded (perform c ≫= f) s Q.
Proof. intros Hc Hf. split; [done|]. intros r _. apply Hf. Qed.

Lemma guarded_andthen a (b : io bool) s (Q : bool -> trust -> Prop) :
  (a = true -> guarded b s Q) -> (a = false -> Q false s) -> guarded (andthen a b) s Q.
Proof. destruct a; cbn; auto. Qed.

Lemma guarded_if {A} (b : bool) (m n : io A) s Q :
  (b = true -> guarded m s Q) -> (b = false -> guarded n s Q) -> guarded (if b then m else n) s Q.
Proof. destruct b; auto. Qed.
End Logic.

(** The monitor has the descriptors the view has open. *)
Lemma vet_dom g s c r : dom (t_fds s) = dom (live g) -> dom (t_fds (vet s c r)) = dom (live (observe g c r)).
Proof.
  intros Hd. assert (Hlearn : forall fd x, dom (t_fds (learn s fd x)) = dom (live g))
    by (intros; unfold learn; cbn; by rewrite dom_alter_L).
  destruct c; cbn [vet observe]; unfold given, transfer; repeat case_match; cbn [set_live set_fds set_lists set_streams
    settled delayed live t_fds]; rewrite ?Hlearn, ?dom_alter_L, ?dom_insert_L, ?dom_delete_L, ?Hd; done.
Qed.

Lemma guarded_run {A} allowed (m : io A) g t o (Q : A -> trust -> Prop) :
  run g m t o -> forall s, dom (t_fds s) = dom (live g) -> guarded allowed m s Q ->
  (forall t1 c, called t o t1 c -> allowed (exec (fun s e => vet s (fst e) (snd e)) s t1) c) /\
  match o with Returned a => Q a (exec (fun s e => vet s (fst e) (snd e)) s t) | _ => True end.
Proof.
  induction 1 as [g a|g c k r t o Hd Hr IH|g c k|g]; intros s Hdom Hs; cbn [guarded] in Hs.
  - split; [|done]. intros t1 c [(r & t2 & Ht)|[_ Ho]]; [by destruct t1|done].
  - destruct Hs as [Hc Hk]. assert (Hn : unopened s c r).
    { destruct c; try done; cbn [unopened documented] in *; intros Hv; apply orb_true_iff in Hd as [Hd|Hd]; try lia;
        apply bool_decide_eq_true in Hd; apply not_elem_of_dom; rewrite Hdom; by apply not_elem_of_dom. }
    destruct (IH (vet s c r) (vet_dom _ _ _ _ Hdom) (Hk r Hn)) as [Hcalls Ho].
    rewrite exec_cons. split; [|exact Ho]. intros t1 c' [(r' & t2 & Ht)|[-> ->]].
    + destruct t1 as [|e t1]; injection Ht as <- ?; [by subst|]. rewrite exec_cons. apply Hcalls. left. eauto.
    + rewrite exec_cons. apply Hcalls. by right.
  - destruct Hs as [Hc _]. split; [|done]. intros t1 c' [(r & t2 & Ht)|[-> [= ->]]]; [by destruct t1|done].
  - split; [|done]. intros t1 c [(r & t2 & Ht)|[_ Ho]]; [by destruct t1|done].
Qed.

(** ** Facts accumulate *)

Record extends (s s' : trust) : Prop := {
  extends_settings : t_settings s ⊆ t_settings s';
  extends_streams : t_streams s' = t_streams s;
  extends_fds fd d : t_fds s !! fd = Some d ->
    exists d', t_fds s' !! fd = Some d' /\ d_named d' = d_named d /\ d_facts d ⊆ d_facts d'
}.

#[export] Instance extends_preorder : PreOrder extends.
Proof.
  split; [intros s; split; [done|done|intros fd d ->; by exists d]|].
  intros s1 s2 s3 [Ha1 Hb1 Hc1] [Ha2 Hb2 Hc2]. split; [by etrans|congruence|].
  intros fd d Hd. destruct (Hc1 fd d Hd) as (d' & Hd' & Hn & Hf).
  destruct (Hc2 fd d' Hd') as (d'' & ? & ? & ?). exists d''. split_and!; [done|congruence|by etrans].
Qed.

Lemma extends_refl s : extends s s.
Proof. reflexivity. Qed.

Definition adds (c : call) : bool :=
  match c with Close _ | Opendir _ | Closedir _ => false | _ => true end.

Lemma extends_settled s x : extends s (settled s x).
Proof. split; [set_solver|done|]. intros fd d Hd. by exists d. Qed.

Lemma extends_learn s fd x : extends s (learn s fd x).
Proof.
  split; [done|done|]. intros fd' d Hd. unfold learn. cbn [set_fds t_fds].
  destruct (decide (fd = fd')) as [->|Hne]; [rewrite lookup_alter_eq, Hd|rewrite lookup_alter_ne, Hd by done];
    (eexists; split_and!; [done..|cbn; set_solver]).
Qed.

Lemma extends_open s fd d : t_fds s !! fd = None -> extends s (set_fds s (<[fd := d]> (t_fds s))).
Proof.
  intros Hf. split; [done|done|]. intros fd' d' Hd. exists d'. cbn. rewrite lookup_insert_ne by congruence. done.
Qed.

Lemma extends_vet s c r : adds c = true -> unopened s c r -> extends s (vet s c r).
Proof.
  intros Ha Hu. destruct c; try done; cbn [vet unopened] in *; unfold given; repeat case_match;
    eauto using extends_settled, extends_learn, extends_open with lia; try done; split; try done; intros ? d ?; by exists d.
Qed.

Lemma extends_close s0 s fd r : extends s0 s -> t_fds s0 !! fd = None -> extends s0 (vet s (Close fd) r).
Proof.
  intros [Ha Hb Hc] Hf. split; [done|done|]. intros fd' d Hd. cbn. rewrite lookup_delete_ne by congruence. auto.
Qed.

Definition known (s : trust) (fd : Z) : Prop := is_Some (t_fds s !! fd).

Lemma extends_known s s' fd : extends s s' -> known s fd -> known s' fd.
Proof. intros He [d Hd]. destruct (extends_fds _ _ He fd d Hd) as (d' & ? & _). by exists d'. Qed.

Lemma extends_none s s' fd : extends s s' -> t_fds s' !! fd = None -> t_fds s !! fd = None.
Proof.
  intros He Hn. destruct (t_fds s !! fd) as [d|] eqn:Hd; [|done].
  destruct (extends_fds _ _ He fd d Hd) as (d' & ? & _). congruence.
Qed.

Lemma extends_knows s s' fd (P P' : descriptor -> Prop) :
  extends s s' -> (forall d d', d_named d' = d_named d -> d_facts d ⊆ d_facts d' -> P d -> P' d') ->
  knows s fd P -> knows s' fd P'.
Proof.
  intros He HP (d & Hd & Hp). destruct (extends_fds _ _ He fd d Hd) as (d' & Hd' & Hn & Hf).
  exists d'. eauto.
Qed.

Lemma knows_known s fd P : knows s fd P -> known s fd.
Proof. intros (d & Hd & _). by exists d. Qed.

Lemma knows_learn s fd x : known s fd -> knows (learn s fd x) fd (fun d => x ∈ d_facts d).
Proof. intros [d Hd]. unfold knows, learn. cbn. rewrite lookup_alter_eq, Hd. eexists. split; [done|]. cbn. set_solver. Qed.

Section Monotone.
Context (apple : bool) (s s' : trust) (Hext : extends s s').

Lemma unlisted_mono d d' : d_facts d ⊆ d_facts d' -> unlisted apple d -> unlisted apple d'.
Proof. unfold unlisted. destruct apple; set_solver. Qed.

Lemma own_directory_mono d d' : d_facts d ⊆ d_facts d' -> own_directory s d -> own_directory s' d'.
Proof using Hext.
  pose proof (extends_settings _ _ Hext). intros Hf (st & ? & ? & ? & ?). exists st. split_and!; try done; set_solver.
Qed.

Lemma own_file_mono d d' : d_facts d ⊆ d_facts d' -> own_file s d -> own_file s' d'.
Proof using Hext.
  pose proof (extends_settings _ _ Hext). intros Hf (st & ? & ? & ? & ?). exists st. split_and!; try done; set_solver.
Qed.

Lemma private_mono fd : private apple s fd -> private apple s' fd.
Proof using Hext.
  apply extends_knows; [done|]. intros d d' Hn Hf (? & ? & ?).
  split_and!; [by eapply own_directory_mono|by eapply unlisted_mono|set_solver].
Qed.

Lemma readable_mono fd : readable apple s fd -> readable apple s' fd.
Proof using Hext.
  apply extends_knows; [done|]. intros d d' Hn Hf. rewrite Hn. destruct (d_named d).
  - intros (st & ? & ?). exists st. split; [set_solver|done].
  - intros [? ?]. split; [by eapply own_file_mono|by eapply unlisted_mono].
Qed.

Lemma writable_mono fd : writable apple s fd -> writable apple s' fd.
Proof using Hext. apply extends_knows; [done|]. intros d d' _. apply unlisted_mono. Qed.
End Monotone.

(** ** The functions *)

Section Functions.
Context (MODE : Z) (apple : bool) (fuel : nat).
Context (crypto_blake2b : nat -> list Z -> list Z)
        (crypto_ed25519_key_pair : list Z -> list Z * list Z)
        (crypto_ed25519_sign : list Z -> list Z -> list Z)
        (crypto_ed25519_check : list Z -> list Z -> list Z -> Z).

#[local] Abbreviation careful := (guarded (earned apple)).

(** A call that only adds to what is known, in the three ways to make one. *)
Lemma careful_sys {B} c (f : reply -> io B) s Q :
  earned apple s c -> adds c = true ->
  (forall r, extends s (vet s c r) -> careful (f r) (vet s c r) Q) -> careful (sys c ≫= f) s Q.
Proof. intros Hc Ha Hf. apply guarded_sys; [done|]. intros r Hr. by apply Hf, extends_vet. Qed.

Lemma careful_value {B} c (f : Z -> io B) s Q :
  earned apple s c -> adds c = true ->
  (forall r, extends s (vet s c r) -> careful (f (returned r)) (vet s c r) Q) -> careful (value c ≫= f) s Q.
Proof. intros Hc Ha Hf. apply guarded_value; [done|]. intros r Hr. by apply Hf, extends_vet. Qed.

Lemma careful_perform {B} c (f : unit -> io B) s Q :
  earned apple s c -> (forall r, careful (f tt) (vet s c r) Q) -> careful (perform c ≫= f) s Q.
Proof. apply guarded_perform. Qed.

(** A descriptor no one knew is closed. *)
Lemma careful_close {B} s0 s fd (f : unit -> io B) Q :
  extends s0 s -> t_fds s0 !! fd = None ->
  (forall s', extends s0 s' -> careful (f tt) s' Q) -> careful (perform (Close fd) ≫= f) s Q.
Proof. intros He Hf HQ. apply careful_perform; [done|]. intros r. by apply HQ, extends_close. Qed.

Lemma no_xattr_careful fd names : forall s,
  known s fd ->
  careful (no_xattr fd names) s (fun ok s' => extends s s' /\
    (ok = true -> forall name, name ∈ names -> knows s' fd (fun d => Lacks name ∈ d_facts d))).
Proof.
  induction names as [|name names IH]; intros s Hh; cbn [no_xattr].
  { split; [done|]. intros _ name Hn. by apply elem_of_nil in Hn. }
  apply careful_sys; [done..|]. intros r He. apply guarded_if; intros Hb; [by split|].
  assert (Hl : (returned r <? 0) && (bool_decide (error r = ENODATA) || bool_decide (error r = ENOTSUP)) = true).
  { apply orb_false_iff in Hb as [H0 H1]. rewrite <- negb_orb in H1. apply negb_false_iff in H1. rewrite H1.
    apply andb_true_iff. split; [lia|done]. }
  eapply guarded_mono; [by apply IH; eapply extends_known|].
  intros ok s' [He' Hok]. split; [by etrans|]. intros Ht n [->|Hn]%elem_of_cons; [|by apply Hok].
  eapply extends_knows; [exact He'| |cbn [vet]; rewrite Hl; by apply knows_learn]. set_solver.
Qed.

Lemma no_acl_careful fd s :
  known s fd -> careful (no_acl apple fd) s (fun ok s' => extends s s' /\ (ok = true -> writable apple s' fd)).
Proof.
  intros Hh. unfold no_acl, writable, unlisted.
  pose proof (no_xattr_careful fd [codes "system.posix_acl_access"; codes "system.posix_acl_default"] s Hh) as Hx.
  destruct apple.
  - apply guarded_sys; [done|]. intros r _. cbn [vet]. destruct (returned r =? 0) eqn:H0.
    { unfold given. case_bool_decide; [|by split].
      split; [apply extends_learn|]. intros _. by apply knows_learn. }
    assert (Hset : forall s1 l, extends s s1 -> extends s (set_lists s1 l)) by (intros s1 l [? ? ?]; by split).
    cbv zeta. apply guarded_value; [done|]. intros v _. cbn [vet]. set (s1 := given _ _ _).
    assert (He1 : extends s s1 /\ known s1 fd) by (unfold s1, given; destruct (returned v =? 0); (split; [repeat apply Hset; reflexivity|exact Hh])).
    apply guarded_bind, guarded_andthen; intros Hv; cycle 1.
    { apply guarded_perform; [done|]. intros f. split; [apply Hset; by destruct He1|done]. }
    apply guarded_sys; [done|]. intros e _. apply guarded_perform; [done|]. intros f. cbn [vet].
    assert (Hl : t_lists s1 !! returned r = Some (fd, true)).
    { unfold s1, given. rewrite Hv. cbn. by rewrite lookup_alter_eq, lookup_insert_eq. }
    rewrite Hl. unfold given. destruct He1 as [He1 Hh1]. destruct (_ && _) eqn:Hb.
    + split; [apply Hset; etrans; [exact He1|apply extends_learn]|]. intros _.
      destruct (knows_learn s1 fd Listless Hh1) as (d & Hd & ?). by exists d.
    + split; [by apply Hset|done].
  - eapply guarded_mono; [exact Hx|]. intros ok s' [He Hok]. split; [done|]. intros Ht.
    destruct (Hok Ht (codes "system.posix_acl_access")) as (d & Hd & Ha); [set_solver|].
    destruct (Hok Ht (codes "system.posix_acl_default")) as (d' & Hd' & Hb); [set_solver|].
    exists d. split; [done|]. split; [done|]. congruence.
Qed.

Lemma knows_and s fd (P Q R : descriptor -> Prop) :
  knows s fd P -> knows s fd Q -> (forall d, P d -> Q d -> R d) -> knows s fd R.
Proof. intros (d & Hd & HP) (d' & Hd' & HQ) HR. exists d. split; [done|]. apply HR; [done|]. congruence. Qed.

(** A status, the user it is compared with, and what both give. *)
Lemma owner_careful fd s (k : stat -> Z -> io bool) (P : trust -> descriptor -> Prop) (test : stat -> bool) :
  known s fd ->
  (forall s1 st u, extends s s1 -> User u ∈ t_settings s1 ->
     knows s1 fd (fun d => Status st ∈ d_facts d) -> test st = true ->
     careful (k st u) s1 (fun ok s' => extends s1 s' /\ (ok = true -> knows s' fd (P s')))) ->
  careful (r ← sys (Fstat fd);
           let st := status_of_reply r in
           andthen ((returned r =? 0) && test st) (uid ← value Getuid; k st uid)) s
    (fun ok s' => extends s s' /\ (ok = true -> knows s' fd (P s'))).
Proof.
  intros Hh Hk. apply careful_sys; [done..|]. intros r He. cbv zeta. apply guarded_andthen; [|by intros _; split].
  intros [H0 Hd]%andb_true_iff. apply careful_value; [done..|]. intros u He'.
  eapply guarded_mono; [apply Hk|].
  - by etrans.
  - cbn [vet settled t_settings]. set_solver.
  - eapply extends_knows; [exact He'| |]; [|cbn [vet]; rewrite H0; by apply knows_learn]. set_solver.
  - done.
  - intros ok s' [He2 Hok]. split; [|done]. etrans; [exact He|]. by etrans.
Qed.

Lemma private_dir_careful fd s :
  known s fd ->
  careful (private_dir apple fd) s (fun ok s' => extends s s' /\
    (ok = true -> knows s' fd (fun d => own_directory s' d /\ unlisted apple d))).
Proof.
  intros Hh. apply (owner_careful fd s (fun st uid =>
      andthen ((st_uid st =? uid) && (Z.land (st_mode st) mode_07777 =? mode_0700)) (no_acl apple fd))
    (fun s' d => own_directory s' d /\ unlisted apple d) (fun st => S_ISDIR (st_mode st)) Hh).
  intros s1 st u He Hu Hk Hd. apply guarded_andthen; [|by intros _; split].
  intros [Hu'%Z.eqb_eq Hm%Z.eqb_eq]%andb_true_iff.
  eapply guarded_mono; [by apply no_acl_careful; eapply knows_known|]. intros ok s' [He' Hok]. split; [done|].
  intros Ht. eapply knows_and; [|exact (Hok Ht)|].
  - eapply extends_knows; [exact He'| |exact Hk]. intros d d' _ Hf Hst. exact (Hf _ Hst).
  - intros d Hst Hl. split; [|done]. exists st. rewrite Hu'. split_and!; try done. by apply (extends_settings _ _ He').
Qed.

Lemma outside_repository_careful fd s :
  known s fd ->
  careful (outside_repository fd) s (fun ok s' => extends s s' /\
    (ok = true -> knows s' fd (fun d => No_git ∈ d_facts d))).
Proof.
  intros Hh. apply careful_sys; [done..|]. intros r He. split; [done|]. intros Hb. cbn [vet].
  rewrite bool_decide_true by done. cbn [andb]. rewrite Hb. by apply knows_learn.
Qed.

(** A walk from what was known at [s0] ends in a private directory of its own,
    or with everything it opened closed. *)
Definition walked (s0 : trust) (r : Z) (s' : trust) : Prop :=
  extends s0 s' /\ (0 <= r -> t_fds s0 !! r = None /\ private apple s' r).

Lemma abandon_careful s0 s fd :
  extends s0 s -> t_fds s0 !! fd = None -> careful (_ ← perform (Close fd); mret (-1)) s (walked s0).
Proof. intros He Hf. eapply careful_close; [done..|]. intros s' He'. split; [done|lia]. Qed.

Lemma walk_end_careful fd s0 s :
  extends s0 s -> t_fds s0 !! fd = None -> known s fd -> careful (walk apple false fd []) s (walked s0).
Proof.
  intros He Hf Hh. cbn [walk]. apply guarded_bind. eapply guarded_mono; [by apply private_dir_careful|].
  intros p s1 [He1 Hp]. assert (He01 : extends s0 s1) by by etrans.
  apply guarded_bind, guarded_andthen; intros Hpt; [|by refine (abandon_careful _ _ _ _ _)].
  eapply guarded_mono; [apply outside_repository_careful; exact (extends_known _ _ _ He1 Hh)|].
  intros ok s2 [He2 Ho]. assert (He02 : extends s0 s2) by by etrans.
  apply guarded_if; intros Hok; [by apply abandon_careful|]. apply negb_false_iff in Hok.
  split; [done|]. intros _. split; [done|]. eapply knows_and; [|exact (Ho Hok)|].
  - refine (extends_knows s1 s2 fd _ (fun d => own_directory s2 d /\ unlisted apple d) He2 _ (Hp Hpt)).
    intros d d' Hn Hfs [Hd Hl]. split; [exact (own_directory_mono _ _ He2 _ _ Hfs Hd)|by eapply unlisted_mono].
  - by intros d [? ?] ?.
Qed.

Lemma walk_careful create parts : forall fd s0 s,
  extends s0 s -> t_fds s0 !! fd = None -> known s fd -> careful (walk apple create fd parts) s (walked s0).
Proof.
  induction parts as [|part next IH]; intros fd s0 s He Hf Hh; [by apply walk_end_careful|]. cbn [walk].
  apply guarded_bind, guarded_andthen; intros Hdot; [|by refine (abandon_careful _ _ _ _ _)].
  eapply guarded_mono; [by apply outside_repository_careful|]. intros ok s1 [He1 Ho].
  assert (He01 : extends s0 s1) by by etrans.
  apply guarded_if; intros Hok; [by apply abandon_careful|]. apply negb_false_iff in Hok.
  assert (Hout : outside s1 fd part).
  { split; [by apply Ho|]. apply negb_true_iff, orb_false_iff in Hdot as [H1 H2]. unfold strcmp_equal in *.
    split; [by apply bool_decide_eq_false in H1|by apply bool_decide_eq_false in H2]. }
  assert (Hgo : forall s2, extends s1 s2 ->
    careful (child ← value (Openat fd part dir_flags 0); _ ← perform (Close fd);
             if child <? 0 then mret (-1) else walk apple create child next) s2 (walked s0)).
  { intros s2 He2. assert (He02 : extends s0 s2) by by etrans.
    apply guarded_value.
    { change (outside s2 fd part). destruct Hout as [Hk Hn]. split; [|done].
      eapply extends_knows; [exact He2| |exact Hk]. set_solver. }
    intros r Hr. pose proof (extends_vet s2 (Openat fd part dir_flags 0) r eq_refl Hr) as He3.
    apply careful_perform; [done|]. intros c. set (s3 := vet s2 _ r) in *.
    assert (He4 : extends s0 (vet s3 (Close fd) c)) by (apply extends_close; [exact (transitivity He02 He3)|done]).
    apply guarded_if; intros Hneg; [by split; [|lia]|]. apply Z.ltb_ge in Hneg.
    assert (Hnone : t_fds s2 !! returned r = None) by by apply Hr.
    apply IH; [done|exact (extends_none _ _ _ He02 Hnone)|]. unfold known, s3. cbn [vet].
    rewrite (proj2 (Z.leb_le _ _)) by done. unfold given. cbn [set_fds t_fds]. assert (Hne : fd <> returned r).
    { intros Heq. destruct (extends_known _ _ fd (transitivity He1 He2) Hh). congruence. }
    rewrite lookup_delete_ne, lookup_insert_eq by done. by eexists. }
  apply guarded_bind, guarded_andthen; intros Hmake.
  - apply careful_value; [exact Hout|done|]. intros r He2. apply guarded_if; intros _.
    { apply guarded_if; [|done]. intros _. apply abandon_careful; [by etrans|done]. }
    apply careful_value; [done..|]. intros f He3. apply guarded_if; intros _; [|apply Hgo; by etrans].
    apply abandon_careful; [|done]. etrans; [exact He01|]. by etrans.
  - by apply Hgo.
Qed.

Lemma directory_careful name create s : careful (directory apple name create) s (walked s).
Proof.
  unfold directory. apply guarded_if; intros _; [by split; [|lia]|].
  apply guarded_value; [done|]. intros r Hr. pose proof (extends_vet s (Open (codes "/") dir_flags) r eq_refl Hr) as He.
  apply guarded_if; intros Hneg; [by split; [|lia]|]. apply Z.ltb_ge in Hneg. apply walk_careful; [done|by apply Hr|].
  cbn [vet]. rewrite (proj2 (Z.leb_le _ _)) by done. unfold known, given. cbn. rewrite lookup_insert_eq. by eexists.
Qed.
(** Whatever else a callee opened, it closed. *)
Lemma read_loop_careful n : forall fd bytes from length s,
  readable apple s fd -> careful (read_loop n fd bytes from length) s (fun _ s' => s' = s).
Proof.
  induction n as [|n IH]; intros fd bytes from length s Hr; [done|]. cbn [read_loop]. apply guarded_if; intros _; [done|].
  apply guarded_sys; [done|]. intros r _. apply guarded_if; intros _; [by apply IH|].
  apply guarded_if; intros _; [done|]. by apply IH.
Qed.

Lemma read_extra_careful n : forall fd s,
  readable apple s fd -> careful (read_extra n fd) s (fun _ s' => s' = s).
Proof.
  induction n as [|n IH]; intros fd s Hr; [done|]. cbn [read_extra]. apply guarded_sys; [done|]. intros r _.
  apply guarded_if; intros _; [by apply IH|done].
Qed.

Lemma write_loop_careful n : forall fd bytes from s,
  writable apple s fd -> careful (write_loop n fd bytes from) s (fun _ s' => s' = s).
Proof.
  induction n as [|n IH]; intros fd bytes from s Hw; [done|]. cbn [write_loop]. apply guarded_if; intros _; [done|].
  apply guarded_sys; [done|]. intros r _. apply guarded_if; intros _; [by apply IH|].
  apply guarded_if; intros _; [done|]. by apply IH.
Qed.

(** A file opened in a directory is known to be open and to be fresh. *)
Lemma openat_careful {B} dir name flags mode (f : Z -> io B) s Q :
  earned apple s (Openat dir name flags mode) ->
  (forall s', extends s s' -> forall fd, fd < 0 -> careful (f fd) s' Q) ->
  (forall s' fd, extends s s' -> t_fds s !! fd = None ->
     t_fds s' !! fd = Some {| d_named := false; d_facts := [] |} -> careful (f fd) s' Q) ->
  careful (value (Openat dir name flags mode) ≫= f) s Q.
Proof.
  intros He Hneg Hpos. apply guarded_value; [done|]. intros r Hr.
  pose proof (extends_vet s (Openat dir name flags mode) r eq_refl Hr) as Hx.
  destruct (Z.ltb_spec (returned r) 0) as [Hlt|Hge]; [by apply Hneg|]. apply Hpos; [done|by apply Hr|].
  cbn [vet]. rewrite (proj2 (Z.leb_le _ _)) by done. cbn. by rewrite lookup_insert_eq.
Qed.

(** The user's own file: what [read_file_open] asks of a descriptor. *)
Definition own_file_check (fd size : Z) : io bool :=
  r ← sys (Fstat fd);
  let st := status_of_reply r in
  andthen ((returned r =? 0) && S_ISREG (st_mode st))
    (uid ← value Getuid;
     andthen ((st_uid st =? uid) && (st_nlink st =? 1) &&
              (Z.land (st_mode st) mode_07777 =? mode_0600) && (st_size st =? size)) (no_acl apple fd)).

Lemma own_file_careful fd size s :
  known s fd ->
  careful (own_file_check fd size) s
    (fun ok s' => extends s s' /\ (ok = true -> knows s' fd (fun d => own_file s' d /\ unlisted apple d))).
Proof.
  intros Hh. apply (owner_careful fd s (fun st uid =>
      andthen ((st_uid st =? uid) && (st_nlink st =? 1) && (Z.land (st_mode st) mode_07777 =? mode_0600) &&
               (st_size st =? size)) (no_acl apple fd))
    (fun s' d => own_file s' d /\ unlisted apple d) (fun st => S_ISREG (st_mode st)) Hh).
  intros s1 st u He Hu Hk Hd. apply guarded_andthen; [|by intros _; split].
  intros [[[Hu'%Z.eqb_eq Hn%Z.eqb_eq]%andb_true_iff Hm%Z.eqb_eq]%andb_true_iff _]%andb_true_iff.
  eapply guarded_mono; [by apply no_acl_careful; eapply knows_known|]. intros ok s' [He' Hok]. split; [done|].
  intros Ht. eapply knows_and; [|exact (Hok Ht)|].
  - eapply extends_knows; [exact He'| |exact Hk]. intros d d' _ Hf Hst. exact (Hf _ Hst).
  - intros d Hst Hl. split; [|done]. exists st. rewrite Hu'. split_and!; try done. by apply (extends_settings _ _ He').
Qed.

(** In the place [read_file_open] has it. *)
Lemma own_file_then {B} fd size (f : bool -> io B) s Q :
  known s fd ->
  (forall ok s', extends s s' -> (ok = true -> knows s' fd (fun d => own_file s' d /\ unlisted apple d)) ->
     careful (f ok) s' Q) ->
  careful (r ← sys (Fstat fd);
           let st := status_of_reply r in
           ok ← andthen ((returned r =? 0) && S_ISREG (st_mode st))
             (uid ← value Getuid;
              andthen ((st_uid st =? uid) && (st_nlink st =? 1) &&
                       (Z.land (st_mode st) mode_07777 =? mode_0600) && (st_size st =? size)) (no_acl apple fd));
           f ok) s Q.
Proof.
  intros Hh Hf. change (careful (own_file_check fd size ≫= f) s Q). apply guarded_bind. eapply guarded_mono; [exact (own_file_careful fd size s Hh)|].
  intros ok s' [He Hok]. by apply Hf.
Qed.

(** The two steps of [read_file]: open, then use and close. *)
Lemma named_kept s s' fd : extends s s' -> forall d, t_fds s !! fd = Some d -> knows s' fd (fun d' => d_named d' = d_named d).
Proof. intros He d Hd. destruct (extends_fds _ _ He fd d Hd) as (d' & ? & ? & _). by exists d'. Qed.

Lemma read_file_open_careful dir name bytes length s :
  private apple s dir ->
  careful (read_file_open apple fuel dir name bytes length) s (fun r s' =>
    extends s s' /\ (0 <= fst r -> t_fds s !! fst r = None)).
Proof.
  intros Hp. unfold read_file_open. apply openat_careful; [done| |].
  { intros s' He fd Hneg. rewrite (proj2 (Z.ltb_lt _ _)) by done. split; [done|]. cbn. lia. }
  intros s1 fd He Hf Hd. apply guarded_if; intros _; [split; [done|cbn; lia]|].
  apply own_file_then; [by eexists|]. intros ok s2 He2 Hok. assert (He02 : extends s s2) by by etrans.
  assert (Hr : ok = true -> readable apple s2 fd).
  { intros Ht. eapply knows_and; [exact (Hok Ht)|exact (named_kept _ _ _ He2 _ Hd)|]. cbn. intros d Ho ->. done. }
  apply guarded_bind.
  apply (guarded_mono _ _ _ (fun ob s' => s' = s2 /\ (fst ob = true -> ok = true))).
  { destruct ok; [|done]. eapply guarded_mono; [by apply read_loop_careful, Hr|]. done. }
  intros [ok1 bytes1] ? [-> Hok1]. cbn [fst] in Hok1.
  apply guarded_bind, (guarded_mono _ _ _ (fun _ s' => s' = s2)).
  { apply guarded_andthen; [|done]. intros Ht. apply guarded_bind. eapply guarded_mono;
      [by apply read_extra_careful, Hr, Hok1|]. done. }
  intros ok2 ? ->. apply guarded_bind, (guarded_mono _ _ _ (fun _ s' => s' = s2)).
  { apply guarded_andthen; [|done]. intros _. by apply guarded_value. }
  intros ok3 ? ->. apply guarded_if; intros _; [|by split]. eapply careful_close; [done..|].
  intros s' He'. split; [done|cbn; lia].
Qed.

Lemma read_file_careful dir name bytes length s :
  private apple s dir -> careful (read_file apple fuel dir name bytes length) s (fun _ s' => extends s s').
Proof.
  intros Hp. apply guarded_bind. eapply guarded_mono; [by apply read_file_open_careful|]. intros [fd b] s1 [He Hf].
  cbn [fst] in Hf. apply guarded_if; intros Hneg; [done|]. apply Z.ltb_ge in Hneg.
  apply guarded_value; [done|]. intros r _. apply guarded_if; intros _; by apply extends_close, Hf.
Qed.

Lemma write_new_careful dir name bytes s :
  private apple s dir -> careful (write_new apple fuel dir name bytes) s (fun _ s' => extends s s').
Proof.
  intros Hp. unfold write_new. apply openat_careful; [done| |].
  { intros s' He fd Hneg. by rewrite (proj2 (Z.ltb_lt _ _)). }
  intros s1 fd He Hf Hd. apply guarded_if; intros _; [done|].
  apply guarded_bind. eapply guarded_mono; [by apply no_acl_careful; eexists|]. intros ok s2 [He2 Hok].
  assert (He02 : extends s s2) by by etrans. apply guarded_bind, (guarded_mono _ _ _ (fun _ s' => s' = s2)).
  { apply guarded_andthen; [|done]. intros Ht. by apply write_loop_careful, Hok. }
  intros ok1 ? ->. apply guarded_value; [done|]. intros r1 _. apply guarded_value; [done|]. intros r2 _.
  apply guarded_value; [done|]. intros r3 _. by apply extends_close.
Qed.

(** ** The commands *)

Lemma identity_read_careful fd s :
  private apple s fd -> careful (identity_read MODE apple fuel fd) s (fun _ s' => extends s s').
Proof.
  intros Hp. apply guarded_bind. eapply guarded_mono; [by apply read_file_careful|]. intros [ok b] s1 He.
  apply guarded_if; intros _; [done|]. by destruct (tcs_public_decode _ _ _ _).
Qed.

Lemma key_read_careful fd id s :
  private apple s fd -> careful (key_read MODE apple fuel crypto_ed25519_key_pair fd id) s (fun _ s' => extends s s').
Proof.
  intros Hp. apply guarded_bind. eapply guarded_mono; [by apply read_file_careful|]. intros [ok b] s1 He.
  by apply guarded_if.
Qed.

(** What is printed changes nothing. *)
Lemma careful_printf {B} (b : bool) text (f : unit -> io B) s Q :
  careful (f tt) s Q -> careful ((if b then perform (Printf text) else mret tt) ≫= f) s Q.
Proof. intros Hf. destruct b; [|done]. by apply careful_perform. Qed.

(** A private directory opened by the walk, and what follows with it. *)
Lemma directory_then {B} name create (f : Z -> io B) s Q :
  (forall s' fd, extends s s' -> fd < 0 -> careful (f fd) s' Q) ->
  (forall s' fd, extends s s' -> t_fds s !! fd = None -> private apple s' fd -> careful (f fd) s' Q) ->
  careful (directory apple name create ≫= f) s Q.
Proof.
  intros Hneg Hpos. apply guarded_bind. eapply guarded_mono; [apply directory_careful|]. intros fd s1 [He Hw].
  destruct (Z.ltb_spec fd 0) as [Hlt|Hge]; [by apply Hneg|]. destruct (Hw Hge). by apply Hpos.
Qed.

Lemma show_identity_careful fd s :
  private apple s fd -> careful (show_identity MODE apple fuel fd) s (fun _ s' => extends s s').
Proof.
  intros Hp. apply guarded_bind. eapply guarded_mono; [by apply identity_read_careful|]. intros [ok id] s1 He.
  destruct ok; [|done]. split; [done|]. intros r1 _. split; [done|]. by intros r2 _.
Qed.

Lemma create_identity_careful path s :
  careful (create_identity MODE apple fuel crypto_ed25519_key_pair path) s (fun _ s' => extends s s').
Proof.
  unfold create_identity. apply guarded_sys; [done|]. intros r _. apply guarded_if; intros _; [exact (extends_refl s)|].
  cbv zeta.
  destruct (crypto_ed25519_key_pair _) as [secret key], (tcs_public_encode _ _ _) as [ok public].
  apply guarded_if; intros _; [exact (extends_refl s)|]. apply (directory_then _ _ _ s).
  { intros s1 fd He Hneg. by rewrite (proj2 (Z.ltb_lt _ _)). }
  intros s1 fd He Hf Hp. apply guarded_if; intros _; [done|].
  apply guarded_bind. eapply guarded_mono; [by apply write_new_careful|]. intros ok1 s2 He2.
  assert (He02 : extends s s2) by exact (transitivity He He2).
  apply guarded_bind, (guarded_mono _ _ _ (fun _ s' => extends s2 s')).
  { apply guarded_andthen; [|done]. intros _. by apply write_new_careful, (private_mono _ _ _ He2). }
  intros ok2 s3 He3. apply (careful_printf ok2). apply (careful_close s); [exact (transitivity He02 He3)|done|]. done.
Qed.

Lemma context_create_careful identity_fd path s :
  private apple s identity_fd -> careful (context_create MODE apple fuel identity_fd path) s (fun _ s' => extends s s').
Proof.
  intros Hi. apply guarded_bind. eapply guarded_mono; [by apply identity_read_careful|]. intros [ok id] s1 He1.
  apply guarded_if; intros _; [done|]. apply guarded_sys; [done|]. intros r _. apply guarded_if; intros _; [done|].
  cbv zeta. destruct (tcs_launch_encode _ _ _) as [ok2 bytes]. apply guarded_if; intros _; [done|].
  apply directory_then. { intros s2 fd He Hneg. rewrite (proj2 (Z.ltb_lt _ _)) by done. exact (transitivity He1 He). }
  intros s2 fd He2 Hf Hp. apply guarded_if; intros _; [exact (transitivity He1 He2)|].
  apply guarded_bind. eapply guarded_mono; [by apply write_new_careful|]. intros ok3 s3 He3.
  apply careful_perform; [done|]. intros c. apply (careful_printf ok3). apply extends_close.
  - exact (transitivity He1 (transitivity He2 He3)).
  - exact (extends_none _ _ _ He1 Hf).
Qed.

Lemma prepare_careful identity_fd session_fd c s :
  private apple s identity_fd -> private apple s session_fd ->
  careful (prepare MODE apple fuel crypto_blake2b identity_fd session_fd c) s (fun _ s' => extends s s').
Proof.
  intros Hi Hd. apply guarded_bind. eapply guarded_mono; [by apply identity_read_careful|]. intros [ok id] s1 He1.
  apply guarded_if; intros _; [done|]. apply guarded_bind.
  eapply guarded_mono; [by apply read_file_careful, (private_mono _ _ _ He1)|]. intros [ok2 context] s2 He2.
  assert (extends s s2) by exact (transitivity He1 He2).
  apply guarded_if; intros _; [done|]. destruct (tcs_launch_decode _ _ _ _) as [ok3 launch]. cbv zeta.
  apply guarded_if; intros _; [done|]. destruct (tcs_admin_encode _ _ _ _) as [ok4 packet].
  by apply guarded_if.
Qed.

Lemma sign_request_careful identity_fd session_fd launch c packet s :
  private apple s identity_fd -> private apple s session_fd ->
  careful (sign_request MODE apple fuel crypto_ed25519_key_pair crypto_ed25519_sign crypto_ed25519_check
             identity_fd session_fd launch c packet) s (fun _ s' => extends s s').
Proof.
  intros Hi Hd. apply guarded_bind. eapply guarded_mono; [by apply key_read_careful|]. intros [ok secret] s1 He1.
  apply guarded_if; intros _; [done|]. cbv zeta. apply guarded_if; intros _; [done|].
  apply guarded_if; intros _; [done|]. apply guarded_bind.
  eapply guarded_mono; [by apply write_new_careful, (private_mono _ _ _ He1)|]. intros ok2 s2 He2.
  apply (careful_printf ok2). exact (transitivity He1 He2).
Qed.

Lemma review_or_sign_careful identity_fd path args approval s :
  private apple s identity_fd ->
  careful (review_or_sign MODE apple fuel crypto_blake2b crypto_ed25519_key_pair crypto_ed25519_sign
             crypto_ed25519_check identity_fd path args approval) s (fun _ s' => extends s s').
Proof.
  intros Hi. unfold review_or_sign. destruct (command_parse args) as [c|]; [|exact (extends_refl s)]. apply directory_then.
  { intros s1 fd He Hneg. by rewrite (proj2 (Z.ltb_lt _ _)). }
  intros s1 fd He Hf Hp. apply guarded_if; intros _; [done|]. apply guarded_bind.
  assert (Hi1 := private_mono apple _ _ He _ Hi).
  eapply guarded_mono; [by apply prepare_careful|]. intros prepared s2 He2.
  assert (Hr := extends_refl s2). apply guarded_bind, (guarded_mono _ _ _ (fun _ s' => extends s2 s')).
  { destruct prepared as [[[launch packet] wanted]|]; [|done]. destruct approval as [a|].
    - apply guarded_if; intros _; [exact Hr|].
      apply sign_request_careful; [exact (private_mono _ _ _ He2 _ Hi1)|exact (private_mono _ _ _ He2 _ Hp)].
    - apply guarded_bind. repeat (split; [done|]; intros ? _). exact Hr. }
  intros ok s3 He3. apply (careful_close s); [|done|done]. exact (transitivity He (transitivity He2 He3)).
Qed.

(** ** Launching *)

(** No directory stream is open. *)
Definition unscanned (s : trust) : Prop := t_streams s = ∅.

Lemma extends_unscanned s s' : extends s s' -> unscanned s -> unscanned s'.
Proof. intros He Hs. unfold unscanned. by rewrite (extends_streams _ _ He). Qed.

Lemma close_loop_careful n : forall stream scanner ok s,
  careful (close_loop n stream scanner ok) s (fun _ s' => t_streams s' = t_streams s).
Proof.
  induction n as [|n IH]; intros stream scanner ok s; [done|]. cbn [close_loop]. apply guarded_sys; [done|]. intros r _.
  apply guarded_if; intros _; [done|]. apply guarded_bind, (guarded_mono _ _ _ (fun _ s' => t_streams s' = t_streams s)).
  { unfold close_entry. destruct (number _) as [is_number fd]. apply guarded_if; intros _; [|done].
    by apply guarded_sys. }
  intros ok' s' <-. apply IH.
Qed.

Lemma close_other_descriptors_careful s :
  unscanned s -> careful (close_other_descriptors fuel) s (fun _ s' => unscanned s').
Proof.
  intros Hs. apply guarded_value; [done|]. intros r _. cbn [vet]. apply guarded_if; intros H0; rewrite H0; [done|].
  unfold given. cbn [negb]. apply guarded_value; [done|]. intros scanner _. apply guarded_bind.
  eapply guarded_mono; [apply close_loop_careful|]. intros ok s' Hs'. apply guarded_value; [done|]. intros c _.
  unfold unscanned in *. cbn [vet set_streams t_streams] in *. change (t_streams s' ∖ {[returned r]} = ∅).
  rewrite Hs', Hs. set_solver.
Qed.

Lemma copy_and_exec_careful dir image_fd pointer size qemu s :
  private apple s dir -> readable apple s image_fd -> unscanned s ->
  careful (copy_and_exec apple fuel dir image_fd pointer size qemu) s (fun _ s' => unscanned s').
Proof.
  intros Hd Hi Hs. apply guarded_bind. eapply guarded_mono; [by apply read_loop_careful|]. intros [ok bytes] ? ->.
  apply guarded_if; intros _; [by split|]. apply guarded_bind.
  eapply guarded_mono; [by apply read_extra_careful|]. intros n ? ->.
  apply guarded_bind, (guarded_mono _ _ _ (fun _ s' => extends s s')).
  { apply guarded_andthen; [|intros _; exact (extends_refl s)]. intros _. by apply write_new_careful. }
  intros ok2 s2 He. apply careful_perform; [done|]. intros c. pose proof (extends_unscanned _ _ He Hs) as Hs2.
  apply guarded_if; intros _; [done|]. apply guarded_value; [exact (private_mono _ _ _ He _ Hd)|]. intros f _.
  apply guarded_if; intros _; [done|]. apply guarded_bind.
  eapply guarded_mono; [by apply close_other_descriptors_careful|]. intros ok3 s3 Hs3.
  apply guarded_if; intros _; [done|]. by split.
Qed.

Lemma launch_image_careful dir image_fd context qemu s d :
  private apple s dir -> unscanned s -> (0 <= image_fd -> t_fds s !! image_fd = Some d /\ d_named d = true) ->
  careful (launch_image apple fuel dir image_fd context qemu) s (fun _ s' => unscanned s').
Proof.
  intros Hd Hs Hi. unfold launch_image. apply guarded_if; intros Hneg; [done|]. apply Z.ltb_ge in Hneg.
  destruct (Hi Hneg) as [Hfd Hn]. apply careful_sys; [done..|]. intros r He1.
  apply guarded_if; intros Hb; [exact (extends_unscanned _ _ He1 Hs)|].
  apply orb_false_iff in Hb as [[[H0 Hreg]%orb_false_iff _]%orb_false_iff _]. apply negb_false_iff in H0, Hreg.
  assert (Hr : readable apple (vet s (Fstat image_fd) r) image_fd).
  { eapply knows_and; [|exact (named_kept _ _ _ He1 _ Hfd)|].
    - cbn [vet]. rewrite H0. apply knows_learn. by eexists.
    - cbn. intros d' Hst ->. rewrite Hn. by eexists. }
  apply guarded_bind. eapply guarded_mono; [by apply write_new_careful, (private_mono _ _ _ He1)|]. intros used s2 He2.
  assert (He02 : extends s s2) by exact (transitivity He1 He2). pose proof (extends_unscanned _ _ He02 Hs) as Hs2.
  apply guarded_if; intros _; [done|]. apply guarded_value; [done|]. intros p _. apply guarded_if; intros _; [done|].
  apply copy_and_exec_careful; [exact (private_mono _ _ _ He02 _ Hd)|exact (readable_mono _ _ _ He2 _ Hr)|done].
Qed.

Lemma launch_guest_careful identity_fd session image qemu s :
  private apple s identity_fd -> unscanned s ->
  careful (launch_guest MODE apple fuel identity_fd session image qemu) s (fun _ s' => unscanned s').
Proof.
  intros Hi Hs. unfold launch_guest. apply guarded_if; intros _; [done|]. apply (directory_then _ _ _ s).
  { intros s1 fd He Hneg. rewrite (proj2 (Z.ltb_lt _ _)) by done. exact (extends_unscanned _ _ He Hs). }
  intros s1 dir He1 _ Hd. pose proof (extends_unscanned _ _ He1 Hs) as Hs1. apply guarded_if; intros _; [done|].
  apply guarded_bind. eapply guarded_mono; [by apply identity_read_careful, (private_mono _ _ _ He1)|].
  intros [ok id] s2 He2. apply guarded_bind, (guarded_mono _ _ _ (fun _ s' => extends s1 s')).
  { destruct ok; [|exact He2]. eapply guarded_mono; [by apply read_file_careful, (private_mono _ _ _ He2)|].
    intros a s3 He3. exact (transitivity He2 He3). }
  intros [ok2 context] s3 He3. destruct (tcs_launch_decode _ _ _ _) as [decoded launch]. cbv zeta.
  pose proof (extends_unscanned _ _ He3 Hs1) as Hs3. pose proof (private_mono _ _ _ He3 _ Hd) as Hd3.
  apply guarded_bind, (guarded_mono _ _ _ (fun _ s' => unscanned s')); [|intros a s4 Hs4; by split].
  apply guarded_if; intros _; [|done]. apply guarded_value; [done|]. intros r Hr.
  pose proof (extends_vet s3 (Open image read_flags) r eq_refl Hr) as He4. apply guarded_bind.
  eapply guarded_mono; [eapply launch_image_careful|].
  - exact (private_mono _ _ _ He4 _ Hd3).
  - exact (extends_unscanned _ _ He4 Hs3).
  - intros Hge. cbn [vet]. rewrite (proj2 (Z.leb_le _ _)) by done. unfold given. cbn. by rewrite lookup_insert_eq.
  - intros a s5 Hs5. apply guarded_if; intros _; by repeat split.
Qed.

Lemma command_careful v argv s :
  unscanned s ->
  careful (command MODE apple fuel crypto_blake2b crypto_ed25519_key_pair crypto_ed25519_sign crypto_ed25519_check
             v argv) s (fun _ s' => unscanned s').
Proof.
  intros Hs. assert (Hx : forall s1 (b : bool) s2, extends s1 s2 -> unscanned s1 -> unscanned s2)
    by (intros; by eapply extends_unscanned).
  assert (Hgo : forall v, v <> CREATE -> careful (command MODE apple fuel crypto_blake2b crypto_ed25519_key_pair
      crypto_ed25519_sign crypto_ed25519_check v argv) s (fun _ s' => unscanned s')).
  { intros w Hw. destruct w; [done|..]; apply (directory_then _ _ _ s);
      try (intros s1 fd He Hneg; rewrite (proj2 (Z.ltb_lt _ _)) by done; exact (extends_unscanned _ _ He Hs));
      intros s1 fd He _ Hp; pose proof (extends_unscanned _ _ He Hs) as Hs1; apply guarded_if; intros _; try done;
      apply guarded_bind, (guarded_mono _ _ _ (fun _ s' => unscanned s')); try (intros ok s2 Hs2; by split);
      [eapply guarded_mono; [by apply show_identity_careful|]|eapply guarded_mono; [by apply context_create_careful|]
      |eapply guarded_mono; [by apply review_or_sign_careful|]|eapply guarded_mono; [by apply review_or_sign_careful|]
      |by apply launch_guest_careful]; intros ok s2 He2; exact (extends_unscanned _ _ He2 Hs1). }
  destruct v; try by apply Hgo. eapply guarded_mono; [apply create_identity_careful|].
  intros ok s2 He2. exact (extends_unscanned _ _ He2 Hs).
Qed.

(** ** The process *)

#[local] Abbreviation guarded_main := (guarded (cleared apple)).

Lemma settings_grow s c r : t_settings s ⊆ t_settings (vet s c r).
Proof.
  destruct c; cbn [vet]; unfold given; repeat case_match; cbn [set_fds set_lists set_streams settled learn t_settings];
    try done; set_solver.
Qed.

Lemma started_vet s c r : started s -> started (vet s c r).
Proof.
  intros ((u & Hu & He) & (g & Hg & Hf) & Hl & H0 & H1 & H2 & Hm). pose proof (settings_grow s c r) as Hs.
  split_and!; try (by apply Hs); [exists u|exists g]; split; by apply Hs.
Qed.

(** What is careful is cleared once the process has started. *)
Lemma careful_started {A} (m : io A) : forall s Q, started s -> careful m s Q -> guarded_main m s Q.
Proof.
  induction m as [a|c k IH|]; intros s Q Hs; [done| |done]. intros [Hc Hk]. split; [by split|]. intros r Hr.
  by apply IH; [apply started_vet|apply Hk].
Qed.

Lemma main_value {B} c (f : Z -> io B) s Q :
  earned apple s c -> touches c = false -> (forall r, guarded_main (f (returned r)) (vet s c r) Q) ->
  guarded_main (value c ≫= f) s Q.
Proof. intros Hc Ht Hf. apply guarded_value; [by split; [|rewrite Ht]|]. intros r _. apply Hf. Qed.

(** [t_settings] at each step of the checks, latest first. *)
Lemma unprivileged_guarded s :
  guarded_main unprivileged s (fun ok s' => t_streams s' = t_streams s /\ (ok = true ->
    exists u g, t_settings s' = No_core :: Effective_group g :: Group g :: Effective_user u :: User u :: t_settings s)).
Proof.
  apply main_value; [done..|]. intros ru. apply main_value; [done..|]. intros re. apply guarded_andthen; [|done].
  intros Hu%Z.eqb_eq. apply main_value; [done..|]. intros rg. apply main_value; [done..|]. intros rf.
  apply guarded_andthen; [|done]. intros Hg%Z.eqb_eq. apply main_value; [done..|]. intros rl. cbn [vet].
  destruct (returned rl =? 0); [|done]. split; [done|]. intros _. exists (returned ru), (returned rg).
  cbn. by rewrite Hu, Hg.
Qed.

Lemma standard_open_guarded fds : forall s,
  guarded_main (standard_open fds) s (fun ok s' => t_streams s' = t_streams s /\ (ok = true ->
    t_settings s' = reverse (map Standard fds) ++ t_settings s)).
Proof.
  induction fds as [|fd fds IH]; intros s; [done|]. cbn [standard_open]. apply main_value; [done..|]. intros r. cbn [vet].
  unfold given. destruct (Z.ltb_spec (returned r) 0) as [Hlt|Hge].
  { rewrite (proj2 (Z.leb_gt _ _)) by done. done. }
  rewrite (proj2 (Z.leb_le _ _)) by done. eapply guarded_mono; [apply IH|]. intros ok s' [Hs Hok].
  split; [done|]. intros Ht. rewrite (Hok Ht). cbn [map settled t_settings]. by rewrite reverse_cons, <- app_assoc.
Qed.

(** The tool makes no call it has not earned, and leaves no stream open. *)
Lemma main_guarded argv :
  guarded_main (main MODE apple fuel crypto_blake2b crypto_ed25519_key_pair crypto_ed25519_sign crypto_ed25519_check argv)
    trust_start (fun _ s' => unscanned s').
Proof.
  apply guarded_bind. eapply guarded_mono; [apply unprivileged_guarded|]. intros plain s1 [Hs1 Hp].
  apply guarded_if; intros Hpt; [done|]. apply negb_false_iff in Hpt. destruct (Hp Hpt) as (u & g & Hl).
  apply guarded_bind. eapply guarded_mono; [apply standard_open_guarded|]. intros std s2 [Hs2 Ho].
  assert (Hu2 : unscanned s2) by (unfold unscanned; by rewrite Hs2, Hs1).
  apply guarded_if; intros Hst; [done|]. apply negb_false_iff in Hst. specialize (Ho Hst). rewrite Hl in Ho.
  apply guarded_perform; [done|]. intros r. cbn [vet]. set (s3 := settled s2 (Mask 63)).
  assert (Hstart : started s3).
  { unfold started, s3. cbn [settled t_settings]. rewrite Ho. cbn. split_and!; [exists u|exists g|..]; split_and?; set_solver. }
  assert (Hu3 : unscanned s3) by exact Hu2. clearbody s3.
  apply careful_started; [done|].
  assert (Husage : careful usage s3 (fun _ s' => unscanned s')) by by apply careful_perform.
  apply guarded_if; intros _; [done|]. destruct (verb_of _) as [v|]; [|done]. apply guarded_if; intros _; [done|].
  apply guarded_bind. eapply guarded_mono; [by apply command_careful|]. intros ok s4 Hs4.
  apply guarded_value; [done|]. intros f _. cbv zeta. apply guarded_bind. by destruct (ok && _).
Qed.
End Functions.
