(* ===== verification/OperatorMain.v ===== *)
(** The operator tool as a whole: [main] of [tools/operator.c]. What each
    command may touch, what it has done when it succeeds, that it ends, and
    what its output means to the guest's administrator. *)

From S2P Require Import Prelude Bytes Policy Admin Terminal SignedInput Launch GuestBoot Posix Operator OperatorArgs OperatorFiles OperatorRun OperatorHost OperatorChecks OperatorVetting.
Import String.StringSyntax.
#[local] Open Scope string_scope.
#[local] Open Scope Z_scope.

(** ** Authority and effect of a command line *)

Section Commands.
Context (MODE : Z) (crypto_blake2b : nat -> list Z -> list Z)
        (crypto_ed25519_key_pair : list Z -> list Z * list Z)
        (crypto_ed25519_sign : list Z -> list Z -> list Z)
        (crypto_ed25519_check : list Z -> list Z -> list Z -> Z)
        (argv : list (list Z)).

(** The directories and the image an argument names. *)
Definition id_dir : path := tokens (argv !!! 2%nat).
Definition session_dir : path := tokens (argv !!! 3%nat).
Definition image_path : path := tokens (argv !!! 4%nat).

(** The approval on the command line is the one for what was just read. *)
Definition approved (g : view) : Prop :=
  exists c l, command_parse (drop 4 argv) = Some c /\ launch_ok MODE l /\
    argv !!! 8%nat = approval MODE crypto_blake2b l c /\ past g = launch_files MODE id_dir session_dir l.

Definition file_in (dir : path) (name : String.string) : path := dir ++ [codes name].

Definition nothing : authority :=
  {| may_read := fun _ _ => False; may_create := fun _ _ => False; may_make := fun _ _ => False;
     may_exec := fun _ _ _ => False |}.

Definition authority_of (v : verb) : authority :=
  let public := file_in id_dir "identity.pub" in
  let context := file_in session_dir "launch.context" in
  match v with
  | CREATE =>
      {| may_read := fun _ _ => False;
         may_create := fun _ p => p = file_in id_dir "identity.key" \/ p = public;
         may_make := fun _ p => p = id_dir; may_exec := fun _ _ _ => False |}
  | SHOW =>
      {| may_read := fun _ p => p = public; may_create := fun _ _ => False;
         may_make := fun _ _ => False; may_exec := fun _ _ _ => False |}
  | CONTEXT =>
      {| may_read := fun _ p => p = public; may_create := fun _ p => p = context;
         may_make := fun _ p => p = session_dir; may_exec := fun _ _ _ => False |}
  | REVIEW =>
      {| may_read := fun _ p => p = public \/ p = context; may_create := fun _ _ => False;
         may_make := fun _ _ => False; may_exec := fun _ _ _ => False |}
  | SIGN =>
      {| may_read := fun g p => p = public \/ p = context \/
           (p = file_in id_dir "identity.key" /\ approved g);
         may_create := fun _ p => exists c, command_parse (drop 4 argv) = Some c /\
           p = session_dir ++ [request_name (c_sequence c)];
         may_make := fun _ _ => False; may_exec := fun _ _ _ => False |}
  | LAUNCH =>
      {| may_read := fun _ p => p = public \/ p = context \/ p = image_path;
         may_create := fun _ p => p = file_in session_dir "launch.used" \/ p = file_in session_dir "launch.img";
         may_make := fun _ _ => False;
         may_exec := fun g p args => p = argv !!! 5%nat /\ args = arguments (argv !!! 5%nat) /\
           exists fd, reserved MODE id_dir session_dir image_path fd view_start g |}
  end.

Definition chosen : option verb :=
  v ← verb_of (argv !!! 1%nat); if well_formed v argv then Some v else None.

Definition authority_main : authority := from_option authority_of nothing chosen.

(** What has been done when a command succeeds; [launch] never does. *)
Definition effect (v : verb) (g : view) : Prop :=
  match v with
  | CREATE => identity_created MODE crypto_ed25519_key_pair id_dir view_start g
  | SHOW => identity_shown MODE id_dir view_start g
  | CONTEXT => context_created MODE id_dir session_dir view_start g
  | REVIEW =>
      review_or_signed MODE crypto_blake2b crypto_ed25519_key_pair crypto_ed25519_sign crypto_ed25519_check
        id_dir session_dir (drop 4 argv) None view_start g
  | SIGN =>
      review_or_signed MODE crypto_blake2b crypto_ed25519_key_pair crypto_ed25519_sign crypto_ed25519_check
        id_dir session_dir (drop 4 argv) (Some (argv !!! 8%nat)) view_start g
  | LAUNCH => False
  end.
End Commands.

Section Main.
Context (MODE : Z) (apple : bool) (fuel : nat).
Context (crypto_blake2b : nat -> list Z -> list Z)
        (crypto_ed25519_key_pair : list Z -> list Z * list Z)
        (crypto_ed25519_sign : list Z -> list Z -> list Z)
        (crypto_ed25519_check : list Z -> list Z -> list Z -> Z).

Context (key_sizes : forall seed, length (fst (crypto_ed25519_key_pair seed)) = 64%nat /\
                                  length (snd (crypto_ed25519_key_pair seed)) = 32%nat)
        (signature_size : forall secret m, length (crypto_ed25519_sign secret m) = 64%nat).

Context (argv : list (list Z)).

(** Fuel, when termination is claimed: for the records, and to launch for any
    image. *)
Context (budget : option nat) (records : enough fuel budget 192)
        (images : chosen argv = Some LAUNCH ->
                  forall size, Z.of_nat size <= MAX_IMAGE -> enough fuel budget size).

#[local] Abbreviation ip := (id_dir argv).
#[local] Abbreviation sp := (session_dir argv).
#[local] Abbreviation auth := (authority_of MODE crypto_blake2b argv).
#[local] Abbreviation done v :=
  (effect MODE crypto_blake2b crypto_ed25519_key_pair crypto_ed25519_sign crypto_ed25519_check argv v).

(** A command run with its own authority: it succeeds with its effect, and
    holds nothing open. *)
Definition command_end (v : verb) (ok : bool) (g : view) : Prop :=
  live g = ∅ /\ (ok = true -> done v g).

(** What a command did inside the identity's directory, seen after leaving it. *)
Lemma lift_files g1 g2 fd l d :
  entered view_start g1 fd ip [] -> filed g1 g2 l d -> filed view_start (close_in g2 fd) l d.
Proof. intros Hin Hf. exact (entered_close _ _ _ _ _ _ _ _ Hin Hf). Qed.

Lemma lift_shown g1 g2 fd :
  entered view_start g1 fd ip [] -> identity_shown MODE ip g1 g2 ->
  identity_shown MODE ip view_start (close_in g2 fd).
Proof.
  intros Hin (who & Hi & Hv & Hf & Hp). exists who. split_and!; try done; [by eapply lift_files|].
  destruct Hin as (_ & _ & [_ Hq] & _). cbn [close_in printed]. by rewrite Hp, Hq.
Qed.

Lemma lift_created g1 g2 fd :
  entered view_start g1 fd ip [] -> context_created MODE ip sp g1 g2 ->
  context_created MODE ip sp view_start (close_in g2 fd).
Proof. intros Hin (l & Hl & Hf). exists l. split; [done|]. by eapply lift_files. Qed.

Lemma lift_reviewed approved g1 g2 fd :
  entered view_start g1 fd ip [] ->
  review_or_signed MODE crypto_blake2b crypto_ed25519_key_pair crypto_ed25519_sign crypto_ed25519_check
    ip sp (drop 4 argv) approved g1 g2 ->
  review_or_signed MODE crypto_blake2b crypto_ed25519_key_pair crypto_ed25519_sign crypto_ed25519_check
    ip sp (drop 4 argv) approved view_start (close_in g2 fd).
Proof.
  intros Hin (c & l & Hc & Hl & H). exists c, l. split; [done|]. split; [done|]. destruct approved as [a|].
  - destruct H as (Ha & files & Hs & Hf). split; [done|]. exists files. split; [done|]. by eapply lift_files.
  - destruct H as [Hf Hp]. split; [by eapply lift_files|]. destruct Hin as (_ & _ & [_ Hq] & _).
    cbn [close_in printed]. by rewrite Hp, Hq.
Qed.

(** What a command leaves in each outcome. *)
Lemma loses_empty g1 g2 fd :
  entered view_start g1 fd ip [] -> loses g1 g2 -> live (close_in g2 fd) = ∅.
Proof.
  intros (_ & Hl1 & _) (Hdom & _). apply dom_empty_inv_L. cbn [close_in live].
  apply set_eq_subseteq. split; [|apply empty_subseteq]. apply close_one_dom.
  rewrite Hl1, dom_insert_L in Hdom. cbn [view_start live] in Hdom. by rewrite dom_empty_L in Hdom.
Qed.

Lemma in_identity v (k : Z -> io bool) :
  (forall fd g1, entered view_start g1 fd ip [] ->
     sat (permits (auth v)) budget (k fd) g1 (fun ok g2 => loses g1 g2 /\ (ok = true -> done v (close_in g2 fd)))) ->
  sat (permits (auth v)) budget
    (fd ← directory apple (argv !!! 2%nat) false;
     if fd <? 0 then mret false else ok ← k fd; _ ← perform (Close fd); mret (ok : bool)) view_start (command_end v).
Proof.
  intros Hk. apply sat_bind. eapply sat_mono; [by apply directory_entered|].
  intros fd g1 [[-> (l & d & Hl & _)]|[Hfd Hin]]; [by apply sat_ret; split; [rewrite Hl|]|].
  rewrite (proj2 (Z.ltb_ge _ _)) by done. apply sat_bind. eapply sat_mono; [by apply Hk|].
  intros ok g2 [Hlose Hok]. apply sat_close, sat_ret. split; [by eapply loses_empty|done].
Qed.

(** A command that finishes files in the identity's directory. *)
Lemma finishes_in g1 fd v R ok g2 :
  (forall g', R g' -> loses g1 g' /\ done v (close_in g' fd)) ->
  finishes g1 R ok g2 -> loses g1 g2 /\ (ok = true -> done v (close_in g2 fd)).
Proof.
  intros HR [[-> Hr]|[-> Hf]]; [by destruct (HR _ Hr)|]. split; [by apply some_filed_loses|done].
Qed.

Lemma filed_loses g g' l d : filed g g' l d -> loses g g'.
Proof. intros Hf. apply some_filed_loses. by exists l, d. Qed.

Lemma reviewed_loses approved g1 g2 :
  review_or_signed MODE crypto_blake2b crypto_ed25519_key_pair crypto_ed25519_sign crypto_ed25519_check
    ip sp (drop 4 argv) approved g1 g2 -> loses g1 g2.
Proof.
  intros (c & l & _ & _ & H). destruct approved as [a|];
    [destruct H as (_ & files & _ & Hf)|destruct H as [Hf _]]; by eapply filed_loses.
Qed.

Lemma well_formed_args v : v = REVIEW \/ v = SIGN -> well_formed v argv = true -> (4 <= length (drop 4 argv))%nat.
Proof. rewrite length_drop. intros [-> | ->] H%Nat.eqb_eq; lia. Qed.

Lemma command_run v :
  well_formed v argv = true -> chosen argv = Some v ->
  sat (permits (auth v)) budget
    (command MODE apple fuel crypto_blake2b crypto_ed25519_key_pair crypto_ed25519_sign crypto_ed25519_check v argv)
    view_start (command_end v).
Proof.
  intros Hw Hv. destruct v; unfold command.
  - eapply sat_mono; [apply create_identity_run; try done; by intros g' name [-> | ->]; cbn; auto|].
    intros ok g [[-> H]|[-> (l & d & Hl & _)]]; [|by split; [rewrite Hl|]].
    split; [|done]. destruct H as (? & ? & _ & _ & _ & Hl & _). by rewrite Hl.
  - apply in_identity. intros fd g1 Hin.
    eapply sat_mono; [by eapply show_identity_run; [exact records|eapply entered_live|]|].
    intros ok g2. apply (finishes_in _ _ SHOW). intros g' H. split; [|by apply (lift_shown g1)].
    destruct H as (? & _ & _ & Hf & _). by eapply filed_loses.
  - apply in_identity. intros fd g1 Hin.
    eapply sat_mono; [by eapply context_create_run; [exact records|eapply entered_live|..]|].
    intros ok g2. apply (finishes_in _ _ CONTEXT). intros g' H. split; [|by apply (lift_created g1)].
    destruct H as (? & _ & Hf). by eapply filed_loses.
  - apply in_identity. intros fd g1 Hin. eapply sat_mono.
    { eapply review_or_sign_run; try done; [by apply (well_formed_args REVIEW); [left|]|by eapply entered_live|by left|by right]. }
    intros ok g2. apply (finishes_in _ _ REVIEW). intros g' H.
    split; [by eapply reviewed_loses|by apply (lift_reviewed _ g1)].
  - apply in_identity. intros fd g1 Hin. eapply sat_mono.
    { eapply review_or_sign_run; try done; [by apply (well_formed_args SIGN); [right|]|by eapply entered_live|by left|by right; left|].
      intros a [= <-]. split; [|by intros g' c Hc; exists c]. intros g' c l Hc Hl Ha Hp. right. right. split; [done|].
      exists c, l. split_and!; try done. destruct Hin as (_ & _ & [Hp1 _] & _). by rewrite Hp, Hp1. }
    intros ok g2. apply (finishes_in _ _ SIGN). intros g' H.
    split; [by eapply reviewed_loses|by apply (lift_reviewed _ g1)].
  - apply in_identity. intros fd g1 Hin. eapply sat_mono.
    { eapply launch_guest_run; try done; [by apply images|by eapply entered_live|by left|by right; left|by right; right|..].
      - by intros g' name [-> | ->]; cbn; auto.
      - intros g' image_fd (l & bytes & rest & Hl & Hp & Ht). split; [done|]. split; [done|].
        exists image_fd, l, bytes, rest. split; [done|]. split; [|done].
        destruct Hin as (_ & _ & [Hp1 _] & _). by rewrite Hp, Hp1. }
    intros ok g2 [-> Hl]. by split.
Qed.

(** ** The process *)

#[local] Abbreviation tool_main := (main MODE apple fuel crypto_blake2b crypto_ed25519_key_pair
  crypto_ed25519_sign crypto_ed25519_check argv).
#[local] Abbreviation authority := (authority_main MODE crypto_blake2b argv).

(** How the process may return, and what it has done then. *)
Definition main_end (code : Z) (g : view) : Prop :=
  live g = ∅ /\
  ((code = 0 /\ exists v, chosen argv = Some v /\ done v g) \/ code = 1 \/
   (code = 2 /\ chosen argv = None /\ g = view_start)).

Lemma unprivileged_quiet A g (Q : bool -> view -> Prop) :
  (forall b, Q b g) -> sat (permits A) budget unprivileged g Q.
Proof. intros HQ. unfold unprivileged. repeat quiet_step; done. Qed.

Lemma standard_open_quiet A g fds (Q : bool -> view -> Prop) :
  (forall b, Q b g) -> sat (permits A) budget (standard_open fds) g Q.
Proof.
  intros HQ. induction fds as [|fd fds IH]; cbn [standard_open]; [by apply sat_ret|].
  quiet_step. apply sat_if; intros _; [by apply sat_ret|done].
Qed.

Lemma usage_quiet A : chosen argv = None -> sat (permits A) budget usage view_start main_end.
Proof. intros Hc. unfold usage. quiet_step. apply sat_ret. split; [done|]. auto. Qed.

Lemma main_run : sat (permits authority) budget tool_main view_start main_end.
Proof.
  unfold main. apply sat_bind, unprivileged_quiet. intros plain.
  assert (Hfail : main_end 1 view_start) by (split; auto).
  apply sat_if; intros _; [by apply sat_ret|]. apply sat_bind, standard_open_quiet. intros std.
  apply sat_if; intros _; [by apply sat_ret|]. quiet_step.
  unfold authority_main, chosen. apply sat_if; intros Hlen.
  { apply usage_quiet. unfold chosen. apply Nat.ltb_lt in Hlen.
    by destruct argv as [|? [|? ?]]; [..|cbn in Hlen; lia]. }
  destruct (verb_of (argv !!! 1%nat)) as [v|] eqn:Hv; cbn [mbind option_bind];
    [|apply usage_quiet; unfold chosen; by rewrite Hv].
  destruct (well_formed v argv) eqn:Hw; cbn [negb from_option];
    [|apply usage_quiet; unfold chosen; rewrite Hv; cbn; by rewrite Hw].
  assert (Hchosen : chosen argv = Some v) by (unfold chosen; rewrite Hv; cbn; by rewrite Hw).
  apply sat_bind. eapply sat_mono; [by apply command_run|]. intros ok g [Hl Hok].
  quiet_step. cbv zeta. apply sat_bind.
  assert (Hend : forall b : bool, (b = true -> ok = true) -> main_end (if b then 0 else 1) g).
  { intros [|] Hb; split; auto. left. split; [done|]. exists v. auto. }
  destruct (ok && (v0 =? 0)) eqn:Hb.
  - apply sat_ret, sat_ret, (Hend true). intros _. by apply andb_true_iff in Hb as [-> _].
  - apply sat_perform; [done|]. intros r _ _. by apply sat_ret, (Hend false).
Qed.
End Main.

(** ** Theorems *)

(** The key, signature and hash sizes Monocypher documents. *)
Definition crypto_sizes (key_pair : list Z -> list Z * list Z) (sign : list Z -> list Z -> list Z) : Prop :=
  (forall seed, length (fst (key_pair seed)) = 64%nat /\ length (snd (key_pair seed)) = 32%nat) /\
  (forall secret m, length (sign secret m) = 64%nat).

Section Theorems.
Context (MODE : Z) (apple : bool) (fuel : nat).
Context (crypto_blake2b : nat -> list Z -> list Z)
        (crypto_ed25519_key_pair : list Z -> list Z * list Z)
        (crypto_ed25519_sign : list Z -> list Z -> list Z)
        (crypto_ed25519_check : list Z -> list Z -> list Z -> Z).
Context (sizes : crypto_sizes crypto_ed25519_key_pair crypto_ed25519_sign).
Context (argv : list (list Z)).

#[local] Abbreviation operator := (main MODE apple fuel crypto_blake2b crypto_ed25519_key_pair
  crypto_ed25519_sign crypto_ed25519_check argv).

(** Every run, with the calls it makes and the way it may end. *)
Lemma operator_runs t o :
  run view_start operator t o ->
  (forall t1 c, called t o t1 c -> permits (authority_main MODE crypto_blake2b argv) (seen t1) c) /\
  match o with
  | Returned code => main_end MODE crypto_blake2b crypto_ed25519_key_pair crypto_ed25519_sign
                       crypto_ed25519_check argv code (seen t)
  | _ => True
  end.
Proof.
  intros Hrun. destruct sizes as [Hk Hs].
  destruct (sat_run _ None _ _ _ _ Hrun
    (main_run MODE apple fuel crypto_blake2b crypto_ed25519_key_pair crypto_ed25519_sign
       crypto_ed25519_check Hk Hs argv None I (fun _ _ _ => I)) I) as [Hc Ho].
  split; [exact Hc|]. by destruct o.
Qed.

(** Every run, with what was checked before each call. *)
Lemma operator_vetted t o :
  run view_start operator t o ->
  (forall t1 c, called t o t1 c -> cleared apple (vetted t1) c) /\
  match o with Returned _ => unscanned (vetted t) | _ => True end.
Proof.
  intros Hrun. by apply (guarded_run _ _ _ _ _ _ Hrun trust_start eq_refl (main_guarded _ _ _ _ _ _ _ _)).
Qed.

(** A run of [sign] that succeeds, and one of [launch] that reaches [execv]. *)
Lemma sign_leaves t :
  run view_start operator t (Returned 0) -> chosen argv = Some SIGN ->
  exists c l seed, command_parse (drop 4 argv) = Some c /\ valid c = true /\ command_u64 c /\ launch_ok MODE l /\
    argv !!! 8%nat = approval MODE crypto_blake2b l c /\
    crypto_ed25519_check (signature crypto_ed25519_key_pair crypto_ed25519_sign l c seed)
      (public_key (identity l)) (message l c) = 0 /\
    past (seen t) = launch_files MODE (id_dir argv) (session_dir argv) l ++
      [key_file MODE (id_dir argv) (realm (identity l)) seed false;
       request_file (session_dir argv) (c_sequence c)
         (message l c ++ signature crypto_ed25519_key_pair crypto_ed25519_sign l c seed)].
Proof.
  intros Hrun Hv. pose proof (proj2 (operator_runs _ _ Hrun)) as (_ & [(_ & v & Hv' & He)|[?|[? _]]]); [|done..].
  rewrite Hv in Hv'. injection Hv' as <-. destruct He as (c & l & Hc & Hl & Ha & files & Hs & _ & Hp & _).
  destruct Hs as (seed & _ & _ & Hck & ->). exists c, l, seed.
  assert (Hargs : (4 <= length (drop 4 argv))%nat).
  { unfold chosen in Hv. destruct (verb_of _) as [v|]; [|done]. cbn in Hv.
    destruct (well_formed v argv) eqn:Hw; [|done]. injection Hv as ->.
    rewrite length_drop. apply Nat.eqb_eq in Hw. lia. }
  pose proof (proj1 (command_parse_exact _ _ Hargs) Hc) as (Hval & Hu & _). by split_and!.
Qed.

Lemma exec_reserved t o t1 program args :
  run view_start operator t o -> called t o t1 (Execv program args) ->
  chosen argv = Some LAUNCH /\ program = argv !!! 5%nat /\ args = arguments program /\
  exists fd, reserved MODE (id_dir argv) (session_dir argv) (image_path argv) fd view_start (seen t1).
Proof.
  intros Hrun Hcall. pose proof (proj1 (operator_runs t o Hrun) t1 _ Hcall) as Hp.
  unfold permits, authority_main in Hp. destruct (chosen argv) as [[]|]; cbn in Hp; try done.
  destruct Hp as (-> & -> & Hr). by split_and!.
Qed.

(** C12. The operator's tool stays within its command: whatever its arguments
    and however the host answers, at any point of any run, every directory it
    makes and every file it opens, creates or writes is one its command names:
    files are created exclusively for their owner alone and only such files are
    written, nothing is truncated or replaced, and each command reads and
    creates only its own files. *)
Theorem operator_confined t o t1 c :
  run view_start operator t o -> called t o t1 c ->
  permits (authority_main MODE crypto_blake2b argv) (seen t1) c.
Proof. intros Hrun. by apply operator_runs. Qed.

(** C5. The private key is opened only to sign what was approved: in any run,
    with any arguments, a file with the path of the private record is opened
    for reading only by [sign], after the public identity and the launch context were read
    and when the approval on the command line is the digest of exactly the
    command, launch and identity now read; or by [launch], when the user named
    it as the guest image. *)
Theorem private_key_after_approval t o t1 c p :
  run view_start operator t o -> called t o t1 c ->
  p = id_dir argv ++ [codes "identity.key"] ->
  (exists dir name flags mode, c = Openat dir name flags mode /\ reads flags = true /\ path_at (seen t1) dir name = p) \/
  (exists name flags, c = Open name flags /\ reads flags = true /\ tokens name = p) ->
  (chosen argv = Some SIGN /\ approved MODE crypto_blake2b argv (seen t1)) \/
  (chosen argv = Some LAUNCH /\ image_path argv = p).
Proof.
  intros Hrun Hcall -> Hc. pose proof (proj1 (operator_runs t o Hrun) t1 c Hcall) as Hp.
  assert (Hread : may_read (authority_main MODE crypto_blake2b argv) (seen t1)
                    (id_dir argv ++ [codes "identity.key"])).
  { destruct Hc as [(dir & name & flags & mode & -> & Hf & <-)|(name & flags & -> & Hf & <-)];
      destruct (reads_only flags Hf) as [Hw Hn]; cbn [permits] in Hp; rewrite Hw, ?Hn in Hp.
    - by destruct Hp as [?|[[_ ?]|[? _]]].
    - by destruct Hp as [[? _]|[_ ?]]. }
  assert (Hother : forall d n, n <> codes "identity.key" -> id_dir argv ++ [codes "identity.key"] <> d ++ [n]).
  { intros d n Hn Heq. apply app_inj_tail in Heq as [_ Heq]. by apply Hn. }
  unfold authority_main in Hread. destruct (chosen argv) as [[]|]; cbn in Hread; try done.
  - by apply Hother in Hread.
  - by apply Hother in Hread.
  - destruct Hread as [H|H]; by apply Hother in H.
  - destruct Hread as [H|[H|[_ H]]]; [by apply Hother in H..|by left].
  - destruct Hread as [H|[H|H]]; [by apply Hother in H..|by right].
Qed.

(** C8. A guest is started at most from a reserved session: in any run, the
    tool replaces itself only by the named emulator with the fixed arguments,
    after reading an identity and a launch context that agree, after exclusively
    creating, writing and syncing [launch.used] with exactly that context, and
    after copying the image to a new [launch.img]; so a session is consumed
    before its guest exists, whatever fails afterwards. *)
Theorem exec_after_reservation t o t1 program args :
  run view_start operator t o -> called t o t1 (Execv program args) ->
  chosen argv = Some LAUNCH /\ program = argv !!! 5%nat /\ args = arguments program /\
  exists l image rest fd, launch_ok MODE l /\
    past (seen t1) = launch_files MODE (id_dir argv) (session_dir argv) l ++
      [used_file MODE (session_dir argv) l; file_named (session_dir argv) "launch.img" true image] ++ rest /\
    traced (seen t1) fd (held (image_path argv) false image false).
Proof.
  intros Hrun Hcall. destruct (exec_reserved _ _ _ _ _ Hrun Hcall) as (Hv & -> & -> & fd & Hr).
  destruct Hr as (l & image & rest & Hl & Hpast & Ht). split_and!; try done. by exists l, image, rest, fd.
Qed.

(** C15. What success means: a process that returns has closed every descriptor
    and every directory stream it opened, its code is 0, 1 or 2, 2 only for a
    malformed command line and with nothing done, and 0 only when its command is
    done in full: a new identity's two records, a new launch context, what [show]
    and [review] print, or a signed request, each file complete, synced and of
    the documented layout, and no other file touched. *)
Theorem success_means_done t code :
  run view_start operator t (Returned code) ->
  live (seen t) = ∅ /\ t_streams (vetted t) = ∅ /\
  ((code = 0 /\ exists v, chosen argv = Some v /\
      effect MODE crypto_blake2b crypto_ed25519_key_pair crypto_ed25519_sign crypto_ed25519_check argv v (seen t)) \/
   code = 1 \/ (code = 2 /\ chosen argv = None /\ seen t = view_start)).
Proof.
  intros Hrun. destruct (operator_runs _ _ Hrun) as [_ [Hl He]].
  split; [exact Hl|]. split; [exact (proj2 (operator_vetted _ _ Hrun))|exact He].
Qed.

(** C25. The tool ends: with fuel beyond the bytes of its files and the [k]
    interruptions and directory entries it meets (and, to launch, beyond the 64
    MiB an image may have), no run is cut short by the model's fuel; a process
    that the host does not stop returns. *)
Theorem operator_ends t o k :
  (192 + k < fuel)%nat -> (chosen argv = Some LAUNCH -> MAX_IMAGE + Z.of_nat k < Z.of_nat fuel) ->
  run view_start operator t o -> (delays (seen t) <= k)%nat -> o <> Exhausted.
Proof.
  intros Hfuel Himage Hrun Hk ->. destruct sizes as [Hkey Hs].
  refine (proj2 (sat_run _ (Some k) _ _ _ _ Hrun
    (main_run MODE apple fuel crypto_blake2b crypto_ed25519_key_pair crypto_ed25519_sign
       crypto_ed25519_check Hkey Hs argv (Some k) Hfuel _) Hk)).
  intros Hl size Hsize. specialize (Himage Hl). cbn. lia.
Qed.

(** C21. From the operator's hand to the guest's administrator: if [sign]
    succeeds, the one file it created, [request-SEQUENCE.bin] in the session,
    holds a packet that every administrator of that realm, boot and key admits
    as exactly the command on the command line, when it is its turn; and the
    approval given was the one for that command, launch and identity. *)
Theorem signed_request_admitted t :
  run view_start operator t (Returned 0) -> chosen argv = Some SIGN ->
  exists c l packet, command_parse (drop 4 argv) = Some c /\
    argv !!! 8%nat = approval MODE crypto_blake2b l c /\
    filter (fun f => f_new f = true) (past (seen t)) = [request_file (session_dir argv) (c_sequence c) packet] /\
    (forall a, a_public_key a = public_key (identity l) -> a_realm a = realm (identity l) -> a_boot a = boot l ->
     a_initialized a = true -> a_pending_sequence a = 0 -> a_exhausted a = false ->
     a_next_sequence a = c_sequence c ->
     tcs_admin_admit crypto_ed25519_check (Some a) (Some packet) 192 (Some command_zero) =
       (TCS_ADMIN_ACCEPTED, Some (consume a (c_sequence c)), Some c)).
Proof.
  intros Hrun Hv. destruct (sign_leaves t Hrun Hv) as (c & l & seed & Hc & Hval & Hu & Hl & Ha & Hck & Hp).
  exists c, l. eexists. split; [exact Hc|]. split; [exact Ha|]. split; [rewrite Hp; reflexivity|].
  intros a Hpk Hr Hb Hi Hpe Hex Hn. destruct Hl as ([Hlr Hlk] & Hlb & Hlv & Hln).
  unfold message in *. rewrite <- Hr, <- Hb. apply admits_signed; try done; [| |].
  - split_and!; [by rewrite Hr|by rewrite Hb|rewrite Hr; by eapply nonzero_valid|by rewrite Hb].
  - apply sizes.
  - by rewrite Hpk, Hr, Hb.
Qed.

(** C26. A created identity can be used: the two files a successful [create]
    leaves are an identity [show], [review] and [launch] read back, and the
    private record [sign] needs for it; the key is the one of the stored seed,
    and of no other realm. *)
Theorem created_identity_roundtrip t :
  run view_start operator t (Returned 0) -> chosen argv = Some CREATE ->
  exists seed id key public,
    past (seen t) = [file_named (id_dir argv) "identity.key" true key;
                     file_named (id_dir argv) "identity.pub" true public] /\
    tcs_public_decode (Some public) 80 MODE (Some identity_zero) = (true, Some id) /\
    key_of MODE crypto_ed25519_key_pair key id = (true, fst (crypto_ed25519_key_pair seed)) /\
    (forall id', identity_ok id' -> realm id' <> realm id ->
       fst (key_of MODE crypto_ed25519_key_pair key id') = false).
Proof.
  intros Hrun Hv. pose proof (proj2 (operator_runs _ _ Hrun)) as (_ & [(_ & v & Hv' & He)|[?|[? _]]]); [|done..].
  rewrite Hv in Hv'. injection Hv' as <-. destruct He as (rl & seed & Hr & Hs & Hval & _ & Hp & _).
  set (id := {| realm := rl; public_key := snd (crypto_ed25519_key_pair seed) |}) in *.
  assert (Hid : identity_ok id) by (split; [done|apply sizes]).
  exists seed, id. eexists _, _. split; [exact Hp|].
  assert (Hread : forall id', identity_ok id' -> key_of MODE crypto_ed25519_key_pair (key_layout MODE rl seed) id' =
    if bool_decide (rl = realm id') && bool_decide (snd (crypto_ed25519_key_pair seed) = public_key id')
    then (true, fst (crypto_ed25519_key_pair seed)) else (false, buffer 64)).
  { intros id'. apply key_of_record; [done..|apply sizes]. }
  split_and!.
  - apply public_decode_iff; [|done]. unfold public_record.
    destruct Hid. rewrite !length_app, head_length by done. unfold TCS_PUBLIC_BYTES. lia.
  - rewrite Hread by done. by rewrite !bool_decide_true.
  - intros id' Hid' Hne. rewrite Hread by done. by rewrite bool_decide_false by (intros Heq; by apply Hne).
Qed.

(** C19. Nothing is used unchecked and no check is ignored. At every point of
    any run, however the host answers: a file is opened or created in a
    directory, or the process moves into it, only after that very descriptor was
    found to be a directory of the user with mode 0700, without access lists and
    without [.git]; a directory is walked into, or made, only in one found
    without [.git], and never by the name [.] or [..]; a file opened in a directory is
    read only after it was found regular, the user's, of mode 0600, with one
    link and without access lists, and one named on the command line only after
    it was found regular; only descriptors without access lists are written;
    and nothing is opened, made or drawn from the entropy source before real
    and effective ids agreed, core dumps were disabled, the standard
    descriptors were found open and the mask was set. When the tool returns 0
    and its user did not change meanwhile, every checked call, every open, sync
    and entropy request and the final flush was answered as it must be. *)
Theorem checked_before_use uid t o :
  run view_start operator t o ->
  (forall t1 c, called t o t1 c -> cleared apple (vetted t1) c) /\
  (o = Returned 0 -> (forall r, (Getuid, r) ∈ t -> returned r = uid) ->
   forall c r, (c, r) ∈ t -> good uid c r = true).
Proof.
  intros Hrun. split; [exact (proj1 (operator_vetted _ _ Hrun))|]. intros -> Hu c r Hin.
  assert (Hall : forallb (fun e => good uid (fst e) (snd e)) t = true).
  { eapply (refuses_run uid); [exact Hrun| |apply main_refuses|by intros Hne].
    apply forallb_forall. intros [c' r'] He%list_elem_of_In. destruct c'; cbn; try done.
    apply Z.eqb_eq. by apply Hu. }
  rewrite forallb_forall in Hall. exact (Hall (c, r) (proj1 (list_elem_of_In _ _) Hin)).
Qed.
End Theorems.

(** ** The theorems on one session *)

Lemma toy_sizes : crypto_sizes toy_key_pair toy_sign.
Proof.
  assert (Hpad : forall l, length (toy_pad 32 l) = 32%nat)
    by (intros l; unfold toy_pad; by rewrite length_map, length_seq).
  split; [|intros; apply length_replicate]. intros seed.
  assert (Hp : length (toy_public seed) = 32%nat) by (unfold toy_public; by rewrite length_map).
  split; [|exact Hp]. cbn [toy_key_pair fst]. by rewrite length_app, Hpad, Hp.
Qed.

(** The trace of [sign] up to the opening of the private record. *)
Definition before_key : list event := before (opens "identity.key") (trace_of signed_session).

Lemma key_called :
  called (trace_of signed_session) (Returned 0) before_key
    (Openat 26 (codes "identity.key") read_flags 0).
Proof. apply before_called. vm_compute. reflexivity. Qed.

Lemma exec_called :
  called (trace_of launched) (@Stopped Z (Execv (codes "/qemu") (arguments (codes "/qemu"))))
    (trace_of launched) (Execv (codes "/qemu") (arguments (codes "/qemu"))).
Proof. by right. Qed.

Lemma operator_confined_witness :
  permits (authority_main TCS_OPERATOR_MODE toy_hash launch_argv) (seen (trace_of launched))
    (Execv (codes "/qemu") (arguments (codes "/qemu"))).
Proof. eapply operator_confined; [exact toy_sizes|exact host_launched_run|exact exec_called]. Defined.

Lemma private_key_after_approval_witness :
  (chosen sign_argv = Some SIGN /\ approved TCS_OPERATOR_MODE toy_hash sign_argv (seen before_key)) \/
  (chosen sign_argv = Some LAUNCH /\ image_path sign_argv = [codes "home"; codes "id"; codes "identity.key"]).
Proof.
  eapply private_key_after_approval;
    [exact toy_sizes|exact host_signed_run|exact key_called|vm_compute; reflexivity|].
  left. exists 26, (codes "identity.key"), read_flags, 0.
  split; [reflexivity|]. split; vm_compute; reflexivity.
Defined.

Lemma exec_after_reservation_witness :
  chosen launch_argv = Some LAUNCH /\
  exists l image rest fd, launch_ok TCS_OPERATOR_MODE l /\
    past (seen (trace_of launched)) =
      launch_files TCS_OPERATOR_MODE (id_dir launch_argv) (session_dir launch_argv) l ++
      [used_file TCS_OPERATOR_MODE (session_dir launch_argv) l;
       file_named (session_dir launch_argv) "launch.img" true image] ++ rest /\
    traced (seen (trace_of launched)) fd (held (image_path launch_argv) false image false).
Proof.
  destruct (exec_after_reservation TCS_OPERATOR_MODE false host_fuel toy_hash toy_key_pair toy_sign toy_check
    toy_sizes launch_argv _ _ _ _ _ host_launched_run exec_called)
    as (Hv & _ & _ & Hl). split; [exact Hv|exact Hl].
Defined.

Lemma success_means_done_witness :
  live (seen (trace_of created)) = ∅ /\ t_streams (vetted (trace_of created)) = ∅ /\
  ((0 = 0 /\ exists v, chosen create_argv = Some v /\
      effect TCS_OPERATOR_MODE toy_hash toy_key_pair toy_sign toy_check create_argv v (seen (trace_of created))) \/
   0 = 1 \/ (0 = 2 /\ chosen create_argv = None /\ seen (trace_of created) = view_start)).
Proof. exact (success_means_done TCS_OPERATOR_MODE false host_fuel toy_hash toy_key_pair toy_sign toy_check
    toy_sizes create_argv _ _ host_created_run). Defined.

Lemma operator_ends_witness : Returned 0 <> @Exhausted Z.
Proof.
  apply (operator_ends TCS_OPERATOR_MODE false host_fuel toy_hash toy_key_pair toy_sign toy_check
    toy_sizes create_argv (trace_of created) (Returned 0) 40);
    [unfold host_fuel; lia|vm_compute; discriminate|exact host_created_run|].
  apply Nat.leb_le. vm_compute. reflexivity.
Defined.

Lemma signed_request_admitted_witness :
  exists c l packet, command_parse (drop 4 sign_argv) = Some c /\
    filter (fun f => f_new f = true) (past (seen (trace_of signed_session))) =
      [request_file (session_dir sign_argv) (c_sequence c) packet] /\
    tcs_admin_admit toy_check (Some (administrator_of l)) (Some packet) 192 (Some command_zero) =
      (TCS_ADMIN_ACCEPTED, Some (consume (administrator_of l) (c_sequence c)), Some c).
Proof.
  destruct (signed_request_admitted TCS_OPERATOR_MODE false host_fuel toy_hash toy_key_pair toy_sign toy_check
    toy_sizes sign_argv _ host_signed_run)
    as (c & l & packet & Hc & _ & Hf & Ha); [vm_compute; reflexivity|].
  exists c, l, packet. split; [exact Hc|]. split; [exact Hf|]. apply Ha; [reflexivity..|].
  assert (Hseq : c_sequence <$> command_parse (drop 4 sign_argv) = Some 1) by (vm_compute; reflexivity).
  rewrite Hc in Hseq. injection Hseq as ->. reflexivity.
Defined.

Lemma created_identity_roundtrip_witness :
  exists seed id key public,
    past (seen (trace_of created)) =
      [file_named (id_dir create_argv) "identity.key" true key;
       file_named (id_dir create_argv) "identity.pub" true public] /\
    tcs_public_decode (Some public) 80 TCS_OPERATOR_MODE (Some identity_zero) = (true, Some id) /\
    key_of TCS_OPERATOR_MODE toy_key_pair key id = (true, fst (toy_key_pair seed)) /\
    (forall id', identity_ok id' -> realm id' <> realm id -> fst (key_of TCS_OPERATOR_MODE toy_key_pair key id') = false).
Proof.
  apply (created_identity_roundtrip TCS_OPERATOR_MODE false host_fuel toy_hash toy_key_pair toy_sign toy_check
    toy_sizes create_argv _ host_created_run). vm_compute. reflexivity.
Defined.

(** Of the one user 1000, the private record is opened in a checked directory. *)
Lemma checked_before_use_witness :
  private false (vetted before_key) 26 /\
  exists r, (Openat 26 (codes "identity.key") read_flags 0, r) ∈ trace_of signed_session /\
    good 1000 (Openat 26 (codes "identity.key") read_flags 0) r = true.
Proof.
  destruct (checked_before_use TCS_OPERATOR_MODE false host_fuel toy_hash toy_key_pair toy_sign toy_check sign_argv 1000
    _ _ host_signed_run) as [Hcleared Hgood].
  split; [exact (proj1 (Hcleared _ _ key_called))|].
  destruct key_called as [(r & t2 & Ht)|[_ Hs]]; [|discriminate Hs]. exists r.
  assert (Hin : (Openat 26 (codes "identity.key") read_flags 0, r) ∈ trace_of signed_session).
  { rewrite Ht. apply list_elem_of_In, in_or_app. right. left. reflexivity. }
  split; [exact Hin|]. apply Hgood; [reflexivity| |exact Hin].
  assert (Hall : forallb (fun e => same_user 1000 (fst e) (snd e)) (trace_of signed_session) = true)
    by (vm_compute; reflexivity).
  intros r' Hr. rewrite forallb_forall in Hall. apply Z.eqb_eq.
  exact (Hall (Getuid, r') (proj1 (list_elem_of_In _ _) Hr)).
Defined.
