(* ===== verification/EndToEnd.v ===== *)
(** From the operator's host to the guest's policy: a command signed by [sign]
    of [tools/operator.c], submitted to the guest that [launch] started from the
    same session, is executed. It composes the tool ([OperatorMain]), the boot
    ([GuestBoot]) and the administrator's path ([AdminSystem]). *)

From S2P Require Import Prelude Bytes Policy Admin Receipt Terminal SignedInput Launch Boot.
From S2P Require Import Posix Operator OperatorArgs OperatorFiles OperatorRun OperatorHost OperatorMain.
From S2P Require Import Ipc Servers Authority AdminIpc AdminServers GuestBoot AdminSystem.
Import String.StringSyntax.
#[local] Open Scope string_scope.
#[local] Open Scope Z_scope.

(** ** Submitting a signed packet to a fresh guest *)

Section Submission.
Context (MODE : Z) (check : list Z -> list Z -> list Z -> Z).
Context (residue : message -> regs) (refused : message).

Lemma administrator_boot_ok l : launch_ok MODE l -> admin_ok (admin_boot (administrator_of l)).
Proof. intros Hl. by eapply admin_boot_ok, (admin_init_launch MODE). Qed.

(** A packet the administrator admits, as a message. *)
Lemma submitted_message packet :
  byte_list packet -> length packet = 192%nat ->
  submitted (submit_message packet) = Some packet /\ Forall u64 (m_words (submit_message packet)).
Proof.
  intros Hb Hlen. unfold submitted, submit_message. cbn [m_label m_words].
  rewrite (words_of_length packet 24) by done.
  rewrite Z.eqb_refl. cbn [andb Nat.eqb TCS_ADMIN_PACKET_WORDS]. rewrite (bytes_of_words_of 24) by done. by split; [|apply words_of_u64].
Qed.

Lemma fresh_guest_executes l c packet :
  launch_ok MODE l -> byte_list packet -> length packet = 192%nat ->
  tcs_admin_admit check (Some (administrator_of l)) (Some packet) 192 (Some command_zero) =
    (TCS_ADMIN_ACCEPTED, Some (consume (administrator_of l) (c_sequence c)), Some c) ->
  let '(s, reply) := terminal_call check residue refused (admin_boot (administrator_of l)) 2 (submit_message packet) in
  reply = receipt_message (snd (admin_execute policy_zero c true)) /\
  policy_live (apolicy_state s) = fst (admin_execute policy_zero c true) /\
  audit_log (aaudit_state s) = [decision_record (c_request c) TCS_ADMIN (snd (admin_decision policy_zero c))].
Proof.
  intros Hl Hb Hlen Hadm. destruct (submitted_message packet Hb Hlen) as [Hsub Hw].
  destruct (terminal_refines check residue refused _ 2 _ (administrator_boot_ok l Hl) Hw ltac:(lia))
    as (s & reply & -> & _ & Hc).
  change (admin_contract check (administrator_of l) (policy_zero, []) (submit_message packet) =
    (abs_administered s, reply)) in Hc.
  unfold admin_contract, admission, TCS_ADMIN_PACKET_BYTES in Hc. rewrite Hsub, Hadm in Hc.
  unfold execute_and_record in Hc. change (has_room []) with true in Hc.
  destruct (admin_execute policy_zero c true) as [p receipt]. injection Hc as _ Hp Hlog Hr. by split_and!.
Qed.
End Submission.

(** ** From the host to the policy *)

Section Path.
Context (MODE : Z) (apple : bool) (fuel : nat).
Context (crypto_blake2b : nat -> list Z -> list Z)
        (crypto_ed25519_key_pair : list Z -> list Z * list Z)
        (crypto_ed25519_sign : list Z -> list Z -> list Z)
        (crypto_ed25519_check : list Z -> list Z -> list Z -> Z).
Context (sizes : crypto_sizes crypto_ed25519_key_pair crypto_ed25519_sign)
        (signature_bytes : forall secret m, byte_list (crypto_ed25519_sign secret m)).
Context (residue : message -> regs) (refused : message).
Context {D : Type} (write_selector : D -> Z -> D) (read_data : D -> D * Z).
Context (at_ : Z -> nat -> D) (content : Z -> nat -> Z).
Context {Hdev : fwcfg_device (select_item write_selector) (read_byte read_data) at_ content}.

#[local] Abbreviation operator argv := (main MODE apple fuel crypto_blake2b crypto_ed25519_key_pair
  crypto_ed25519_sign crypto_ed25519_check argv).

(** The launch context a process has read from the session of its command, and
    the one [launch] has written there for QEMU. *)
Definition read_context (argv : list (list Z)) (t : list event) (bytes : list Z) : Prop :=
  file_named (session_dir argv) "launch.context" false bytes ∈ past (seen t).
Definition passed_context (argv : list (list Z)) (t : list event) (bytes : list Z) : Prop :=
  file_named (session_dir argv) "launch.used" true bytes ∈ past (seen t).

Lemma launch_record_inj l l' :
  launch_ok MODE l -> launch_ok MODE l' -> launch_record l MODE = launch_record l' MODE -> l = l'.
Proof.
  intros Hl Hl' Heq. pose proof (launch_decode_record MODE l Hl) as H.
  rewrite Heq, (launch_decode_record MODE l' Hl') in H. congruence.
Qed.

Lemma message_of_bytes rl bt c : byte_list rl -> byte_list bt -> byte_list (message_of rl bt c).
Proof.
  intros Hr Hb. unfold message_of, byte_list. repeat apply Forall_app_2; try apply le_bytes_are_bytes; try done.
  unfold domain. repeat constructor; word_lia.
Qed.

(** C2. A signed command takes effect: if [sign] succeeded, [launch] started a
    guest from the same launch context, and QEMU passes the guest the
    [launch.used] it was given, then the first command's packet, in the file
    [sign] created, submitted to the booted guest, is executed: the answer is the
    receipt of exactly the command of the command line, the guest's policy is the
    zero policy after it, and the audit holds its decision. *)
Theorem signed_command_takes_effect argv_sign t_sign argv_launch t_launch o t program args registers d :
  run view_start (operator argv_sign) t_sign (Returned 0) -> chosen argv_sign = Some SIGN ->
  run view_start (operator argv_launch) t_launch o -> called t_launch o t (Execv program args) ->
  (forall b b', read_context argv_sign t_sign b -> read_context argv_launch t b' -> b = b') ->
  (forall b, passed_context argv_launch t b -> offers content TCS_LAUNCH_ITEM b) ->
  exists c packet, command_parse (drop 4 argv_sign) = Some c /\
    request_file (session_dir argv_sign) (c_sequence c) packet ∈ past (seen t_sign) /\
    (c_sequence c = 1 ->
     let guest := boot_administrator MODE residue refused write_selector read_data registers d in
     let '(s, reply) := terminal_call crypto_ed25519_check residue refused (admin_boot guest) 2 (submit_message packet) in
     reply = receipt_message (snd (admin_execute policy_zero c true)) /\
     policy_live (apolicy_state s) = fst (admin_execute policy_zero c true) /\
     audit_log (aaudit_state s) = [decision_record (c_request c) TCS_ADMIN (snd (admin_decision policy_zero c))]).
Proof.
  intros Hsign Hv Hlaunch Hcall Hsame Hpass.
  destruct (sign_leaves _ _ _ _ _ _ _ sizes _ _ Hsign Hv) as (c & l & seed & Hc & Hval & Hu & Hl & _ & Hck & Hp).
  destruct (exec_reserved _ _ _ _ _ _ _ sizes _ _ _ _ _ _ Hlaunch Hcall) as (_ & _ & _ & fd & l' & image & rest & Hl' & Hp' & _).
  assert (l' = l) as ->.
  { symmetry. apply launch_record_inj; [done..|]. apply Hsame.
    - unfold read_context. rewrite Hp. set_solver.
    - unfold read_context. rewrite Hp'. set_solver. }
  exists c, (OperatorRun.message l c ++ signature crypto_ed25519_key_pair crypto_ed25519_sign l c seed).
  split; [exact Hc|]. split; [rewrite Hp; set_solver|]. intros Hseq.
  assert (Hoff : offers content TCS_LAUNCH_ITEM (launch_record l MODE)).
  { apply Hpass. unfold passed_context. rewrite Hp'. set_solver. }
  intros guest. unfold guest. rewrite (guest_started MODE residue refused _ _ at_ content l registers d Hl Hoff).
  pose proof (offered_bytes _ _ at_ content (Hdev := Hdev) _ Hoff) as Hb. unfold launch_record in Hb.
  apply Forall_app in Hb as [_ [Hrb [Hbb _]%Forall_app]%Forall_app].
  pose proof Hl as ([Hlr Hlk] & Hlb & Hlv & Hln).
  assert (Hsig : length (signature crypto_ed25519_key_pair crypto_ed25519_sign l c seed) = 64%nat) by apply sizes.
  pose proof (message_of_length (realm (identity l)) (boot l) c Hlr Hlb) as Hml.
  apply (fresh_guest_executes MODE); [done| | |].
  - apply Forall_app_2; [by apply message_of_bytes|apply signature_bytes].
  - unfold OperatorRun.message. rewrite length_app, Hsig, Hml. done.
  - apply admits_signed; try done. split_and!; [done|done|by eapply nonzero_valid|done].
Qed.
End Path.

(** ** The session of the host in memory *)

Lemma toy_sign_bytes secret m : byte_list (toy_sign secret m).
Proof.
  unfold toy_sign, toy_hash. apply Forall_replicate. generalize (drop 32 secret ++ m). intros l.
  assert (H : forall a, u8 a -> u8 (foldl (fun a b => (31 * a + b) mod 256) a l)); [|apply H; word_lia].
  induction l as [|x l IH]; intros a Ha; [done|]. cbn [foldl]. apply IH.
  pose proof (Z.mod_pos_bound (31 * a + x) 256 ltac:(lia)). word_lia.
Qed.

(** Every file of a name among those a process is done with holds [bytes]. *)
Definition only_bytes (dir : path) (name : String.string) (new : bool) (bytes : list Z) (l : list file) : bool :=
  forallb (fun f => negb (bool_decide (f_path f = dir ++ [codes name]) && Bool.eqb (f_new f) new) ||
                    bool_decide (f_bytes f = bytes)) l.

Lemma only_bytes_spec dir name new bytes l b :
  only_bytes dir name new bytes l = true -> file_named dir name new b ∈ l -> b = bytes.
Proof.
  unfold only_bytes. rewrite forallb_forall. intros Hall Hin%list_elem_of_In. specialize (Hall _ Hin).
  cbn [file_named held f_path f_new f_bytes] in Hall. rewrite bool_decide_true, Bool.eqb_reflx in Hall by done.
  by apply bool_decide_eq_true in Hall.
Qed.

(** The context of the session, in the host's file system. *)
Definition session_context : list Z :=
  default [] (OperatorHost.content (host_after prepared) [codes "home"; codes "s1"; codes "launch.context"]).

Lemma signed_command_takes_effect_witness :
  exists c packet, command_parse (drop 4 sign_argv) = Some c /\
    request_file (session_dir sign_argv) 1 packet ∈ past (seen (trace_of signed_session)) /\
    let guest := boot_administrator TCS_OPERATOR_MODE (fun _ _ => 0) (reply_message (result TCS_DENIED 0))
      firmware_select (firmware_read session_context) (fun _ => 0) (0, 0%nat) in
    let '(s, reply) := terminal_call toy_check (fun _ _ => 0) (reply_message (result TCS_DENIED 0))
      (admin_boot guest) 2 (submit_message packet) in
    reply = receipt_message (snd (admin_execute policy_zero c true)) /\
    policy_live (apolicy_state s) = fst (admin_execute policy_zero c true) /\
    audit_log (aaudit_state s) = [decision_record (c_request c) TCS_ADMIN (snd (admin_decision policy_zero c))].
Proof.
  destruct (signed_command_takes_effect TCS_OPERATOR_MODE false host_fuel toy_hash toy_key_pair toy_sign toy_check
    toy_sizes toy_sign_bytes (fun _ _ => 0) (reply_message (result TCS_DENIED 0)) firmware_select
    (firmware_read session_context) _ _ (Hdev := firmware_device session_context)
    sign_argv (trace_of signed_session) launch_argv (trace_of launched) _ _ _ _ (fun _ => 0) (0, 0%nat)
    host_signed_run ltac:(vm_compute; reflexivity) host_launched_run exec_called) as (c & packet & Hc & Hf & H).
  - intros b b' Hb Hb'. transitivity session_context; [|symmetry].
    + eapply only_bytes_spec; [|exact Hb]. vm_compute. reflexivity.
    + eapply only_bytes_spec; [|exact Hb']. vm_compute. reflexivity.
  - intros b Hb. assert (b = session_context) as ->.
    { eapply only_bytes_spec; [|exact Hb]. vm_compute. reflexivity. }
    apply offers_checked. vm_compute. reflexivity.
  - assert (Hseq : c_sequence <$> command_parse (drop 4 sign_argv) = Some 1) by (vm_compute; reflexivity).
    rewrite Hc in Hseq. injection Hseq as Hseq. rewrite Hseq in Hf.
    exists c, packet. split; [exact Hc|]. split; [exact Hf|]. exact (H Hseq).
Defined.
